(** * mod_vlimit: the shared counter tables and the admission decision

    A shallow embedding of [mod_vlimit.c].  The slot tables of one
    configuration instance ([shm_base + cfg->conf_id]) are a pair of lists,
    the global mutex is a flag of the world, the diagnostics calls are
    events written by each routine, and the two things C leaves undefined
    on this code (indexing a table at -1, [strcpy] past the end of a key
    field) are explicit faults. *)

From Stdlib Require Import ZArith String Ascii List Lia Bool DecimalString Sorted.
From stdpp Require Import base list strings.
Import ListNotations.

Local Open Scope string_scope.
Local Open Scope list_scope.
Local Open Scope Z_scope.

(** ** Constants of the module and of the headers it includes *)

Definition IP_MAX : Z := 15.
Definition MAX_FILENAME : Z := 256.
Definition MAX_CLIENTS : Z := 512.
Definition MAXSYMLINKS : Z := 256.

(** [<limits.h>] on Linux. *)
Definition PATH_MAX : Z := 4096.

(** [httpd.h] and [apr_errno.h]. *)
Definition OK : Z := 0.
Definition DECLINED : Z := -1.
Definition HTTP_SERVICE_UNAVAILABLE : Z := 503.
Definition APR_SUCCESS : Z := 0.

(** [<errno.h>] on Linux. *)
Definition EINVAL : Z := 22.
Definition ENAMETOOLONG : Z := 36.
Definition ELOOP : Z := 40.

(** [int] is 32 bits wide; [counter++] and [counter--] wrap. *)
Definition INT_MAX : Z := 2147483647.
Definition INT_MIN : Z := -2147483648.
Definition int_wrap (z : Z) : Z := (z + 2 ^ 31) mod 2 ^ 32 - 2 ^ 31.

(** ** Data model *)

Record vlimit_config := {
  type : Z;
  ip_limit : Z;
  file_limit : Z;
  conf_id : Z;
  full_path : option string     (* NULL when the directive gave no path *)
}.

Module ip_data.
Record ip_stat := { address : string; counter : Z }.
End ip_data.

Module file_data.
Record file_stat := { filename : string; counter : Z }.
End file_data.

Record SHM_DATA := {
  file_stat_shm : list file_data.file_stat;    (* MAX_CLIENTS entries *)
  ip_stat_shm : list ip_data.ip_stat           (* MAX_CLIENTS entries *)
}.

(** The part of [request_rec] the module reads. *)
Record request_rec := {
  headers_in_HOST : option string;    (* apr_table_get(r->headers_in, "HOST") *)
  remote_ip : string;                 (* r->connection->remote_ip *)
  filename : string;                  (* r->filename *)
  server_hostname : string;           (* r->server->server_hostname *)
  names : option (list string);       (* r->server->names, NULL or the aliases *)
  is_initial_req : bool               (* ap_is_initial_req(r) *)
}.

(** What the operating system answers during one call of a hook. *)
Inductive readlink_result :=
| Link (target : string)       (* n >= 0, link_path holds the target *)
| NoLink (errno : Z).          (* n < 0 *)

Record env := {
  debug_flag : bool;           (* access(VLIMIT_DEBUG_FLAG_FILE, F_OK) == 0 *)
  log_flag : bool;             (* access(VLIMIT_LOG_FLAG_FILE, F_OK) == 0 *)
  ip_stat_flag : bool;         (* access(VLIMIT_IP_STAT_FLAG_FILE, F_OK) == 0 *)
  ip_stat_file : bool;         (* access(VLIMIT_IP_STAT_FILE, F_OK) == 0 *)
  file_stat_flag : bool;       (* access(VLIMIT_FILE_STAT_FLAG_FILE, F_OK) == 0 *)
  file_stat_file : bool;       (* access(VLIMIT_FILE_STAT_FILE, F_OK) == 0 *)
  stat_open : Z;               (* apr_file_open of a slot list *)
  stat_close : Z;              (* apr_file_close of a slot list *)
  lock_status : Z;             (* apr_global_mutex_lock(vlimit_mutex) *)
  unlock_status : Z;           (* apr_global_mutex_unlock(vlimit_mutex) *)
  fs_access : string -> bool;  (* access(path, F_OK) == 0 *)
  fs_readlink : string -> readlink_result;
  fs_getcwd : option string    (* getcwd: NULL, or the working directory; it
                                  is absolute, the field holds what follows
                                  its first slash *)
}.

(** The mutable state: the table pair of the configuration instance and
    whether this process holds [vlimit_mutex]. *)
Record world := {
  shm_data : SHM_DATA;
  mutex_held : bool
}.

Inductive arg :=
| AStr (s : string)
| AInt (z : Z)
| ANull.

Inductive event :=
| Syslog (key : string) (msg : string) (args : list arg)
| LogLine (msg : string) (ip_count ip_lim file_count file_lim : Z)
| IpSlotList (rows : list (Z * string * Z))
| FileSlotList (rows : list (Z * string * Z))
| MutexLock (status : Z)
| MutexUnlock (status : Z).

Inductive fault :=
| OutOfBounds        (* a table indexed outside 0 .. MAX_CLIENTS-1 *)
| BufferOverflow.    (* strcpy wrote past the destination array *)

Inductive outcome (A : Type) : Type :=
| Done (a : A) (w : world) (out : list event)
| Fault (f : fault).
Arguments Done {A} a w out.
Arguments Fault {A} f.

Definition M (A : Type) : Type := world -> outcome A.

Definition ret {A} (a : A) : M A := fun w => Done a w [].

Definition bind {A B} (m : M A) (k : A -> M B) : M B :=
  fun w =>
    match m w with
    | Done a w1 o1 =>
        match k a w1 with
        | Done b w2 o2 => Done b w2 (o1 ++ o2)
        | Fault f => Fault f
        end
    | Fault f => Fault f
    end.

Declare Scope vlimit_scope.
Delimit Scope vlimit_scope with vlimit.
Notation "x <- m ;; k" := (bind m (fun x => k))
  (at level 100, m at next level, right associativity) : vlimit_scope.
Notation "m ;;; k" := (bind m (fun _ => k))
  (at level 100, right associativity) : vlimit_scope.
Local Open Scope vlimit_scope.

Definition emit (ev : event) : M unit := fun w => Done tt w [ev].
Definition get_stat : M SHM_DATA := fun w => Done (shm_data w) w [].
Definition put_stat (t : SHM_DATA) : M unit :=
  fun w => Done tt {| shm_data := t; mutex_held := mutex_held w |} [].
Definition set_mutex (b : bool) : M unit :=
  fun w => Done tt {| shm_data := shm_data w; mutex_held := b |} [].
Definition raise {A} (f : fault) : M A := fun _ => Fault f.

(** ** Strings and arrays as C has them *)

(** [arr[id]]: defined only inside the array. *)
Definition slot_at {A} (arr : list A) (id : Z) : option A :=
  if id <? 0 then None else arr !! Z.to_nat id.

(** [for (i = 0; i < MAX_CLIENTS; i++) if (hit i) return i; return -1;] *)
Fixpoint for_slots (n : nat) (i : Z) (hit : Z -> bool) : Z :=
  match n with
  | O => -1
  | S n' => if hit i then i else for_slots n' (i + 1) hit
  end.

(** [strcpy(dst, src)] into a [char dst[cap]]: all of [src] and its NUL are
    copied, whatever [cap] is. *)
Definition strcpy (cap : Z) (src : string) : option string :=
  if Z.of_nat (String.length src) + 1 <=? cap then Some src else None.

(** [s[0] == '\0'] *)
Definition is_empty_str (s : string) : bool :=
  match s with
  | EmptyString => true
  | String _ _ => false
  end.

(** [basename] of [<libgen.h>]: the last component of the path, trailing
    slashes aside; "." for the empty path and "/" for a path of slashes. *)
Fixpoint drop_slashes (l : list ascii) : list ascii :=
  match l with
  | "/"%char :: l' => drop_slashes l'
  | _ => l
  end.

Fixpoint upto_slash (l : list ascii) : list ascii :=
  match l with
  | [] => []
  | c :: l' => if Ascii.eqb c "/" then [] else c :: upto_slash l'
  end.

Definition basename (path : string) : string :=
  match path with
  | EmptyString => "."
  | _ =>
      match drop_slashes (rev (list_ascii_of_string path)) with
      | [] => "/"
      | p => string_of_list_ascii (rev (upto_slash p))
      end
  end.

(** [strtok(s, delim)], first call: skip the leading delimiters, then the
    token runs to the next delimiter or to the end; NULL when nothing is
    left after the delimiters. *)
Fixpoint skip_delims (d : ascii) (s : string) : string :=
  match s with
  | EmptyString => EmptyString
  | String c s' => if Ascii.eqb c d then skip_delims d s' else s
  end.

Fixpoint token (d : ascii) (s : string) : string :=
  match s with
  | EmptyString => EmptyString
  | String c s' => if Ascii.eqb c d then EmptyString else String c (token d s')
  end.

Definition strtok (s : string) (d : ascii) : option string :=
  match skip_delims d s with
  | EmptyString => None
  | s' => Some (token d s')
  end.

(** ** The slot tables *)

(** *** file stat data *)

Definition get_file_slot_id (limit_stat : SHM_DATA) (r : request_rec) : Z :=
  for_slots (Z.to_nat MAX_CLIENTS) 0 (fun i =>
    match slot_at (file_stat_shm limit_stat) i with
    | Some s => String.eqb (file_data.filename s) (basename (filename r))
    | None => false
    end).

Definition get_file_empty_slot_id (limit_stat : SHM_DATA) (r : request_rec) : Z :=
  for_slots (Z.to_nat MAX_CLIENTS) 0 (fun i =>
    match slot_at (file_stat_shm limit_stat) i with
    | Some s => is_empty_str (file_data.filename s)
    | None => false
    end).

Definition get_file_counter (limit_stat : SHM_DATA) (r : request_rec) : Z :=
  let id := get_file_slot_id limit_stat r in
  let id := if id =? -1 then get_file_empty_slot_id limit_stat r else id in
  if id >=? 0 then
    match slot_at (file_stat_shm limit_stat) id with
    | Some s => file_data.counter s
    | None => -1      (* not reached: a scan returns an index of the table *)
    end
  else -1.            (* slot full *)

(** [limit_stat->file_stat_shm[id]] read and written in place. *)
Definition load_file (id : Z) : M file_data.file_stat :=
  t <- get_stat ;;
  match slot_at (file_stat_shm t) id with
  | Some s => ret s
  | None => raise OutOfBounds
  end.

Definition store_file (id : Z) (s : file_data.file_stat) : M unit :=
  t <- get_stat ;;
  match slot_at (file_stat_shm t) id with
  | Some _ =>
      put_stat {| file_stat_shm := <[Z.to_nat id := s]> (file_stat_shm t);
                  ip_stat_shm := ip_stat_shm t |}
  | None => raise OutOfBounds
  end.

(** [strcpy(limit_stat->file_stat_shm[id].filename, src)] *)
Definition strcpy_filename (id : Z) (src : string) : M unit :=
  s <- load_file id ;;
  match strcpy MAX_FILENAME src with
  | Some k =>
      store_file id {| file_data.filename := k;
                       file_data.counter := file_data.counter s |}
  | None => raise BufferOverflow
  end.

(** *** ip stat data *)

Definition get_ip_slot_id (limit_stat : SHM_DATA) (r : request_rec) : Z :=
  for_slots (Z.to_nat MAX_CLIENTS) 0 (fun i =>
    match slot_at (ip_stat_shm limit_stat) i with
    | Some s => String.eqb (ip_data.address s) (remote_ip r)
    | None => false
    end).

Definition get_ip_empty_slot_id (limit_stat : SHM_DATA) (r : request_rec) : Z :=
  for_slots (Z.to_nat MAX_CLIENTS) 0 (fun i =>
    match slot_at (ip_stat_shm limit_stat) i with
    | Some s => is_empty_str (ip_data.address s)
    | None => false
    end).

Definition get_ip_counter (limit_stat : SHM_DATA) (r : request_rec) : Z :=
  let id := get_ip_slot_id limit_stat r in
  let id := if id =? -1 then get_ip_empty_slot_id limit_stat r else id in
  if id >=? 0 then
    match slot_at (ip_stat_shm limit_stat) id with
    | Some s => ip_data.counter s
    | None => -1      (* not reached: a scan returns an index of the table *)
    end
  else -1.            (* slot full *)

Definition load_ip (id : Z) : M ip_data.ip_stat :=
  t <- get_stat ;;
  match slot_at (ip_stat_shm t) id with
  | Some s => ret s
  | None => raise OutOfBounds
  end.

Definition store_ip (id : Z) (s : ip_data.ip_stat) : M unit :=
  t <- get_stat ;;
  match slot_at (ip_stat_shm t) id with
  | Some _ =>
      put_stat {| file_stat_shm := file_stat_shm t;
                  ip_stat_shm := <[Z.to_nat id := s]> (ip_stat_shm t) |}
  | None => raise OutOfBounds
  end.

(** [strcpy(limit_stat->ip_stat_shm[id].address, src)] *)
Definition strcpy_address (id : Z) (src : string) : M unit :=
  s <- load_ip id ;;
  match strcpy IP_MAX src with
  | Some k =>
      store_ip id {| ip_data.address := k;
                     ip_data.counter := ip_data.counter s |}
  | None => raise BufferOverflow
  end.

(** The rows a slot list prints: every slot whose counter is positive. *)
Fixpoint file_rows (i : Z) (l : list file_data.file_stat) : list (Z * string * Z) :=
  match l with
  | [] => []
  | s :: l' =>
      if MAX_CLIENTS <=? i then []
      else if file_data.counter s >? 0
           then (i, file_data.filename s, file_data.counter s) :: file_rows (i + 1) l'
           else file_rows (i + 1) l'
  end.

Fixpoint ip_rows (i : Z) (l : list ip_data.ip_stat) : list (Z * string * Z) :=
  match l with
  | [] => []
  | s :: l' =>
      if MAX_CLIENTS <=? i then []
      else if ip_data.counter s >? 0
           then (i, ip_data.address s, ip_data.counter s) :: ip_rows (i + 1) l'
           else ip_rows (i + 1) l'
  end.

(** [%s] of a [char *] that may be NULL. *)
Definition AStrOpt (o : option string) : arg :=
  match o with
  | Some s => AStr s
  | None => ANull
  end.

Section Hooks.

Variable e : env.

(** *** Diagnostics *)

(** [VLIMIT_DEBUG_SYSLOG(key, msg, p)]; [args] are the arguments of the
    [apr_psprintf] that built [msg], none for a literal message. *)
Definition VLIMIT_DEBUG_SYSLOG (key msg : string) (args : list arg) : M Z :=
  if debug_flag e then
    emit (Syslog key msg args) ;;;
    ret 0
  else ret (-1).

Definition inc_file_counter (r : request_rec) : M Z :=
  limit_stat <- get_stat ;;
  let id := get_file_slot_id limit_stat r in
  id <- (if id =? -1 then
           let id := get_file_empty_slot_id limit_stat r in
           (if negb (id =? -1) then strcpy_filename id (basename (filename r))
            else ret tt) ;;;
           ret id
         else ret id) ;;
  if id >=? 0 then
    (* the while (1) re-reads the counter it has just read: one pass *)
    s <- load_file id ;;
    let old := file_data.counter s in
    let new := int_wrap (old + 1) in
    store_file id {| file_data.filename := file_data.filename s;
                     file_data.counter := new |} ;;;
    ret 0
  else
    (* slot full *)
    ret (-1).

Definition dec_file_counter (r : request_rec) : M Z :=
  limit_stat <- get_stat ;;
  let id := get_file_slot_id limit_stat r in
  if id >=? 0 then
    s <- load_file id ;;
    let old := file_data.counter s in
    let new := int_wrap (old - 1) in
    store_file id {| file_data.filename := file_data.filename s;
                     file_data.counter := new |} ;;;
    ret 0
  else
    (* unexpected error *)
    VLIMIT_DEBUG_SYSLOG "dec_file_counter: " "unexpected error. file slot not found." [] ;;;
    ret (-1).

Definition unset_file_counter (r : request_rec) : M unit :=
  limit_stat <- get_stat ;;
  let id := get_file_slot_id limit_stat r in
  s <- load_file id ;;
  if file_data.counter s =? 0 then
    store_file id {| file_data.filename := EmptyString;
                     file_data.counter := file_data.counter s |}
  else ret tt.

Definition inc_ip_counter (r : request_rec) : M Z :=
  limit_stat <- get_stat ;;
  let id := get_ip_slot_id limit_stat r in
  id <- (if id =? -1 then
           let id := get_ip_empty_slot_id limit_stat r in
           (if negb (id =? -1) then strcpy_address id (remote_ip r)
            else ret tt) ;;;
           ret id
         else ret id) ;;
  if id >=? 0 then
    s <- load_ip id ;;
    store_ip id {| ip_data.address := ip_data.address s;
                   ip_data.counter := int_wrap (ip_data.counter s + 1) |} ;;;
    ret 0
  else
    (* slot full *)
    ret (-1).

Definition dec_ip_counter (r : request_rec) : M Z :=
  limit_stat <- get_stat ;;
  let id := get_ip_slot_id limit_stat r in
  if id >=? 0 then
    s <- load_ip id ;;
    store_ip id {| ip_data.address := ip_data.address s;
                   ip_data.counter := int_wrap (ip_data.counter s - 1) |} ;;;
    ret 0
  else
    (* unexpected error *)
    VLIMIT_DEBUG_SYSLOG "dec_ip_counter: " "unexpected error. ip slot not found." [] ;;;
    ret (-1).

Definition unset_ip_counter (r : request_rec) : M unit :=
  limit_stat <- get_stat ;;
  let id := get_ip_slot_id limit_stat r in
  s <- load_ip id ;;
  if ip_data.counter s =? 0 then
    store_ip id {| ip_data.address := EmptyString;
                   ip_data.counter := ip_data.counter s |}
  else ret tt.

Definition make_ip_slot_list (r : request_rec) : M Z :=
  limit_stat <- get_stat ;;
  if ip_stat_flag e && negb (ip_stat_file e) then
    if negb (stat_open e =? APR_SUCCESS) then ret OK
    else
      emit (IpSlotList (ip_rows 0 (ip_stat_shm limit_stat))) ;;;
      if negb (stat_close e =? APR_SUCCESS) then ret OK
      else ret 0
  else ret (-1).

Definition make_file_slot_list (r : request_rec) : M Z :=
  limit_stat <- get_stat ;;
  if file_stat_flag e && negb (file_stat_file e) then
    if negb (stat_open e =? APR_SUCCESS) then ret OK
    else
      emit (FileSlotList (file_rows 0 (file_stat_shm limit_stat))) ;;;
      if negb (stat_close e =? APR_SUCCESS) then ret OK
      else ret 0
  else ret (-1).

(** *** Request transaction logging *)

Definition vlimit_logging (msg : string) (r : request_rec) (cfg : vlimit_config) : M Z :=
  limit_stat <- get_stat ;;
  if log_flag e then
    emit (LogLine msg (get_ip_counter limit_stat r) (ip_limit cfg)
                      (get_file_counter limit_stat r) (file_limit cfg)) ;;;
    ret 0
  else ret (-1).

(** *** The global mutex *)

Definition apr_global_mutex_lock : M Z :=
  emit (MutexLock (lock_status e)) ;;;
  (if lock_status e =? APR_SUCCESS then set_mutex true else ret tt) ;;;
  ret (lock_status e).

Definition apr_global_mutex_unlock : M Z :=
  emit (MutexUnlock (unlock_status e)) ;;;
  (if unlock_status e =? APR_SUCCESS then set_mutex false else ret tt) ;;;
  ret (unlock_status e).

(** *** The virtual host of the request *)

(** [header_name]: the Host header, or the sentinel when there is none. *)
Definition header_name (r : request_rec) : string :=
  match headers_in_HOST r with
  | Some h => h
  | None => "NoHostHeader"
  end.

(** [access_host = strtok(header_name, ":")], [header_name] itself when
    [strtok] finds no token.  [strtok] ends the token inside the header; a
    later [strtok] of the shortened header finds the same token. *)
Definition access_host (r : request_rec) : string :=
  match strtok (header_name r) ":" with
  | Some t => t
  | None => header_name r
  end.

(** The loop over [r->server->names]. *)
Fixpoint check_alias_names (host : string) (elts : list string) : M bool :=
  match elts with
  | [] => ret false
  | alias_name :: elts' =>
      VLIMIT_DEBUG_SYSLOG "check_virtualhost_name: "
        "INFO: access_name=(%s) ServerAlias=(%s)" [AStr host; AStr alias_name] ;;;
      if String.eqb host alias_name then
        VLIMIT_DEBUG_SYSLOG "check_virtualhost_name: "
          "Match: access_name=(%s) ServerAlias=(%s)" [AStr host; AStr alias_name] ;;;
        ret true
      else check_alias_names host elts'
  end.

Definition check_virtualhost_name (r : request_rec) : M Z :=
  let access_host := access_host r in
  if String.eqb access_host (server_hostname r) then
    VLIMIT_DEBUG_SYSLOG "check_virtualhost_name: "
      "Match: access_name=(%s) ServerName=(%s)"
      [AStr access_host; AStr (server_hostname r)] ;;;
    ret 0
  else
    found <- match names r with
             | Some elts => check_alias_names access_host elts
             | None => ret false
             end ;;
    if found then ret 0
    else
      VLIMIT_DEBUG_SYSLOG "check_virtualhost_name: "
        "Not Match: access_name=(%s)" [AStr access_host] ;;;
      ret 1.

(** *** Check connections from clients to files *)

(** [if (counter_stat != -2) vlimit_logging(msg, r, cfg, limit_stat);] *)
Definition log_unless_untouched (counter_stat : Z) (msg : string)
    (r : request_rec) (cfg : vlimit_config) : M unit :=
  if negb (counter_stat =? -2) then
    vlimit_logging msg r cfg ;;;
    ret tt
  else ret tt.

(** [vlimit_check_limit] from the unlock to its end: the decision. *)
Definition check_limit_decide (r : request_rec) (cfg : vlimit_config)
    (counter_stat ip_count file_count : Z) : M Z :=
  (* vlimit_mutex unlock *)
  VLIMIT_DEBUG_SYSLOG "vlimit_check_limit: " "vlimit_mutex unlocked." [] ;;;
  st <- apr_global_mutex_unlock ;;
  if negb (st =? APR_SUCCESS) then
    VLIMIT_DEBUG_SYSLOG "vlimit_check_limit: " "vlimit_mutex unlock failed." [] ;;;
    ret OK
  else
    VLIMIT_DEBUG_SYSLOG "vlimit_check_limit: "
      "conf_id: %d name: %s  uri: %s  ip_count: %d/%d file_count: %d/%d"
      [AInt (conf_id cfg); AStr (server_hostname r); AStr (filename r);
       AInt ip_count; AInt (ip_limit cfg); AInt file_count; AInt (file_limit cfg)] ;;;
    if (ip_limit cfg >? 0) && (ip_count >? ip_limit cfg) then
      VLIMIT_DEBUG_SYSLOG "vlimit_check_limit: "
        "Rejected, too many connections from this host(%s) to the file(%s) by VlimitIP[ip_limit=(%d) docroot=(%s)]."
        [AStr (remote_ip r); AStr (access_host r); AInt (ip_limit cfg);
         AStrOpt (full_path cfg)] ;;;
      log_unless_untouched counter_stat "RESULT: 503 INC" r cfg ;;;
      ret HTTP_SERVICE_UNAVAILABLE
    else if (file_limit cfg >? 0) && (file_count >? file_limit cfg) then
      VLIMIT_DEBUG_SYSLOG "vlimit_check_limit: "
        "Rejected, too many connections to the file(%s) by VlimitFile[limit=(%d) docroot=(%s)]."
        [AStr (access_host r); AInt (file_limit cfg); AStrOpt (full_path cfg)] ;;;
      log_unless_untouched counter_stat "RESULT: 503 INC" r cfg ;;;
      ret HTTP_SERVICE_UNAVAILABLE
    else
      (* all check passed, return response normally *)
      VLIMIT_DEBUG_SYSLOG "vlimit_check_limit: " "OK: Passed all checks" [] ;;;
      log_unless_untouched counter_stat "RESULT:  OK INC" r cfg ;;;
      ret OK.

(** [vlimit_check_limit] from [if (cfg->ip_limit > 0)] on; [counter_stat]
    and [file_count] are what the file part left. *)
Definition check_limit_ip (r : request_rec) (cfg : vlimit_config)
    (counter_stat file_count : Z) : M Z :=
  if ip_limit cfg >? 0 then
    VLIMIT_DEBUG_SYSLOG "vlimit_check_limit: " "type IP: ip_count++" [] ;;;
    counter_stat <- inc_ip_counter r ;;
    if counter_stat =? -1 then
      VLIMIT_DEBUG_SYSLOG "vlimit_check_limit: " "ip counter slot full. maxclients?" [] ;;;
      ret HTTP_SERVICE_UNAVAILABLE
    else
      limit_stat <- get_stat ;;
      let ip_count := get_ip_counter limit_stat r in
      check_limit_decide r cfg counter_stat ip_count file_count
  else check_limit_decide r cfg counter_stat 0 file_count.

(** [vlimit_check_limit] from [if (cfg->file_limit > 0)] on, the mutex
    being held. *)
Definition check_limit_file (r : request_rec) (cfg : vlimit_config) : M Z :=
  if file_limit cfg >? 0 then
    VLIMIT_DEBUG_SYSLOG "vlimit_check_limit: " "type File: file_count++" [] ;;;
    counter_stat <- inc_file_counter r ;;
    if counter_stat =? -1 then
      VLIMIT_DEBUG_SYSLOG "vlimit_check_limit: " "file counter slot full. maxclients?" [] ;;;
      ret HTTP_SERVICE_UNAVAILABLE
    else
      limit_stat <- get_stat ;;
      let file_count := get_file_counter limit_stat r in
      check_limit_ip r cfg counter_stat file_count
  else check_limit_ip r cfg 0 0.

(** Generic function to check a request against a config. *)
Definition vlimit_check_limit (r : request_rec) (cfg : vlimit_config) : M Z :=
  if negb (is_initial_req r) then
    VLIMIT_DEBUG_SYSLOG "vlimit_check_limit: " "SKIPPED: Initial Reqeusts." [] ;;;
    ret DECLINED
  else if (ip_limit cfg <=? 0) && (file_limit cfg <=? 0) then
    VLIMIT_DEBUG_SYSLOG "vlimit_check_limit: "
      "SKIPPED: cfg->ip_limit <= 0 && cfg->file_limit <= 0" [] ;;;
    ret DECLINED
  else
    VLIMIT_DEBUG_SYSLOG "vlimit_check_limit: "
      "client info: address=(%s) access_host=(%s)"
      [AStr (remote_ip r); AStr (access_host r)] ;;;
    rc <- make_ip_slot_list r ;;
    (if negb (rc =? -1) then
       VLIMIT_DEBUG_SYSLOG "vlimit_check_limit: "
         "make_ip_slot_list exec. create list(/tmp/vlimit_ip_stat.list)." []
     else ret 0) ;;;
    rc <- make_file_slot_list r ;;
    (if negb (rc =? -1) then
       VLIMIT_DEBUG_SYSLOG "vlimit_check_limit: "
         "make_file_slot_list exec. create list(/tmp/vlimit_file_stat.list)." []
     else ret 0) ;;;
    vh <- check_virtualhost_name r ;;
    if negb (vh =? 0) then
      VLIMIT_DEBUG_SYSLOG "vlimit_check_limit: "
        "access_host != server_hostname. return OK." [] ;;;
      ret OK
    else
      (* vlimit_mutex lock *)
      VLIMIT_DEBUG_SYSLOG "vlimit_check_limit: " "vlimit_mutex locked." [] ;;;
      st <- apr_global_mutex_lock ;;
      if negb (st =? APR_SUCCESS) then
        VLIMIT_DEBUG_SYSLOG "vlimit_check_limit: " "vlimit_mutex lock failed." [] ;;;
        ret OK
      else check_limit_file r cfg.

(** *** Analyze from the path to the real path *)

(** [resolved_path] is kept as the characters written so far, the last one
    first, so that [npath] is the head of the list. *)

Inductive realpath_result :=
| Resolved (resolved_path : string)
| Null (errno : Z)        (* return NULL *)
| Undefined.              (* npath moved below resolved_path *)

(** [while (npath > resolved_path + 1 && (--npath)[-1] != '/');] *)
Fixpoint pop_component (npath : list ascii) : list ascii :=
  match npath with
  | _ :: ((c :: _) as npath') =>
      if Ascii.eqb c "/" then npath' else pop_component npath'
  | _ => npath
  end.

(** [npath] steps back until the character it reaches is a slash (the
    loop after a relative link). *)
Fixpoint back_to_slash (npath : list ascii) : option (list ascii) :=
  match npath with
  | [] => None
  | c :: npath' => if Ascii.eqb c "/" then Some npath' else back_to_slash npath'
  end.

(** The three [continue] branches at the head of the loop: slashes, "." and
    ".." are consumed until a component or the end of [path] is reached. *)
Fixpoint skip_dots (path npath : list ascii) : list ascii * list ascii :=
  match path with
  | [] => ([], npath)
  | c :: path1 =>
      if Ascii.eqb c "/" then skip_dots path1 npath
      else if Ascii.eqb c "." then
        match path1 with
        | [] => skip_dots path1 npath
        | c1 :: path2 =>
            if Ascii.eqb c1 "/" then skip_dots path1 npath
            else if Ascii.eqb c1 "." then
              match path2 with
              | [] => skip_dots path2 (pop_component npath)
              | c2 :: _ =>
                  if Ascii.eqb c2 "/" then skip_dots path2 (pop_component npath)
                  else (path, npath)
              end
            else (path, npath)
        end
      else (path, npath)
  end.

(** The inner loop that copies one component from [path] to [npath];
    [None] is the ENAMETOOLONG exit. *)
Fixpoint copy_component (maxreslth : Z) (path npath : list ascii)
    : option (list ascii * list ascii) :=
  match path with
  | [] => Some ([], npath)
  | c :: path' =>
      if Ascii.eqb c "/" then Some (path, npath)
      else if Z.of_nat (length npath) >? maxreslth - 2 then None
      else copy_component maxreslth path' (c :: npath)
  end.

(** The end of the routine: a trailing slash is dropped unless the result is
    the root. *)
Definition realpath_finish (npath : list ascii) : realpath_result :=
  match npath with
  | [] => Undefined
  | c :: npath' =>
      if negb (Z.of_nat (length npath) =? 1) && Ascii.eqb c "/"
      then Resolved (string_of_list_ascii (rev npath'))
      else Resolved (string_of_list_ascii (rev npath))
  end.

(** The main loop over [path], one component per round.  [readlinks]
    is the counter of the source; [left] bounds the rounds and is not
    reached before [readlinks] passes MAXSYMLINKS (see
    [realpath_loop_left]). *)
Fixpoint realpath_loop (left : nat) (maxreslth readlinks : Z)
    (path npath : list ascii) : realpath_result :=
  match skip_dots path npath with
  | ([], npath) => realpath_finish npath
  | (path, npath) =>
      match copy_component maxreslth path npath with
      | None => Null ENAMETOOLONG
      | Some (path, npath) =>
          if readlinks >? MAXSYMLINKS then Null ELOOP
          else
            match left with
            | O => Null ELOOP
            | S left' =>
                (* symlink analyzed *)
                match fs_readlink e (string_of_list_ascii (rev npath)) with
                | NoLink errno =>
                    (* EINVAL means the file exists but isn't a symlink. *)
                    if negb (errno =? EINVAL) then Null errno
                    else realpath_loop left' maxreslth (readlinks + 1) path
                           ("/"%char :: npath)
                | Link target =>
                    let link_path :=
                      firstn (Z.to_nat PATH_MAX) (list_ascii_of_string target) in
                    let back :=
                      match link_path with
                      | c :: _ =>
                          if Ascii.eqb c "/" then Some [] else back_to_slash npath
                      | [] => back_to_slash npath
                      end in
                    match back with
                    | Some npath =>
                        realpath_loop left' maxreslth (readlinks + 1)
                          (link_path ++ path) ("/"%char :: npath)
                    | None => Undefined
                    end
                end
            end
      end
  end.

Definition ERANGE : Z := 34.

Definition realpath_for_vlimit (path : string) (maxreslth : Z) : realpath_result :=
  let left := Z.to_nat (MAXSYMLINKS + 2) in
  match list_ascii_of_string path with
  | "/"%char :: path' => realpath_loop left maxreslth 0 path' ["/"%char]
  | path' =>
      match fs_getcwd e with
      | None => Null ERANGE
      | Some below_root =>
          let cwd := String "/" below_root in
          if Z.of_nat (String.length cwd) + 1 >? maxreslth - 2 then Null ERANGE
          else
            match rev (list_ascii_of_string cwd) with
            | [] => Undefined
            | c :: npath =>
                realpath_loop left maxreslth 0 path'
                  (if Ascii.eqb c "/" then c :: npath else "/"%char :: c :: npath)
            end
      end
  end.

(** *** Access checker for per dir config *)

(** [real_path_dir] after the full_path check opened: the file name as it
    is when the file is not there, its real path otherwise; [None] when
    [realpath_for_vlimit] returned NULL. *)
Definition real_path_dir (r : request_rec) : M (option string) :=
  if negb (fs_access e (filename r)) then ret (Some (filename r))
  else
    match realpath_for_vlimit (filename r) PATH_MAX with
    | Resolved p => ret (Some p)
    | Null _ => ret None
    | Undefined => raise OutOfBounds
    end.

Definition vlimit_handler_check (r : request_rec) (cfg : vlimit_config) : M Z :=
  VLIMIT_DEBUG_SYSLOG "vlimit_handler: " "Entering normal handler" [] ;;;
  result <- vlimit_check_limit r cfg ;;
  VLIMIT_DEBUG_SYSLOG "vlimit_handler: " "Exiting normal handler" [] ;;;
  ret result.

Definition vlimit_handler (r : request_rec) (cfg : vlimit_config) : M Z :=
  VLIMIT_DEBUG_SYSLOG "vlimit_handler: "
    "cfg->ip_limit=(%d) cfg->file_limit=(%d) cfg->full_path=(%s)"
    [AInt (ip_limit cfg); AInt (file_limit cfg); AStrOpt (full_path cfg)] ;;;
  (* full_path check *)
  match full_path cfg with
  | Some cfg_full_path =>
      rp <- real_path_dir r ;;
      match rp with
      | None =>
          VLIMIT_DEBUG_SYSLOG "vlimit_handler: "
            "realpath_for_vlimit was failed. path=(%s)" [AStr (filename r)] ;;;
          ret DECLINED
      | Some real_path_dir =>
          if negb (String.eqb cfg_full_path real_path_dir) then
            VLIMIT_DEBUG_SYSLOG "vlimit_handler: "
              "full_path not match cfg->full_path=(%s) <=> real_path_dir=(%s)"
              [AStr cfg_full_path; AStr real_path_dir] ;;;
            VLIMIT_DEBUG_SYSLOG "vlimit_handler: " "full_path not match end..." [] ;;;
            ret DECLINED
          else
            VLIMIT_DEBUG_SYSLOG "vlimit_handler: "
              "full_path match cfg->full_path=(%s) <=> real_path_dir=(%s)"
              [AStr cfg_full_path; AStr real_path_dir] ;;;
            vlimit_handler_check r cfg
      end
  | None =>
      VLIMIT_DEBUG_SYSLOG "vlimit_handler: "
        "full_path not found. cfg->full_path=(%s)" [ANull] ;;;
      vlimit_handler_check r cfg
  end.

(** *** The end of the transaction *)

Definition response_end_file (r : request_rec) (cfg : vlimit_config)
    (counter_stat : Z) : M Z :=
  if file_limit cfg >? 0 then
    VLIMIT_DEBUG_SYSLOG "vlimit_response_end: " "type FILE: file_count--" [] ;;;
    limit_stat <- get_stat ;;
    counter_stat <- (if get_file_counter limit_stat r >? 0
                     then dec_file_counter r
                     else ret counter_stat) ;;
    limit_stat <- get_stat ;;
    (if get_file_counter limit_stat r =? 0
     then unset_file_counter r
     else ret tt) ;;;
    ret counter_stat
  else ret counter_stat.

Definition response_end_ip (r : request_rec) (cfg : vlimit_config)
    (counter_stat : Z) : M Z :=
  if ip_limit cfg >? 0 then
    VLIMIT_DEBUG_SYSLOG "vlimit_response_end: " "type IP: ip_count--" [] ;;;
    limit_stat <- get_stat ;;
    counter_stat <- (if get_ip_counter limit_stat r >? 0
                     then dec_ip_counter r
                     else ret counter_stat) ;;
    limit_stat <- get_stat ;;
    (if get_ip_counter limit_stat r =? 0
     then unset_ip_counter r
     else ret tt) ;;;
    ret counter_stat
  else ret counter_stat.

Definition vlimit_response_end (r : request_rec) (cfg : vlimit_config) : M Z :=
  let counter_stat := -2 in
  VLIMIT_DEBUG_SYSLOG "vlimit_response_end: " "start" [] ;;;
  vh <- check_virtualhost_name r ;;
  if negb (vh =? 0) then
    VLIMIT_DEBUG_SYSLOG "vlimit_response_end" ": access_host != server_hostname. return OK." [] ;;;
    VLIMIT_DEBUG_SYSLOG "vlimit_response_end: " "end" [] ;;;
    ret OK
  else
    (* vlimit_mutex lock *)
    VLIMIT_DEBUG_SYSLOG "vlimit_response_end: " "vlimit_mutex locked." [] ;;;
    st <- apr_global_mutex_lock ;;
    if negb (st =? APR_SUCCESS) then
      VLIMIT_DEBUG_SYSLOG "vlimit_response_end: " "vlimit_mutex lock failed." [] ;;;
      ret OK
    else
      counter_stat <- response_end_file r cfg counter_stat ;;
      counter_stat <- response_end_ip r cfg counter_stat ;;
      (* when decrement counter, write log *)
      log_unless_untouched counter_stat "RESULT: END DEC" r cfg ;;;
      (* vlimit_mutex unlock *)
      VLIMIT_DEBUG_SYSLOG "vlimit_response_end: " "vlimit_mutex unlocked." [] ;;;
      st <- apr_global_mutex_unlock ;;
      if negb (st =? APR_SUCCESS) then
        VLIMIT_DEBUG_SYSLOG "vlimit_response_end: " "vlimit_mutex unlock failed." [] ;;;
        ret OK
      else
        limit_stat <- get_stat ;;
        VLIMIT_DEBUG_SYSLOG "vlimit_response_end: "
          "conf_id: %d name: %s  uri: %s ip_count: %d/%d file_count: %d/%d"
          [AInt (conf_id cfg); AStr (server_hostname r); AStr (filename r);
           AInt (get_ip_counter limit_stat r); AInt (ip_limit cfg);
           AInt (get_file_counter limit_stat r); AInt (file_limit cfg)] ;;;
        VLIMIT_DEBUG_SYSLOG "vlimit_response_end: " "end" [] ;;;
        ret OK.

End Hooks.

(** ** The handler of the per-server configuration *)



(** ** The configuration *)

Definition SET_VLIMITDEFAULT : Z := 0.
Definition SET_VLIMITIP : Z := 1.
Definition SET_VLIMITFILE : Z := 2.

(** [create_share_config]: [conf_counter] is the static counter of the
    module, read and then incremented. *)
Definition create_share_config (conf_counter : Z) : vlimit_config * Z :=
  ({| type := SET_VLIMITDEFAULT; ip_limit := 0; file_limit := 0;
      conf_id := conf_counter; full_path := None |},
   int_wrap (conf_counter + 1)).

(** [strtol(nptr, NULL, 10)] with a 64-bit [long]: white space, an optional
    sign, then the longest run of decimal digits; 0 when there is no digit,
    LONG_MAX or LONG_MIN when the value does not fit. *)
Definition LONG_MAX : Z := 9223372036854775807.
Definition LONG_MIN : Z := -9223372036854775808.

Definition isspace (c : ascii) : bool :=
  let n := Z.of_N (N_of_ascii c) in
  (n =? 32) || ((9 <=? n) && (n <=? 13)).

Definition digit_of (c : ascii) : option Z :=
  let n := Z.of_N (N_of_ascii c) in
  if (48 <=? n) && (n <=? 57) then Some (n - 48) else None.

Fixpoint skip_space (s : string) : string :=
  match s with
  | EmptyString => EmptyString
  | String c s' => if isspace c then skip_space s' else s
  end.

Fixpoint digits_value (acc : Z) (s : string) : Z :=
  match s with
  | EmptyString => acc
  | String c s' =>
      match digit_of c with
      | Some d => digits_value (acc * 10 + d) s'
      | None => acc
      end
  end.

Definition strtol (nptr : string) : Z :=
  match skip_space nptr with
  | String "-" s => Z.max LONG_MIN (- digits_value 0 s)
  | String "+" s => Z.min LONG_MAX (digits_value 0 s)
  | s => Z.min LONG_MAX (digits_value 0 s)
  end.

(** [set_vlimitip]: [path] is [parms->path], [cfg] the per-directory
    configuration ([mconfig]) and [scfg] that of the server; [arg_opt1] is
    NULL when the directive has one argument.  The result is the error
    message, NULL for none, and the two configurations. *)
Definition set_vlimitip (path : option string) (cfg scfg : vlimit_config)
    (arg1 : string) (arg_opt1 : option string)
    : option string * (vlimit_config * vlimit_config) :=
  let limit := strtol arg1 in
  (* No reasonable person would want more than 2^16. *)
  if (limit >? 65535) || (limit <? 0) then
    (Some "Integer overflow or invalid number", (cfg, scfg))
  else
    match path with
    | Some _ =>
        (* Per-directory context *)
        (None,
         ({| type := SET_VLIMITIP; ip_limit := limit; file_limit := file_limit cfg;
             conf_id := conf_id cfg; full_path := arg_opt1 |}, scfg))
    | None =>
        (* Per-server context *)
        (None,
         (cfg,
          {| type := SET_VLIMITIP; ip_limit := limit; file_limit := file_limit scfg;
             conf_id := conf_id scfg; full_path := arg_opt1 |}))
    end.

Definition set_vlimitfile (path : option string) (cfg scfg : vlimit_config)
    (arg1 : string) (arg_opt1 : option string)
    : option string * (vlimit_config * vlimit_config) :=
  let limit := strtol arg1 in
  (* No reasonable person would want more than 2^16. *)
  if (limit >? 65535) || (limit <? 0) then
    (Some "Integer overflow or invalid number", (cfg, scfg))
  else
    match path with
    | Some _ =>
        (* Per-directory context *)
        (None,
         ({| type := SET_VLIMITFILE; ip_limit := ip_limit cfg; file_limit := limit;
             conf_id := conf_id cfg; full_path := arg_opt1 |}, scfg))
    | None =>
        (* Per-server context *)
        (None,
         (cfg,
          {| type := SET_VLIMITFILE; ip_limit := ip_limit scfg; file_limit := limit;
             conf_id := conf_id scfg; full_path := arg_opt1 |}))
    end.

(** ** Startup *)

Definition HTTP_INTERNAL_SERVER_ERROR : Z := 500.

(** The sizes [vlimit_init] computes with (LP64, natural alignment):
    [shm_data] there is a pointer, so that [sizeof(shm_data)] is the size
    of a pointer. *)
Definition sizeof_pointer : Z := 8.
Definition sizeof_file_stat_shm : Z := MAX_CLIENTS * (MAX_FILENAME + 4).
Definition sizeof_ip_stat_shm : Z := MAX_CLIENTS * (IP_MAX + 1 + 4).

(** What the library answers during [vlimit_init]. *)
Record init_env := {
  log_open : Z;                 (* apr_file_open of VLIMIT_LOG_FILE *)
  mutex_create : Z;             (* apr_global_mutex_create *)
  need_set_mutex_perms : bool;  (* AP_NEED_SET_MUTEX_PERMS is defined *)
  mutex_perms : Z;              (* unixd_set_global_mutex_perms *)
  shm_destroy : Z;              (* apr_shm_destroy *)
  shm_create : Z;               (* apr_shm_create *)
  shm_size_get : Z -> Z;        (* apr_shm_size_get, from the size asked *)
  shm_baseaddr_null : bool      (* apr_shm_baseaddr_get returned NULL *)
}.

(** The global [shm_base]: NULL, the base address of the current block
    with the table pairs in it, or an address left from a block that
    [apr_shm_destroy] has released since. *)
Inductive base_pointer :=
| NullBase
| Base (block : list SHM_DATA)
| Stale.

(** [shm_base] after [apr_shm_destroy(shm)] succeeded: the pointer itself is
    not written. *)
Definition after_destroy (shm_base : base_pointer) : base_pointer :=
  match shm_base with
  | Base _ => Stale
  | p => p
  end.

(** What [vlimit_init] leaves: its return value, whether the log file is
    open and the mutex made, the global [shm_base] and the diagnostics. *)
Record init_result := {
  init_status : Z;
  log_opened : bool;
  mutex_made : bool;
  shm_base : base_pointer;
  init_log : list event
}.

Definition syslog (e : env) (key msg : string) (args : list arg) : list event :=
  if debug_flag e then [Syslog key msg args] else [].

(** A block of [n] table pairs after [memset(shm_base, 0, retsize)]. *)
Definition zeroed_slots {A} (zero : A) : list A := repeat zero (Z.to_nat MAX_CLIENTS).

Definition zeroed_block (n : nat) : list SHM_DATA :=
  repeat
    {| file_stat_shm :=
         zeroed_slots {| file_data.filename := EmptyString; file_data.counter := 0 |};
       ip_stat_shm :=
         zeroed_slots {| ip_data.address := EmptyString; ip_data.counter := 0 |} |}
    n.

(** The body of the inner loop for slot [i] of the pair [shm_data]. *)
Definition init_slot (shm_data : SHM_DATA) (i : nat) : SHM_DATA :=
  let file_stat := file_stat_shm shm_data in
  let ip_stat := ip_stat_shm shm_data in
  let file_stat :=
    match file_stat !! i with
    | Some s => <[i := {| file_data.filename := EmptyString;
                          file_data.counter := file_data.counter s |}]> file_stat
    | None => file_stat
    end in
  let ip_stat :=
    match ip_stat !! i with
    | Some s => <[i := {| ip_data.address := EmptyString;
                          ip_data.counter := ip_data.counter s |}]> ip_stat
    | None => ip_stat
    end in
  let file_stat :=
    match file_stat !! i with
    | Some s => <[i := {| file_data.filename := file_data.filename s;
                          file_data.counter := 0 |}]> file_stat
    | None => file_stat
    end in
  let ip_stat :=
    match ip_stat !! i with
    | Some s => <[i := {| ip_data.address := ip_data.address s;
                          ip_data.counter := 0 |}]> ip_stat
    | None => ip_stat
    end in
  {| file_stat_shm := file_stat; ip_stat_shm := ip_stat |}.

(** [for (i = 0; i < MAX_CLIENTS; i++)] *)
Definition init_slots (shm_data : SHM_DATA) : SHM_DATA :=
  fold_left init_slot (seq 0 (Z.to_nat MAX_CLIENTS)) shm_data.

(** [for (t = 0; t <= conf_counter; t++)], on the pairs of the block. *)
Definition init_pairs (conf_counter : Z) (block : list SHM_DATA) : list SHM_DATA :=
  fold_left
    (fun block t =>
       match block !! t with
       | Some shm_data => <[t := init_slots shm_data]> block
       | None => block
       end)
    (seq 0 (Z.to_nat (conf_counter + 1))) block.

(** [vlimit_init]; [conf_counter] is the number of configurations made,
    [old_shm] tells whether the global [shm] is set from an earlier run and
    [old_base] is the global [shm_base] on entry.  [shm_base] is written at
    one place only, after the size of the new block has been checked; every
    return before it leaves the pointer of the earlier run.  The block asked
    for has the size of [conf_counter + 1] table pairs and as many pointers,
    so that it holds the pairs [shm_base + 0] to [shm_base + conf_counter]. *)
Definition vlimit_init (e : env) (ie : init_env) (conf_counter : Z) (old_shm : bool)
    (old_base : base_pointer) : init_result :=
  let log0 := syslog e "vlimit_init: " "mod_vlimit 1.00-odp1 started." [] in
  if negb (log_open ie =? APR_SUCCESS) then
    {| init_status := OK; log_opened := false; mutex_made := false;
       shm_base := old_base; init_log := log0 |}
  else
    let shm_size :=
      (sizeof_pointer + sizeof_file_stat_shm + sizeof_ip_stat_shm) * (conf_counter + 1) in
    (* Create global mutex *)
    if negb (mutex_create ie =? APR_SUCCESS) then
      {| init_status := mutex_create ie; log_opened := true; mutex_made := false;
         shm_base := old_base;
         init_log := log0 ++ syslog e "vlimit_init: " "Error creating global mutex." [] |}
    else if need_set_mutex_perms ie && negb (mutex_perms ie =? APR_SUCCESS) then
      {| init_status := mutex_perms ie; log_opened := true; mutex_made := true;
         shm_base := old_base;
         init_log :=
           log0 ++ syslog e "vlimit_init: "
                     "Error xrent could not set permissions on global mutex." [] |}
    else if old_shm && negb (shm_destroy ie =? APR_SUCCESS) then
      (* If there was a memory block already assigned.. destroy it *)
      {| init_status := shm_destroy ie; log_opened := true; mutex_made := true;
         shm_base := old_base;
         init_log :=
           log0 ++ syslog e "vlimit_init: " "Couldn't destroy old memory block" [] |}
    else
      let log1 :=
        log0 ++ (if old_shm
                 then syslog e "vlimit_init: " "Old Shared memory block, destroyed." []
                 else []) in
      let kept_base := if old_shm then after_destroy old_base else old_base in
      (* Create shared memory block *)
      let status := shm_create ie in
      if negb (status =? APR_SUCCESS) then
        {| init_status := status; log_opened := true; mutex_made := true;
           shm_base := kept_base;
           init_log := log1 ++ syslog e "vlimit_init: " "Error creating shm block" [] |}
      else
        (* Check size of shared memory block *)
        let retsize := shm_size_get ie shm_size in
        if negb (retsize =? shm_size) then
          {| init_status := status; log_opened := true; mutex_made := true;
             shm_base := kept_base;
             init_log :=
               log1 ++ syslog e "vlimit_init: "
                         "Error allocating shared memory block" [] |}
        else if shm_baseaddr_null ie then
          (* Init shm block *)
          {| init_status := status; log_opened := true; mutex_made := true;
             shm_base := NullBase;
             init_log :=
               log1 ++ syslog e "vlimit_init" "Error creating status block." [] |}
        else
          let block := zeroed_block (Z.to_nat (conf_counter + 1)) in
          let log2 :=
            log1 ++ syslog e "vlimit_init: "
                      "Memory Allocated %d bytes (each conf takes %d bytes) MaxClient:%d"
                      [AInt retsize;
                       AInt (sizeof_pointer + sizeof_file_stat_shm + sizeof_ip_stat_shm);
                       AInt MAX_CLIENTS] in
          if retsize <? sizeof_pointer * conf_counter then
            {| init_status := HTTP_INTERNAL_SERVER_ERROR; log_opened := true;
               mutex_made := true; shm_base := Base block;
               init_log :=
                 log2 ++ syslog e "vlimit_init "
                           "Not enough memory allocated!! Giving up" [] |}
          else
            {| init_status := OK; log_opened := true; mutex_made := true;
               shm_base := Base (init_pairs conf_counter block);
               init_log :=
                 log2 ++ syslog e "vlimit_init: "
                           "%s Version %s - Initialized [%d Conf]"
                           [AStr "mod_vlimit"; AStr "1.00-odp1"; AInt conf_counter] |}.

(** * Reasoning about runs *)

(** [runs F m w Q]: when [m] runs from [w] to the end, [Q] holds of its
    result, of the world it leaves and of the events it wrote; when it
    faults, [F] holds of the fault.  [wp] admits no fault, [post] any. *)
Definition runs {A} (F : fault -> Prop) (m : M A) (w : world)
    (Q : A -> world -> list event -> Prop) : Prop :=
  match m w with
  | Done a w' out => Q a w' out
  | Fault f => F f
  end.

Abbreviation wp := (runs (fun _ => False)).
Abbreviation post := (runs (fun _ => True)).

(** An output is quiet when no event of it is a call on the mutex. *)
Definition is_mutex_event (ev : event) : bool :=
  match ev with
  | MutexLock _ | MutexUnlock _ => true
  | _ => false
  end.

Definition quiet (out : list event) : Prop :=
  forallb (fun ev => negb (is_mutex_event ev)) out = true.

(** A call on the mutex that did not return APR_SUCCESS. *)
Definition sync_failed (out : list event) : Prop :=
  exists st, st <> APR_SUCCESS /\ (In (MutexLock st) out \/ In (MutexUnlock st) out).

Section Runs.

Context {A B : Type}.

Lemma wp_done (m : M A) w Q :
  wp m w Q <-> exists a w' out, m w = Done a w' out /\ Q a w' out.
Proof.
  unfold runs. destruct (m w) as [a w' out|f].
  - split; [eauto|]. intros (a' & w'' & out' & Heq & HQ). inversion Heq. now subst.
  - split; [tauto|]. intros (a' & w'' & out' & Heq & _). discriminate.
Qed.

Lemma post_done (m : M A) w Q :
  post m w Q <-> forall a w' out, m w = Done a w' out -> Q a w' out.
Proof.
  unfold runs. destruct (m w) as [a w' out|f].
  - split; [|eauto]. intros HQ a' w'' out' Heq. inversion Heq. now subst.
  - split; [discriminate|tauto].
Qed.

Lemma runs_mono (F F' : fault -> Prop) (m : M A) w
    (Q Q' : A -> world -> list event -> Prop) :
  runs F m w Q -> (forall f, F f -> F' f) ->
  (forall a w' out, Q a w' out -> Q' a w' out) -> runs F' m w Q'.
Proof. unfold runs. destruct (m w); auto. Qed.

Lemma wp_runs F (m : M A) w Q : wp m w Q -> runs F m w Q.
Proof. intros H. eapply runs_mono; [exact H|intros ? []|auto]. Qed.

Lemma runs_ret F (a : A) w (Q : A -> world -> list event -> Prop) :
  Q a w [] -> runs F (ret a) w Q.
Proof. auto. Qed.

Lemma runs_bind F (m : M A) (k : A -> M B) w
    (Q : B -> world -> list event -> Prop) :
  runs F m w (fun a w1 o1 => runs F (k a) w1 (fun b w2 o2 => Q b w2 (o1 ++ o2))) ->
  runs F (bind m k) w Q.
Proof.
  unfold runs, bind. destruct (m w) as [a w1 o1|f]; [|tauto].
  destruct (k a w1); tauto.
Qed.

Lemma bind_run (m : M A) (k : A -> M B) w a w1 o1 :
  m w = Done a w1 o1 ->
  bind m k w =
  match k a w1 with
  | Done b w2 o2 => Done b w2 (o1 ++ o2)
  | Fault f => Fault f
  end.
Proof. intros Hm. unfold bind. now rewrite Hm. Qed.

Lemma bind_done (m : M A) (k : A -> M B) w b w2 out :
  bind m k w = Done b w2 out <->
  exists a w1 o1 o2,
    m w = Done a w1 o1 /\ k a w1 = Done b w2 o2 /\ out = (o1 ++ o2)%list.
Proof.
  unfold bind. destruct (m w) as [a w1 o1|f].
  - destruct (k a w1) as [b' w2' o2|f] eqn:Hk.
    + split.
      * intros Heq. inversion Heq. subst. eauto 8.
      * intros (a' & w1' & o1' & o2' & Hm & Hk' & ->).
        inversion Hm. subst. rewrite Hk in Hk'. now inversion Hk'.
    + split; [discriminate|].
      intros (a' & w1' & o1' & o2' & Hm & Hk' & _).
      inversion Hm. subst. rewrite Hk in Hk'. discriminate.
  - split; [discriminate|].
    intros (a' & w1' & o1' & o2' & Hm & _). discriminate.
Qed.

End Runs.

Lemma quiet_nil : quiet [].
Proof. reflexivity. Qed.

Lemma quiet_app o1 o2 : quiet o1 -> quiet o2 -> quiet (o1 ++ o2).
Proof. unfold quiet. rewrite forallb_app. intros -> ->. reflexivity. Qed.

Lemma quiet_not_failed out : quiet out -> ~ sync_failed out.
Proof.
  unfold quiet. rewrite forallb_forall.
  intros Hq (st & _ & [Hin|Hin]); apply Hq in Hin; discriminate.
Qed.

Lemma sync_failed_app o1 o2 :
  sync_failed (o1 ++ o2) <-> sync_failed o1 \/ sync_failed o2.
Proof.
  unfold sync_failed. split.
  - intros (st & Hst & Hin). rewrite !in_app_iff in Hin.
    destruct Hin as [[?|?]|[?|?]]; eauto 6.
  - intros [(st & Hst & Hin)|(st & Hst & Hin)];
      exists st; rewrite !in_app_iff; tauto.
Qed.

Create HintDb vlimit.
#[local] Hint Resolve quiet_nil quiet_app : vlimit.

(** ** Scanning a table *)

Lemma for_slots_spec n i hit :
  0 <= i ->
  (for_slots n i hit = -1 /\
   forall j, i <= j < i + Z.of_nat n -> hit j = false) \/
  (i <= for_slots n i hit < i + Z.of_nat n /\
   hit (for_slots n i hit) = true /\
   forall j, i <= j < for_slots n i hit -> hit j = false).
Proof.
  revert i. induction n as [|n IH]; intros i Hi; simpl for_slots.
  - left. split; [reflexivity|]. intros j Hj. lia.
  - destruct (hit i) eqn:Hhit.
    + right. split; [lia|]. split; [assumption|]. intros j Hj. lia.
    + destruct (IH (i + 1)) as [[Heq Hall]|(Hrange & Hh & Hall)]; [lia| |].
      * left. split; [assumption|]. intros j Hj.
        destruct (Z.eq_dec j i) as [->|Hne]; [assumption|]. apply Hall. lia.
      * right. split; [lia|]. split; [assumption|]. intros j Hj.
        destruct (Z.eq_dec j i) as [->|Hne]; [assumption|]. apply Hall. lia.
Qed.

Lemma for_slots_ext n i hit hit' :
  (forall j, i <= j < i + Z.of_nat n -> hit j = hit' j) ->
  for_slots n i hit = for_slots n i hit'.
Proof.
  revert i. induction n as [|n IH]; intros i Hext; simpl; [reflexivity|].
  rewrite <- (Hext i) by lia. destruct (hit i); [reflexivity|].
  apply IH. intros j Hj. apply Hext. lia.
Qed.

(** The four scans of the source are instances of one. *)
Definition scan {A} (arr : list A) (p : A -> bool) : Z :=
  for_slots (Z.to_nat MAX_CLIENTS) 0 (fun i =>
    match slot_at arr i with
    | Some s => p s
    | None => false
    end).

Lemma scan_spec {A} (arr : list A) p :
  (scan arr p = -1 /\
   forall j s, 0 <= j < MAX_CLIENTS -> slot_at arr j = Some s -> p s = false) \/
  (0 <= scan arr p < MAX_CLIENTS /\
   exists s, slot_at arr (scan arr p) = Some s /\ p s = true /\
     forall j s', 0 <= j < scan arr p -> slot_at arr j = Some s' -> p s' = false).
Proof.
  unfold scan.
  set (hit := fun i => match slot_at arr i with Some s => p s | None => false end).
  destruct (for_slots_spec (Z.to_nat MAX_CLIENTS) 0 hit) as
    [[Heq Hall]|(Hrange & Hhit & Hall)]; [lia| |].
  - left. split; [assumption|]. intros j s Hj Hs.
    specialize (Hall j). unfold hit in Hall. rewrite Hs in Hall. apply Hall.
    unfold MAX_CLIENTS in *. lia.
  - right. split; [unfold MAX_CLIENTS in *; lia|].
    unfold hit in Hhit at 1.
    destruct (slot_at arr (for_slots (Z.to_nat MAX_CLIENTS) 0 hit)) as [s|] eqn:Hs;
      [|discriminate].
    exists s. split; [reflexivity|]. split; [assumption|].
    intros j s' Hj Hs'. specialize (Hall j Hj). unfold hit in Hall.
    now rewrite Hs' in Hall.
Qed.

Lemma scan_miss {A} (arr : list A) p :
  scan arr p = -1 ->
  forall j s, 0 <= j < MAX_CLIENTS -> slot_at arr j = Some s -> p s = false.
Proof.
  intros Heq. destruct (scan_spec arr p) as [[_ H]|[Hr _]]; [assumption|lia].
Qed.

Lemma scan_hit {A} (arr : list A) p :
  scan arr p <> -1 ->
  0 <= scan arr p < MAX_CLIENTS /\
  exists s, slot_at arr (scan arr p) = Some s /\ p s = true.
Proof.
  intros Hne. destruct (scan_spec arr p) as [[Heq _]|[Hr (s & Hs & Hp & _)]];
    [contradiction|eauto].
Qed.

Lemma scan_first {A} (arr : list A) p j s :
  0 <= j -> (j < scan arr p \/ scan arr p = -1) -> j < MAX_CLIENTS ->
  slot_at arr j = Some s -> p s = false.
Proof.
  intros Hj Hlt Hmax Hs.
  destruct (scan_spec arr p) as [[Heq H]|[Hr (s0 & _ & _ & H)]].
  - apply (H j); [lia|assumption].
  - apply (H j); [lia|assumption].
Qed.

Lemma scan_ext {A} (arr arr' : list A) p p' :
  (forall j, 0 <= j < MAX_CLIENTS ->
     match slot_at arr j with Some s => p s | None => false end =
     match slot_at arr' j with Some s => p' s | None => false end) ->
  scan arr p = scan arr' p'.
Proof.
  intros Hext. unfold scan. apply for_slots_ext. intros j Hj. apply Hext.
  unfold MAX_CLIENTS in *. lia.
Qed.

Lemma slot_at_Some {A} (arr : list A) id s :
  slot_at arr id = Some s ->
  0 <= id /\ (Z.to_nat id < length arr)%nat /\ arr !! Z.to_nat id = Some s.
Proof.
  unfold slot_at. destruct (id <? 0) eqn:Hneg; [discriminate|].
  intros Hs. split; [lia|]. split; [|assumption].
  now apply lookup_lt_Some in Hs.
Qed.

Lemma slot_at_nonneg {A} (arr : list A) id s :
  slot_at arr id = Some s -> 0 <= id.
Proof. intros Hs. apply slot_at_Some in Hs. tauto. Qed.

Lemma slot_at_insert_eq {A} (arr : list A) id s s' :
  slot_at arr id = Some s -> slot_at (<[Z.to_nat id := s']> arr) id = Some s'.
Proof.
  intros Hs. apply slot_at_Some in Hs as (Hid & Hlen & _).
  unfold slot_at. replace (id <? 0) with false by lia.
  now apply list_lookup_insert_eq.
Qed.

Lemma slot_at_insert_ne {A} (arr : list A) id j s' :
  0 <= id -> id <> j -> slot_at (<[Z.to_nat id := s']> arr) j = slot_at arr j.
Proof.
  intros Hid Hne. unfold slot_at. destruct (j <? 0) eqn:Hj; [reflexivity|].
  apply list_lookup_insert_ne. lia.
Qed.

Lemma slot_at_insert {A} (arr : list A) id j s s' :
  slot_at arr id = Some s ->
  slot_at (<[Z.to_nat id := s']> arr) j =
  if Z.eq_dec id j then Some s' else slot_at arr j.
Proof.
  intros Hs. destruct (Z.eq_dec id j) as [<-|Hne].
  - eapply slot_at_insert_eq; eassumption.
  - apply slot_at_insert_ne; [|assumption]. now apply slot_at_Some in Hs.
Qed.

(** ** The table routines, case by case *)

Definition with_stat (w : world) (t : SHM_DATA) : world :=
  {| shm_data := t; mutex_held := mutex_held w |}.

Definition set_file_slot (t : SHM_DATA) (id : Z) (s : file_data.file_stat) : SHM_DATA :=
  {| file_stat_shm := <[Z.to_nat id := s]> (file_stat_shm t);
     ip_stat_shm := ip_stat_shm t |}.

Definition set_ip_slot (t : SHM_DATA) (id : Z) (s : ip_data.ip_stat) : SHM_DATA :=
  {| file_stat_shm := file_stat_shm t;
     ip_stat_shm := <[Z.to_nat id := s]> (ip_stat_shm t) |}.

Arguments for_slots : simpl never.
Arguments get_file_slot_id : simpl never.
Arguments get_file_empty_slot_id : simpl never.
Arguments get_ip_slot_id : simpl never.
Arguments get_ip_empty_slot_id : simpl never.

Lemma with_stat_id w : with_stat w (shm_data w) = w.
Proof. now destruct w. Qed.

Section TableRoutines.

Variable e : env.

Lemma inc_file_counter_found r w s :
  get_file_slot_id (shm_data w) r <> -1 ->
  slot_at (file_stat_shm (shm_data w)) (get_file_slot_id (shm_data w) r) = Some s ->
  inc_file_counter r w =
  Done 0 (with_stat w (set_file_slot (shm_data w) (get_file_slot_id (shm_data w) r)
            {| file_data.filename := file_data.filename s;
               file_data.counter := int_wrap (file_data.counter s + 1) |})) [].
Proof.
  intros Hne Hs.
  assert (Hid : 0 <= get_file_slot_id (shm_data w) r)
    by (eapply slot_at_nonneg; eassumption).
  unfold inc_file_counter, bind, get_stat.
  remember (get_file_slot_id (shm_data w) r) as id.
  replace (id =? -1) with false by lia. cbn.
  replace (id >=? 0) with true by lia.
  unfold load_file, store_file, bind, get_stat, put_stat. cbn.
  rewrite Hs. cbn. rewrite Hs. reflexivity.
Qed.

Ltac run_table :=
  unfold strcpy_filename, strcpy_address, load_file, store_file, load_ip,
    store_ip, bind, get_stat, put_stat, ret, raise; cbn.

Lemma inc_file_counter_new r w s :
  get_file_slot_id (shm_data w) r = -1 ->
  get_file_empty_slot_id (shm_data w) r <> -1 ->
  slot_at (file_stat_shm (shm_data w)) (get_file_empty_slot_id (shm_data w) r) = Some s ->
  strcpy MAX_FILENAME (basename (filename r)) = Some (basename (filename r)) ->
  inc_file_counter r w =
  Done 0 (with_stat w (set_file_slot (shm_data w) (get_file_empty_slot_id (shm_data w) r)
            {| file_data.filename := basename (filename r);
               file_data.counter := int_wrap (file_data.counter s + 1) |})) [].
Proof.
  intros Hmiss Hne Hs Hfit.
  assert (Hid : 0 <= get_file_empty_slot_id (shm_data w) r)
    by (eapply slot_at_nonneg; eassumption).
  unfold inc_file_counter, bind, get_stat. rewrite Hmiss.
  remember (get_file_empty_slot_id (shm_data w) r) as id.
  cbn. replace (id =? -1) with false by lia. cbn.
  run_table. rewrite Hs, Hfit. cbn. rewrite Hs. cbn.
  replace (id >=? 0) with true by lia. cbn.
  erewrite slot_at_insert_eq by eassumption. cbn.
  erewrite slot_at_insert_eq by eassumption.
  unfold with_stat, set_file_slot. cbn. now rewrite list_insert_insert_eq.
Qed.

Lemma inc_file_counter_overflow r w s :
  get_file_slot_id (shm_data w) r = -1 ->
  get_file_empty_slot_id (shm_data w) r <> -1 ->
  slot_at (file_stat_shm (shm_data w)) (get_file_empty_slot_id (shm_data w) r) = Some s ->
  strcpy MAX_FILENAME (basename (filename r)) = None ->
  inc_file_counter r w = Fault BufferOverflow.
Proof.
  intros Hmiss Hne Hs Hfit.
  unfold inc_file_counter, bind, get_stat. rewrite Hmiss.
  remember (get_file_empty_slot_id (shm_data w) r) as id.
  cbn. replace (id =? -1) with false by lia. cbn.
  run_table. now rewrite Hs, Hfit.
Qed.

Lemma inc_file_counter_full r w :
  get_file_slot_id (shm_data w) r = -1 ->
  get_file_empty_slot_id (shm_data w) r = -1 ->
  inc_file_counter r w = Done (-1) w [].
Proof.
  intros Hmiss Hfull.
  unfold inc_file_counter, bind, get_stat. now rewrite Hmiss, Hfull.
Qed.

Lemma dec_file_counter_found r w s :
  get_file_slot_id (shm_data w) r <> -1 ->
  slot_at (file_stat_shm (shm_data w)) (get_file_slot_id (shm_data w) r) = Some s ->
  dec_file_counter e r w =
  Done 0 (with_stat w (set_file_slot (shm_data w) (get_file_slot_id (shm_data w) r)
            {| file_data.filename := file_data.filename s;
               file_data.counter := int_wrap (file_data.counter s - 1) |})) [].
Proof.
  intros Hne Hs.
  assert (Hid : 0 <= get_file_slot_id (shm_data w) r)
    by (eapply slot_at_nonneg; eassumption).
  unfold dec_file_counter, bind, get_stat.
  remember (get_file_slot_id (shm_data w) r) as id.
  replace (id >=? 0) with true by lia.
  run_table. rewrite Hs. cbn. rewrite Hs. reflexivity.
Qed.

Definition debug_out (key msg : string) (args : list arg) : list event :=
  if debug_flag e then [Syslog key msg args] else [].

Lemma VLIMIT_DEBUG_SYSLOG_run key msg args w :
  VLIMIT_DEBUG_SYSLOG e key msg args w =
  Done (if debug_flag e then 0 else -1) w (debug_out key msg args).
Proof.
  unfold VLIMIT_DEBUG_SYSLOG, debug_out. now destruct (debug_flag e).
Qed.

Lemma dec_file_counter_miss r w :
  get_file_slot_id (shm_data w) r = -1 ->
  dec_file_counter e r w =
  Done (-1) w (debug_out "dec_file_counter: " "unexpected error. file slot not found." []).
Proof.
  intros Hmiss. unfold dec_file_counter, bind, get_stat. rewrite Hmiss. cbn.
  rewrite VLIMIT_DEBUG_SYSLOG_run. cbn. now rewrite app_nil_r.
Qed.

Lemma unset_file_counter_found r w s :
  slot_at (file_stat_shm (shm_data w)) (get_file_slot_id (shm_data w) r) = Some s ->
  unset_file_counter r w =
  Done tt
    (if file_data.counter s =? 0
     then with_stat w (set_file_slot (shm_data w) (get_file_slot_id (shm_data w) r)
            {| file_data.filename := EmptyString;
               file_data.counter := file_data.counter s |})
     else w) [].
Proof.
  intros Hs. unfold unset_file_counter, bind, get_stat.
  remember (get_file_slot_id (shm_data w) r) as id.
  run_table. rewrite Hs. cbn.
  destruct (file_data.counter s =? 0); cbn; [|reflexivity].
  now rewrite Hs.
Qed.

Lemma unset_file_counter_miss r w :
  get_file_slot_id (shm_data w) r = -1 ->
  unset_file_counter r w = Fault OutOfBounds.
Proof.
  intros Hmiss. unfold unset_file_counter, bind, get_stat. now rewrite Hmiss.
Qed.

Lemma inc_ip_counter_found r w s :
  get_ip_slot_id (shm_data w) r <> -1 ->
  slot_at (ip_stat_shm (shm_data w)) (get_ip_slot_id (shm_data w) r) = Some s ->
  inc_ip_counter r w =
  Done 0 (with_stat w (set_ip_slot (shm_data w) (get_ip_slot_id (shm_data w) r)
            {| ip_data.address := ip_data.address s;
               ip_data.counter := int_wrap (ip_data.counter s + 1) |})) [].
Proof.
  intros Hne Hs.
  assert (Hid : 0 <= get_ip_slot_id (shm_data w) r)
    by (eapply slot_at_nonneg; eassumption).
  unfold inc_ip_counter, bind, get_stat.
  remember (get_ip_slot_id (shm_data w) r) as id.
  replace (id =? -1) with false by lia. cbn.
  replace (id >=? 0) with true by lia.
  run_table. rewrite Hs. cbn. rewrite Hs. reflexivity.
Qed.

Lemma inc_ip_counter_new r w s :
  get_ip_slot_id (shm_data w) r = -1 ->
  get_ip_empty_slot_id (shm_data w) r <> -1 ->
  slot_at (ip_stat_shm (shm_data w)) (get_ip_empty_slot_id (shm_data w) r) = Some s ->
  strcpy IP_MAX (remote_ip r) = Some (remote_ip r) ->
  inc_ip_counter r w =
  Done 0 (with_stat w (set_ip_slot (shm_data w) (get_ip_empty_slot_id (shm_data w) r)
            {| ip_data.address := remote_ip r;
               ip_data.counter := int_wrap (ip_data.counter s + 1) |})) [].
Proof.
  intros Hmiss Hne Hs Hfit.
  assert (Hid : 0 <= get_ip_empty_slot_id (shm_data w) r)
    by (eapply slot_at_nonneg; eassumption).
  unfold inc_ip_counter, bind, get_stat. rewrite Hmiss.
  remember (get_ip_empty_slot_id (shm_data w) r) as id.
  cbn. replace (id =? -1) with false by lia. cbn.
  run_table. rewrite Hs, Hfit. cbn. rewrite Hs. cbn.
  replace (id >=? 0) with true by lia. cbn.
  erewrite slot_at_insert_eq by eassumption. cbn.
  erewrite slot_at_insert_eq by eassumption.
  unfold with_stat, set_ip_slot. cbn. now rewrite list_insert_insert_eq.
Qed.

Lemma inc_ip_counter_overflow r w s :
  get_ip_slot_id (shm_data w) r = -1 ->
  get_ip_empty_slot_id (shm_data w) r <> -1 ->
  slot_at (ip_stat_shm (shm_data w)) (get_ip_empty_slot_id (shm_data w) r) = Some s ->
  strcpy IP_MAX (remote_ip r) = None ->
  inc_ip_counter r w = Fault BufferOverflow.
Proof.
  intros Hmiss Hne Hs Hfit.
  unfold inc_ip_counter, bind, get_stat. rewrite Hmiss.
  remember (get_ip_empty_slot_id (shm_data w) r) as id.
  cbn. replace (id =? -1) with false by lia. cbn.
  run_table. now rewrite Hs, Hfit.
Qed.

Lemma inc_ip_counter_full r w :
  get_ip_slot_id (shm_data w) r = -1 ->
  get_ip_empty_slot_id (shm_data w) r = -1 ->
  inc_ip_counter r w = Done (-1) w [].
Proof.
  intros Hmiss Hfull.
  unfold inc_ip_counter, bind, get_stat. now rewrite Hmiss, Hfull.
Qed.

Lemma dec_ip_counter_found r w s :
  get_ip_slot_id (shm_data w) r <> -1 ->
  slot_at (ip_stat_shm (shm_data w)) (get_ip_slot_id (shm_data w) r) = Some s ->
  dec_ip_counter e r w =
  Done 0 (with_stat w (set_ip_slot (shm_data w) (get_ip_slot_id (shm_data w) r)
            {| ip_data.address := ip_data.address s;
               ip_data.counter := int_wrap (ip_data.counter s - 1) |})) [].
Proof.
  intros Hne Hs.
  assert (Hid : 0 <= get_ip_slot_id (shm_data w) r)
    by (eapply slot_at_nonneg; eassumption).
  unfold dec_ip_counter, bind, get_stat.
  remember (get_ip_slot_id (shm_data w) r) as id.
  replace (id >=? 0) with true by lia.
  run_table. rewrite Hs. cbn. rewrite Hs. reflexivity.
Qed.

Lemma dec_ip_counter_miss r w :
  get_ip_slot_id (shm_data w) r = -1 ->
  dec_ip_counter e r w =
  Done (-1) w (debug_out "dec_ip_counter: " "unexpected error. ip slot not found." []).
Proof.
  intros Hmiss. unfold dec_ip_counter, bind, get_stat. rewrite Hmiss. cbn.
  rewrite VLIMIT_DEBUG_SYSLOG_run. cbn. now rewrite app_nil_r.
Qed.

Lemma unset_ip_counter_found r w s :
  slot_at (ip_stat_shm (shm_data w)) (get_ip_slot_id (shm_data w) r) = Some s ->
  unset_ip_counter r w =
  Done tt
    (if ip_data.counter s =? 0
     then with_stat w (set_ip_slot (shm_data w) (get_ip_slot_id (shm_data w) r)
            {| ip_data.address := EmptyString;
               ip_data.counter := ip_data.counter s |})
     else w) [].
Proof.
  intros Hs. unfold unset_ip_counter, bind, get_stat.
  remember (get_ip_slot_id (shm_data w) r) as id.
  run_table. rewrite Hs. cbn.
  destruct (ip_data.counter s =? 0); cbn; [|reflexivity].
  now rewrite Hs.
Qed.

Lemma unset_ip_counter_miss r w :
  get_ip_slot_id (shm_data w) r = -1 ->
  unset_ip_counter r w = Fault OutOfBounds.
Proof.
  intros Hmiss. unfold unset_ip_counter, bind, get_stat. now rewrite Hmiss.
Qed.

End TableRoutines.

(** ** [realpath_for_vlimit] stays inside [resolved_path] *)

(** The buffer starts with the slash of the root: as the list has the last
    character first, that slash is its last element. *)
Definition rooted (npath : list ascii) : Prop :=
  exists pre, npath = pre ++ ["/"%char].

Lemma rooted_cons c npath : rooted npath -> rooted (c :: npath).
Proof. intros [pre ->]. now exists (c :: pre). Qed.

Lemma rooted_root : rooted ["/"%char].
Proof. now exists []. Qed.

Lemma rooted_tail c c' npath : rooted (c :: c' :: npath) -> rooted (c' :: npath).
Proof.
  intros [pre Heq]. destruct pre as [|x pre]; [discriminate|].
  inversion Heq. now exists pre.
Qed.

Lemma pop_component_rooted npath : rooted npath -> rooted (pop_component npath).
Proof.
  induction npath as [|c npath IH]; intros Hr; [assumption|].
  destruct npath as [|c' npath]; [assumption|].
  cbn [pop_component]. apply rooted_tail in Hr.
  destruct (Ascii.eqb c' "/"); [assumption|]. now apply IH.
Qed.

Lemma skip_dots_rooted n : forall path npath,
  (length path <= n)%nat -> rooted npath -> rooted (snd (skip_dots path npath)).
Proof.
  induction n as [|n IH]; intros path npath Hlen Hr.
  - destruct path; [assumption|]. cbn in Hlen. lia.
  - destruct path as [|c path1]; [assumption|].
    cbn [skip_dots]. cbn in Hlen.
    destruct (Ascii.eqb c "/"); [apply IH; [lia|assumption]|].
    destruct (Ascii.eqb c "."); [|assumption].
    destruct path1 as [|c1 path2]; [assumption|].
    cbn in Hlen.
    destruct (Ascii.eqb c1 "/"); [apply IH; [cbn; lia|assumption]|].
    destruct (Ascii.eqb c1 "."); [|assumption].
    destruct path2 as [|c2 path3]; [cbn; now apply pop_component_rooted|].
    destruct (Ascii.eqb c2 "/"); [|assumption].
    apply IH; [cbn in *; lia|]. now apply pop_component_rooted.
Qed.

Lemma copy_component_rooted maxreslth : forall path npath path' npath',
  copy_component maxreslth path npath = Some (path', npath') ->
  rooted npath -> rooted npath'.
Proof.
  induction path as [|c path IH]; intros npath path' npath' Hc Hr; cbn in Hc.
  - inversion Hc. now subst.
  - destruct (Ascii.eqb c "/"); [inversion Hc; now subst|].
    destruct (Z.of_nat (length npath) >? maxreslth - 2); [discriminate|].
    eapply IH; [eassumption|]. now apply rooted_cons.
Qed.

Lemma back_to_slash_rooted npath :
  rooted npath ->
  exists npath', back_to_slash npath = Some npath' /\ rooted ("/"%char :: npath').
Proof.
  induction npath as [|c npath IH]; intros Hr.
  - destruct Hr as [pre Heq]. now destruct pre.
  - cbn [back_to_slash]. destruct (Ascii.eqb c "/") eqn:Hc.
    + exists npath. split; [reflexivity|].
      apply Ascii.eqb_eq in Hc. now subst c.
    + destruct npath as [|c' npath].
      * destruct Hr as [pre Heq]. destruct pre as [|x [|y pre]]; try discriminate.
        inversion Heq. subst c. discriminate.
      * apply IH. eapply rooted_tail. eassumption.
Qed.

Lemma realpath_finish_defined npath :
  rooted npath -> realpath_finish npath <> Undefined.
Proof.
  intros [pre ->]. unfold realpath_finish.
  destruct (pre ++ ["/"%char]) as [|c l] eqn:Heq; [now destruct pre|].
  now destruct (negb (Z.of_nat (length (c :: l)) =? 1) && Ascii.eqb c "/").
Qed.

Section Realpath.

Variable e : env.

Lemma realpath_loop_defined left maxreslth : forall readlinks path npath,
  rooted npath ->
  realpath_loop e left maxreslth readlinks path npath <> Undefined.
Proof.
  induction left as [|left IH]; intros readlinks path npath Hr.
  - cbn [realpath_loop].
    pose proof (skip_dots_rooted (length path) path npath (le_n _) Hr) as Hs.
    destruct (skip_dots path npath) as [[|c p1] b1]; cbn in Hs.
    + now apply realpath_finish_defined.
    + destruct (copy_component maxreslth (c :: p1) b1) as [[p2 b2]|]; [|discriminate].
      now destruct (readlinks >? MAXSYMLINKS).
  - cbn [realpath_loop].
    pose proof (skip_dots_rooted (length path) path npath (le_n _) Hr) as Hs.
    destruct (skip_dots path npath) as [[|c p1] b1]; cbn in Hs.
    + now apply realpath_finish_defined.
    + destruct (copy_component maxreslth (c :: p1) b1) as [[p2 b2]|] eqn:Hc;
        [|discriminate].
      apply copy_component_rooted in Hc; [|assumption].
      destruct (readlinks >? MAXSYMLINKS); [discriminate|].
      destruct (fs_readlink e (string_of_list_ascii (rev b2))) as [target|errno].
      * destruct (back_to_slash_rooted b2 Hc) as (b3 & Hb & Hr3).
        destruct (firstn (Z.to_nat PATH_MAX) (list_ascii_of_string target))
          as [|c0 l0].
        -- rewrite Hb. now apply IH.
        -- destruct (Ascii.eqb c0 "/").
           ++ apply IH. apply rooted_root.
           ++ rewrite Hb. now apply IH.
      * destruct (negb (errno =? EINVAL)); [discriminate|].
        apply IH. now apply rooted_cons.
Qed.

Lemma realpath_for_vlimit_defined path maxreslth :
  realpath_for_vlimit e path maxreslth <> Undefined.
Proof.
  unfold realpath_for_vlimit.
  assert (Hrel : forall p,
    match fs_getcwd e with
    | Some below_root =>
        let cwd := String "/" below_root in
        if Z.of_nat (String.length cwd) + 1 >? maxreslth - 2 then Null ERANGE
        else
          match rev (list_ascii_of_string cwd) with
          | [] => Undefined
          | c :: npath =>
              realpath_loop e (Z.to_nat (MAXSYMLINKS + 2)) maxreslth 0 p
                (if Ascii.eqb c "/" then c :: npath else "/"%char :: c :: npath)
          end
    | None => Null ERANGE
    end <> Undefined).
  { intros p. destruct (fs_getcwd e) as [below|]; [|discriminate].
    cbv zeta.
    destruct (Z.of_nat (String.length (String "/" below)) + 1 >? maxreslth - 2);
      [discriminate|].
    cbn [list_ascii_of_string rev].
    assert (Hr : rooted (rev (list_ascii_of_string below) ++ ["/"%char]))
      by (now eexists).
    destruct (rev (list_ascii_of_string below) ++ ["/"%char]) as [|c l];
      [destruct Hr as [pre Hp]; now destruct pre|].
    apply realpath_loop_defined.
    destruct (Ascii.eqb c "/"); [assumption|now apply rooted_cons]. }
  destruct (list_ascii_of_string path) as [|c p]; [apply Hrel|].
  destruct (Ascii.eqb c "/") eqn:Hc.
  - apply Ascii.eqb_eq in Hc. subst c. apply realpath_loop_defined, rooted_root.
  - assert (Hne : c <> "/"%char) by (now apply Ascii.eqb_neq).
    destruct c as [[] [] [] [] [] [] [] []]; try apply Hrel.
    now contradiction Hne.
Qed.

End Realpath.

(** ** What one routine may change *)

Definition mutex_events (out : list event) : list event :=
  List.filter is_mutex_event out.

Lemma mutex_events_app o1 o2 :
  mutex_events (o1 ++ o2) = mutex_events o1 ++ mutex_events o2.
Proof. apply List.filter_app. Qed.

Lemma mutex_events_quiet out : quiet out -> mutex_events out = [].
Proof.
  unfold quiet, mutex_events. induction out as [|ev out IH]; [reflexivity|].
  cbn [forallb List.filter]. rewrite andb_true_iff. intros [Hev Hout].
  destruct (is_mutex_event ev); [discriminate|]. now apply IH.
Qed.

Lemma in_mutex_events ev out :
  is_mutex_event ev = true -> (In ev (mutex_events out) <-> In ev out).
Proof. intros Hev. unfold mutex_events. rewrite List.filter_In. tauto. Qed.


Section Summaries.

Variable e : env.

Lemma debug_out_quiet key msg args : quiet (debug_out e key msg args).
Proof. unfold debug_out. now destruct (debug_flag e). Qed.

Lemma mutex_events_debug_out key msg args :
  mutex_events (debug_out e key msg args) = [].
Proof. apply mutex_events_quiet, debug_out_quiet. Qed.

Lemma runs_dbg F key msg args w (Q : Z -> world -> list event -> Prop) :
  (forall rc, Q rc w (debug_out e key msg args)) ->
  runs F (VLIMIT_DEBUG_SYSLOG e key msg args) w Q.
Proof. intros HQ. unfold runs. rewrite VLIMIT_DEBUG_SYSLOG_run. apply HQ. Qed.

(** The routines that only read the tables. *)
Definition reads {A} (m : M A) : Prop :=
  forall w, wp m w (fun _ w' out => w' = w /\ quiet out).

Lemma reads_dbg key msg args : reads (VLIMIT_DEBUG_SYSLOG e key msg args).
Proof. intros w. apply runs_dbg. intros _. split; [reflexivity|apply debug_out_quiet]. Qed.

Lemma reads_ret {A} (a : A) : reads (ret a).
Proof. intros w. now apply runs_ret. Qed.

Lemma reads_bind {A B} (m : M A) (k : A -> M B) :
  reads m -> (forall a, reads (k a)) -> reads (bind m k).
Proof.
  intros Hm Hk w. apply runs_bind. eapply runs_mono; [apply Hm|auto|].
  intros a w1 o1 [-> Hq1]. eapply runs_mono; [apply Hk|auto|].
  intros b w2 o2 [-> Hq2]. split; [reflexivity|now apply quiet_app].
Qed.

Lemma reads_get_stat : reads get_stat.
Proof. intros w. now cbn. Qed.

Lemma reads_emit ev : is_mutex_event ev = false -> reads (emit ev).
Proof. intros Hev w. cbn. split; [reflexivity|]. unfold quiet. cbn. now rewrite Hev. Qed.

Lemma reads_if {A} (c : bool) (m1 m2 : M A) :
  reads m1 -> reads m2 -> reads (if c then m1 else m2).
Proof. now destruct c. Qed.

Lemma reads_make_ip_slot_list r : reads (make_ip_slot_list e r).
Proof.
  unfold make_ip_slot_list.
  apply reads_bind; [apply reads_get_stat|]. intros t.
  repeat first [apply reads_if | apply reads_ret | apply reads_bind; [|intros ?]
               | now apply reads_emit].
Qed.

Lemma reads_make_file_slot_list r : reads (make_file_slot_list e r).
Proof.
  unfold make_file_slot_list.
  apply reads_bind; [apply reads_get_stat|]. intros t.
  repeat first [apply reads_if | apply reads_ret | apply reads_bind; [|intros ?]
               | now apply reads_emit].
Qed.

Lemma reads_vlimit_logging msg r cfg : reads (vlimit_logging e msg r cfg).
Proof.
  unfold vlimit_logging.
  apply reads_bind; [apply reads_get_stat|]. intros t.
  repeat first [apply reads_if | apply reads_ret | apply reads_bind; [|intros ?]
               | now apply reads_emit].
Qed.

Lemma reads_log_unless_untouched counter_stat msg r cfg :
  reads (log_unless_untouched e counter_stat msg r cfg).
Proof.
  unfold log_unless_untouched.
  repeat first [apply reads_vlimit_logging | apply reads_if | apply reads_ret
               | apply reads_bind; [|intros ?]].
Qed.

Lemma reads_check_alias_names host elts : reads (check_alias_names e host elts).
Proof.
  induction elts as [|alias_name elts IH]; cbn [check_alias_names].
  - apply reads_ret.
  - repeat first [apply reads_dbg | apply IH | apply reads_if | apply reads_ret
                 | apply reads_bind; [|intros ?]].
Qed.

Lemma reads_check_virtualhost_name r : reads (check_virtualhost_name e r).
Proof.
  unfold check_virtualhost_name.
  repeat first [apply reads_dbg | apply reads_if | apply reads_ret
               | apply reads_bind; [|intros ?]].
  destruct (names r); [apply reads_check_alias_names|apply reads_ret].
Qed.

Lemma reads_real_path_dir r : reads (real_path_dir e r).
Proof.
  unfold real_path_dir. apply reads_if; [apply reads_ret|].
  pose proof (realpath_for_vlimit_defined e (filename r) PATH_MAX) as Hdef.
  destruct (realpath_for_vlimit e (filename r) PATH_MAX);
    [apply reads_ret|apply reads_ret|contradiction].
Qed.

End Summaries.

(** ** The admission, path by path *)

(** The feature is off for the scope. *)
Definition disabled (cfg : vlimit_config) : Prop :=
  ip_limit cfg <= 0 /\ file_limit cfg <= 0.

(** The host of the request is the server's name or one of its aliases. *)
Definition vhost_match (r : request_rec) : Prop :=
  access_host r = server_hostname r \/
  exists elts, names r = Some elts /\ In (access_host r) elts.

(** The counts the decision compares: what [get_ip_counter] and
    [get_file_counter] return after the increments, 0 for a limit that is
    off. *)
Definition observed_ip_count (cfg : vlimit_config) (t : SHM_DATA) (r : request_rec) : Z :=
  if ip_limit cfg >? 0 then get_ip_counter t r else 0.

Definition observed_file_count (cfg : vlimit_config) (t : SHM_DATA) (r : request_rec) : Z :=
  if file_limit cfg >? 0 then get_file_counter t r else 0.

(** The if-chain that closes [vlimit_check_limit]. *)
Definition decision (cfg : vlimit_config) (ip_count file_count : Z) : Z :=
  if (ip_limit cfg >? 0) && (ip_count >? ip_limit cfg) then HTTP_SERVICE_UNAVAILABLE
  else if (file_limit cfg >? 0) && (file_count >? file_limit cfg)
       then HTTP_SERVICE_UNAVAILABLE
       else OK.

Definition locked (w : world) : world :=
  {| shm_data := shm_data w; mutex_held := true |}.

Definition unlocked (w : world) : world :=
  {| shm_data := shm_data w; mutex_held := false |}.

(** The runs of [vlimit_check_limit] that end: the result, the world left
    and the calls made on the mutex. *)
Inductive check_limit_run (e : env) (r : request_rec) (cfg : vlimit_config)
    (w : world) : Z -> world -> list event -> Prop :=
| CL_skipped :
    is_initial_req r = false \/ disabled cfg ->
    check_limit_run e r cfg w DECLINED w []
| CL_other_host :
    is_initial_req r = true -> ~ disabled cfg -> ~ vhost_match r ->
    check_limit_run e r cfg w OK w []
| CL_lock_failed :
    is_initial_req r = true -> ~ disabled cfg -> vhost_match r ->
    lock_status e <> APR_SUCCESS ->
    check_limit_run e r cfg w OK w [MutexLock (lock_status e)]
| CL_slot_full w' :
    is_initial_req r = true -> ~ disabled cfg -> vhost_match r ->
    lock_status e = APR_SUCCESS ->
    mutex_held w' = true ->
    check_limit_run e r cfg w HTTP_SERVICE_UNAVAILABLE w' [MutexLock APR_SUCCESS]
| CL_unlock_failed w' :
    is_initial_req r = true -> ~ disabled cfg -> vhost_match r ->
    lock_status e = APR_SUCCESS -> unlock_status e <> APR_SUCCESS ->
    mutex_held w' = true ->
    check_limit_run e r cfg w OK w'
      [MutexLock APR_SUCCESS; MutexUnlock (unlock_status e)]
| CL_decided w' :
    is_initial_req r = true -> ~ disabled cfg -> vhost_match r ->
    lock_status e = APR_SUCCESS -> unlock_status e = APR_SUCCESS ->
    mutex_held w' = false ->
    check_limit_run e r cfg w
      (decision cfg (observed_ip_count cfg (shm_data w') r)
                    (observed_file_count cfg (shm_data w') r))
      w' [MutexLock APR_SUCCESS; MutexUnlock APR_SUCCESS].

Lemma get_file_slot_id_scan t r :
  get_file_slot_id t r =
  scan (file_stat_shm t)
    (fun s => String.eqb (file_data.filename s) (basename (filename r))).
Proof. reflexivity. Qed.

Lemma get_file_empty_slot_id_scan t r :
  get_file_empty_slot_id t r =
  scan (file_stat_shm t) (fun s => is_empty_str (file_data.filename s)).
Proof. reflexivity. Qed.

Lemma get_ip_slot_id_scan t r :
  get_ip_slot_id t r =
  scan (ip_stat_shm t) (fun s => String.eqb (ip_data.address s) (remote_ip r)).
Proof. reflexivity. Qed.

Lemma get_ip_empty_slot_id_scan t r :
  get_ip_empty_slot_id t r =
  scan (ip_stat_shm t) (fun s => is_empty_str (ip_data.address s)).
Proof. reflexivity. Qed.

Lemma get_file_counter_ext t t' r :
  file_stat_shm t = file_stat_shm t' -> get_file_counter t r = get_file_counter t' r.
Proof.
  intros Heq.
  unfold get_file_counter, get_file_slot_id, get_file_empty_slot_id.
  rewrite Heq. reflexivity.
Qed.

Lemma get_ip_counter_ext t t' r :
  ip_stat_shm t = ip_stat_shm t' -> get_ip_counter t r = get_ip_counter t' r.
Proof.
  intros Heq.
  unfold get_ip_counter, get_ip_slot_id, get_ip_empty_slot_id.
  rewrite Heq. reflexivity.
Qed.

Lemma runs_eq {A} F (m : M A) w a w1 o1 (Q : A -> world -> list event -> Prop) :
  m w = Done a w1 o1 -> Q a w1 o1 -> runs F m w Q.
Proof. intros Hm HQ. unfold runs. now rewrite Hm. Qed.

Section Admission.

Variable e : env.

Lemma runs_reads {A} F (m : M A) w (Q : A -> world -> list event -> Prop) :
  reads m -> (forall a out, quiet out -> Q a w out) -> runs F m w Q.
Proof.
  intros Hm HQ. apply wp_runs. eapply runs_mono; [apply Hm|auto|].
  intros a w' out [-> Hq]. now apply HQ.
Qed.

Lemma check_alias_names_spec host elts w :
  wp (check_alias_names e host elts) w (fun found w' out =>
    w' = w /\ quiet out /\ (found = true <-> In host elts)).
Proof.
  induction elts as [|alias_name elts IH]; cbn [check_alias_names].
  - apply runs_ret. split; [reflexivity|]. split; [apply quiet_nil|].
    cbn. split; [discriminate|tauto].
  - apply runs_bind, runs_dbg. intros _.
    destruct (String.eqb host alias_name) eqn:Heq.
    + apply runs_bind, runs_dbg. intros _. apply runs_ret.
      split; [reflexivity|]. split.
      * repeat apply quiet_app; first [apply debug_out_quiet|apply quiet_nil].
      * apply String.eqb_eq in Heq. subst. cbn. tauto.
    + eapply runs_mono; [apply IH|auto|]. intros found w' out (-> & Hq & Hiff).
      split; [reflexivity|]. split.
      * apply quiet_app; [apply debug_out_quiet|assumption].
      * apply String.eqb_neq in Heq. cbn. rewrite Hiff.
        split; [tauto|]. intros [Habs|Hin]; [congruence|assumption].
Qed.

Lemma check_virtualhost_name_spec r w :
  wp (check_virtualhost_name e r) w (fun rc w' out =>
    w' = w /\ quiet out /\
    ((rc = 0 /\ vhost_match r) \/ (rc = 1 /\ ~ vhost_match r))).
Proof.
  unfold check_virtualhost_name, vhost_match.
  destruct (String.eqb (access_host r) (server_hostname r)) eqn:Heq.
  - apply runs_bind, runs_dbg. intros _. apply runs_ret.
    split; [reflexivity|]. split.
    + repeat apply quiet_app; first [apply debug_out_quiet|apply quiet_nil].
    + apply String.eqb_eq in Heq. tauto.
  - apply String.eqb_neq in Heq. apply runs_bind.
    destruct (names r) as [elts|].
    + eapply runs_mono; [apply check_alias_names_spec|auto|].
      intros found w' out (-> & Hq & Hiff). destruct found.
      * apply runs_ret. split; [reflexivity|]. split; [now apply quiet_app|].
        left. split; [reflexivity|]. right. exists elts. tauto.
      * apply runs_bind, runs_dbg. intros _. apply runs_ret.
        split; [reflexivity|]. split.
        -- repeat apply quiet_app;
             first [assumption|apply debug_out_quiet|apply quiet_nil].
        -- right. split; [reflexivity|].
           intros [Habs|(elts' & Hn & Hin)]; [contradiction|].
           inversion Hn. subst. apply Hiff in Hin. discriminate.
    + apply runs_ret. apply runs_bind, runs_dbg. intros _. apply runs_ret.
      split; [reflexivity|]. split.
      * repeat apply quiet_app; first [apply debug_out_quiet|apply quiet_nil].
      * right. split; [reflexivity|].
        intros [Habs|(elts' & Hn & Hin)]; [contradiction|discriminate].
Qed.

Lemma apr_global_mutex_lock_run w :
  apr_global_mutex_lock e w =
  Done (lock_status e)
    (if lock_status e =? APR_SUCCESS then locked w else w)
    [MutexLock (lock_status e)].
Proof.
  unfold apr_global_mutex_lock, bind, emit.
  now destruct (lock_status e =? APR_SUCCESS).
Qed.

Lemma apr_global_mutex_unlock_run w :
  apr_global_mutex_unlock e w =
  Done (unlock_status e)
    (if unlock_status e =? APR_SUCCESS then unlocked w else w)
    [MutexUnlock (unlock_status e)].
Proof.
  unfold apr_global_mutex_unlock, bind, emit.
  now destruct (unlock_status e =? APR_SUCCESS).
Qed.

End Admission.

Lemma get_file_slot_id_hit t r :
  get_file_slot_id t r <> -1 ->
  0 <= get_file_slot_id t r < MAX_CLIENTS /\
  exists s, slot_at (file_stat_shm t) (get_file_slot_id t r) = Some s /\
            file_data.filename s = basename (filename r).
Proof.
  intros Hne. rewrite get_file_slot_id_scan in *.
  destruct (scan_hit _ _ Hne) as (Hr & s & Hs & Hp).
  split; [assumption|]. exists s. split; [assumption|]. now apply String.eqb_eq.
Qed.

Lemma get_file_empty_slot_id_hit t r :
  get_file_empty_slot_id t r <> -1 ->
  0 <= get_file_empty_slot_id t r < MAX_CLIENTS /\
  exists s, slot_at (file_stat_shm t) (get_file_empty_slot_id t r) = Some s /\
            file_data.filename s = EmptyString.
Proof.
  intros Hne. rewrite get_file_empty_slot_id_scan in *.
  destruct (scan_hit _ _ Hne) as (Hr & s & Hs & Hp).
  split; [assumption|]. exists s. split; [assumption|].
  now destruct (file_data.filename s).
Qed.

Lemma get_ip_slot_id_hit t r :
  get_ip_slot_id t r <> -1 ->
  0 <= get_ip_slot_id t r < MAX_CLIENTS /\
  exists s, slot_at (ip_stat_shm t) (get_ip_slot_id t r) = Some s /\
            ip_data.address s = remote_ip r.
Proof.
  intros Hne. rewrite get_ip_slot_id_scan in *.
  destruct (scan_hit _ _ Hne) as (Hr & s & Hs & Hp).
  split; [assumption|]. exists s. split; [assumption|]. now apply String.eqb_eq.
Qed.

Lemma get_ip_empty_slot_id_hit t r :
  get_ip_empty_slot_id t r <> -1 ->
  0 <= get_ip_empty_slot_id t r < MAX_CLIENTS /\
  exists s, slot_at (ip_stat_shm t) (get_ip_empty_slot_id t r) = Some s /\
            ip_data.address s = EmptyString.
Proof.
  intros Hne. rewrite get_ip_empty_slot_id_scan in *.
  destruct (scan_hit _ _ Hne) as (Hr & s & Hs & Hp).
  split; [assumption|]. exists s. split; [assumption|].
  now destruct (ip_data.address s).
Qed.

Lemma strcpy_Some cap src k : strcpy cap src = Some k -> k = src.
Proof. unfold strcpy. destruct (_ <=? _); congruence. Qed.

Ltac inc_done :=
  cbn; split; [reflexivity|]; split; [reflexivity|]; split; [reflexivity|];
  first [right; reflexivity | left; split; reflexivity].

Lemma inc_file_counter_spec r w :
  runs (fun f => f = BufferOverflow) (inc_file_counter r) w (fun rc w' out =>
    out = [] /\ mutex_held w' = mutex_held w /\
    ip_stat_shm (shm_data w') = ip_stat_shm (shm_data w) /\
    ((rc = -1 /\ w' = w) \/ rc = 0)).
Proof.
  destruct (Z.eq_dec (get_file_slot_id (shm_data w) r) (-1)) as [Hmiss|Hhit].
  - destruct (Z.eq_dec (get_file_empty_slot_id (shm_data w) r) (-1)) as [Hfull|Hfree].
    + eapply runs_eq; [apply inc_file_counter_full; assumption|]. inc_done.
    + destruct (get_file_empty_slot_id_hit _ _ Hfree) as (_ & s & Hs & _).
      destruct (strcpy MAX_FILENAME (basename (filename r))) as [k|] eqn:Hcpy.
      * pose proof (strcpy_Some _ _ _ Hcpy). subst k.
        eapply runs_eq; [eapply inc_file_counter_new; eassumption|]. inc_done.
      * unfold runs. erewrite inc_file_counter_overflow by eassumption. reflexivity.
  - destruct (get_file_slot_id_hit _ _ Hhit) as (_ & s & Hs & _).
    eapply runs_eq; [eapply inc_file_counter_found; eassumption|]. inc_done.
Qed.

Lemma inc_ip_counter_spec r w :
  runs (fun f => f = BufferOverflow) (inc_ip_counter r) w (fun rc w' out =>
    out = [] /\ mutex_held w' = mutex_held w /\
    file_stat_shm (shm_data w') = file_stat_shm (shm_data w) /\
    ((rc = -1 /\ w' = w) \/ rc = 0)).
Proof.
  destruct (Z.eq_dec (get_ip_slot_id (shm_data w) r) (-1)) as [Hmiss|Hhit].
  - destruct (Z.eq_dec (get_ip_empty_slot_id (shm_data w) r) (-1)) as [Hfull|Hfree].
    + eapply runs_eq; [apply inc_ip_counter_full; assumption|]. inc_done.
    + destruct (get_ip_empty_slot_id_hit _ _ Hfree) as (_ & s & Hs & _).
      destruct (strcpy IP_MAX (remote_ip r)) as [k|] eqn:Hcpy.
      * pose proof (strcpy_Some _ _ _ Hcpy). subst k.
        eapply runs_eq; [eapply inc_ip_counter_new; eassumption|]. inc_done.
      * unfold runs. erewrite inc_ip_counter_overflow by eassumption. reflexivity.
  - destruct (get_ip_slot_id_hit _ _ Hhit) as (_ & s & Hs & _).
    eapply runs_eq; [eapply inc_ip_counter_found; eassumption|]. inc_done.
Qed.

Ltac mev :=
  repeat first
    [ rewrite mutex_events_app
    | rewrite mutex_events_debug_out
    | match goal with H : quiet ?o |- context [mutex_events ?o] =>
        rewrite (mutex_events_quiet o H) end ];
  cbn [mutex_events List.filter is_mutex_event app].

Lemma runs_get_stat {A} F (k : SHM_DATA -> M A) w
    (Q : A -> world -> list event -> Prop) :
  runs F (k (shm_data w)) w Q -> runs F (bind get_stat k) w Q.
Proof. unfold runs, bind, get_stat. now destruct (k (shm_data w) w). Qed.


Section AdmissionRuns.

Variable e : env.

Definition decide_post (cfg : vlimit_config) (ipc fc : Z) (w1 : world)
    (rc : Z) (w' : world) (out : list event) : Prop :=
  (unlock_status e <> APR_SUCCESS /\ rc = OK /\ w' = w1 /\
   mutex_events out = [MutexUnlock (unlock_status e)]) \/
  (unlock_status e = APR_SUCCESS /\ rc = decision cfg ipc fc /\ w' = unlocked w1 /\
   mutex_events out = [MutexUnlock APR_SUCCESS]).

Lemma check_limit_decide_spec r cfg cs ipc fc w :
  wp (check_limit_decide e r cfg cs ipc fc) w (decide_post cfg ipc fc w).
Proof.
  unfold check_limit_decide, decide_post.
  apply runs_bind, runs_dbg. intros _.
  apply runs_bind. eapply runs_eq; [apply apr_global_mutex_unlock_run|].
  destruct (unlock_status e =? APR_SUCCESS) eqn:Hst; cbn [negb].
  - apply Z.eqb_eq in Hst.
    apply runs_bind, runs_dbg. intros _.
    unfold decision.
    destruct ((ip_limit cfg >? 0) && (ipc >? ip_limit cfg)).
    + apply runs_bind, runs_dbg. intros _.
      apply runs_bind, runs_reads; [apply reads_log_unless_untouched|].
      intros _ o Hq. apply runs_ret. right. rewrite Hst. mev. auto.
    + destruct ((file_limit cfg >? 0) && (fc >? file_limit cfg)).
      * apply runs_bind, runs_dbg. intros _.
        apply runs_bind, runs_reads; [apply reads_log_unless_untouched|].
        intros _ o Hq. apply runs_ret. right. rewrite Hst. mev. auto.
      * apply runs_bind, runs_dbg. intros _.
        apply runs_bind, runs_reads; [apply reads_log_unless_untouched|].
        intros _ o Hq. apply runs_ret. right. rewrite Hst. mev. auto.
  - apply Z.eqb_neq in Hst.
    apply runs_bind, runs_dbg. intros _. apply runs_ret. left. mev. auto.
Qed.
(** What the part of [vlimit_check_limit] that runs under the mutex may
    end in, [w1] being the world it started from. *)
Definition held_post (cfg : vlimit_config) (r : request_rec) (fc : Z) (w1 : world)
    (rc : Z) (w' : world) (out : list event) : Prop :=
  (rc = HTTP_SERVICE_UNAVAILABLE /\ mutex_held w' = mutex_held w1 /\
   mutex_events out = []) \/
  (unlock_status e <> APR_SUCCESS /\ rc = OK /\ mutex_held w' = mutex_held w1 /\
   mutex_events out = [MutexUnlock (unlock_status e)]) \/
  (unlock_status e = APR_SUCCESS /\
   rc = decision cfg (observed_ip_count cfg (shm_data w') r) fc /\
   mutex_held w' = false /\
   mutex_events out = [MutexUnlock APR_SUCCESS]).

Lemma check_limit_ip_spec r cfg cs fc w :
  runs (fun f => f = BufferOverflow) (check_limit_ip e r cfg cs fc) w
    (fun rc w' out =>
       file_stat_shm (shm_data w') = file_stat_shm (shm_data w) /\
       held_post cfg r fc w rc w' out).
Proof.
  unfold check_limit_ip, held_post, observed_ip_count.
  destruct (ip_limit cfg >? 0) eqn:Hlim.
  - apply runs_bind, runs_dbg. intros _.
    apply runs_bind. eapply runs_mono; [apply inc_ip_counter_spec|auto|].
    intros rc w1 o1 (-> & Hheld & Hfile & Hrc).
    destruct Hrc as [[-> ->]| ->]; cbn [Z.eqb Pos.eqb].
    + apply runs_bind, runs_dbg. intros _. apply runs_ret.
      split; [reflexivity|]. left. mev. auto.
    + apply runs_get_stat.
      apply wp_runs. eapply runs_mono; [apply check_limit_decide_spec|auto|].
      intros rc w' out [(Hst & -> & -> & Hev)|(Hst & -> & -> & Hev)].
      * split; [assumption|]. right. left. mev. rewrite Hev. auto.
      * split; [assumption|]. right. right. mev. rewrite Hev. cbn. auto.
  - apply wp_runs. eapply runs_mono; [apply check_limit_decide_spec|auto|].
    intros rc w' out [(Hst & -> & -> & Hev)|(Hst & -> & -> & Hev)].
    + split; [reflexivity|]. right. left. auto.
    + split; [reflexivity|]. right. right. cbn. auto.
Qed.

Lemma check_limit_file_spec r cfg w :
  runs (fun f => f = BufferOverflow) (check_limit_file e r cfg) w
    (fun rc w' out =>
       held_post cfg r (observed_file_count cfg (shm_data w') r) w rc w' out).
Proof.
  unfold check_limit_file, observed_file_count.
  destruct (file_limit cfg >? 0) eqn:Hlim.
  - apply runs_bind, runs_dbg. intros _.
    apply runs_bind. eapply runs_mono; [apply inc_file_counter_spec|auto|].
    intros rc w1 o1 (-> & Hheld & Hip & Hrc).
    destruct Hrc as [[-> ->]| ->]; cbn [Z.eqb Pos.eqb].
    + apply runs_bind, runs_dbg. intros _. apply runs_ret.
      left. mev. auto.
    + apply runs_get_stat.
      eapply runs_mono; [apply check_limit_ip_spec|auto|].
      intros rc w' out (Hfile & Hpost). cbn.
      rewrite (get_file_counter_ext (shm_data w') (shm_data w1)) by assumption.
      unfold held_post in *. rewrite <- Hheld. mev. exact Hpost.
  - eapply runs_mono; [apply check_limit_ip_spec|auto|].
    intros rc w' out (Hfile & Hpost). exact Hpost.
Qed.

(** A fault of the admission is a [strcpy] past a key field, under the
    mutex. *)
Definition admission_fault (r : request_rec) (cfg : vlimit_config) (f : fault) : Prop :=
  f = BufferOverflow /\ is_initial_req r = true /\ ~ disabled cfg /\
  vhost_match r /\ lock_status e = APR_SUCCESS.

Lemma vlimit_check_limit_spec r cfg w :
  runs (admission_fault r cfg) (vlimit_check_limit e r cfg) w
    (fun rc w' out => check_limit_run e r cfg w rc w' (mutex_events out)).
Proof.
  unfold vlimit_check_limit.
  destruct (is_initial_req r) eqn:Hinit; cbn [negb].
  2:{ apply runs_bind, runs_dbg. intros _. apply runs_ret. mev.
      apply CL_skipped. now left. }
  destruct ((ip_limit cfg <=? 0) && (file_limit cfg <=? 0)) eqn:Hdis.
  { apply runs_bind, runs_dbg. intros _. apply runs_ret. mev.
    apply CL_skipped. right. apply andb_true_iff in Hdis. unfold disabled. lia. }
  assert (Hen : ~ disabled cfg).
  { unfold disabled. apply andb_false_iff in Hdis. lia. }
  apply runs_bind, runs_dbg. intros _.
  apply runs_bind, runs_reads; [apply reads_make_ip_slot_list|]. intros rc1 o1 Hq1.
  apply runs_bind, runs_reads;
    [apply reads_if; [apply reads_dbg|apply reads_ret]|]. intros _ o2 Hq2.
  apply runs_bind, runs_reads; [apply reads_make_file_slot_list|]. intros rc2 o3 Hq3.
  apply runs_bind, runs_reads;
    [apply reads_if; [apply reads_dbg|apply reads_ret]|]. intros _ o4 Hq4.
  apply runs_bind. apply wp_runs.
  eapply runs_mono; [apply check_virtualhost_name_spec|auto|].
  intros vh w1 o5 (-> & Hq5 & [[-> Hm]|[-> Hm]]); cbn [Z.eqb Pos.eqb negb].
  2:{ apply runs_bind, runs_dbg. intros _. apply runs_ret. mev.
      now apply CL_other_host. }
  apply runs_bind, runs_dbg. intros _.
  apply runs_bind. eapply runs_eq; [apply apr_global_mutex_lock_run|].
  destruct (lock_status e =? APR_SUCCESS) eqn:Hst; cbn [negb].
  2:{ apply Z.eqb_neq in Hst. apply runs_bind, runs_dbg. intros _. apply runs_ret.
      mev. now apply CL_lock_failed. }
  apply Z.eqb_eq in Hst.
  eapply runs_mono; [apply check_limit_file_spec|intros f ->; now repeat split|].
  intros rc w' out [(-> & Hheld & Hev)|[(Hun & -> & Hheld & Hev)|(Hun & -> & Hheld & Hev)]];
    mev; rewrite Hev, Hst; cbn [app].
  - now apply CL_slot_full.
  - now apply CL_unlock_failed.
  - now apply CL_decided.
Qed.

End AdmissionRuns.

(** ** The handler: the path check, then [vlimit_check_limit] *)

(** The path [vlimit_handler] compares with [cfg->full_path]: the file name
    as it is when the file is not there, its real path otherwise; [None]
    when [realpath_for_vlimit] returned NULL. *)
Definition scope_target (e : env) (r : request_rec) : option string :=
  if negb (fs_access e (filename r)) then Some (filename r)
  else
    match realpath_for_vlimit e (filename r) PATH_MAX with
    | Resolved p => Some p
    | _ => None
    end.

(** The request passes the full_path check. *)
Definition in_scope (e : env) (r : request_rec) (cfg : vlimit_config) : bool :=
  match full_path cfg with
  | None => true
  | Some scope =>
      match scope_target e r with
      | Some p => String.eqb scope p
      | None => false
      end
  end.


(** [pre] before and [suf] after the events of an outcome. *)
Definition wrap_out {A} (pre suf : list event) (x : outcome A) : outcome A :=
  match x with
  | Done a w out => Done a w (pre ++ out ++ suf)
  | Fault f => Fault f
  end.

Section Handler.

Variable e : env.

Lemma real_path_dir_run r w :
  real_path_dir e r w = Done (scope_target e r) w [].
Proof.
  unfold real_path_dir, scope_target.
  destruct (negb (fs_access e (filename r))); [reflexivity|].
  pose proof (realpath_for_vlimit_defined e (filename r) PATH_MAX) as Hdef.
  destruct (realpath_for_vlimit e (filename r) PATH_MAX);
    [reflexivity|reflexivity|contradiction].
Qed.

Lemma wrap_out_wrap_out {A} pre suf pre' suf' (x : outcome A) :
  wrap_out pre suf (wrap_out pre' suf' x) = wrap_out (pre ++ pre') (suf' ++ suf) x.
Proof.
  destruct x as [a w out|f]; [|reflexivity]. unfold wrap_out.
  now rewrite <- !app_assoc.
Qed.

Lemma bind_run_nil {A B} (m : M A) (k : A -> M B) w a :
  m w = Done a w [] -> bind m k w = k a w.
Proof. intros Hm. unfold bind. rewrite Hm. now destruct (k a w). Qed.

Lemma bind_dbg {B} key msg args (k : Z -> M B) w :
  bind (VLIMIT_DEBUG_SYSLOG e key msg args) k w =
  wrap_out (debug_out e key msg args) [] (k (if debug_flag e then 0 else -1) w).
Proof.
  unfold bind. rewrite VLIMIT_DEBUG_SYSLOG_run. unfold wrap_out.
  destruct (k _ w); [|reflexivity]. now rewrite app_nil_r.
Qed.

Lemma vlimit_handler_check_run r cfg w :
  vlimit_handler_check e r cfg w =
  wrap_out (debug_out e "vlimit_handler: " "Entering normal handler" [])
           (debug_out e "vlimit_handler: " "Exiting normal handler" [])
           (vlimit_check_limit e r cfg w).
Proof.
  unfold vlimit_handler_check. rewrite bind_dbg.
  unfold bind at 1. destruct (vlimit_check_limit e r cfg w) as [rc w' out|f];
    [|reflexivity].
  rewrite bind_dbg. unfold ret, wrap_out. now rewrite !app_nil_r.
Qed.

Lemma vlimit_handler_run r cfg w :
  exists pre suf, quiet pre /\ quiet suf /\
    vlimit_handler e r cfg w =
    if in_scope e r cfg then wrap_out pre suf (vlimit_check_limit e r cfg w)
    else Done DECLINED w pre.
Proof.
  unfold vlimit_handler, in_scope. rewrite bind_dbg.
  destruct (full_path cfg) as [scope|].
  - rewrite (bind_run_nil _ _ _ _ (real_path_dir_run _ _)).
    destruct (scope_target e r) as [p|].
    + destruct (String.eqb scope p); unfold negb.
      * rewrite bind_dbg, vlimit_handler_check_run, !wrap_out_wrap_out.
        eexists _, _. split; [|split; [|reflexivity]];
          repeat apply quiet_app; first [apply debug_out_quiet|apply quiet_nil].
      * rewrite !bind_dbg. unfold ret, wrap_out. rewrite !app_nil_r.
        eexists _, []. split; [|split; [apply quiet_nil|reflexivity]].
        repeat apply quiet_app; first [apply debug_out_quiet|apply quiet_nil].
    + rewrite !bind_dbg. unfold ret, wrap_out. rewrite !app_nil_r.
      eexists _, []. split; [|split; [apply quiet_nil|reflexivity]].
      repeat apply quiet_app; first [apply debug_out_quiet|apply quiet_nil].
  - rewrite bind_dbg, vlimit_handler_check_run, !wrap_out_wrap_out.
    eexists _, _. split; [|split; [|reflexivity]];
      repeat apply quiet_app; first [apply debug_out_quiet|apply quiet_nil].
Qed.

End Handler.

Section HandlerSpec.

Variable e : env.

Lemma mutex_events_wrap pre suf out :
  quiet pre -> quiet suf ->
  mutex_events (pre ++ out ++ suf) = mutex_events out.
Proof.
  intros Hp Hs. rewrite !mutex_events_app.
  rewrite (mutex_events_quiet _ Hp), (mutex_events_quiet _ Hs).
  now rewrite app_nil_r.
Qed.

Lemma vlimit_handler_spec r cfg w :
  runs (fun f => admission_fault e r cfg f /\ in_scope e r cfg = true)
    (vlimit_handler e r cfg) w
    (fun rc w' out =>
       if in_scope e r cfg
       then check_limit_run e r cfg w rc w' (mutex_events out)
       else rc = DECLINED /\ w' = w /\ mutex_events out = []).
Proof.
  destruct (vlimit_handler_run e r cfg w) as (pre & suf & Hp & Hs & Heq).
  unfold runs. rewrite Heq. destruct (in_scope e r cfg).
  - pose proof (vlimit_check_limit_spec e r cfg w) as Hspec. unfold runs in Hspec.
    destruct (vlimit_check_limit e r cfg w) as [rc w' out|f]; cbn [wrap_out].
    + now rewrite mutex_events_wrap.
    + now split.
  - split; [reflexivity|]. split; [reflexivity|]. now apply mutex_events_quiet.
Qed.

End HandlerSpec.
Ltac inv_run H :=
  inversion H; subst;
  try match goal with
      | Hev : _ = mutex_events _ |- _ => rewrite <- Hev in *
      end.

Section AdmissionClaims.

Variable e : env.

Lemma vlimit_handler_skipped (r : request_rec) (cfg : vlimit_config) (w : world) :
  is_initial_req r = false \/ disabled cfg ->
  exists out,
    vlimit_handler e r cfg w = Done DECLINED w out /\ mutex_events out = [].
Proof.
  intros Hskip.
  pose proof (vlimit_handler_spec e r cfg w) as Hspec. unfold runs in Hspec.
  destruct (vlimit_handler e r cfg w) as [rc w' out|f].
  - destruct (in_scope e r cfg).
    + inversion Hspec; subst;
        try (destruct Hskip as [Hi|Hd]; [congruence|contradiction]).
      exists out. now split.
    + destruct Hspec as (-> & -> & Hev). now exists out.
  - destruct Hspec as [(_ & Hi & Hd & _) _].
    destruct Hskip as [Hi'|Hd']; [congruence|contradiction].
Qed.



(** C2.  When a call of [vlimit_handler] reaches the decision (it unlocked
    the mutex with success), it returns HTTP_SERVICE_UNAVAILABLE exactly when
    the IP limit is on and the IP count read after the increment is
    strictly greater than it, or the file limit is on and the file count is
    strictly greater than it; otherwise it returns OK, so a count equal to
    its limit is admitted. *)
Theorem decision_is_strictly_greater (r : request_rec) (cfg : vlimit_config)
    (w : world) (rc : Z) (w' : world) (out : list event) :
  vlimit_handler e r cfg w = Done rc w' out ->
  In (MutexUnlock APR_SUCCESS) out ->
  let ip_count := get_ip_counter (shm_data w') r in
  let file_count := get_file_counter (shm_data w') r in
  (rc = HTTP_SERVICE_UNAVAILABLE <->
   (ip_limit cfg > 0 /\ ip_count > ip_limit cfg) \/
   (file_limit cfg > 0 /\ file_count > file_limit cfg)) /\
  ((ip_limit cfg <= 0 \/ ip_count <= ip_limit cfg) /\
   (file_limit cfg <= 0 \/ file_count <= file_limit cfg) -> rc = OK) /\
  mutex_held w' = false.
Proof.
  intros Heq Hin ip_count file_count.
  pose proof (vlimit_handler_spec e r cfg w) as Hspec. unfold runs in Hspec.
  rewrite Heq in Hspec.
  apply (in_mutex_events (MutexUnlock APR_SUCCESS) out eq_refl) in Hin.
  destruct (in_scope e r cfg).
  2:{ destruct Hspec as (_ & _ & Hev). rewrite Hev in Hin. contradiction. }
  inv_run Hspec; cbn in Hin; try (exfalso; intuition congruence).
  unfold decision, observed_ip_count, observed_file_count.
  fold ip_count file_count. unfold HTTP_SERVICE_UNAVAILABLE, OK.
  split; [|split; [|assumption]]; clear Hin Hspec Heq.
  - destruct (ip_limit cfg >? 0) eqn:Hil; cbn [andb];
      [destruct (ip_count >? ip_limit cfg) eqn:Hic|];
      (destruct (file_limit cfg >? 0) eqn:Hfl; cbn [andb];
       [destruct (file_count >? file_limit cfg) eqn:Hfc|]);
      split; intros; try lia; try discriminate.
  - destruct (ip_limit cfg >? 0) eqn:Hil; cbn [andb];
      [destruct (ip_count >? ip_limit cfg) eqn:Hic|];
      (destruct (file_limit cfg >? 0) eqn:Hfl; cbn [andb];
       [destruct (file_count >? file_limit cfg) eqn:Hfc|]);
      intros; try lia.
Qed.

End AdmissionClaims.

Section FullTable.

Variable e : env.

Lemma vlimit_check_limit_file_full r cfg w :
  is_initial_req r = true -> vhost_match r -> lock_status e = APR_SUCCESS ->
  file_limit cfg > 0 ->
  get_file_slot_id (shm_data w) r = -1 ->
  get_file_empty_slot_id (shm_data w) r = -1 ->
  wp (vlimit_check_limit e r cfg) w (fun rc w' out =>
    rc = HTTP_SERVICE_UNAVAILABLE /\ w' = locked w /\
    mutex_events out = [MutexLock APR_SUCCESS]).
Proof.
  intros Hinit Hm Hlock Hlim Hmiss Hfull.
  unfold vlimit_check_limit. rewrite Hinit. cbn [negb].
  replace (file_limit cfg <=? 0) with false by lia. rewrite andb_false_r.
  apply runs_bind, runs_dbg. intros _.
  apply runs_bind, runs_reads; [apply reads_make_ip_slot_list|]. intros rc1 o1 Hq1.
  apply runs_bind, runs_reads;
    [apply reads_if; [apply reads_dbg|apply reads_ret]|]. intros _ o2 Hq2.
  apply runs_bind, runs_reads; [apply reads_make_file_slot_list|]. intros rc2 o3 Hq3.
  apply runs_bind, runs_reads;
    [apply reads_if; [apply reads_dbg|apply reads_ret]|]. intros _ o4 Hq4.
  apply runs_bind.
  eapply runs_mono; [apply check_virtualhost_name_spec|auto|].
  intros vh w1 o5 (-> & Hq5 & [[-> _]|[_ Hnm]]); [|contradiction].
  cbn [Z.eqb negb].
  apply runs_bind, runs_dbg. intros _.
  apply runs_bind. eapply runs_eq; [apply apr_global_mutex_lock_run|].
  rewrite Hlock. cbn [Z.eqb APR_SUCCESS negb].
  unfold check_limit_file. replace (file_limit cfg >? 0) with true by lia.
  apply runs_bind, runs_dbg. intros _.
  apply runs_bind.
  eapply runs_eq; [apply inc_file_counter_full; cbn [shm_data locked]; assumption|].
  cbn [Z.eqb Pos.eqb].
  apply runs_bind, runs_dbg. intros _. apply runs_ret.
  split; [reflexivity|]. split; [reflexivity|]. mev. reflexivity.
Qed.

(** C1 (what the code does).  With the file limit on, the mutex taken and
    neither a slot for the file nor an empty slot in the file table,
    [vlimit_handler] returns HTTP_SERVICE_UNAVAILABLE with the tables as
    they were and the mutex still held: the only call it made on the mutex
    is the lock. *)
Theorem full_file_table_leaves_mutex_held (r : request_rec) (cfg : vlimit_config)
    (w : world) :
  in_scope e r cfg = true ->
  is_initial_req r = true -> vhost_match r -> lock_status e = APR_SUCCESS ->
  file_limit cfg > 0 ->
  get_file_slot_id (shm_data w) r = -1 ->
  get_file_empty_slot_id (shm_data w) r = -1 ->
  exists out,
    vlimit_handler e r cfg w = Done HTTP_SERVICE_UNAVAILABLE (locked w) out /\
    mutex_events out = [MutexLock APR_SUCCESS] /\
    mutex_held (locked w) = true.
Proof.
  intros Hscope Hinit Hm Hlock Hlim Hmiss Hfull.
  pose proof (vlimit_check_limit_file_full r cfg w Hinit Hm Hlock Hlim Hmiss Hfull)
    as Hrun.
  apply wp_done in Hrun. destruct Hrun as (rc & w' & out & Heq & -> & -> & Hev).
  destruct (vlimit_handler_run e r cfg w) as (pre & suf & Hp & Hs & Hh).
  rewrite Hscope, Heq in Hh. cbn [wrap_out] in Hh.
  eexists. split; [exact Hh|]. split; [|reflexivity].
  now rewrite mutex_events_wrap.
Qed.

End FullTable.

(** C6 (what the code does).  When the base name of the file does not fit
    the [filename] field with its NUL and the file needs a new slot, the
    [strcpy] of [inc_file_counter] runs past the field: nothing truncates
    the name. *)
Theorem long_basename_overflows_filename (r : request_rec) (w : world) :
  MAX_FILENAME <= Z.of_nat (String.length (basename (filename r))) ->
  get_file_slot_id (shm_data w) r = -1 ->
  get_file_empty_slot_id (shm_data w) r <> -1 ->
  inc_file_counter r w = Fault BufferOverflow.
Proof.
  intros Hlong Hmiss Hfree.
  destruct (get_file_empty_slot_id_hit _ _ Hfree) as (_ & s & Hs & _).
  eapply inc_file_counter_overflow; try eassumption.
  unfold strcpy. now replace (_ <=? _) with false by lia.
Qed.




Section Scope.

Variable e : env.




End Scope.

(** ** The counters after an update *)

Lemma int_wrap_id z : INT_MIN <= z <= INT_MAX -> int_wrap z = z.
Proof.
  unfold int_wrap, INT_MIN, INT_MAX. intros Hz.
  rewrite Z.mod_small; lia.
Qed.

Lemma get_ip_slot_id_set t id s s' r :
  slot_at (ip_stat_shm t) id = Some s ->
  ip_data.address s' = ip_data.address s ->
  get_ip_slot_id (set_ip_slot t id s') r = get_ip_slot_id t r.
Proof.
  intros Hs Hkey. rewrite !get_ip_slot_id_scan. apply scan_ext. intros j Hj.
  cbn [set_ip_slot ip_stat_shm]. rewrite (slot_at_insert _ _ j _ _ Hs).
  destruct (Z.eq_dec id j) as [<-|Hne]; [|reflexivity].
  now rewrite Hs, Hkey.
Qed.

Lemma get_file_slot_id_set t id s s' r :
  slot_at (file_stat_shm t) id = Some s ->
  file_data.filename s' = file_data.filename s ->
  get_file_slot_id (set_file_slot t id s') r = get_file_slot_id t r.
Proof.
  intros Hs Hkey. rewrite !get_file_slot_id_scan. apply scan_ext. intros j Hj.
  cbn [set_file_slot file_stat_shm]. rewrite (slot_at_insert _ _ j _ _ Hs).
  destruct (Z.eq_dec id j) as [<-|Hne]; [|reflexivity].
  now rewrite Hs, Hkey.
Qed.

Lemma get_ip_counter_found t r s :
  slot_at (ip_stat_shm t) (get_ip_slot_id t r) = Some s ->
  get_ip_counter t r = ip_data.counter s.
Proof.
  intros Hs. pose proof (slot_at_nonneg _ _ _ Hs) as Hid.
  unfold get_ip_counter. remember (get_ip_slot_id t r) as id.
  replace (id =? -1) with false by lia.
  replace (id >=? 0) with true by lia. now rewrite Hs.
Qed.

Lemma get_file_counter_found t r s :
  slot_at (file_stat_shm t) (get_file_slot_id t r) = Some s ->
  get_file_counter t r = file_data.counter s.
Proof.
  intros Hs. pose proof (slot_at_nonneg _ _ _ Hs) as Hid.
  unfold get_file_counter. remember (get_file_slot_id t r) as id.
  replace (id =? -1) with false by lia.
  replace (id >=? 0) with true by lia. now rewrite Hs.
Qed.

Lemma get_ip_counter_set t r s s' :
  slot_at (ip_stat_shm t) (get_ip_slot_id t r) = Some s ->
  ip_data.address s' = ip_data.address s ->
  get_ip_counter (set_ip_slot t (get_ip_slot_id t r) s') r = ip_data.counter s'.
Proof.
  intros Hs Hkey. apply get_ip_counter_found.
  rewrite (get_ip_slot_id_set _ _ _ _ _ Hs Hkey).
  cbn [set_ip_slot ip_stat_shm]. eapply slot_at_insert_eq. eassumption.
Qed.

Lemma get_file_counter_set t r s s' :
  slot_at (file_stat_shm t) (get_file_slot_id t r) = Some s ->
  file_data.filename s' = file_data.filename s ->
  get_file_counter (set_file_slot t (get_file_slot_id t r) s') r = file_data.counter s'.
Proof.
  intros Hs Hkey. apply get_file_counter_found.
  rewrite (get_file_slot_id_set _ _ _ _ _ Hs Hkey).
  cbn [set_file_slot file_stat_shm]. eapply slot_at_insert_eq. eassumption.
Qed.

(** The counter read when the key has no slot: that of the first empty
    slot, -1 when there is none. *)
Lemma get_ip_counter_miss t r :
  get_ip_slot_id t r = -1 ->
  (get_ip_empty_slot_id t r = -1 /\ get_ip_counter t r = -1) \/
  (exists s, slot_at (ip_stat_shm t) (get_ip_empty_slot_id t r) = Some s /\
             ip_data.address s = EmptyString /\
             get_ip_counter t r = ip_data.counter s).
Proof.
  intros Hmiss. unfold get_ip_counter. rewrite Hmiss. cbn [Z.eqb Pos.eqb].
  destruct (Z.eq_dec (get_ip_empty_slot_id t r) (-1)) as [Hfull|Hfree].
  - left. rewrite Hfull. now split.
  - right. destruct (get_ip_empty_slot_id_hit _ _ Hfree) as (Hr & s & Hs & Hk).
    exists s. split; [assumption|]. split; [assumption|].
    remember (get_ip_empty_slot_id t r) as id.
    replace (id >=? 0) with true by lia. now rewrite Hs.
Qed.

Lemma get_file_counter_miss t r :
  get_file_slot_id t r = -1 ->
  (get_file_empty_slot_id t r = -1 /\ get_file_counter t r = -1) \/
  (exists s, slot_at (file_stat_shm t) (get_file_empty_slot_id t r) = Some s /\
             file_data.filename s = EmptyString /\
             get_file_counter t r = file_data.counter s).
Proof.
  intros Hmiss. unfold get_file_counter. rewrite Hmiss. cbn [Z.eqb Pos.eqb].
  destruct (Z.eq_dec (get_file_empty_slot_id t r) (-1)) as [Hfull|Hfree].
  - left. rewrite Hfull. now split.
  - right. destruct (get_file_empty_slot_id_hit _ _ Hfree) as (Hr & s & Hs & Hk).
    exists s. split; [assumption|]. split; [assumption|].
    remember (get_file_empty_slot_id t r) as id.
    replace (id >=? 0) with true by lia. now rewrite Hs.
Qed.

(** ** The end of the transaction, table by table *)

(** What [vlimit_response_end] leaves of the slot of the request's key: the
    counter one lower when it was positive, the key cleared when the counter
    is then 0. *)
Definition released_ip (s : ip_data.ip_stat) : ip_data.ip_stat :=
  let c := if ip_data.counter s >? 0 then int_wrap (ip_data.counter s - 1)
           else ip_data.counter s in
  {| ip_data.address := if c =? 0 then EmptyString else ip_data.address s;
     ip_data.counter := c |}.

Definition released_file (s : file_data.file_stat) : file_data.file_stat :=
  let c := if file_data.counter s >? 0 then int_wrap (file_data.counter s - 1)
           else file_data.counter s in
  {| file_data.filename := if c =? 0 then EmptyString else file_data.filename s;
     file_data.counter := c |}.

Lemma bind_get_stat {A} (k : SHM_DATA -> M A) w :
  bind get_stat k w = k (shm_data w) w.
Proof. now apply bind_run_nil. Qed.

Lemma set_ip_slot_twice t id s s' :
  set_ip_slot (set_ip_slot t id s) id s' = set_ip_slot t id s'.
Proof. unfold set_ip_slot. cbn. now rewrite list_insert_insert_eq. Qed.

Lemma set_file_slot_twice t id s s' :
  set_file_slot (set_file_slot t id s) id s' = set_file_slot t id s'.
Proof. unfold set_file_slot. cbn. now rewrite list_insert_insert_eq. Qed.

Lemma set_ip_slot_same t id s :
  slot_at (ip_stat_shm t) id = Some s -> set_ip_slot t id s = t.
Proof.
  intros Hs. apply slot_at_Some in Hs as (_ & _ & Hl).
  unfold set_ip_slot. rewrite list_insert_id by assumption. now destruct t.
Qed.

Lemma set_file_slot_same t id s :
  slot_at (file_stat_shm t) id = Some s -> set_file_slot t id s = t.
Proof.
  intros Hs. apply slot_at_Some in Hs as (_ & _ & Hl).
  unfold set_file_slot. rewrite list_insert_id by assumption. now destruct t.
Qed.

Ltac done_eq :=
  unfold ret, bind, wrap_out, with_stat;
  cbn [app shm_data mutex_held ip_data.counter file_data.counter];
  rewrite ?app_nil_r; reflexivity.

Section ResponseEnd.

Variable e : env.

Lemma response_end_ip_found r cfg cs w s :
  ip_limit cfg > 0 ->
  slot_at (ip_stat_shm (shm_data w)) (get_ip_slot_id (shm_data w) r) = Some s ->
  response_end_ip e r cfg cs w =
  Done (if ip_data.counter s >? 0 then 0 else cs)
       (with_stat w (set_ip_slot (shm_data w) (get_ip_slot_id (shm_data w) r)
                       (released_ip s)))
       (debug_out e "vlimit_response_end: " "type IP: ip_count--" []).
Proof.
  intros Hlim Hs.
  assert (Hne : get_ip_slot_id (shm_data w) r <> -1)
    by (apply slot_at_nonneg in Hs; lia).
  unfold response_end_ip. replace (ip_limit cfg >? 0) with true by lia.
  rewrite bind_dbg, bind_get_stat.
  rewrite (get_ip_counter_found _ _ _ Hs). unfold released_ip.
  destruct (ip_data.counter s >? 0) eqn:Hpos.
  - rewrite (bind_run _ _ _ _ _ _ (dec_ip_counter_found e r w s Hne Hs)).
    rewrite bind_get_stat. cbn [shm_data with_stat].
    rewrite (get_ip_counter_set _ _ s) by (assumption || reflexivity).
    cbn [ip_data.counter].
    destruct (int_wrap (ip_data.counter s - 1) =? 0) eqn:Hz.
    + set (s1 := {| ip_data.address := ip_data.address s;
                    ip_data.counter := int_wrap (ip_data.counter s - 1) |}) in *.
      set (w1 := with_stat w (set_ip_slot (shm_data w) (get_ip_slot_id (shm_data w) r) s1)).
      assert (Hs1 : slot_at (ip_stat_shm (shm_data w1))
                      (get_ip_slot_id (shm_data w1) r) = Some s1).
      { unfold w1. cbn [shm_data with_stat].
        rewrite (get_ip_slot_id_set _ _ s) by (assumption || reflexivity).
        cbn [set_ip_slot ip_stat_shm]. eapply slot_at_insert_eq. eassumption. }
      rewrite (bind_run _ _ _ _ _ _ (unset_ip_counter_found r w1 s1 Hs1)).
      unfold s1 at 1. cbn [ip_data.counter]. rewrite Hz.
      unfold w1. cbn [shm_data with_stat].
      rewrite (get_ip_slot_id_set _ _ s) by (assumption || reflexivity).
      rewrite set_ip_slot_twice. done_eq.
    + done_eq.
  - rewrite (bind_run_nil _ _ _ _ eq_refl). rewrite bind_get_stat.
    rewrite (get_ip_counter_found _ _ _ Hs).
    destruct (ip_data.counter s =? 0) eqn:Hz.
    + rewrite (bind_run _ _ _ _ _ _ (unset_ip_counter_found r w s Hs)).
      rewrite Hz. apply Z.eqb_eq in Hz. rewrite Hz. done_eq.
    + rewrite (bind_run_nil _ _ _ _ eq_refl).
      rewrite set_ip_slot_same, with_stat_id; [done_eq|].
      now destruct s.
Qed.

Lemma response_end_ip_miss r cfg cs w :
  ip_limit cfg > 0 ->
  get_ip_slot_id (shm_data w) r = -1 ->
  response_end_ip e r cfg cs w =
  if get_ip_counter (shm_data w) r >? 0 then
    Done (-1) w
      (debug_out e "vlimit_response_end: " "type IP: ip_count--" [] ++
       debug_out e "dec_ip_counter: " "unexpected error. ip slot not found." [])
  else if get_ip_counter (shm_data w) r =? 0 then Fault OutOfBounds
  else Done cs w (debug_out e "vlimit_response_end: " "type IP: ip_count--" []).
Proof.
  intros Hlim Hmiss.
  unfold response_end_ip. replace (ip_limit cfg >? 0) with true by lia.
  rewrite bind_dbg, bind_get_stat.
  destruct (get_ip_counter (shm_data w) r >? 0) eqn:Hpos.
  - rewrite (bind_run _ _ _ _ _ _ (dec_ip_counter_miss e r w Hmiss)).
    rewrite bind_get_stat.
    replace (get_ip_counter (shm_data w) r =? 0) with false by lia.
    done_eq.
  - rewrite (bind_run_nil _ _ _ _ eq_refl), bind_get_stat.
    destruct (get_ip_counter (shm_data w) r =? 0).
    + unfold bind at 1. now rewrite (unset_ip_counter_miss r w Hmiss).
    + done_eq.
Qed.

Lemma response_end_ip_off r cfg cs w :
  ip_limit cfg <= 0 -> response_end_ip e r cfg cs w = Done cs w [].
Proof.
  intros Hlim. unfold response_end_ip.
  now replace (ip_limit cfg >? 0) with false by lia.
Qed.

Lemma response_end_file_found r cfg cs w s :
  file_limit cfg > 0 ->
  slot_at (file_stat_shm (shm_data w)) (get_file_slot_id (shm_data w) r) = Some s ->
  response_end_file e r cfg cs w =
  Done (if file_data.counter s >? 0 then 0 else cs)
       (with_stat w (set_file_slot (shm_data w) (get_file_slot_id (shm_data w) r)
                       (released_file s)))
       (debug_out e "vlimit_response_end: " "type FILE: file_count--" []).
Proof.
  intros Hlim Hs.
  assert (Hne : get_file_slot_id (shm_data w) r <> -1)
    by (apply slot_at_nonneg in Hs; lia).
  unfold response_end_file. replace (file_limit cfg >? 0) with true by lia.
  rewrite bind_dbg, bind_get_stat.
  rewrite (get_file_counter_found _ _ _ Hs). unfold released_file.
  destruct (file_data.counter s >? 0) eqn:Hpos.
  - rewrite (bind_run _ _ _ _ _ _ (dec_file_counter_found e r w s Hne Hs)).
    rewrite bind_get_stat. cbn [shm_data with_stat].
    rewrite (get_file_counter_set _ _ s) by (assumption || reflexivity).
    cbn [file_data.counter].
    destruct (int_wrap (file_data.counter s - 1) =? 0) eqn:Hz.
    + set (s1 := {| file_data.filename := file_data.filename s;
                    file_data.counter := int_wrap (file_data.counter s - 1) |}) in *.
      set (w1 := with_stat w (set_file_slot (shm_data w) (get_file_slot_id (shm_data w) r) s1)).
      assert (Hs1 : slot_at (file_stat_shm (shm_data w1))
                      (get_file_slot_id (shm_data w1) r) = Some s1).
      { unfold w1. cbn [shm_data with_stat].
        rewrite (get_file_slot_id_set _ _ s) by (assumption || reflexivity).
        cbn [set_file_slot file_stat_shm]. eapply slot_at_insert_eq. eassumption. }
      rewrite (bind_run _ _ _ _ _ _ (unset_file_counter_found r w1 s1 Hs1)).
      unfold s1 at 1. cbn [file_data.counter]. rewrite Hz.
      unfold w1. cbn [shm_data with_stat].
      rewrite (get_file_slot_id_set _ _ s) by (assumption || reflexivity).
      rewrite set_file_slot_twice. done_eq.
    + done_eq.
  - rewrite (bind_run_nil _ _ _ _ eq_refl). rewrite bind_get_stat.
    rewrite (get_file_counter_found _ _ _ Hs).
    destruct (file_data.counter s =? 0) eqn:Hz.
    + rewrite (bind_run _ _ _ _ _ _ (unset_file_counter_found r w s Hs)).
      rewrite Hz. apply Z.eqb_eq in Hz. rewrite Hz. done_eq.
    + rewrite (bind_run_nil _ _ _ _ eq_refl).
      rewrite set_file_slot_same, with_stat_id; [done_eq|].
      now destruct s.
Qed.

Lemma response_end_file_miss r cfg cs w :
  file_limit cfg > 0 ->
  get_file_slot_id (shm_data w) r = -1 ->
  response_end_file e r cfg cs w =
  if get_file_counter (shm_data w) r >? 0 then
    Done (-1) w
      (debug_out e "vlimit_response_end: " "type FILE: file_count--" [] ++
       debug_out e "dec_file_counter: " "unexpected error. file slot not found." [])
  else if get_file_counter (shm_data w) r =? 0 then Fault OutOfBounds
  else Done cs w (debug_out e "vlimit_response_end: " "type FILE: file_count--" []).
Proof.
  intros Hlim Hmiss.
  unfold response_end_file. replace (file_limit cfg >? 0) with true by lia.
  rewrite bind_dbg, bind_get_stat.
  destruct (get_file_counter (shm_data w) r >? 0) eqn:Hpos.
  - rewrite (bind_run _ _ _ _ _ _ (dec_file_counter_miss e r w Hmiss)).
    rewrite bind_get_stat.
    replace (get_file_counter (shm_data w) r =? 0) with false by lia.
    done_eq.
  - rewrite (bind_run_nil _ _ _ _ eq_refl), bind_get_stat.
    destruct (get_file_counter (shm_data w) r =? 0).
    + unfold bind at 1. now rewrite (unset_file_counter_miss r w Hmiss).
    + done_eq.
Qed.

Lemma response_end_file_off r cfg cs w :
  file_limit cfg <= 0 -> response_end_file e r cfg cs w = Done cs w [].
Proof.
  intros Hlim. unfold response_end_file.
  now replace (file_limit cfg >? 0) with false by lia.
Qed.

End ResponseEnd.

(** The tables after [vlimit_response_end] ran under the mutex: for each
    limit that is on, the slot of the request's key is released; a key
    without a slot leaves its table as it was. *)
Definition release_file (cfg : vlimit_config) (r : request_rec) (t : SHM_DATA) : SHM_DATA :=
  if file_limit cfg >? 0 then
    match slot_at (file_stat_shm t) (get_file_slot_id t r) with
    | Some s => set_file_slot t (get_file_slot_id t r) (released_file s)
    | None => t
    end
  else t.

Definition release_ip (cfg : vlimit_config) (r : request_rec) (t : SHM_DATA) : SHM_DATA :=
  if ip_limit cfg >? 0 then
    match slot_at (ip_stat_shm t) (get_ip_slot_id t r) with
    | Some s => set_ip_slot t (get_ip_slot_id t r) (released_ip s)
    | None => t
    end
  else t.

Definition dec_file_miss_msg (e : env) : list event :=
  debug_out e "dec_file_counter: " "unexpected error. file slot not found." [].

Definition dec_ip_miss_msg (e : env) : list event :=
  debug_out e "dec_ip_counter: " "unexpected error. ip slot not found." [].

Lemma get_ip_slot_id_ext t t' r :
  ip_stat_shm t = ip_stat_shm t' -> get_ip_slot_id t r = get_ip_slot_id t' r.
Proof. intros Heq. unfold get_ip_slot_id. rewrite Heq. reflexivity. Qed.

Lemma get_file_slot_id_ext t t' r :
  file_stat_shm t = file_stat_shm t' -> get_file_slot_id t r = get_file_slot_id t' r.
Proof. intros Heq. unfold get_file_slot_id. rewrite Heq. reflexivity. Qed.

Lemma release_file_ip_stat cfg r t :
  ip_stat_shm (release_file cfg r t) = ip_stat_shm t.
Proof.
  unfold release_file. destruct (file_limit cfg >? 0); [|reflexivity].
  now destruct (slot_at (file_stat_shm t) (get_file_slot_id t r)).
Qed.

Lemma release_ip_file_stat cfg r t :
  file_stat_shm (release_ip cfg r t) = file_stat_shm t.
Proof.
  unfold release_ip. destruct (ip_limit cfg >? 0); [|reflexivity].
  now destruct (slot_at (ip_stat_shm t) (get_ip_slot_id t r)).
Qed.

Section ResponseEndSpec.

Variable e : env.

Lemma slot_at_miss_file t r :
  get_file_slot_id t r = -1 -> slot_at (file_stat_shm t) (get_file_slot_id t r) = None.
Proof. intros ->. reflexivity. Qed.

Lemma slot_at_miss_ip t r :
  get_ip_slot_id t r = -1 -> slot_at (ip_stat_shm t) (get_ip_slot_id t r) = None.
Proof. intros ->. reflexivity. Qed.

Lemma response_end_file_spec r cfg cs w :
  runs (fun f => f = OutOfBounds /\ file_limit cfg > 0 /\
                 get_file_slot_id (shm_data w) r = -1 /\
                 get_file_counter (shm_data w) r = 0)
    (response_end_file e r cfg cs) w
    (fun cs' w' out =>
       quiet out /\ w' = with_stat w (release_file cfg r (shm_data w)) /\
       (file_limit cfg > 0 -> get_file_slot_id (shm_data w) r = -1 ->
        get_file_counter (shm_data w) r > 0 ->
        incl (dec_file_miss_msg e) out)).
Proof.
  unfold release_file.
  destruct (file_limit cfg >? 0) eqn:Hlim.
  2:{ eapply runs_eq; [apply response_end_file_off; lia|].
      split; [apply quiet_nil|]. split; [now rewrite with_stat_id|]. lia. }
  destruct (Z.eq_dec (get_file_slot_id (shm_data w) r) (-1)) as [Hmiss|Hhit].
  - unfold runs. rewrite response_end_file_miss by (assumption || lia).
    rewrite (slot_at_miss_file _ _ Hmiss), with_stat_id.
    destruct (get_file_counter (shm_data w) r >? 0) eqn:Hpos.
    + split; [apply quiet_app; apply debug_out_quiet|]. split; [reflexivity|].
      intros _ _ _. apply incl_appr, incl_refl.
    + destruct (get_file_counter (shm_data w) r =? 0) eqn:Hz.
      * repeat split; try assumption; lia.
      * split; [apply debug_out_quiet|]. split; [reflexivity|]. lia.
  - destruct (get_file_slot_id_hit _ _ Hhit) as (_ & s & Hs & _).
    eapply runs_eq; [apply response_end_file_found; [lia|eassumption]|].
    rewrite Hs. split; [apply debug_out_quiet|]. split; [reflexivity|].
    intros _ Hmiss. contradiction.
Qed.

Lemma response_end_ip_spec r cfg cs w :
  runs (fun f => f = OutOfBounds /\ ip_limit cfg > 0 /\
                 get_ip_slot_id (shm_data w) r = -1 /\
                 get_ip_counter (shm_data w) r = 0)
    (response_end_ip e r cfg cs) w
    (fun cs' w' out =>
       quiet out /\ w' = with_stat w (release_ip cfg r (shm_data w)) /\
       (ip_limit cfg > 0 -> get_ip_slot_id (shm_data w) r = -1 ->
        get_ip_counter (shm_data w) r > 0 ->
        incl (dec_ip_miss_msg e) out)).
Proof.
  unfold release_ip.
  destruct (ip_limit cfg >? 0) eqn:Hlim.
  2:{ eapply runs_eq; [apply response_end_ip_off; lia|].
      split; [apply quiet_nil|]. split; [now rewrite with_stat_id|]. lia. }
  destruct (Z.eq_dec (get_ip_slot_id (shm_data w) r) (-1)) as [Hmiss|Hhit].
  - unfold runs. rewrite response_end_ip_miss by (assumption || lia).
    rewrite (slot_at_miss_ip _ _ Hmiss), with_stat_id.
    destruct (get_ip_counter (shm_data w) r >? 0) eqn:Hpos.
    + split; [apply quiet_app; apply debug_out_quiet|]. split; [reflexivity|].
      intros _ _ _. apply incl_appr, incl_refl.
    + destruct (get_ip_counter (shm_data w) r =? 0) eqn:Hz.
      * repeat split; try assumption; lia.
      * split; [apply debug_out_quiet|]. split; [reflexivity|]. lia.
  - destruct (get_ip_slot_id_hit _ _ Hhit) as (_ & s & Hs & _).
    eapply runs_eq; [apply response_end_ip_found; [lia|eassumption]|].
    rewrite Hs. split; [apply debug_out_quiet|]. split; [reflexivity|].
    intros _ Hmiss. contradiction.
Qed.

End ResponseEndSpec.

(** The runs of [vlimit_response_end] that end: the world left and the calls
    made on the mutex. *)
Inductive response_end_run (e : env) (r : request_rec) (cfg : vlimit_config)
    (w : world) : world -> list event -> Prop :=
| RE_other_host :
    ~ vhost_match r -> response_end_run e r cfg w w []
| RE_lock_failed :
    vhost_match r -> lock_status e <> APR_SUCCESS ->
    response_end_run e r cfg w w [MutexLock (lock_status e)]
| RE_released w' :
    vhost_match r -> lock_status e = APR_SUCCESS ->
    shm_data w' = release_ip cfg r (release_file cfg r (shm_data w)) ->
    mutex_held w' = negb (unlock_status e =? APR_SUCCESS) ->
    response_end_run e r cfg w w'
      [MutexLock APR_SUCCESS; MutexUnlock (unlock_status e)].

(** A fault of [vlimit_response_end]: under the mutex, a limit is on, the
    key has no slot and the counter of the first empty slot is 0, so that
    [unset_file_counter] or [unset_ip_counter] indexes its table at -1. *)
Definition release_fault (e : env) (r : request_rec) (cfg : vlimit_config)
    (w : world) (f : fault) : Prop :=
  f = OutOfBounds /\ vhost_match r /\ lock_status e = APR_SUCCESS /\
  ((file_limit cfg > 0 /\ get_file_slot_id (shm_data w) r = -1 /\
    get_file_counter (shm_data w) r = 0) \/
   (ip_limit cfg > 0 /\ get_ip_slot_id (shm_data w) r = -1 /\
    get_ip_counter (shm_data w) r = 0)).

Ltac find_incl :=
  repeat first [apply incl_appl; assumption | apply incl_appr].

Section ResponseEndRun.

Variable e : env.

Lemma vlimit_response_end_spec r cfg w :
  runs (release_fault e r cfg w) (vlimit_response_end e r cfg) w
    (fun rc w' out =>
       rc = OK /\ response_end_run e r cfg w w' (mutex_events out) /\
       (vhost_match r -> lock_status e = APR_SUCCESS ->
        (file_limit cfg > 0 -> get_file_slot_id (shm_data w) r = -1 ->
         get_file_counter (shm_data w) r > 0 -> incl (dec_file_miss_msg e) out) /\
        (ip_limit cfg > 0 -> get_ip_slot_id (shm_data w) r = -1 ->
         get_ip_counter (shm_data w) r > 0 -> incl (dec_ip_miss_msg e) out))).
Proof.
  unfold vlimit_response_end.
  apply runs_bind, runs_dbg. intros _.
  apply runs_bind. apply wp_runs.
  eapply runs_mono; [apply check_virtualhost_name_spec|auto|].
  intros vh w1 o5 (-> & Hq5 & [[-> Hm]|[-> Hm]]); cbn [Z.eqb Pos.eqb negb].
  2:{ apply runs_bind, runs_dbg. intros _. apply runs_bind, runs_dbg. intros _.
      apply runs_ret. split; [reflexivity|]. split; [|contradiction].
      mev. now apply RE_other_host. }
  apply runs_bind, runs_dbg. intros _.
  apply runs_bind. eapply runs_eq; [apply apr_global_mutex_lock_run|].
  destruct (lock_status e =? APR_SUCCESS) eqn:Hst; cbn [negb].
  2:{ apply Z.eqb_neq in Hst. apply runs_bind, runs_dbg. intros _. apply runs_ret.
      split; [reflexivity|]. split; [|contradiction].
      mev. now apply RE_lock_failed. }
  apply Z.eqb_eq in Hst.
  apply runs_bind.
  eapply runs_mono; [apply response_end_file_spec| |].
  { cbn [shm_data locked]. intros f (-> & Hl & Hmiss & Hz).
    split; [reflexivity|]. split; [assumption|]. split; [assumption|]. now left. }
  cbn [shm_data locked]. intros cs1 w2 o6 (Hq6 & -> & Hlog6).
  apply runs_bind.
  eapply runs_mono; [apply response_end_ip_spec| |].
  { cbn [shm_data with_stat].
    rewrite (get_ip_slot_id_ext _ (shm_data w)) by apply release_file_ip_stat.
    rewrite (get_ip_counter_ext _ (shm_data w)) by apply release_file_ip_stat.
    intros f (-> & Hl & Hmiss & Hz).
    split; [reflexivity|]. split; [assumption|]. split; [assumption|]. now right. }
  cbn [shm_data with_stat mutex_held locked].
  rewrite (get_ip_slot_id_ext _ (shm_data w)) by apply release_file_ip_stat.
  rewrite (get_ip_counter_ext _ (shm_data w)) by apply release_file_ip_stat.
  intros cs2 w3 o7 (Hq7 & -> & Hlog7).
  apply runs_bind, runs_reads; [apply reads_log_unless_untouched|]. intros _ o8 Hq8.
  apply runs_bind, runs_dbg. intros _.
  apply runs_bind. eapply runs_eq; [apply apr_global_mutex_unlock_run|].
  destruct (unlock_status e =? APR_SUCCESS) eqn:Hun; cbn [negb].
  - apply runs_get_stat.
    apply runs_bind, runs_dbg. intros _. apply runs_bind, runs_dbg. intros _.
    apply runs_ret. split; [reflexivity|]. split.
    + mev. rewrite Hst. apply RE_released; try assumption; try reflexivity.
      cbn. now rewrite Hun.
    + intros _ _. split; intros H1 H2 H3;
        [specialize (Hlog6 H1 H2 H3)|specialize (Hlog7 H1 H2 H3)]; find_incl.
  - apply runs_bind, runs_dbg. intros _.
    apply runs_ret. split; [reflexivity|]. split.
    + mev. rewrite Hst. apply RE_released; try assumption; try reflexivity.
      cbn. now rewrite Hun.
    + intros _ _. split; intros H1 H2 H3;
        [specialize (Hlog6 H1 H2 H3)|specialize (Hlog7 H1 H2 H3)]; find_incl.
Qed.

End ResponseEndRun.

(** ** The operations of the counter protocol *)

Inductive table_op :=
| IncFile | DecFile | UnsetFile
| IncIp | DecIp | UnsetIp.

Definition run_op (e : env) (op : table_op) (r : request_rec) : M Z :=
  match op with
  | IncFile => inc_file_counter r
  | DecFile => dec_file_counter e r
  | UnsetFile => unset_file_counter r ;;; ret 0
  | IncIp => inc_ip_counter r
  | DecIp => dec_ip_counter e r
  | UnsetIp => unset_ip_counter r ;;; ret 0
  end.

(** One slot of the file table is rewritten, and its key is kept unless the
    slot was empty or its counter was 0. *)
Definition file_step (t t' : SHM_DATA) : Prop :=
  t' = t \/
  exists id s0 s',
    slot_at (file_stat_shm t) id = Some s0 /\ t' = set_file_slot t id s' /\
    (file_data.filename s' = file_data.filename s0 \/
     file_data.filename s0 = EmptyString \/ file_data.counter s0 = 0).

Definition ip_step (t t' : SHM_DATA) : Prop :=
  t' = t \/
  exists id s0 s',
    slot_at (ip_stat_shm t) id = Some s0 /\ t' = set_ip_slot t id s' /\
    (ip_data.address s' = ip_data.address s0 \/
     ip_data.address s0 = EmptyString \/ ip_data.counter s0 = 0).

(** Every occupied slot with a positive counter keeps its key. *)
Definition keeps_busy_slots (t t' : SHM_DATA) : Prop :=
  (forall i s,
     slot_at (file_stat_shm t) i = Some s ->
     file_data.filename s <> EmptyString -> file_data.counter s > 0 ->
     exists s', slot_at (file_stat_shm t') i = Some s' /\
                file_data.filename s' = file_data.filename s) /\
  (forall i s,
     slot_at (ip_stat_shm t) i = Some s ->
     ip_data.address s <> EmptyString -> ip_data.counter s > 0 ->
     exists s', slot_at (ip_stat_shm t') i = Some s' /\
                ip_data.address s' = ip_data.address s).

Lemma keeps_busy_slots_refl t : keeps_busy_slots t t.
Proof. split; intros i s Hs _ _; exists s; now split. Qed.

Lemma file_step_keeps t t' : file_step t t' -> keeps_busy_slots t t'.
Proof.
  intros [->|(id & s0 & s' & Hs0 & -> & Hkey)]; [apply keeps_busy_slots_refl|].
  split; intros i s Hs Hocc Hpos; cbn [set_file_slot file_stat_shm ip_stat_shm].
  - rewrite (slot_at_insert _ _ i _ _ Hs0).
    destruct (Z.eq_dec id i) as [<-|Hne]; [|exists s; now split].
    rewrite Hs0 in Hs. inversion Hs. subst s0. exists s'. split; [reflexivity|].
    destruct Hkey as [Hk|[Hk|Hk]]; [assumption|contradiction|lia].
  - exists s. now split.
Qed.

Lemma ip_step_keeps t t' : ip_step t t' -> keeps_busy_slots t t'.
Proof.
  intros [->|(id & s0 & s' & Hs0 & -> & Hkey)]; [apply keeps_busy_slots_refl|].
  split; intros i s Hs Hocc Hpos; cbn [set_ip_slot file_stat_shm ip_stat_shm].
  - exists s. now split.
  - rewrite (slot_at_insert _ _ i _ _ Hs0).
    destruct (Z.eq_dec id i) as [<-|Hne]; [|exists s; now split].
    rewrite Hs0 in Hs. inversion Hs. subst s0. exists s'. split; [reflexivity|].
    destruct Hkey as [Hk|[Hk|Hk]]; [assumption|contradiction|lia].
Qed.

Lemma upto_slash_nonempty c l :
  Ascii.eqb c "/" = false -> upto_slash (c :: l) <> [].
Proof. intros Hc. cbn [upto_slash]. now rewrite Hc. Qed.

Lemma drop_slashes_head l c l' :
  drop_slashes l = c :: l' -> Ascii.eqb c "/" = false.
Proof.
  induction l as [|x l IH]; [discriminate|].
  destruct (Ascii.eqb x "/") eqn:Hx.
  - apply Ascii.eqb_eq in Hx. subst x. cbn [drop_slashes]. exact IH.
  - intros Heq.
    assert (Hd : drop_slashes (x :: l) = x :: l).
    { destruct x as [[] [] [] [] [] [] [] []]; try reflexivity. discriminate. }
    rewrite Hd in Heq. inversion Heq. now subst.
Qed.

Lemma string_of_list_ascii_nonempty l :
  l <> [] -> string_of_list_ascii l <> EmptyString.
Proof. destruct l; [contradiction|discriminate]. Qed.

Lemma basename_nonempty path : basename path <> EmptyString.
Proof.
  unfold basename. destruct path as [|c path]; [discriminate|].
  destruct (drop_slashes (rev (list_ascii_of_string (String c path))))
    as [|x l] eqn:Hd; [discriminate|].
  apply string_of_list_ascii_nonempty.
  pose proof (upto_slash_nonempty x l (drop_slashes_head _ _ _ Hd)) as Hne.
  destruct (upto_slash (x :: l)) as [|y l']; [contradiction|].
  cbn [rev]. now destruct (rev l').
Qed.

Section Protocol.

Variable e : env.

Lemma run_op_step op r w rc w' out :
  run_op e op r w = Done rc w' out ->
  mutex_held w' = mutex_held w /\
  (file_step (shm_data w) (shm_data w') \/ ip_step (shm_data w) (shm_data w')).
Proof.
  destruct op; cbn [run_op].
  - (* inc_file_counter *)
    destruct (Z.eq_dec (get_file_slot_id (shm_data w) r) (-1)) as [Hmiss|Hhit].
    + destruct (Z.eq_dec (get_file_empty_slot_id (shm_data w) r) (-1)) as [Hfull|Hfree].
      * rewrite inc_file_counter_full by assumption. intros Heq. inversion Heq.
        split; [reflexivity|]. left. now left.
      * destruct (get_file_empty_slot_id_hit _ _ Hfree) as (_ & s & Hs & Hk).
        destruct (strcpy MAX_FILENAME (basename (filename r))) as [k|] eqn:Hcpy.
        -- pose proof (strcpy_Some _ _ _ Hcpy). subst k.
           rewrite (inc_file_counter_new r w s) by assumption.
           intros Heq. inversion Heq. split; [reflexivity|]. left. right.
           exists (get_file_empty_slot_id (shm_data w) r), s. eexists.
           split; [eassumption|]. split; [reflexivity|]. right. now left.
        -- rewrite (inc_file_counter_overflow r w s) by assumption. discriminate.
    + destruct (get_file_slot_id_hit _ _ Hhit) as (_ & s & Hs & _).
      rewrite (inc_file_counter_found r w s) by assumption.
      intros Heq. inversion Heq. split; [reflexivity|]. left. right.
      exists (get_file_slot_id (shm_data w) r), s. eexists.
      split; [eassumption|]. split; [reflexivity|]. now left.
  - (* dec_file_counter *)
    destruct (Z.eq_dec (get_file_slot_id (shm_data w) r) (-1)) as [Hmiss|Hhit].
    + rewrite dec_file_counter_miss by assumption. intros Heq. inversion Heq.
      split; [reflexivity|]. left. now left.
    + destruct (get_file_slot_id_hit _ _ Hhit) as (_ & s & Hs & _).
      rewrite (dec_file_counter_found e r w s) by assumption.
      intros Heq. inversion Heq. split; [reflexivity|]. left. right.
      exists (get_file_slot_id (shm_data w) r), s. eexists.
      split; [eassumption|]. split; [reflexivity|]. now left.
  - (* unset_file_counter *)
    destruct (Z.eq_dec (get_file_slot_id (shm_data w) r) (-1)) as [Hmiss|Hhit].
    + unfold bind. rewrite unset_file_counter_miss by assumption. discriminate.
    + destruct (get_file_slot_id_hit _ _ Hhit) as (_ & s & Hs & _).
      unfold bind. rewrite (unset_file_counter_found r w s) by assumption.
      cbn [ret]. intros Heq. inversion Heq.
      destruct (file_data.counter s =? 0) eqn:Hz.
      * split; [reflexivity|]. left. right.
        exists (get_file_slot_id (shm_data w) r), s. eexists.
        split; [eassumption|]. split; [reflexivity|]. right. right. lia.
      * split; [reflexivity|]. left. now left.
  - (* inc_ip_counter *)
    destruct (Z.eq_dec (get_ip_slot_id (shm_data w) r) (-1)) as [Hmiss|Hhit].
    + destruct (Z.eq_dec (get_ip_empty_slot_id (shm_data w) r) (-1)) as [Hfull|Hfree].
      * rewrite inc_ip_counter_full by assumption. intros Heq. inversion Heq.
        split; [reflexivity|]. left. now left.
      * destruct (get_ip_empty_slot_id_hit _ _ Hfree) as (_ & s & Hs & Hk).
        destruct (strcpy IP_MAX (remote_ip r)) as [k|] eqn:Hcpy.
        -- pose proof (strcpy_Some _ _ _ Hcpy). subst k.
           rewrite (inc_ip_counter_new r w s) by assumption.
           intros Heq. inversion Heq. split; [reflexivity|]. right. right.
           exists (get_ip_empty_slot_id (shm_data w) r), s. eexists.
           split; [eassumption|]. split; [reflexivity|]. right. now left.
        -- rewrite (inc_ip_counter_overflow r w s) by assumption. discriminate.
    + destruct (get_ip_slot_id_hit _ _ Hhit) as (_ & s & Hs & _).
      rewrite (inc_ip_counter_found r w s) by assumption.
      intros Heq. inversion Heq. split; [reflexivity|]. right. right.
      exists (get_ip_slot_id (shm_data w) r), s. eexists.
      split; [eassumption|]. split; [reflexivity|]. now left.
  - (* dec_ip_counter *)
    destruct (Z.eq_dec (get_ip_slot_id (shm_data w) r) (-1)) as [Hmiss|Hhit].
    + rewrite dec_ip_counter_miss by assumption. intros Heq. inversion Heq.
      split; [reflexivity|]. left. now left.
    + destruct (get_ip_slot_id_hit _ _ Hhit) as (_ & s & Hs & _).
      rewrite (dec_ip_counter_found e r w s) by assumption.
      intros Heq. inversion Heq. split; [reflexivity|]. right. right.
      exists (get_ip_slot_id (shm_data w) r), s. eexists.
      split; [eassumption|]. split; [reflexivity|]. now left.
  - (* unset_ip_counter *)
    destruct (Z.eq_dec (get_ip_slot_id (shm_data w) r) (-1)) as [Hmiss|Hhit].
    + unfold bind. rewrite unset_ip_counter_miss by assumption. discriminate.
    + destruct (get_ip_slot_id_hit _ _ Hhit) as (_ & s & Hs & _).
      unfold bind. rewrite (unset_ip_counter_found r w s) by assumption.
      cbn [ret]. intros Heq. inversion Heq.
      destruct (ip_data.counter s =? 0) eqn:Hz.
      * split; [reflexivity|]. right. right.
        exists (get_ip_slot_id (shm_data w) r), s. eexists.
        split; [eassumption|]. split; [reflexivity|]. right. right. lia.
      * split; [reflexivity|]. left. now left.
Qed.

End Protocol.



Section CompletionClaims.

Variable e : env.

(** [unset_file_counter] and [unset_ip_counter], called for a key that has
    a slot, clear the key of that slot exactly when its counter is 0 and
    change nothing else; and no operation on the tables (increment,
    decrement, unset) that ends takes the key of a slot that is occupied
    with a positive counter. *)
Lemma reclaim_of_a_found_slot (r : request_rec) (w : world) :
  (forall s,
     slot_at (file_stat_shm (shm_data w)) (get_file_slot_id (shm_data w) r) = Some s ->
     exists s',
       unset_file_counter r w =
         Done tt (with_stat w (set_file_slot (shm_data w)
                                 (get_file_slot_id (shm_data w) r) s')) [] /\
       file_data.counter s' = file_data.counter s /\
       (file_data.filename s' = EmptyString <-> file_data.counter s = 0) /\
       (file_data.counter s <> 0 -> s' = s)) /\
  (remote_ip r <> EmptyString ->
   forall s,
     slot_at (ip_stat_shm (shm_data w)) (get_ip_slot_id (shm_data w) r) = Some s ->
     exists s',
       unset_ip_counter r w =
         Done tt (with_stat w (set_ip_slot (shm_data w)
                                 (get_ip_slot_id (shm_data w) r) s')) [] /\
       ip_data.counter s' = ip_data.counter s /\
       (ip_data.address s' = EmptyString <-> ip_data.counter s = 0) /\
       (ip_data.counter s <> 0 -> s' = s)) /\
  (forall op rc w' out,
     run_op e op r w = Done rc w' out ->
     keeps_busy_slots (shm_data w) (shm_data w')).
Proof.
  split; [|split].
  - intros s Hs.
    assert (Hhit : get_file_slot_id (shm_data w) r <> -1)
      by (apply slot_at_nonneg in Hs; lia).
    destruct (get_file_slot_id_hit _ _ Hhit) as (_ & s0 & Hs0 & Hkey).
    rewrite Hs in Hs0. inversion Hs0. subst s0.
    rewrite (unset_file_counter_found r w s Hs).
    destruct (file_data.counter s =? 0) eqn:Hz.
    + eexists. split; [reflexivity|]. cbn [file_data.counter file_data.filename].
      split; [reflexivity|]. split; [split; [lia|reflexivity]|lia].
    + exists s. rewrite set_file_slot_same, with_stat_id by assumption.
      split; [reflexivity|]. split; [reflexivity|]. split; [|reflexivity].
      rewrite Hkey. split; [|lia]. intros Habs.
      now apply basename_nonempty in Habs.
  - intros Hip s Hs.
    assert (Hhit : get_ip_slot_id (shm_data w) r <> -1)
      by (apply slot_at_nonneg in Hs; lia).
    destruct (get_ip_slot_id_hit _ _ Hhit) as (_ & s0 & Hs0 & Hkey).
    rewrite Hs in Hs0. inversion Hs0. subst s0.
    rewrite (unset_ip_counter_found r w s Hs).
    destruct (ip_data.counter s =? 0) eqn:Hz.
    + eexists. split; [reflexivity|]. cbn [ip_data.counter ip_data.address].
      split; [reflexivity|]. split; [split; [lia|reflexivity]|lia].
    + exists s. rewrite set_ip_slot_same, with_stat_id by assumption.
      split; [reflexivity|]. split; [reflexivity|]. split; [|reflexivity].
      rewrite Hkey. split; [|lia]. intros Habs. contradiction.
  - intros op rc w' out Hrun.
    destruct (run_op_step e op r w rc w' out Hrun) as [_ [Hstep|Hstep]].
    + now apply file_step_keeps.
    + now apply ip_step_keeps.
Qed.




End CompletionClaims.

(** ** Sample inputs *)

(** No sentinel file, every system call succeeds, no symbolic link. *)
Definition plain_env : env :=
  {| debug_flag := false; log_flag := false;
     ip_stat_flag := false; ip_stat_file := false;
     file_stat_flag := false; file_stat_file := false;
     stat_open := APR_SUCCESS; stat_close := APR_SUCCESS;
     lock_status := APR_SUCCESS; unlock_status := APR_SUCCESS;
     fs_access := fun _ => true;
     fs_readlink := fun _ => NoLink EINVAL;
     fs_getcwd := Some "" |}.

Definition empty_file_stat : file_data.file_stat :=
  {| file_data.filename := ""; file_data.counter := 0 |}.

Definition empty_ip_stat : ip_data.ip_stat :=
  {| ip_data.address := ""; ip_data.counter := 0 |}.

(** The tables as [vlimit_init] leaves them. *)
Definition init_shm : SHM_DATA :=
  {| file_stat_shm := repeat empty_file_stat (Z.to_nat MAX_CLIENTS);
     ip_stat_shm := repeat empty_ip_stat (Z.to_nat MAX_CLIENTS) |}.

Definition init_world : world := {| shm_data := init_shm; mutex_held := false |}.

(** Slot [i] holds one open request for the file "f<i>". *)
Definition busy_file_stat (i : nat) : file_data.file_stat :=
  {| file_data.filename :=
       String "f" (NilEmpty.string_of_uint (Nat.to_uint i));
     file_data.counter := 1 |}.

(** A file table with every slot taken. *)
Definition full_shm : SHM_DATA :=
  {| file_stat_shm := map busy_file_stat (seq 0 (Z.to_nat MAX_CLIENTS));
     ip_stat_shm := repeat empty_ip_stat (Z.to_nat MAX_CLIENTS) |}.

Definition sample_request : request_rec :=
  {| headers_in_HOST := Some "www.example.org:8080";
     remote_ip := "192.0.2.7";
     filename := "/var/www/html/index.html";
     server_hostname := "www.example.org";
     names := Some ["example.org"];
     is_initial_req := true |}.

Definition sub_request : request_rec :=
  {| headers_in_HOST := Some "www.example.org:8080";
     remote_ip := "192.0.2.7";
     filename := "/var/www/html/index.html";
     server_hostname := "www.example.org";
     names := Some ["example.org"];
     is_initial_req := false |}.

Definition ip_config (n : Z) : vlimit_config :=
  {| type := 1; ip_limit := n; file_limit := 0; conf_id := 0; full_path := None |}.

Definition file_config (n : Z) : vlimit_config :=
  {| type := 2; ip_limit := 0; file_limit := n; conf_id := 0; full_path := None |}.




Lemma decision_is_strictly_greater_witness :
  exists w' out,
    vlimit_handler plain_env sample_request (ip_config 1) init_world =
      Done OK w' out /\
    get_ip_counter (shm_data w') sample_request = ip_limit (ip_config 1) /\
    mutex_held w' = false.
Proof.
  destruct (vlimit_handler plain_env sample_request (ip_config 1) init_world)
    as [rc w' out|f] eqn:Hrun; [|vm_compute in Hrun; discriminate].
  assert (Hin : In (MutexUnlock APR_SUCCESS) out)
    by (vm_compute in Hrun; inversion Hrun; subst; right; left; reflexivity).
  assert (Hcount : get_ip_counter (shm_data w') sample_request = 1)
    by (vm_compute in Hrun; inversion Hrun; subst; vm_compute; reflexivity).
  destruct (decision_is_strictly_greater plain_env sample_request (ip_config 1)
              init_world rc w' out Hrun Hin) as (_ & Hok & Hheld).
  exists w', out. rewrite Hok.
  - split; [reflexivity|]. split; assumption.
  - rewrite Hcount. cbn. lia.
Defined.
Definition full_world : world := {| shm_data := full_shm; mutex_held := false |}.

Lemma full_file_table_leaves_mutex_held_witness :
  exists out,
    vlimit_handler plain_env sample_request (file_config 3) full_world =
      Done HTTP_SERVICE_UNAVAILABLE (locked full_world) out /\
    mutex_events out = [MutexLock APR_SUCCESS] /\
    mutex_held (locked full_world) = true.
Proof.
  apply (full_file_table_leaves_mutex_held plain_env sample_request
           (file_config 3) full_world).
  - reflexivity.
  - reflexivity.
  - left. vm_compute. reflexivity.
  - reflexivity.
  - cbn. lia.
  - vm_compute. reflexivity.
  - vm_compute. reflexivity.
Defined.

(** A request for a file whose name has 256 characters. *)
Definition long_name_request : request_rec :=
  {| headers_in_HOST := Some "www.example.org";
     remote_ip := "192.0.2.7";
     filename :=
       String "/" (string_of_list_ascii (repeat "a"%char (Z.to_nat MAX_FILENAME)));
     server_hostname := "www.example.org";
     names := None;
     is_initial_req := true |}.

Lemma long_basename_overflows_filename_witness :
  Z.of_nat (String.length (basename (filename long_name_request))) = MAX_FILENAME /\
  inc_file_counter long_name_request init_world = Fault BufferOverflow.
Proof.
  split; [vm_compute; reflexivity|].
  apply (long_basename_overflows_filename long_name_request init_world).
  - vm_compute. discriminate.
  - vm_compute. reflexivity.
  - vm_compute. discriminate.
Defined.

(** Three requests of 192.0.2.7 are open: the IP counter is above a limit
    of 2. *)
Definition busy_ip_stat (n : Z) : ip_data.ip_stat :=
  {| ip_data.address := "192.0.2.7"; ip_data.counter := n |}.

Definition busy_world (n : Z) : world :=
  {| shm_data :=
       {| file_stat_shm := file_stat_shm init_shm;
          ip_stat_shm := <[0%nat := busy_ip_stat n]> (ip_stat_shm init_shm) |};
     mutex_held := false |}.




(** * Further properties of the tables *)

Lemma scan_unique_hit {A} (arr : list A) p id s :
  0 <= id < MAX_CLIENTS -> slot_at arr id = Some s -> p s = true ->
  (forall j s', 0 <= j < id -> slot_at arr j = Some s' -> p s' = false) ->
  scan arr p = id.
Proof.
  intros Hid Hs Hp Hbefore.
  destruct (scan_spec arr p) as [[Heq Hall]|(Hr & s0 & Hs0 & Hp0 & Hfirst)].
  - rewrite (Hall id s Hid Hs) in Hp. discriminate.
  - destruct (Z.lt_trichotomy (scan arr p) id) as [Hlt|[Heq|Hgt]].
    + rewrite (Hbefore (scan arr p) s0) in Hp0; [discriminate|lia|assumption].
    + assumption.
    + rewrite (Hfirst id s) in Hp; [discriminate|lia|assumption].
Qed.

(** X1.  [get_ip_slot_id] and [get_file_slot_id] return the lowest index
    among the first MAX_CLIENTS slots whose key is the client address (the
    base name of the file), and -1 exactly when no such slot holds it. *)
Theorem slot_lookup_returns_first_match (t : SHM_DATA) (r : request_rec) :
  ((get_ip_slot_id t r = -1 /\
    forall j s, 0 <= j < MAX_CLIENTS -> slot_at (ip_stat_shm t) j = Some s ->
                ip_data.address s <> remote_ip r) \/
   (0 <= get_ip_slot_id t r < MAX_CLIENTS /\
    exists s, slot_at (ip_stat_shm t) (get_ip_slot_id t r) = Some s /\
      ip_data.address s = remote_ip r /\
      forall j s', 0 <= j < get_ip_slot_id t r ->
                   slot_at (ip_stat_shm t) j = Some s' ->
                   ip_data.address s' <> remote_ip r)) /\
  ((get_file_slot_id t r = -1 /\
    forall j s, 0 <= j < MAX_CLIENTS -> slot_at (file_stat_shm t) j = Some s ->
                file_data.filename s <> basename (filename r)) \/
   (0 <= get_file_slot_id t r < MAX_CLIENTS /\
    exists s, slot_at (file_stat_shm t) (get_file_slot_id t r) = Some s /\
      file_data.filename s = basename (filename r) /\
      forall j s', 0 <= j < get_file_slot_id t r ->
                   slot_at (file_stat_shm t) j = Some s' ->
                   file_data.filename s' <> basename (filename r))).
Proof.
  split.
  - rewrite get_ip_slot_id_scan.
    destruct (scan_spec (ip_stat_shm t)
                (fun s => String.eqb (ip_data.address s) (remote_ip r)))
      as [[Heq Hall]|(Hr & s & Hs & Hp & Hfirst)].
    + left. split; [assumption|]. intros j s Hj Hs.
      apply String.eqb_neq. eapply Hall; eassumption.
    + right. split; [assumption|]. exists s. split; [assumption|].
      split; [now apply String.eqb_eq|]. intros j s' Hj Hs'.
      apply String.eqb_neq. eapply Hfirst; eassumption.
  - rewrite get_file_slot_id_scan.
    destruct (scan_spec (file_stat_shm t)
                (fun s => String.eqb (file_data.filename s) (basename (filename r))))
      as [[Heq Hall]|(Hr & s & Hs & Hp & Hfirst)].
    + left. split; [assumption|]. intros j s Hj Hs.
      apply String.eqb_neq. eapply Hall; eassumption.
    + right. split; [assumption|]. exists s. split; [assumption|].
      split; [now apply String.eqb_eq|]. intros j s' Hj Hs'.
      apply String.eqb_neq. eapply Hfirst; eassumption.
Qed.

Lemma is_empty_str_true s : is_empty_str s = true <-> s = EmptyString.
Proof. destruct s; cbn; split; congruence. Qed.

Lemma is_empty_str_false s : is_empty_str s = false <-> s <> EmptyString.
Proof. destruct s; cbn; split; congruence. Qed.

(** X2.  [get_ip_empty_slot_id] and [get_file_empty_slot_id] return the
    lowest index among the first MAX_CLIENTS slots whose key is empty, and
    -1 exactly when every one of them is occupied; the request plays no
    part. *)
Theorem empty_slot_lookup_returns_first_free (t : SHM_DATA) (r : request_rec) :
  ((get_ip_empty_slot_id t r = -1 /\
    forall j s, 0 <= j < MAX_CLIENTS -> slot_at (ip_stat_shm t) j = Some s ->
                ip_data.address s <> EmptyString) \/
   (0 <= get_ip_empty_slot_id t r < MAX_CLIENTS /\
    exists s, slot_at (ip_stat_shm t) (get_ip_empty_slot_id t r) = Some s /\
      ip_data.address s = EmptyString /\
      forall j s', 0 <= j < get_ip_empty_slot_id t r ->
                   slot_at (ip_stat_shm t) j = Some s' ->
                   ip_data.address s' <> EmptyString)) /\
  ((get_file_empty_slot_id t r = -1 /\
    forall j s, 0 <= j < MAX_CLIENTS -> slot_at (file_stat_shm t) j = Some s ->
                file_data.filename s <> EmptyString) \/
   (0 <= get_file_empty_slot_id t r < MAX_CLIENTS /\
    exists s, slot_at (file_stat_shm t) (get_file_empty_slot_id t r) = Some s /\
      file_data.filename s = EmptyString /\
      forall j s', 0 <= j < get_file_empty_slot_id t r ->
                   slot_at (file_stat_shm t) j = Some s' ->
                   file_data.filename s' <> EmptyString)) /\
  (forall r', get_ip_empty_slot_id t r' = get_ip_empty_slot_id t r /\
              get_file_empty_slot_id t r' = get_file_empty_slot_id t r).
Proof.
  split; [|split].
  - rewrite get_ip_empty_slot_id_scan.
    destruct (scan_spec (ip_stat_shm t) (fun s => is_empty_str (ip_data.address s)))
      as [[Heq Hall]|(Hr & s & Hs & Hp & Hfirst)].
    + left. split; [assumption|]. intros j s Hj Hs.
      apply is_empty_str_false. eapply Hall; eassumption.
    + right. split; [assumption|]. exists s. split; [assumption|].
      split; [now apply is_empty_str_true|]. intros j s' Hj Hs'.
      apply is_empty_str_false. eapply Hfirst; eassumption.
  - rewrite get_file_empty_slot_id_scan.
    destruct (scan_spec (file_stat_shm t)
                (fun s => is_empty_str (file_data.filename s)))
      as [[Heq Hall]|(Hr & s & Hs & Hp & Hfirst)].
    + left. split; [assumption|]. intros j s Hj Hs.
      apply is_empty_str_false. eapply Hall; eassumption.
    + right. split; [assumption|]. exists s. split; [assumption|].
      split; [now apply is_empty_str_true|]. intros j s' Hj Hs'.
      apply is_empty_str_false. eapply Hfirst; eassumption.
  - intros r'. split; reflexivity.
Qed.

(** X3.  [get_ip_counter] and [get_file_counter] return the counter of the
    slot of the key; for a key without a slot they return the counter of
    the first empty slot, and -1 only when there is no empty slot either. *)
Theorem counter_lookup_falls_back_to_empty_slot (t : SHM_DATA) (r : request_rec) :
  (forall s, slot_at (ip_stat_shm t) (get_ip_slot_id t r) = Some s ->
             get_ip_counter t r = ip_data.counter s) /\
  (get_ip_slot_id t r = -1 ->
   (get_ip_empty_slot_id t r = -1 /\ get_ip_counter t r = -1) \/
   (exists s, slot_at (ip_stat_shm t) (get_ip_empty_slot_id t r) = Some s /\
              ip_data.address s = EmptyString /\
              get_ip_counter t r = ip_data.counter s)) /\
  (forall s, slot_at (file_stat_shm t) (get_file_slot_id t r) = Some s ->
             get_file_counter t r = file_data.counter s) /\
  (get_file_slot_id t r = -1 ->
   (get_file_empty_slot_id t r = -1 /\ get_file_counter t r = -1) \/
   (exists s, slot_at (file_stat_shm t) (get_file_empty_slot_id t r) = Some s /\
              file_data.filename s = EmptyString /\
              get_file_counter t r = file_data.counter s)).
Proof.
  split; [|split; [|split]].
  - apply get_ip_counter_found.
  - apply get_ip_counter_miss.
  - apply get_file_counter_found.
  - apply get_file_counter_miss.
Qed.

Lemma get_ip_slot_id_new t r s s' :
  get_ip_slot_id t r = -1 ->
  get_ip_empty_slot_id t r <> -1 ->
  slot_at (ip_stat_shm t) (get_ip_empty_slot_id t r) = Some s ->
  ip_data.address s' = remote_ip r ->
  get_ip_slot_id (set_ip_slot t (get_ip_empty_slot_id t r) s') r =
  get_ip_empty_slot_id t r.
Proof.
  intros Hmiss Hfree Hs Hkey.
  destruct (get_ip_empty_slot_id_hit _ _ Hfree) as (Hr & _).
  rewrite get_ip_slot_id_scan. cbn [set_ip_slot ip_stat_shm].
  apply (scan_unique_hit _ _ _ s').
  - assumption.
  - eapply slot_at_insert_eq. eassumption.
  - rewrite Hkey. apply String.eqb_refl.
  - intros j s0 Hj. rewrite slot_at_insert_ne by lia. intros Hs0.
    rewrite get_ip_slot_id_scan in Hmiss.
    apply (scan_miss _ _ Hmiss j s0); [lia|assumption].
Qed.

Lemma get_file_slot_id_new t r s s' :
  get_file_slot_id t r = -1 ->
  get_file_empty_slot_id t r <> -1 ->
  slot_at (file_stat_shm t) (get_file_empty_slot_id t r) = Some s ->
  file_data.filename s' = basename (filename r) ->
  get_file_slot_id (set_file_slot t (get_file_empty_slot_id t r) s') r =
  get_file_empty_slot_id t r.
Proof.
  intros Hmiss Hfree Hs Hkey.
  destruct (get_file_empty_slot_id_hit _ _ Hfree) as (Hr & _).
  rewrite get_file_slot_id_scan. cbn [set_file_slot file_stat_shm].
  apply (scan_unique_hit _ _ _ s').
  - assumption.
  - eapply slot_at_insert_eq. eassumption.
  - rewrite Hkey. apply String.eqb_refl.
  - intros j s0 Hj. rewrite slot_at_insert_ne by lia. intros Hs0.
    rewrite get_file_slot_id_scan in Hmiss.
    apply (scan_miss _ _ Hmiss j s0); [lia|assumption].
Qed.

(** What an increment that ends has done: the table is full for the key and
    nothing changed, or the count of the key is one higher. *)
Lemma inc_ip_counter_effect r w rc w' out :
  inc_ip_counter r w = Done rc w' out ->
  (rc = -1 /\ w' = w /\ get_ip_slot_id (shm_data w) r = -1 /\
   get_ip_empty_slot_id (shm_data w) r = -1) \/
  (rc = 0 /\
   get_ip_counter (shm_data w') r = int_wrap (get_ip_counter (shm_data w) r + 1) /\
   get_ip_slot_id (shm_data w') r <> -1 /\
   file_stat_shm (shm_data w') = file_stat_shm (shm_data w) /\
   mutex_held w' = mutex_held w).
Proof.
  destruct (Z.eq_dec (get_ip_slot_id (shm_data w) r) (-1)) as [Hmiss|Hhit].
  - destruct (Z.eq_dec (get_ip_empty_slot_id (shm_data w) r) (-1)) as [Hfull|Hfree].
    + rewrite inc_ip_counter_full by assumption. intros Heq. inversion Heq.
      subst. left. repeat split; assumption.
    + destruct (get_ip_empty_slot_id_hit _ _ Hfree) as (Hr & s & Hs & Hk).
      destruct (strcpy IP_MAX (remote_ip r)) as [k|] eqn:Hcpy.
      * pose proof (strcpy_Some _ _ _ Hcpy). subst k.
        rewrite (inc_ip_counter_new r w s) by assumption.
        intros Heq. inversion Heq. subst. right. split; [reflexivity|].
        cbn [shm_data with_stat mutex_held].
        assert (Hid : get_ip_slot_id
                  (set_ip_slot (shm_data w) (get_ip_empty_slot_id (shm_data w) r)
                     {| ip_data.address := remote_ip r;
                        ip_data.counter := int_wrap (ip_data.counter s + 1) |}) r =
                get_ip_empty_slot_id (shm_data w) r)
          by (eapply get_ip_slot_id_new; try eassumption; reflexivity).
        split; [|split; [rewrite Hid; assumption|split; reflexivity]].
        erewrite get_ip_counter_found.
        2:{ rewrite Hid. cbn [set_ip_slot ip_stat_shm].
            eapply slot_at_insert_eq. eassumption. }
        cbn [ip_data.counter].
        destruct (get_ip_counter_miss _ _ Hmiss) as [[Hf _]|(s0 & Hs0 & _ & ->)];
          [contradiction|].
        rewrite Hs in Hs0. inversion Hs0. reflexivity.
      * rewrite (inc_ip_counter_overflow r w s) by assumption. discriminate.
  - destruct (get_ip_slot_id_hit _ _ Hhit) as (_ & s & Hs & _).
    rewrite (inc_ip_counter_found r w s) by assumption.
    intros Heq. inversion Heq. subst. right. split; [reflexivity|].
    cbn [shm_data with_stat mutex_held].
    rewrite (get_ip_counter_set _ _ s) by (assumption || reflexivity).
    rewrite (get_ip_slot_id_set _ _ s) by (assumption || reflexivity).
    rewrite (get_ip_counter_found _ _ _ Hs).
    repeat split; try reflexivity; assumption.
Qed.

Lemma inc_file_counter_effect r w rc w' out :
  inc_file_counter r w = Done rc w' out ->
  (rc = -1 /\ w' = w /\ get_file_slot_id (shm_data w) r = -1 /\
   get_file_empty_slot_id (shm_data w) r = -1) \/
  (rc = 0 /\
   get_file_counter (shm_data w') r = int_wrap (get_file_counter (shm_data w) r + 1) /\
   get_file_slot_id (shm_data w') r <> -1 /\
   ip_stat_shm (shm_data w') = ip_stat_shm (shm_data w) /\
   mutex_held w' = mutex_held w).
Proof.
  destruct (Z.eq_dec (get_file_slot_id (shm_data w) r) (-1)) as [Hmiss|Hhit].
  - destruct (Z.eq_dec (get_file_empty_slot_id (shm_data w) r) (-1)) as [Hfull|Hfree].
    + rewrite inc_file_counter_full by assumption. intros Heq. inversion Heq.
      subst. left. repeat split; assumption.
    + destruct (get_file_empty_slot_id_hit _ _ Hfree) as (Hr & s & Hs & Hk).
      destruct (strcpy MAX_FILENAME (basename (filename r))) as [k|] eqn:Hcpy.
      * pose proof (strcpy_Some _ _ _ Hcpy). subst k.
        rewrite (inc_file_counter_new r w s) by assumption.
        intros Heq. inversion Heq. subst. right. split; [reflexivity|].
        cbn [shm_data with_stat mutex_held].
        assert (Hid : get_file_slot_id
                  (set_file_slot (shm_data w) (get_file_empty_slot_id (shm_data w) r)
                     {| file_data.filename := basename (filename r);
                        file_data.counter := int_wrap (file_data.counter s + 1) |}) r =
                get_file_empty_slot_id (shm_data w) r)
          by (eapply get_file_slot_id_new; try eassumption; reflexivity).
        split; [|split; [rewrite Hid; assumption|split; reflexivity]].
        erewrite get_file_counter_found.
        2:{ rewrite Hid. cbn [set_file_slot file_stat_shm].
            eapply slot_at_insert_eq. eassumption. }
        cbn [file_data.counter].
        destruct (get_file_counter_miss _ _ Hmiss) as [[Hf _]|(s0 & Hs0 & _ & ->)];
          [contradiction|].
        rewrite Hs in Hs0. inversion Hs0. reflexivity.
      * rewrite (inc_file_counter_overflow r w s) by assumption. discriminate.
  - destruct (get_file_slot_id_hit _ _ Hhit) as (_ & s & Hs & _).
    rewrite (inc_file_counter_found r w s) by assumption.
    intros Heq. inversion Heq. subst. right. split; [reflexivity|].
    cbn [shm_data with_stat mutex_held].
    rewrite (get_file_counter_set _ _ s) by (assumption || reflexivity).
    rewrite (get_file_slot_id_set _ _ s) by (assumption || reflexivity).
    rewrite (get_file_counter_found _ _ _ Hs).
    repeat split; try reflexivity; assumption.
Qed.

(** X4.  An increment that ends either returns -1, when the key has no slot
    and no slot is empty, and then changes nothing, or returns 0 and the
    counter read for the key is one above the counter read before (the
    counter of the empty slot it takes, for a new key); the other table and
    the mutex are not touched. *)
Theorem increment_raises_the_count_by_one (r : request_rec) (w : world) :
  (forall rc w' out,
     inc_ip_counter r w = Done rc w' out ->
     (rc = -1 /\ w' = w /\ get_ip_slot_id (shm_data w) r = -1 /\
      get_ip_empty_slot_id (shm_data w) r = -1) \/
     (rc = 0 /\
      get_ip_counter (shm_data w') r = int_wrap (get_ip_counter (shm_data w) r + 1) /\
      get_ip_slot_id (shm_data w') r <> -1 /\
      file_stat_shm (shm_data w') = file_stat_shm (shm_data w) /\
      mutex_held w' = mutex_held w)) /\
  (forall rc w' out,
     inc_file_counter r w = Done rc w' out ->
     (rc = -1 /\ w' = w /\ get_file_slot_id (shm_data w) r = -1 /\
      get_file_empty_slot_id (shm_data w) r = -1) \/
     (rc = 0 /\
      get_file_counter (shm_data w') r =
        int_wrap (get_file_counter (shm_data w) r + 1) /\
      get_file_slot_id (shm_data w') r <> -1 /\
      ip_stat_shm (shm_data w') = ip_stat_shm (shm_data w) /\
      mutex_held w' = mutex_held w)).
Proof.
  split; intros rc w' out.
  - apply inc_ip_counter_effect.
  - apply inc_file_counter_effect.
Qed.

Lemma increment_raises_the_count_by_one_witness :
  exists w',
    inc_ip_counter sample_request (busy_world 3) = Done 0 w' [] /\
    get_ip_counter (shm_data (busy_world 3)) sample_request = 3 /\
    get_ip_counter (shm_data w') sample_request = 4.
Proof.
  destruct (inc_ip_counter sample_request (busy_world 3)) as [rc w' out|f] eqn:Hrun;
    [|vm_compute in Hrun; discriminate].
  assert (Hrc : rc = 0 /\ out = [])
    by (vm_compute in Hrun; inversion Hrun; split; reflexivity).
  destruct Hrc as [-> ->].
  assert (Hbefore : get_ip_counter (shm_data (busy_world 3)) sample_request = 3)
    by (vm_compute; reflexivity).
  destruct (proj1 (increment_raises_the_count_by_one sample_request (busy_world 3))
              0 w' [] Hrun) as [(Habs & _)|(_ & Hcount & _)]; [discriminate|].
  exists w'. split; [reflexivity|]. split; [assumption|].
  rewrite Hcount, Hbefore. vm_compute. reflexivity.
Defined.

(** ** Invariants of the tables *)

(** Among the first MAX_CLIENTS slots no two hold the same non-empty key. *)
Definition unique_keys {A} (key : A -> string) (arr : list A) : Prop :=
  forall i j s s',
    0 <= i < MAX_CLIENTS -> 0 <= j < MAX_CLIENTS ->
    slot_at arr i = Some s -> slot_at arr j = Some s' ->
    key s <> EmptyString -> key s = key s' -> i = j.

(** An empty slot has a counter of 0. *)
Definition empty_slots_zero {A} (key : A -> string) (counter : A -> Z)
    (arr : list A) : Prop :=
  forall i s, slot_at arr i = Some s -> key s = EmptyString -> counter s = 0.

Definition tables_consistent (t : SHM_DATA) : Prop :=
  unique_keys file_data.filename (file_stat_shm t) /\
  unique_keys ip_data.address (ip_stat_shm t) /\
  empty_slots_zero file_data.filename file_data.counter (file_stat_shm t) /\
  empty_slots_zero ip_data.address ip_data.counter (ip_stat_shm t).

Section SetSlot.

Context {A : Type} (key : A -> string) (counter : A -> Z).

Lemma unique_keys_set (arr : list A) id s0 new :
  slot_at arr id = Some s0 ->
  (key new = key s0 \/ key new = EmptyString \/
   forall j s, 0 <= j < MAX_CLIENTS -> slot_at arr j = Some s -> key s <> key new) ->
  unique_keys key arr -> unique_keys key (<[Z.to_nat id := new]> arr).
Proof.
  intros Hs0 Hkey Huniq i j s s' Hi Hj.
  rewrite (slot_at_insert _ _ i _ _ Hs0), (slot_at_insert _ _ j _ _ Hs0).
  destruct (Z.eq_dec id i) as [<-|Hni]; destruct (Z.eq_dec id j) as [<-|Hnj];
    intros Hsi Hsj Hne Heq; try reflexivity.
  - inversion Hsi. subst s.
    destruct Hkey as [Hk|[Hk|Hk]].
    + apply (Huniq id j s0 s'); try assumption; congruence.
    + congruence.
    + exfalso. apply (Hk j s' Hj Hsj). congruence.
  - inversion Hsj. subst s'.
    destruct Hkey as [Hk|[Hk|Hk]].
    + apply (Huniq i id s s0); try assumption; congruence.
    + congruence.
    + exfalso. apply (Hk i s Hi Hsi). congruence.
  - apply (Huniq i j s s'); assumption.
Qed.

Lemma empty_slots_zero_set (arr : list A) id s0 s' :
  slot_at arr id = Some s0 ->
  (key s' = EmptyString -> counter s' = 0) ->
  empty_slots_zero key counter arr ->
  empty_slots_zero key counter (<[Z.to_nat id := s']> arr).
Proof.
  intros Hs0 Hs' Hz i s. rewrite (slot_at_insert _ _ i _ _ Hs0).
  destruct (Z.eq_dec id i) as [<-|Hni].
  - intros Hs. inversion Hs. subst s. assumption.
  - apply Hz.
Qed.

End SetSlot.

Section Invariants.

Variable e : env.

Lemma run_op_consistent op r w rc w' out :
  remote_ip r <> EmptyString ->
  run_op e op r w = Done rc w' out ->
  tables_consistent (shm_data w) -> tables_consistent (shm_data w').
Proof.
  intros Hip Hrun (Huf & Hui & Hzf & Hzi).
  pose proof (basename_nonempty (filename r)) as Hbase.
  destruct op; cbn [run_op] in Hrun.
  - (* inc_file_counter *)
    destruct (Z.eq_dec (get_file_slot_id (shm_data w) r) (-1)) as [Hmiss|Hhit].
    + destruct (Z.eq_dec (get_file_empty_slot_id (shm_data w) r) (-1)) as [Hfull|Hfree].
      * rewrite inc_file_counter_full in Hrun by assumption. inversion Hrun.
        subst. repeat split; assumption.
      * destruct (get_file_empty_slot_id_hit _ _ Hfree) as (_ & s & Hs & Hk).
        destruct (strcpy MAX_FILENAME (basename (filename r))) as [k|] eqn:Hcpy.
        -- pose proof (strcpy_Some _ _ _ Hcpy). subst k.
           rewrite (inc_file_counter_new r w s) in Hrun by assumption.
           inversion Hrun. subst. cbn [shm_data with_stat].
           split; [|split; [assumption|split; [|assumption]]];
             cbn [set_file_slot file_stat_shm].
           ++ eapply unique_keys_set; [eassumption| |assumption].
              right. right. intros j s0 Hj Hs0. cbn [file_data.filename].
              apply String.eqb_neq. rewrite get_file_slot_id_scan in Hmiss.
              apply (scan_miss _ _ Hmiss j s0 Hj Hs0).
           ++ eapply empty_slots_zero_set; [eassumption| |assumption].
              cbn [file_data.filename]. intros Habs. destruct (Hbase Habs).
        -- rewrite (inc_file_counter_overflow r w s) in Hrun by assumption.
           discriminate.
    + destruct (get_file_slot_id_hit _ _ Hhit) as (_ & s & Hs & Hk).
      rewrite (inc_file_counter_found r w s) in Hrun by assumption.
      inversion Hrun. subst. cbn [shm_data with_stat].
      split; [|split; [assumption|split; [|assumption]]];
        cbn [set_file_slot file_stat_shm].
      * eapply unique_keys_set; [eassumption| |assumption]. now left.
      * eapply empty_slots_zero_set; [eassumption| |assumption].
        cbn [file_data.filename]. rewrite Hk. intros Habs. destruct (Hbase Habs).
  - (* dec_file_counter *)
    destruct (Z.eq_dec (get_file_slot_id (shm_data w) r) (-1)) as [Hmiss|Hhit].
    + rewrite dec_file_counter_miss in Hrun by assumption. inversion Hrun.
      subst. repeat split; assumption.
    + destruct (get_file_slot_id_hit _ _ Hhit) as (_ & s & Hs & Hk).
      rewrite (dec_file_counter_found e r w s) in Hrun by assumption.
      inversion Hrun. subst. cbn [shm_data with_stat].
      split; [|split; [assumption|split; [|assumption]]];
        cbn [set_file_slot file_stat_shm].
      * eapply unique_keys_set; [eassumption| |assumption]. now left.
      * eapply empty_slots_zero_set; [eassumption| |assumption].
        cbn [file_data.filename]. rewrite Hk. intros Habs. destruct (Hbase Habs).
  - (* unset_file_counter *)
    destruct (Z.eq_dec (get_file_slot_id (shm_data w) r) (-1)) as [Hmiss|Hhit].
    + unfold bind in Hrun. rewrite unset_file_counter_miss in Hrun by assumption.
      discriminate.
    + destruct (get_file_slot_id_hit _ _ Hhit) as (_ & s & Hs & Hk).
      unfold bind in Hrun. rewrite (unset_file_counter_found r w s) in Hrun
        by assumption.
      cbn [ret] in Hrun. inversion Hrun. subst.
      destruct (file_data.counter s =? 0) eqn:Hz; [|repeat split; assumption].
      cbn [shm_data with_stat].
      split; [|split; [assumption|split; [|assumption]]];
        cbn [set_file_slot file_stat_shm].
      * eapply unique_keys_set; [eassumption| |assumption]. right. now left.
      * eapply empty_slots_zero_set; [eassumption| |assumption].
        cbn [file_data.counter]. lia.
  - (* inc_ip_counter *)
    destruct (Z.eq_dec (get_ip_slot_id (shm_data w) r) (-1)) as [Hmiss|Hhit].
    + destruct (Z.eq_dec (get_ip_empty_slot_id (shm_data w) r) (-1)) as [Hfull|Hfree].
      * rewrite inc_ip_counter_full in Hrun by assumption. inversion Hrun.
        subst. repeat split; assumption.
      * destruct (get_ip_empty_slot_id_hit _ _ Hfree) as (_ & s & Hs & Hk).
        destruct (strcpy IP_MAX (remote_ip r)) as [k|] eqn:Hcpy.
        -- pose proof (strcpy_Some _ _ _ Hcpy). subst k.
           rewrite (inc_ip_counter_new r w s) in Hrun by assumption.
           inversion Hrun. subst. cbn [shm_data with_stat].
           split; [assumption|split; [|split; [assumption|]]];
             cbn [set_ip_slot ip_stat_shm].
           ++ eapply unique_keys_set; [eassumption| |assumption].
              right. right. intros j s0 Hj Hs0. cbn [ip_data.address].
              apply String.eqb_neq. rewrite get_ip_slot_id_scan in Hmiss.
              apply (scan_miss _ _ Hmiss j s0 Hj Hs0).
           ++ eapply empty_slots_zero_set; [eassumption| |assumption].
              cbn [ip_data.address]. intros Habs. destruct (Hip Habs).
        -- rewrite (inc_ip_counter_overflow r w s) in Hrun by assumption.
           discriminate.
    + destruct (get_ip_slot_id_hit _ _ Hhit) as (_ & s & Hs & Hk).
      rewrite (inc_ip_counter_found r w s) in Hrun by assumption.
      inversion Hrun. subst. cbn [shm_data with_stat].
      split; [assumption|split; [|split; [assumption|]]];
        cbn [set_ip_slot ip_stat_shm].
      * eapply unique_keys_set; [eassumption| |assumption]. now left.
      * eapply empty_slots_zero_set; [eassumption| |assumption].
        cbn [ip_data.address]. rewrite Hk. intros Habs. destruct (Hip Habs).
  - (* dec_ip_counter *)
    destruct (Z.eq_dec (get_ip_slot_id (shm_data w) r) (-1)) as [Hmiss|Hhit].
    + rewrite dec_ip_counter_miss in Hrun by assumption. inversion Hrun.
      subst. repeat split; assumption.
    + destruct (get_ip_slot_id_hit _ _ Hhit) as (_ & s & Hs & Hk).
      rewrite (dec_ip_counter_found e r w s) in Hrun by assumption.
      inversion Hrun. subst. cbn [shm_data with_stat].
      split; [assumption|split; [|split; [assumption|]]];
        cbn [set_ip_slot ip_stat_shm].
      * eapply unique_keys_set; [eassumption| |assumption]. now left.
      * eapply empty_slots_zero_set; [eassumption| |assumption].
        cbn [ip_data.address]. rewrite Hk. intros Habs. destruct (Hip Habs).
  - (* unset_ip_counter *)
    destruct (Z.eq_dec (get_ip_slot_id (shm_data w) r) (-1)) as [Hmiss|Hhit].
    + unfold bind in Hrun. rewrite unset_ip_counter_miss in Hrun by assumption.
      discriminate.
    + destruct (get_ip_slot_id_hit _ _ Hhit) as (_ & s & Hs & Hk).
      unfold bind in Hrun. rewrite (unset_ip_counter_found r w s) in Hrun
        by assumption.
      cbn [ret] in Hrun. inversion Hrun. subst.
      destruct (ip_data.counter s =? 0) eqn:Hz; [|repeat split; assumption].
      cbn [shm_data with_stat].
      split; [assumption|split; [|split; [assumption|]]];
        cbn [set_ip_slot ip_stat_shm].
      * eapply unique_keys_set; [eassumption| |assumption]. right. now left.
      * eapply empty_slots_zero_set; [eassumption| |assumption].
        cbn [ip_data.counter]. lia.
Qed.

End Invariants.

Lemma slot_at_repeat {A} (x : A) n i s :
  slot_at (repeat x n) i = Some s -> s = x.
Proof.
  intros Hs. apply slot_at_Some in Hs as (_ & _ & Hl).
  revert Hl. generalize (Z.to_nat i). clear i.
  induction n as [|n IH]; intros [|i]; cbn; try discriminate.
  - congruence.
  - apply IH.
Qed.

(** ** What the admission does to the tables *)

(** The table after [inc_file_counter] returned 0: the slot of the key, or
    the first empty slot for a new key, holds the key and a counter one
    higher. *)
Definition raise_file (r : request_rec) (t : SHM_DATA) : SHM_DATA :=
  let id := get_file_slot_id t r in
  let id := if id =? -1 then get_file_empty_slot_id t r else id in
  match slot_at (file_stat_shm t) id with
  | Some s =>
      set_file_slot t id
        {| file_data.filename := basename (filename r);
           file_data.counter := int_wrap (file_data.counter s + 1) |}
  | None => t
  end.

Definition raise_ip (r : request_rec) (t : SHM_DATA) : SHM_DATA :=
  let id := get_ip_slot_id t r in
  let id := if id =? -1 then get_ip_empty_slot_id t r else id in
  match slot_at (ip_stat_shm t) id with
  | Some s =>
      set_ip_slot t id
        {| ip_data.address := remote_ip r;
           ip_data.counter := int_wrap (ip_data.counter s + 1) |}
  | None => t
  end.

(** The increments of [vlimit_check_limit], one for each limit that is
    on. *)
Definition count_file (cfg : vlimit_config) (r : request_rec) (t : SHM_DATA) : SHM_DATA :=
  if file_limit cfg >? 0 then raise_file r t else t.

Definition count_ip (cfg : vlimit_config) (r : request_rec) (t : SHM_DATA) : SHM_DATA :=
  if ip_limit cfg >? 0 then raise_ip r t else t.

(** No slot holds the key and no slot is empty. *)
Definition file_table_full (t : SHM_DATA) (r : request_rec) : Prop :=
  get_file_slot_id t r = -1 /\ get_file_empty_slot_id t r = -1.

Definition ip_table_full (t : SHM_DATA) (r : request_rec) : Prop :=
  get_ip_slot_id t r = -1 /\ get_ip_empty_slot_id t r = -1.

(** The increment can be done: the key has a slot, or a slot is empty and
    the key fits its field. *)
Definition file_countable (t : SHM_DATA) (r : request_rec) : Prop :=
  ~ file_table_full t r /\
  (get_file_slot_id t r = -1 ->
   Z.of_nat (String.length (basename (filename r))) < MAX_FILENAME).

Definition ip_countable (t : SHM_DATA) (r : request_rec) : Prop :=
  ~ ip_table_full t r /\
  (get_ip_slot_id t r = -1 -> Z.of_nat (String.length (remote_ip r)) < IP_MAX).

Lemma strcpy_fits cap src k :
  strcpy cap src = Some k -> Z.of_nat (String.length src) < cap.
Proof. unfold strcpy. destruct (_ <=? _) eqn:Hfit; [lia|discriminate]. Qed.

Lemma inc_file_counter_raise r w rc w' out :
  inc_file_counter r w = Done rc w' out ->
  out = [] /\
  ((rc = -1 /\ w' = w /\ file_table_full (shm_data w) r) \/
   (rc = 0 /\ w' = with_stat w (raise_file r (shm_data w)) /\
    file_countable (shm_data w) r)).
Proof.
  unfold raise_file, file_countable, file_table_full.
  destruct (Z.eq_dec (get_file_slot_id (shm_data w) r) (-1)) as [Hmiss|Hhit].
  - destruct (Z.eq_dec (get_file_empty_slot_id (shm_data w) r) (-1)) as [Hfull|Hfree].
    + rewrite inc_file_counter_full by assumption. intros Heq. inversion Heq.
      subst. split; [reflexivity|]. left. repeat split; assumption.
    + destruct (get_file_empty_slot_id_hit _ _ Hfree) as (Hr & s & Hs & Hk).
      destruct (strcpy MAX_FILENAME (basename (filename r))) as [k|] eqn:Hcpy.
      * pose proof (strcpy_Some _ _ _ Hcpy). subst k.
        rewrite (inc_file_counter_new r w s) by assumption.
        intros Heq. inversion Heq. subst. split; [reflexivity|]. right.
        split; [reflexivity|]. rewrite Hmiss. cbn [Z.eqb Pos.eqb]. rewrite Hs.
        split; [reflexivity|]. split; [intros [_ Hf]; exact (Hfree Hf)|].
        intros _. eapply strcpy_fits. eassumption.
      * rewrite (inc_file_counter_overflow r w s) by assumption. discriminate.
  - destruct (get_file_slot_id_hit _ _ Hhit) as (_ & s & Hs & Hk).
    rewrite (inc_file_counter_found r w s) by assumption.
    intros Heq. inversion Heq. subst. split; [reflexivity|]. right.
    split; [reflexivity|].
    replace (get_file_slot_id (shm_data w) r =? -1) with false by lia.
    rewrite Hs, Hk. split; [reflexivity|].
    split; [intros [Hm _]; exact (Hhit Hm)|]. intros Habs.
    destruct (Hhit Habs).
Qed.

Lemma inc_ip_counter_raise r w rc w' out :
  inc_ip_counter r w = Done rc w' out ->
  out = [] /\
  ((rc = -1 /\ w' = w /\ ip_table_full (shm_data w) r) \/
   (rc = 0 /\ w' = with_stat w (raise_ip r (shm_data w)) /\
    ip_countable (shm_data w) r)).
Proof.
  unfold raise_ip, ip_countable, ip_table_full.
  destruct (Z.eq_dec (get_ip_slot_id (shm_data w) r) (-1)) as [Hmiss|Hhit].
  - destruct (Z.eq_dec (get_ip_empty_slot_id (shm_data w) r) (-1)) as [Hfull|Hfree].
    + rewrite inc_ip_counter_full by assumption. intros Heq. inversion Heq.
      subst. split; [reflexivity|]. left. repeat split; assumption.
    + destruct (get_ip_empty_slot_id_hit _ _ Hfree) as (Hr & s & Hs & Hk).
      destruct (strcpy IP_MAX (remote_ip r)) as [k|] eqn:Hcpy.
      * pose proof (strcpy_Some _ _ _ Hcpy). subst k.
        rewrite (inc_ip_counter_new r w s) by assumption.
        intros Heq. inversion Heq. subst. split; [reflexivity|]. right.
        split; [reflexivity|]. rewrite Hmiss. cbn [Z.eqb Pos.eqb]. rewrite Hs.
        split; [reflexivity|]. split; [intros [_ Hf]; exact (Hfree Hf)|].
        intros _. eapply strcpy_fits. eassumption.
      * rewrite (inc_ip_counter_overflow r w s) by assumption. discriminate.
  - destruct (get_ip_slot_id_hit _ _ Hhit) as (_ & s & Hs & Hk).
    rewrite (inc_ip_counter_found r w s) by assumption.
    intros Heq. inversion Heq. subst. split; [reflexivity|]. right.
    split; [reflexivity|].
    replace (get_ip_slot_id (shm_data w) r =? -1) with false by lia.
    rewrite Hs, Hk. split; [reflexivity|].
    split; [intros [Hm _]; exact (Hhit Hm)|]. intros Habs.
    destruct (Hhit Habs).
Qed.

(** What a run of [vlimit_check_limit] that ends has done to the tables,
    told by the calls it made on the mutex. *)
Definition admission_effect (cfg : vlimit_config) (r : request_rec) (w : world)
    (rc : Z) (w' : world) (mev : list event) : Prop :=
  (w' = w /\ (mev = [] \/ exists st, st <> APR_SUCCESS /\ mev = [MutexLock st])) \/
  (mev = [MutexLock APR_SUCCESS] /\ rc = HTTP_SERVICE_UNAVAILABLE /\
   file_limit cfg > 0 /\ file_table_full (shm_data w) r /\
   shm_data w' = shm_data w) \/
  (mev = [MutexLock APR_SUCCESS] /\ rc = HTTP_SERVICE_UNAVAILABLE /\
   ip_limit cfg > 0 /\ ip_table_full (count_file cfg r (shm_data w)) r /\
   shm_data w' = count_file cfg r (shm_data w)) \/
  (exists st, mev = [MutexLock APR_SUCCESS; MutexUnlock st] /\
     shm_data w' = count_ip cfg r (count_file cfg r (shm_data w)) /\
     (file_limit cfg > 0 -> file_countable (shm_data w) r) /\
     (ip_limit cfg > 0 -> ip_countable (count_file cfg r (shm_data w)) r)).

Section AdmissionEffect.

Variable e : env.

Lemma check_limit_decide_tables r cfg cs ipc fc w :
  post (check_limit_decide e r cfg cs ipc fc) w (fun rc w' out =>
    shm_data w' = shm_data w /\ exists st, mutex_events out = [MutexUnlock st]).
Proof.
  apply wp_runs. eapply runs_mono; [apply check_limit_decide_spec|auto|].
  intros rc w' out [(Hst & -> & -> & Hev)|(Hst & -> & -> & Hev)].
  - split; [reflexivity|]. eauto.
  - split; [reflexivity|]. eauto.
Qed.

Lemma check_limit_ip_tables r cfg cs fc w :
  post (check_limit_ip e r cfg cs fc) w (fun rc w' out =>
    (mutex_events out = [] /\ rc = HTTP_SERVICE_UNAVAILABLE /\ ip_limit cfg > 0 /\
     ip_table_full (shm_data w) r /\ w' = w) \/
    (shm_data w' = count_ip cfg r (shm_data w) /\
     (ip_limit cfg > 0 -> ip_countable (shm_data w) r) /\
     exists st, mutex_events out = [MutexUnlock st])).
Proof.
  unfold check_limit_ip, count_ip.
  destruct (ip_limit cfg >? 0) eqn:Hlim.
  - apply runs_bind, runs_dbg. intros _.
    apply runs_bind. apply post_done. intros rc w1 o1 Hinc.
    destruct (inc_ip_counter_raise _ _ _ _ _ Hinc)
      as (-> & [(-> & -> & Hfull)|(-> & -> & Hcan)]); cbn [Z.eqb Pos.eqb].
    + apply runs_bind, runs_dbg. intros _. apply runs_ret.
      left. mev. split; [reflexivity|]. split; [reflexivity|]. split; [lia|].
      split; [exact Hfull|reflexivity].
    + apply runs_get_stat.
      eapply runs_mono; [apply check_limit_decide_tables|auto|].
      intros rc w' out (Hshm & st & Hev). right. split; [assumption|].
      split; [intros _; assumption|].
      exists st. mev. rewrite Hev. reflexivity.
  - eapply runs_mono; [apply check_limit_decide_tables|auto|].
    intros rc w' out (Hshm & st & Hev). right. split; [assumption|].
    split; [lia|]. eauto.
Qed.

Lemma check_limit_file_tables r cfg w :
  post (check_limit_file e r cfg) w (fun rc w' out =>
    (mutex_events out = [] /\ rc = HTTP_SERVICE_UNAVAILABLE /\ file_limit cfg > 0 /\
     file_table_full (shm_data w) r /\ w' = w) \/
    (mutex_events out = [] /\ rc = HTTP_SERVICE_UNAVAILABLE /\ ip_limit cfg > 0 /\
     ip_table_full (count_file cfg r (shm_data w)) r /\
     shm_data w' = count_file cfg r (shm_data w)) \/
    (shm_data w' = count_ip cfg r (count_file cfg r (shm_data w)) /\
     (file_limit cfg > 0 -> file_countable (shm_data w) r) /\
     (ip_limit cfg > 0 -> ip_countable (count_file cfg r (shm_data w)) r) /\
     exists st, mutex_events out = [MutexUnlock st])).
Proof.
  unfold check_limit_file, count_file.
  destruct (file_limit cfg >? 0) eqn:Hlim.
  - apply runs_bind, runs_dbg. intros _.
    apply runs_bind. apply post_done. intros rc w1 o1 Hinc.
    destruct (inc_file_counter_raise _ _ _ _ _ Hinc)
      as (-> & [(-> & -> & Hfull)|(-> & -> & Hcan)]); cbn [Z.eqb Pos.eqb].
    + apply runs_bind, runs_dbg. intros _. apply runs_ret.
      left. mev. split; [reflexivity|]. split; [reflexivity|]. split; [lia|].
      split; [exact Hfull|reflexivity].
    + apply runs_get_stat.
      eapply runs_mono; [apply check_limit_ip_tables|auto|].
      cbn [shm_data with_stat].
      intros rc w' out [(Hev & -> & Hip & Hfull & ->)|(Hshm & Hipc & st & Hev)].
      * right. left. mev. split; [assumption|]. split; [reflexivity|].
        split; [assumption|]. split; [assumption|reflexivity].
      * right. right. split; [assumption|]. split; [intros _; assumption|].
        split; [assumption|]. exists st. mev. assumption.
  - eapply runs_mono; [apply check_limit_ip_tables|auto|].
    intros rc w' out [(Hev & -> & Hip & Hfull & ->)|(Hshm & Hipc & st & Hev)].
    + right. left. split; [assumption|]. split; [reflexivity|].
      split; [assumption|]. split; [assumption|reflexivity].
    + right. right. split; [assumption|]. split; [lia|].
      split; [assumption|]. eauto.
Qed.

Lemma vlimit_check_limit_tables r cfg w :
  post (vlimit_check_limit e r cfg) w
    (fun rc w' out => admission_effect cfg r w rc w' (mutex_events out)).
Proof.
  unfold vlimit_check_limit, admission_effect.
  destruct (is_initial_req r) eqn:Hinit; cbn [negb].
  2:{ apply runs_bind, runs_dbg. intros _. apply runs_ret. mev. left. auto. }
  destruct ((ip_limit cfg <=? 0) && (file_limit cfg <=? 0)) eqn:Hdis.
  { apply runs_bind, runs_dbg. intros _. apply runs_ret. mev. left. auto. }
  apply runs_bind, runs_dbg. intros _.
  apply runs_bind, runs_reads; [apply reads_make_ip_slot_list|]. intros rc1 o1 Hq1.
  apply runs_bind, runs_reads;
    [apply reads_if; [apply reads_dbg|apply reads_ret]|]. intros _ o2 Hq2.
  apply runs_bind, runs_reads; [apply reads_make_file_slot_list|]. intros rc2 o3 Hq3.
  apply runs_bind, runs_reads;
    [apply reads_if; [apply reads_dbg|apply reads_ret]|]. intros _ o4 Hq4.
  apply runs_bind. apply wp_runs.
  eapply runs_mono; [apply check_virtualhost_name_spec|auto|].
  intros vh w1 o5 (-> & Hq5 & [[-> Hm]|[-> Hm]]); cbn [Z.eqb Pos.eqb negb].
  2:{ apply runs_bind, runs_dbg. intros _. apply runs_ret. mev. left. auto. }
  apply runs_bind, runs_dbg. intros _.
  apply runs_bind. eapply runs_eq; [apply apr_global_mutex_lock_run|].
  destruct (lock_status e =? APR_SUCCESS) eqn:Hst; cbn [negb].
  2:{ apply Z.eqb_neq in Hst. apply runs_bind, runs_dbg. intros _. apply runs_ret.
      mev. left. split; [reflexivity|]. right. eauto. }
  apply Z.eqb_eq in Hst.
  eapply runs_mono; [apply check_limit_file_tables|auto|].
  cbn [shm_data locked].
  intros rc w' out
    [(Hev & -> & Hlim & Hfull & ->)|[(Hev & -> & Hlim & Hfull & Hshm)|
     (Hshm & Hfc & Hipc & st & Hev)]];
    mev; rewrite Hev, Hst; cbn [app].
  - right. left. split; [reflexivity|]. split; [reflexivity|].
    split; [assumption|]. split; [assumption|reflexivity].
  - right. right. left. split; [reflexivity|]. split; [reflexivity|].
    split; [assumption|]. split; assumption.
  - right. right. right. exists st. split; [reflexivity|].
    split; [assumption|]. split; assumption.
Qed.

End AdmissionEffect.

Lemma raise_file_consistent r t :
  tables_consistent t -> tables_consistent (raise_file r t).
Proof.
  intros (Huf & Hui & Hzf & Hzi). unfold raise_file.
  pose proof (basename_nonempty (filename r)) as Hbase.
  destruct (Z.eq_dec (get_file_slot_id t r) (-1)) as [Hmiss|Hhit].
  - rewrite Hmiss. cbn [Z.eqb Pos.eqb].
    destruct (slot_at (file_stat_shm t) (get_file_empty_slot_id t r)) as [s|] eqn:Hs;
      [|repeat split; assumption].
    split; [|split; [assumption|split; [|assumption]]];
      cbn [set_file_slot file_stat_shm].
    + eapply unique_keys_set; [eassumption| |assumption].
      right. right. intros j s0 Hj Hs0. cbn [file_data.filename].
      apply String.eqb_neq. rewrite get_file_slot_id_scan in Hmiss.
      apply (scan_miss _ _ Hmiss j s0 Hj Hs0).
    + eapply empty_slots_zero_set; [eassumption| |assumption].
      cbn [file_data.filename]. intros Habs. destruct (Hbase Habs).
  - replace (get_file_slot_id t r =? -1) with false by lia.
    destruct (get_file_slot_id_hit _ _ Hhit) as (_ & s & Hs & Hk). rewrite Hs.
    split; [|split; [assumption|split; [|assumption]]];
      cbn [set_file_slot file_stat_shm].
    + eapply unique_keys_set; [eassumption| |assumption]. left.
      cbn [file_data.filename]. congruence.
    + eapply empty_slots_zero_set; [eassumption| |assumption].
      cbn [file_data.filename]. intros Habs. destruct (Hbase Habs).
Qed.

Lemma raise_ip_consistent r t :
  remote_ip r <> EmptyString ->
  tables_consistent t -> tables_consistent (raise_ip r t).
Proof.
  intros Hip (Huf & Hui & Hzf & Hzi). unfold raise_ip.
  destruct (Z.eq_dec (get_ip_slot_id t r) (-1)) as [Hmiss|Hhit].
  - rewrite Hmiss. cbn [Z.eqb Pos.eqb].
    destruct (slot_at (ip_stat_shm t) (get_ip_empty_slot_id t r)) as [s|] eqn:Hs;
      [|repeat split; assumption].
    split; [assumption|split; [|split; [assumption|]]];
      cbn [set_ip_slot ip_stat_shm].
    + eapply unique_keys_set; [eassumption| |assumption].
      right. right. intros j s0 Hj Hs0. cbn [ip_data.address].
      apply String.eqb_neq. rewrite get_ip_slot_id_scan in Hmiss.
      apply (scan_miss _ _ Hmiss j s0 Hj Hs0).
    + eapply empty_slots_zero_set; [eassumption| |assumption].
      cbn [ip_data.address]. intros Habs. destruct (Hip Habs).
  - replace (get_ip_slot_id t r =? -1) with false by lia.
    destruct (get_ip_slot_id_hit _ _ Hhit) as (_ & s & Hs & Hk). rewrite Hs.
    split; [assumption|split; [|split; [assumption|]]];
      cbn [set_ip_slot ip_stat_shm].
    + eapply unique_keys_set; [eassumption| |assumption]. left.
      cbn [ip_data.address]. congruence.
    + eapply empty_slots_zero_set; [eassumption| |assumption].
      cbn [ip_data.address]. intros Habs. destruct (Hip Habs).
Qed.

Lemma release_file_consistent cfg r t :
  tables_consistent t -> tables_consistent (release_file cfg r t).
Proof.
  intros (Huf & Hui & Hzf & Hzi). unfold release_file.
  destruct (file_limit cfg >? 0); [|repeat split; assumption].
  destruct (slot_at (file_stat_shm t) (get_file_slot_id t r)) as [s|] eqn:Hs;
    [|repeat split; assumption].
  split; [|split; [assumption|split; [|assumption]]];
    cbn [set_file_slot file_stat_shm].
  - eapply unique_keys_set; [eassumption| |assumption].
    unfold released_file. cbn [file_data.filename].
    destruct (_ =? 0); [right; left|left]; reflexivity.
  - eapply empty_slots_zero_set; [eassumption| |assumption].
    unfold released_file. cbn [file_data.filename file_data.counter].
    destruct (_ =? 0) eqn:Hz; [lia|]. intros Hk. apply (Hzf _ _ Hs) in Hk.
    rewrite Hk in Hz. discriminate.
Qed.

Lemma release_ip_consistent cfg r t :
  tables_consistent t -> tables_consistent (release_ip cfg r t).
Proof.
  intros (Huf & Hui & Hzf & Hzi). unfold release_ip.
  destruct (ip_limit cfg >? 0); [|repeat split; assumption].
  destruct (slot_at (ip_stat_shm t) (get_ip_slot_id t r)) as [s|] eqn:Hs;
    [|repeat split; assumption].
  split; [assumption|split; [|split; [assumption|]]];
    cbn [set_ip_slot ip_stat_shm].
  - eapply unique_keys_set; [eassumption| |assumption].
    unfold released_ip. cbn [ip_data.address].
    destruct (_ =? 0); [right; left|left]; reflexivity.
  - eapply empty_slots_zero_set; [eassumption| |assumption].
    unfold released_ip. cbn [ip_data.address ip_data.counter].
    destruct (_ =? 0) eqn:Hz; [lia|]. intros Hk. apply (Hzi _ _ Hs) in Hk.
    rewrite Hk in Hz. discriminate.
Qed.

Lemma init_shm_consistent : tables_consistent init_shm.
Proof.
  unfold init_shm. repeat split; cbn [file_stat_shm ip_stat_shm].
  - intros i j s s' _ _ Hs _ Hne _. apply slot_at_repeat in Hs. subst s.
    destruct Hne. reflexivity.
  - intros i j s s' _ _ Hs _ Hne _. apply slot_at_repeat in Hs. subst s.
    destruct Hne. reflexivity.
  - intros i s Hs _. apply slot_at_repeat in Hs. subst s. reflexivity.
  - intros i s Hs _. apply slot_at_repeat in Hs. subst s. reflexivity.
Qed.

Section HandlerEffect.

Variable e : env.

Lemma vlimit_handler_tables r cfg w rc w' out :
  vlimit_handler e r cfg w = Done rc w' out ->
  (in_scope e r cfg = false /\ rc = DECLINED /\ w' = w /\ mutex_events out = []) \/
  (in_scope e r cfg = true /\ admission_effect cfg r w rc w' (mutex_events out)).
Proof.
  destruct (vlimit_handler_run e r cfg w) as (pre & suf & Hp & Hs & Heq).
  rewrite Heq. destruct (in_scope e r cfg).
  - pose proof (vlimit_check_limit_tables e r cfg w) as Hpost.
    unfold runs in Hpost.
    destruct (vlimit_check_limit e r cfg w) as [rc0 w0 out0|f]; cbn [wrap_out];
      [|discriminate].
    intros Hrun. inversion Hrun. subst. right. split; [reflexivity|].
    rewrite mutex_events_wrap by assumption. exact Hpost.
  - intros Hrun. inversion Hrun. subst. left. split; [reflexivity|].
    split; [reflexivity|]. split; [reflexivity|]. now apply mutex_events_quiet.
Qed.

Lemma vlimit_response_end_tables r cfg w rc w' out :
  vlimit_response_end e r cfg w = Done rc w' out ->
  rc = OK /\ response_end_run e r cfg w w' (mutex_events out).
Proof.
  intros Hrun. pose proof (vlimit_response_end_spec e r cfg w) as Hspec.
  unfold runs in Hspec. rewrite Hrun in Hspec.
  destruct Hspec as (Hrc & Hre & _). split; assumption.
Qed.

End HandlerEffect.

(** X5.  When the client address is not empty, the two hooks and each of the
    six table routines keep the tables consistent: no two of the first
    MAX_CLIENTS slots of a table hold the same key, and an empty slot has a
    counter of 0. *)
Theorem hooks_keep_the_tables_consistent (e : env) (r : request_rec)
    (cfg : vlimit_config) (w : world) :
  remote_ip r <> EmptyString ->
  tables_consistent (shm_data w) ->
  (forall rc w' out, vlimit_handler e r cfg w = Done rc w' out ->
                     tables_consistent (shm_data w')) /\
  (forall rc w' out, vlimit_response_end e r cfg w = Done rc w' out ->
                     tables_consistent (shm_data w')) /\
  (forall op rc w' out, run_op e op r w = Done rc w' out ->
                        tables_consistent (shm_data w')).
Proof.
  intros Hip Hcons. split; [|split].
  - intros rc w' out Hrun.
    destruct (vlimit_handler_tables e r cfg w rc w' out Hrun)
      as [(_ & _ & -> & _)|(_ & Heff)]; [assumption|].
    destruct Heff as [(-> & _)|[(_ & _ & _ & _ & ->)|[(_ & _ & _ & _ & ->)|(st & _ & -> & _)]]].
    + assumption.
    + assumption.
    + unfold count_file. destruct (file_limit cfg >? 0); [|assumption].
      now apply raise_file_consistent.
    + unfold count_ip, count_file.
      destruct (ip_limit cfg >? 0); destruct (file_limit cfg >? 0);
        try apply raise_ip_consistent; try apply raise_file_consistent; assumption.
  - intros rc w' out Hrun.
    destruct (vlimit_response_end_tables e r cfg w rc w' out Hrun) as (_ & Hre).
    inversion Hre as [Hm Hw|Hm Hst Hw|w0 Hm Hst Hshm Hheld Hw]; subst;
      try assumption.
    rewrite Hshm. apply release_ip_consistent, release_file_consistent. assumption.
  - intros op rc w' out Hrun. eapply run_op_consistent; eassumption.
Qed.

Lemma hooks_keep_the_tables_consistent_witness :
  exists w1 out1 w2 out2,
    vlimit_handler plain_env sample_request (ip_config 2) init_world =
      Done OK w1 out1 /\
    tables_consistent (shm_data w1) /\
    vlimit_response_end plain_env sample_request (ip_config 2) w1 =
      Done OK w2 out2 /\
    tables_consistent (shm_data w2).
Proof.
  destruct (vlimit_handler plain_env sample_request (ip_config 2) init_world)
    as [rc w1 out1|f] eqn:Hrun1; [|vm_compute in Hrun1; discriminate].
  assert (Hrc : rc = OK) by (vm_compute in Hrun1; inversion Hrun1; reflexivity).
  subst rc.
  assert (Hip : remote_ip sample_request <> EmptyString) by discriminate.
  pose proof (proj1 (hooks_keep_the_tables_consistent plain_env sample_request
                       (ip_config 2) init_world Hip init_shm_consistent)
                _ _ _ Hrun1) as Hc1.
  destruct (vlimit_response_end plain_env sample_request (ip_config 2) w1)
    as [rc2 w2 out2|f] eqn:Hrun2.
  2:{ vm_compute in Hrun1. inversion Hrun1. subst. vm_compute in Hrun2.
      discriminate. }
  assert (Hrc2 : rc2 = OK).
  { vm_compute in Hrun1. inversion Hrun1. subst. vm_compute in Hrun2.
    inversion Hrun2. reflexivity. }
  subst rc2.
  exists w1, out1, w2, out2. split; [reflexivity|]. split; [assumption|].
  split; [assumption|].
  exact (proj1 (proj2 (hooks_keep_the_tables_consistent plain_env sample_request
                         (ip_config 2) w1 Hip Hc1)) _ _ _ Hrun2).
Defined.

(** ** The count after the admission *)

Lemma raise_ip_file_stat r t : file_stat_shm (raise_ip r t) = file_stat_shm t.
Proof.
  unfold raise_ip. now destruct (slot_at (ip_stat_shm t) _).
Qed.

Lemma raise_file_ip_stat r t : ip_stat_shm (raise_file r t) = ip_stat_shm t.
Proof.
  unfold raise_file. now destruct (slot_at (file_stat_shm t) _).
Qed.

Lemma count_ip_file_stat cfg r t : file_stat_shm (count_ip cfg r t) = file_stat_shm t.
Proof.
  unfold count_ip. destruct (ip_limit cfg >? 0); [apply raise_ip_file_stat|reflexivity].
Qed.

Lemma count_file_ip_stat cfg r t : ip_stat_shm (count_file cfg r t) = ip_stat_shm t.
Proof.
  unfold count_file.
  destruct (file_limit cfg >? 0); [apply raise_file_ip_stat|reflexivity].
Qed.

(** The slot an increment writes. *)
Definition ip_target (t : SHM_DATA) (r : request_rec) : Z :=
  if get_ip_slot_id t r =? -1 then get_ip_empty_slot_id t r else get_ip_slot_id t r.

Definition file_target (t : SHM_DATA) (r : request_rec) : Z :=
  if get_file_slot_id t r =? -1 then get_file_empty_slot_id t r
  else get_file_slot_id t r.

Lemma raise_ip_slot t r :
  ~ ip_table_full t r ->
  exists s, slot_at (ip_stat_shm t) (ip_target t r) = Some s /\
    get_ip_counter t r = ip_data.counter s /\
    (get_ip_slot_id t r = -1 -> ip_data.address s = EmptyString) /\
    (get_ip_slot_id t r <> -1 -> ip_data.address s = remote_ip r) /\
    raise_ip r t =
      set_ip_slot t (ip_target t r)
        {| ip_data.address := remote_ip r;
           ip_data.counter := int_wrap (ip_data.counter s + 1) |} /\
    get_ip_slot_id (raise_ip r t) r = ip_target t r.
Proof.
  intros Hfull. unfold raise_ip, ip_target, ip_table_full in *.
  destruct (Z.eq_dec (get_ip_slot_id t r) (-1)) as [Hmiss|Hhit].
  - rewrite Hmiss. cbn [Z.eqb Pos.eqb].
    assert (Hfree : get_ip_empty_slot_id t r <> -1)
      by (intros Hf; apply Hfull; split; assumption).
    destruct (get_ip_counter_miss _ _ Hmiss) as [[Hf _]|(s & Hs & Hk & Hc)];
      [destruct (Hfree Hf)|].
    exists s. rewrite Hs. split; [reflexivity|]. split; [assumption|].
    split; [intros _; assumption|]. split; [intros Hne; now destruct Hne|].
    split; [reflexivity|].
    eapply get_ip_slot_id_new; try eassumption; reflexivity.
  - replace (get_ip_slot_id t r =? -1) with false by lia.
    destruct (get_ip_slot_id_hit _ _ Hhit) as (_ & s & Hs & Hk).
    exists s. rewrite Hs. split; [reflexivity|].
    split; [now apply get_ip_counter_found|].
    split; [intros Hm; destruct (Hhit Hm)|]. split; [intros _; assumption|].
    split; [reflexivity|].
    eapply get_ip_slot_id_set; [eassumption|]. cbn [ip_data.address]. congruence.
Qed.

Lemma raise_file_slot t r :
  ~ file_table_full t r ->
  exists s, slot_at (file_stat_shm t) (file_target t r) = Some s /\
    get_file_counter t r = file_data.counter s /\
    (get_file_slot_id t r = -1 -> file_data.filename s = EmptyString) /\
    (get_file_slot_id t r <> -1 -> file_data.filename s = basename (filename r)) /\
    raise_file r t =
      set_file_slot t (file_target t r)
        {| file_data.filename := basename (filename r);
           file_data.counter := int_wrap (file_data.counter s + 1) |} /\
    get_file_slot_id (raise_file r t) r = file_target t r.
Proof.
  intros Hfull. unfold raise_file, file_target, file_table_full in *.
  destruct (Z.eq_dec (get_file_slot_id t r) (-1)) as [Hmiss|Hhit].
  - rewrite Hmiss. cbn [Z.eqb Pos.eqb].
    assert (Hfree : get_file_empty_slot_id t r <> -1)
      by (intros Hf; apply Hfull; split; assumption).
    destruct (get_file_counter_miss _ _ Hmiss) as [[Hf _]|(s & Hs & Hk & Hc)];
      [destruct (Hfree Hf)|].
    exists s. rewrite Hs. split; [reflexivity|]. split; [assumption|].
    split; [intros _; assumption|]. split; [intros Hne; now destruct Hne|].
    split; [reflexivity|].
    eapply get_file_slot_id_new; try eassumption; reflexivity.
  - replace (get_file_slot_id t r =? -1) with false by lia.
    destruct (get_file_slot_id_hit _ _ Hhit) as (_ & s & Hs & Hk).
    exists s. rewrite Hs. split; [reflexivity|].
    split; [now apply get_file_counter_found|].
    split; [intros Hm; destruct (Hhit Hm)|]. split; [intros _; assumption|].
    split; [reflexivity|].
    eapply get_file_slot_id_set; [eassumption|]. cbn [file_data.filename].
    congruence.
Qed.

Lemma raise_ip_counter t r :
  ~ ip_table_full t r ->
  get_ip_counter (raise_ip r t) r = int_wrap (get_ip_counter t r + 1).
Proof.
  intros Hfull.
  destruct (raise_ip_slot t r Hfull) as (s & Hs & Hc & _ & _ & Heq & Hid).
  erewrite get_ip_counter_found.
  2:{ rewrite Hid, Heq. cbn [set_ip_slot ip_stat_shm].
      eapply slot_at_insert_eq. eassumption. }
  cbn [ip_data.counter]. now rewrite Hc.
Qed.

Lemma raise_file_counter t r :
  ~ file_table_full t r ->
  get_file_counter (raise_file r t) r = int_wrap (get_file_counter t r + 1).
Proof.
  intros Hfull.
  destruct (raise_file_slot t r Hfull) as (s & Hs & Hc & _ & _ & Heq & Hid).
  erewrite get_file_counter_found.
  2:{ rewrite Hid, Heq. cbn [set_file_slot file_stat_shm].
      eapply slot_at_insert_eq. eassumption. }
  cbn [file_data.counter]. now rewrite Hc.
Qed.

Lemma no_unlock_in_lock st st' : ~ In (MutexUnlock st) [MutexLock st'].
Proof. intros [Habs|[]]. discriminate. Qed.

(** The counts after a run of the handler that reached the unlock. *)
Lemma vlimit_handler_counts (e : env) (r : request_rec)
    (cfg : vlimit_config) (w : world) (rc : Z) (w' : world) (out : list event)
    (st : Z) :
  vlimit_handler e r cfg w = Done rc w' out ->
  In (MutexUnlock st) out ->
  (ip_limit cfg > 0 ->
   get_ip_counter (shm_data w') r = int_wrap (get_ip_counter (shm_data w) r + 1)) /\
  (file_limit cfg > 0 ->
   get_file_counter (shm_data w') r =
     int_wrap (get_file_counter (shm_data w) r + 1)) /\
  (ip_limit cfg <= 0 -> ip_stat_shm (shm_data w') = ip_stat_shm (shm_data w)) /\
  (file_limit cfg <= 0 -> file_stat_shm (shm_data w') = file_stat_shm (shm_data w)).
Proof.
  intros Hrun Hin.
  apply (in_mutex_events (MutexUnlock st) out eq_refl) in Hin.
  destruct (vlimit_handler_tables e r cfg w rc w' out Hrun)
    as [(_ & _ & _ & Hev)|(_ & Heff)]; [rewrite Hev in Hin; destruct Hin|].
  destruct Heff as [(_ & [Hev|(st' & _ & Hev)])|[(Hev & _)|[(Hev & _)|
                    (st' & _ & Hshm & Hfc & Hipc)]]].
  1: rewrite Hev in Hin; destruct Hin.
  1-3: rewrite Hev in Hin; destruct (no_unlock_in_lock _ _ Hin).
  rewrite Hshm. split; [|split; [|split]].
  - intros Hlim. specialize (Hipc Hlim). destruct Hipc as (Hnf & _).
    unfold count_ip at 1. replace (ip_limit cfg >? 0) with true by lia.
    rewrite (raise_ip_counter _ _ Hnf). f_equal. f_equal.
    apply get_ip_counter_ext, count_file_ip_stat.
  - intros Hlim. specialize (Hfc Hlim). destruct Hfc as (Hnf & _).
    rewrite (get_file_counter_ext _ (count_file cfg r (shm_data w)))
      by apply count_ip_file_stat.
    unfold count_file. replace (file_limit cfg >? 0) with true by lia.
    now apply raise_file_counter.
  - intros Hlim. unfold count_ip. replace (ip_limit cfg >? 0) with false by lia.
    apply count_file_ip_stat.
  - intros Hlim. rewrite count_ip_file_stat. unfold count_file.
    now replace (file_limit cfg >? 0) with false by lia.
Qed.

(** X6.  A run of the handler that reached the unlock has raised by one the
    count of each limit that is on and left the table of a limit that is
    off as it was, whatever it answers: the count of a request answered 503
    is not taken back. *)
Theorem admission_counts_before_it_decides (e : env) (r : request_rec)
    (cfg : vlimit_config) (w : world) (rc : Z) (w' : world) (out : list event)
    (st : Z) :
  vlimit_handler e r cfg w = Done rc w' out ->
  In (MutexUnlock st) out ->
  (ip_limit cfg > 0 ->
   get_ip_counter (shm_data w') r = int_wrap (get_ip_counter (shm_data w) r + 1)) /\
  (file_limit cfg > 0 ->
   get_file_counter (shm_data w') r =
     int_wrap (get_file_counter (shm_data w) r + 1)) /\
  (ip_limit cfg <= 0 -> ip_stat_shm (shm_data w') = ip_stat_shm (shm_data w)) /\
  (file_limit cfg <= 0 -> file_stat_shm (shm_data w') = file_stat_shm (shm_data w)).
Proof. apply vlimit_handler_counts. Qed.

Lemma admission_counts_before_it_decides_witness :
  exists w' out,
    vlimit_handler plain_env sample_request (ip_config 2) (busy_world 3) =
      Done HTTP_SERVICE_UNAVAILABLE w' out /\
    get_ip_counter (shm_data (busy_world 3)) sample_request = 3 /\
    get_ip_counter (shm_data w') sample_request = 4.
Proof.
  destruct (vlimit_handler plain_env sample_request (ip_config 2) (busy_world 3))
    as [rc w' out|f] eqn:Hrun; [|vm_compute in Hrun; discriminate].
  assert (Hrc : rc = HTTP_SERVICE_UNAVAILABLE)
    by (vm_compute in Hrun; inversion Hrun; reflexivity).
  assert (Hin : In (MutexUnlock APR_SUCCESS) out)
    by (vm_compute in Hrun; inversion Hrun; subst; right; left; reflexivity).
  assert (Hbefore : get_ip_counter (shm_data (busy_world 3)) sample_request = 3)
    by (vm_compute; reflexivity).
  destruct (admission_counts_before_it_decides plain_env sample_request
              (ip_config 2) (busy_world 3) rc w' out APR_SUCCESS Hrun Hin)
    as (Hip & _).
  exists w', out. subst rc. split; [reflexivity|]. split; [assumption|].
  rewrite Hip by (cbn; lia). rewrite Hbefore. vm_compute. reflexivity.
Defined.

(** ** The faults of the completion *)

Section CompletionFault.

Variable e : env.

Lemma vlimit_response_end_faults r cfg w :
  vhost_match r -> lock_status e = APR_SUCCESS ->
  (file_limit cfg > 0 /\ get_file_slot_id (shm_data w) r = -1 /\
   get_file_counter (shm_data w) r = 0) \/
  (ip_limit cfg > 0 /\ get_ip_slot_id (shm_data w) r = -1 /\
   get_ip_counter (shm_data w) r = 0) ->
  runs (fun f => f = OutOfBounds) (vlimit_response_end e r cfg) w
    (fun _ _ _ => False).
Proof.
  intros Hvh Hlock Hcase. unfold vlimit_response_end.
  apply runs_bind, runs_dbg. intros _.
  apply runs_bind. apply wp_runs.
  eapply runs_mono; [apply check_virtualhost_name_spec|auto|].
  intros vh w1 o5 (-> & Hq5 & [[-> Hm]|[-> Hm]]); cbn [Z.eqb Pos.eqb negb];
    [|destruct (Hm Hvh)].
  apply runs_bind, runs_dbg. intros _.
  apply runs_bind. eapply runs_eq; [apply apr_global_mutex_lock_run|].
  replace (lock_status e =? APR_SUCCESS) with true by lia. cbn [negb].
  apply runs_bind.
  destruct Hcase as [(Hl & Hmiss & Hz)|(Hl & Hmiss & Hz)].
  - unfold runs. rewrite response_end_file_miss by assumption.
    cbn [shm_data locked].
    replace (get_file_counter (shm_data w) r >? 0) with false by lia.
    replace (get_file_counter (shm_data w) r =? 0) with true by lia. reflexivity.
  - eapply runs_mono; [apply response_end_file_spec|intros f Hf; apply Hf|].
    cbn [shm_data locked]. intros cs1 w2 o6 (Hq6 & -> & _).
    apply runs_bind. unfold runs.
    rewrite response_end_ip_miss; cbn [shm_data with_stat];
      rewrite ?(get_ip_slot_id_ext _ (shm_data w)) by apply release_file_ip_stat;
      rewrite ?(get_ip_counter_ext _ (shm_data w)) by apply release_file_ip_stat;
      try assumption.
    replace (get_ip_counter (shm_data w) r >? 0) with false by lia.
    replace (get_ip_counter (shm_data w) r =? 0) with true by lia. reflexivity.
Qed.

End CompletionFault.



(** ** Admission, then completion *)

Lemma shm_data_ext t t' :
  file_stat_shm t = file_stat_shm t' -> ip_stat_shm t = ip_stat_shm t' -> t = t'.
Proof. destruct t, t'. cbn. now intros -> ->. Qed.

Lemma release_file_ext cfg r t t' :
  file_stat_shm t = file_stat_shm t' ->
  file_stat_shm (release_file cfg r t) = file_stat_shm (release_file cfg r t').
Proof.
  intros Heq. unfold release_file. destruct (file_limit cfg >? 0); [|assumption].
  rewrite (get_file_slot_id_ext t t') by assumption. rewrite Heq.
  destruct (slot_at (file_stat_shm t') (get_file_slot_id t' r)); [|assumption].
  cbn [set_file_slot file_stat_shm]. now rewrite Heq.
Qed.

Lemma release_ip_ext cfg r t t' :
  ip_stat_shm t = ip_stat_shm t' ->
  ip_stat_shm (release_ip cfg r t) = ip_stat_shm (release_ip cfg r t').
Proof.
  intros Heq. unfold release_ip. destruct (ip_limit cfg >? 0); [|assumption].
  rewrite (get_ip_slot_id_ext t t') by assumption. rewrite Heq.
  destruct (slot_at (ip_stat_shm t') (get_ip_slot_id t' r)); [|assumption].
  cbn [set_ip_slot ip_stat_shm]. now rewrite Heq.
Qed.

(** The counter of the slot of the key, when it has one, is positive and
    below INT_MAX. *)
Definition file_count_in_range (t : SHM_DATA) (r : request_rec) : Prop :=
  forall s, slot_at (file_stat_shm t) (get_file_slot_id t r) = Some s ->
            0 < file_data.counter s < INT_MAX.

Definition ip_count_in_range (t : SHM_DATA) (r : request_rec) : Prop :=
  forall s, slot_at (ip_stat_shm t) (get_ip_slot_id t r) = Some s ->
            0 < ip_data.counter s < INT_MAX.

Lemma release_raise_file cfg r t :
  file_limit cfg > 0 ->
  empty_slots_zero file_data.filename file_data.counter (file_stat_shm t) ->
  ~ file_table_full t r -> file_count_in_range t r ->
  release_file cfg r (raise_file r t) = t.
Proof.
  intros Hlim Hzero Hnf Hrange.
  destruct (raise_file_slot t r Hnf) as (s & Hs & Hc & Hk0 & Hk1 & Heq & Hid).
  unfold release_file. replace (file_limit cfg >? 0) with true by lia.
  assert (Hnew : slot_at (file_stat_shm (raise_file r t)) (file_target t r) =
                 Some {| file_data.filename := basename (filename r);
                         file_data.counter := int_wrap (file_data.counter s + 1) |}).
  { rewrite Heq. cbn [set_file_slot file_stat_shm].
    eapply slot_at_insert_eq. eassumption. }
  rewrite Hid, Hnew, Heq, set_file_slot_twice.
  apply set_file_slot_same. rewrite Hs. f_equal.
  unfold released_file. cbn [file_data.counter file_data.filename].
  destruct (Z.eq_dec (get_file_slot_id t r) (-1)) as [Hmiss|Hhit].
  - specialize (Hk0 Hmiss). pose proof (Hzero _ _ Hs Hk0) as Hz.
    destruct s as [k c]. cbn in Hk0, Hz. subst k c. reflexivity.
  - specialize (Hk1 Hhit). unfold file_target in Hs.
    replace (get_file_slot_id t r =? -1) with false in Hs by lia.
    specialize (Hrange s Hs). unfold INT_MAX in Hrange.
    rewrite (int_wrap_id (file_data.counter s + 1))
      by (unfold INT_MIN, INT_MAX; lia).
    replace (file_data.counter s + 1 >? 0) with true by lia.
    replace (file_data.counter s + 1 - 1) with (file_data.counter s) by lia.
    rewrite int_wrap_id by (unfold INT_MIN, INT_MAX; lia).
    replace (file_data.counter s =? 0) with false by lia.
    destruct s as [k c]. cbn in Hk1. now subst k.
Qed.

Lemma release_raise_ip cfg r t :
  ip_limit cfg > 0 ->
  empty_slots_zero ip_data.address ip_data.counter (ip_stat_shm t) ->
  ~ ip_table_full t r -> ip_count_in_range t r ->
  release_ip cfg r (raise_ip r t) = t.
Proof.
  intros Hlim Hzero Hnf Hrange.
  destruct (raise_ip_slot t r Hnf) as (s & Hs & Hc & Hk0 & Hk1 & Heq & Hid).
  unfold release_ip. replace (ip_limit cfg >? 0) with true by lia.
  assert (Hnew : slot_at (ip_stat_shm (raise_ip r t)) (ip_target t r) =
                 Some {| ip_data.address := remote_ip r;
                         ip_data.counter := int_wrap (ip_data.counter s + 1) |}).
  { rewrite Heq. cbn [set_ip_slot ip_stat_shm].
    eapply slot_at_insert_eq. eassumption. }
  rewrite Hid, Hnew, Heq, set_ip_slot_twice.
  apply set_ip_slot_same. rewrite Hs. f_equal.
  unfold released_ip. cbn [ip_data.counter ip_data.address].
  destruct (Z.eq_dec (get_ip_slot_id t r) (-1)) as [Hmiss|Hhit].
  - specialize (Hk0 Hmiss). pose proof (Hzero _ _ Hs Hk0) as Hz.
    destruct s as [k c]. cbn in Hk0, Hz. subst k c. reflexivity.
  - specialize (Hk1 Hhit). unfold ip_target in Hs.
    replace (get_ip_slot_id t r =? -1) with false in Hs by lia.
    specialize (Hrange s Hs). unfold INT_MAX in Hrange.
    rewrite (int_wrap_id (ip_data.counter s + 1))
      by (unfold INT_MIN, INT_MAX; lia).
    replace (ip_data.counter s + 1 >? 0) with true by lia.
    replace (ip_data.counter s + 1 - 1) with (ip_data.counter s) by lia.
    rewrite int_wrap_id by (unfold INT_MIN, INT_MAX; lia).
    replace (ip_data.counter s =? 0) with false by lia.
    destruct s as [k c]. cbn in Hk1. now subst k.
Qed.

Lemma release_count_file cfg r t :
  empty_slots_zero file_data.filename file_data.counter (file_stat_shm t) ->
  (file_limit cfg > 0 -> ~ file_table_full t r) -> file_count_in_range t r ->
  release_file cfg r (count_file cfg r t) = t.
Proof.
  intros Hzero Hnf Hrange. unfold count_file.
  destruct (file_limit cfg >? 0) eqn:Hlim.
  - apply release_raise_file; try assumption; [lia|]. apply Hnf. lia.
  - unfold release_file. now rewrite Hlim.
Qed.

Lemma release_count_ip cfg r t :
  empty_slots_zero ip_data.address ip_data.counter (ip_stat_shm t) ->
  (ip_limit cfg > 0 -> ~ ip_table_full t r) -> ip_count_in_range t r ->
  release_ip cfg r (count_ip cfg r t) = t.
Proof.
  intros Hzero Hnf Hrange. unfold count_ip.
  destruct (ip_limit cfg >? 0) eqn:Hlim.
  - apply release_raise_ip; try assumption; [lia|]. apply Hnf. lia.
  - unfold release_ip. now rewrite Hlim.
Qed.

Lemma release_count cfg r t :
  tables_consistent t ->
  (file_limit cfg > 0 -> ~ file_table_full t r) ->
  (ip_limit cfg > 0 -> ~ ip_table_full (count_file cfg r t) r) ->
  file_count_in_range t r -> ip_count_in_range t r ->
  release_ip cfg r (release_file cfg r (count_ip cfg r (count_file cfg r t))) = t.
Proof.
  intros (_ & _ & Hzf & Hzi) Hff Hif Hfr Hir.
  apply shm_data_ext.
  - rewrite release_ip_file_stat.
    rewrite (release_file_ext cfg r _ (count_file cfg r t))
      by apply count_ip_file_stat.
    now rewrite release_count_file.
  - rewrite (release_ip_ext cfg r _ (count_ip cfg r (count_file cfg r t)))
      by apply release_file_ip_stat.
    rewrite release_count_ip; try assumption.
    + apply count_file_ip_stat.
    + now rewrite count_file_ip_stat.
    + unfold ip_count_in_range.
      rewrite (get_ip_slot_id_ext _ t) by apply count_file_ip_stat.
      now rewrite count_file_ip_stat.
Qed.

Section RoundTrip.

Variable e : env.

(** A run of the handler that reached the unlock was for a matching host
    and took the mutex. *)
Lemma vlimit_handler_unlock r cfg w rc w' out st :
  vlimit_handler e r cfg w = Done rc w' out ->
  In (MutexUnlock st) out ->
  in_scope e r cfg = true /\ is_initial_req r = true /\ ~ disabled cfg /\
  vhost_match r /\ lock_status e = APR_SUCCESS /\ st = unlock_status e /\
  mutex_events out = [MutexLock APR_SUCCESS; MutexUnlock (unlock_status e)] /\
  mutex_held w' = negb (unlock_status e =? APR_SUCCESS).
Proof.
  intros Hrun Hin.
  apply (in_mutex_events (MutexUnlock st) out eq_refl) in Hin.
  pose proof (vlimit_handler_spec e r cfg w) as Hspec. unfold runs in Hspec.
  rewrite Hrun in Hspec. destruct (in_scope e r cfg).
  2:{ destruct Hspec as (_ & _ & Hev). rewrite Hev in Hin. destruct Hin. }
  split; [reflexivity|].
  inversion Hspec as [Hskip Hrc Hw Hev|Hinit Hen Hvh Hrc Hw Hev|
                      Hinit Hen Hvh Hst Hrc Hw Hev|
                      w0 Hinit Hen Hvh Hst Hheld Hrc Hw Hev|
                      w0 Hinit Hen Hvh Hst Hun Hheld Hrc Hw Hev|
                      w0 Hinit Hen Hvh Hst Hun Hheld Hrc Hw Hev];
    rewrite <- Hev in Hin.
  - destruct Hin.
  - destruct Hin.
  - destruct (no_unlock_in_lock _ _ Hin).
  - destruct (no_unlock_in_lock _ _ Hin).
  - destruct Hin as [Habs|[Heq|[]]]; [discriminate|]. inversion Heq.
    split; [assumption|]. split; [assumption|]. split; [assumption|].
    split; [assumption|]. split; [reflexivity|]. split; [now symmetry|].
    rewrite Hheld. now replace (unlock_status e =? APR_SUCCESS) with false by lia.
  - destruct Hin as [Habs|[Heq|[]]]; [discriminate|]. inversion Heq.
    split; [assumption|]. split; [assumption|]. split; [assumption|].
    split; [assumption|]. split; [now symmetry|].
    split; [rewrite Hun; now symmetry|]. rewrite Hheld, Hun. reflexivity.
Qed.

End RoundTrip.

(** X8.  On consistent tables, when the counters of the two keys of the
    request, if they have a slot, are positive and below INT_MAX, the
    completion of a request undoes its admission: after a run of the
    handler that reached the unlock, a run of [vlimit_response_end] that
    ends leaves the two tables as they were before the handler. *)
Theorem completion_undoes_the_admission (e : env) (r : request_rec)
    (cfg : vlimit_config) (w : world) (rc1 : Z) (w1 : world) (out1 : list event)
    (st : Z) (rc2 : Z) (w2 : world) (out2 : list event) :
  tables_consistent (shm_data w) ->
  file_count_in_range (shm_data w) r ->
  ip_count_in_range (shm_data w) r ->
  vlimit_handler e r cfg w = Done rc1 w1 out1 ->
  In (MutexUnlock st) out1 ->
  vlimit_response_end e r cfg w1 = Done rc2 w2 out2 ->
  shm_data w2 = shm_data w.
Proof.
  intros Hcons Hfr Hir Hrun1 Hin Hrun2.
  destruct (vlimit_handler_unlock e r cfg w rc1 w1 out1 st Hrun1 Hin)
    as (_ & _ & _ & Hvh & Hlock & _ & Hev & _).
  destruct (vlimit_handler_tables e r cfg w rc1 w1 out1 Hrun1)
    as [(_ & _ & _ & Hev')|(_ & Heff)]; [rewrite Hev in Hev'; discriminate|].
  rewrite Hev in Heff.
  destruct Heff as [(_ & [Hev'|(st' & _ & Hev')])|[(Hev' & _)|[(Hev' & _)|
                    (st' & _ & Hshm & Hfc & Hipc)]]];
    try discriminate.
  destruct (vlimit_response_end_tables e r cfg w1 rc2 w2 out2 Hrun2) as (_ & Hre).
  inversion Hre as [Hm Hw|Hm Hst Hw|w0 Hm Hst Hshm2 Hheld Hw]; subst.
  - destruct (Hm Hvh).
  - destruct (Hst Hlock).
  - rewrite Hshm2, Hshm. apply release_count; try assumption.
    + intros Hlim. apply (Hfc Hlim).
    + intros Hlim. apply (Hipc Hlim).
Qed.

Lemma busy_world_consistent n : tables_consistent (shm_data (busy_world n)).
Proof.
  destruct init_shm_consistent as (Huf & Hui & Hzf & Hzi).
  assert (Hs : slot_at (ip_stat_shm init_shm) 0 = Some empty_ip_stat)
    by reflexivity.
  unfold busy_world. cbn [shm_data].
  split; [assumption|split; [|split; [assumption|]]]; cbn [ip_stat_shm].
  - apply (unique_keys_set ip_data.address _ 0 _ _ Hs); [|assumption].
    right. right. intros j s _ Hj. apply slot_at_repeat in Hj. subst s.
    discriminate.
  - apply (empty_slots_zero_set ip_data.address ip_data.counter _ 0 _ _ Hs);
      [|assumption].
    discriminate.
Qed.

Lemma completion_undoes_the_admission_witness :
  exists w1 out1 w2 out2,
    vlimit_handler plain_env sample_request (ip_config 2) (busy_world 3) =
      Done HTTP_SERVICE_UNAVAILABLE w1 out1 /\
    vlimit_response_end plain_env sample_request (ip_config 2) w1 =
      Done OK w2 out2 /\
    shm_data w2 = shm_data (busy_world 3).
Proof.
  destruct (vlimit_handler plain_env sample_request (ip_config 2) (busy_world 3))
    as [rc1 w1 out1|f] eqn:Hrun1; [|vm_compute in Hrun1; discriminate].
  assert (Hrc1 : rc1 = HTTP_SERVICE_UNAVAILABLE)
    by (vm_compute in Hrun1; inversion Hrun1; reflexivity).
  assert (Hin : In (MutexUnlock APR_SUCCESS) out1)
    by (vm_compute in Hrun1; inversion Hrun1; subst; right; left; reflexivity).
  destruct (vlimit_response_end plain_env sample_request (ip_config 2) w1)
    as [rc2 w2 out2|f] eqn:Hrun2.
  2:{ vm_compute in Hrun1. inversion Hrun1. subst. vm_compute in Hrun2.
      discriminate. }
  assert (Hrc2 : rc2 = OK).
  { vm_compute in Hrun1. inversion Hrun1. subst. vm_compute in Hrun2.
    inversion Hrun2. reflexivity. }
  subst rc1 rc2. exists w1, out1, w2, out2.
  split; [reflexivity|]. split; [assumption|].
  apply (completion_undoes_the_admission plain_env sample_request (ip_config 2)
           (busy_world 3) HTTP_SERVICE_UNAVAILABLE w1 out1 APR_SUCCESS OK w2 out2);
    try assumption.
  - apply busy_world_consistent.
  - intros s Hs. vm_compute in Hs. discriminate.
  - intros s Hs. vm_compute in Hs. inversion Hs. cbn. unfold INT_MAX. lia.
Defined.

(** ** The admission under the mutex *)

Section Locked.

Variable e : env.

(** A run of the handler that took the mutex ends with the mutex held and
    503, or past the unlock. *)
Lemma vlimit_handler_locked r cfg w rc w' out :
  is_initial_req r = true -> ~ disabled cfg -> in_scope e r cfg = true ->
  vhost_match r -> lock_status e = APR_SUCCESS ->
  vlimit_handler e r cfg w = Done rc w' out ->
  (mutex_events out = [MutexLock APR_SUCCESS] /\
   rc = HTTP_SERVICE_UNAVAILABLE /\ mutex_held w' = true) \/
  (mutex_events out = [MutexLock APR_SUCCESS; MutexUnlock (unlock_status e)] /\
   mutex_held w' = negb (unlock_status e =? APR_SUCCESS)).
Proof.
  intros Hinit Hen Hscope Hvh Hlock Hrun.
  pose proof (vlimit_handler_spec e r cfg w) as Hspec. unfold runs in Hspec.
  rewrite Hrun, Hscope in Hspec.
  inversion Hspec as [Hskip Hrc Hw Hev|Hinit' Hen' Hvh' Hrc Hw Hev|
                      Hinit' Hen' Hvh' Hst Hrc Hw Hev|
                      w0 Hinit' Hen' Hvh' Hst Hheld Hrc Hw Hev|
                      w0 Hinit' Hen' Hvh' Hst Hun Hheld Hrc Hw Hev|
                      w0 Hinit' Hen' Hvh' Hst Hun Hheld Hrc Hw Hev].
  - destruct Hskip as [Hni|Hdis]; [congruence|destruct (Hen Hdis)].
  - destruct (Hvh' Hvh).
  - destruct (Hst Hlock).
  - left. split; [reflexivity|]. split; [reflexivity|assumption].
  - right. split; [reflexivity|]. rewrite Hheld.
    now replace (unlock_status e =? APR_SUCCESS) with false by lia.
  - right. rewrite Hun. split; [reflexivity|]. rewrite Hheld. reflexivity.
Qed.

End Locked.

Lemma ip_table_full_ext t t' r :
  ip_stat_shm t = ip_stat_shm t' -> ip_table_full t r -> ip_table_full t' r.
Proof.
  intros Heq [Hm Hf]. unfold ip_table_full, get_ip_slot_id, get_ip_empty_slot_id in *.
  rewrite <- Heq. split; assumption.
Qed.

(** X9.  When the table of addresses has no slot for the client and no empty
    slot, and the file part did not stop the run, the handler answers 503
    with the mutex still held and without a call to unlock; the count of
    the file, raised before the address was looked up, stays raised. *)
Theorem full_address_table_keeps_mutex_and_file_count (e : env) (r : request_rec)
    (cfg : vlimit_config) (w : world) (rc : Z) (w' : world) (out : list event) :
  is_initial_req r = true -> in_scope e r cfg = true -> vhost_match r ->
  lock_status e = APR_SUCCESS ->
  ip_limit cfg > 0 -> ip_table_full (shm_data w) r ->
  (file_limit cfg > 0 -> ~ file_table_full (shm_data w) r) ->
  vlimit_handler e r cfg w = Done rc w' out ->
  rc = HTTP_SERVICE_UNAVAILABLE /\ mutex_held w' = true /\
  mutex_events out = [MutexLock APR_SUCCESS] /\
  ip_stat_shm (shm_data w') = ip_stat_shm (shm_data w) /\
  (file_limit cfg > 0 ->
   get_file_counter (shm_data w') r =
     int_wrap (get_file_counter (shm_data w) r + 1)) /\
  (file_limit cfg <= 0 -> shm_data w' = shm_data w).
Proof.
  intros Hinit Hscope Hvh Hlock Hlim Hfull Hfile Hrun.
  assert (Hen : ~ disabled cfg) by (unfold disabled; lia).
  assert (Hfull' : ip_table_full (count_file cfg r (shm_data w)) r).
  { eapply ip_table_full_ext; [|eassumption]. symmetry. apply count_file_ip_stat. }
  destruct (vlimit_handler_tables e r cfg w rc w' out Hrun)
    as [(Habs & _)|(_ & Heff)]; [congruence|].
  destruct (vlimit_handler_locked e r cfg w rc w' out Hinit Hen Hscope Hvh Hlock Hrun)
    as [(Hev & Hrc & Hheld)|(Hev & Hheld)]; rewrite Hev in Heff.
  - destruct Heff as [(_ & [Hev'|(st' & Hne & Hev')])|[(_ & _ & Hfl & Hff & _)|
                      [(_ & _ & _ & _ & Hshm)|(st' & Hev' & _)]]].
    + discriminate.
    + inversion Hev'. subst st'. destruct Hne. reflexivity.
    + destruct (Hfile Hfl Hff).
    + split; [assumption|]. split; [assumption|]. split; [assumption|].
      rewrite Hshm. split; [apply count_file_ip_stat|]. unfold count_file. split.
      * intros Hfl. replace (file_limit cfg >? 0) with true by lia.
        apply raise_file_counter. now apply Hfile.
      * intros Hfl. now replace (file_limit cfg >? 0) with false by lia.
    + discriminate.
  - destruct Heff as [(_ & [Hev'|(st' & Hne & Hev')])|[(Hev' & _)|[(Hev' & _)|
                      (st' & _ & _ & _ & Hipc)]]]; try discriminate.
    destruct (Hipc Hlim) as (Hnf & _). destruct (Hnf Hfull').
Qed.

(** Slot [i] holds one open request of the client "c<i>". *)
Definition taken_ip_stat (i : nat) : ip_data.ip_stat :=
  {| ip_data.address := String "c" (NilEmpty.string_of_uint (Nat.to_uint i));
     ip_data.counter := 1 |}.

(** Every slot of the table of addresses is taken. *)
Definition full_ip_world : world :=
  {| shm_data :=
       {| file_stat_shm := file_stat_shm init_shm;
          ip_stat_shm := map taken_ip_stat (seq 0 (Z.to_nat MAX_CLIENTS)) |};
     mutex_held := false |}.

Definition both_config (ip file : Z) : vlimit_config :=
  {| type := 3; ip_limit := ip; file_limit := file; conf_id := 0;
     full_path := None |}.

Lemma full_address_table_keeps_mutex_and_file_count_witness :
  exists w' out,
    vlimit_handler plain_env sample_request (both_config 2 3) full_ip_world =
      Done HTTP_SERVICE_UNAVAILABLE w' out /\
    mutex_held w' = true /\
    get_file_counter (shm_data full_ip_world) sample_request = 0 /\
    get_file_counter (shm_data w') sample_request = 1.
Proof.
  destruct (vlimit_handler plain_env sample_request (both_config 2 3) full_ip_world)
    as [rc w' out|f] eqn:Hrun; [|vm_compute in Hrun; discriminate].
  assert (Hbefore : get_file_counter (shm_data full_ip_world) sample_request = 0)
    by (vm_compute; reflexivity).
  destruct (full_address_table_keeps_mutex_and_file_count plain_env sample_request
              (both_config 2 3) full_ip_world rc w' out)
    as (Hrc & Hheld & _ & _ & Hfc & _).
  - reflexivity.
  - reflexivity.
  - left. vm_compute. reflexivity.
  - reflexivity.
  - cbn. lia.
  - split; vm_compute; reflexivity.
  - intros _ [Hm Hf]. vm_compute in Hf. discriminate.
  - assumption.
  - exists w', out. subst rc. split; [reflexivity|]. split; [assumption|].
    split; [assumption|]. rewrite Hfc by (cbn; lia). rewrite Hbefore.
    vm_compute. reflexivity.
Defined.

(** X10.  The [strcpy] of [inc_ip_counter] runs past the [address] field
    when the address of a client that needs a new slot has IP_MAX
    characters or more (a dotted quad of four three-digit numbers has 15):
    the handler that reaches the increment of the address faults. *)
Theorem long_client_address_overflows_the_slot (e : env) (r : request_rec)
    (cfg : vlimit_config) (w : world) :
  is_initial_req r = true -> in_scope e r cfg = true -> vhost_match r ->
  lock_status e = APR_SUCCESS ->
  ip_limit cfg > 0 ->
  IP_MAX <= Z.of_nat (String.length (remote_ip r)) ->
  get_ip_slot_id (shm_data w) r = -1 ->
  get_ip_empty_slot_id (shm_data w) r <> -1 ->
  (file_limit cfg > 0 -> ~ file_table_full (shm_data w) r) ->
  vlimit_handler e r cfg w = Fault BufferOverflow /\
  inc_ip_counter r w = Fault BufferOverflow.
Proof.
  intros Hinit Hscope Hvh Hlock Hlim Hlong Hmiss Hfree Hfile.
  assert (Hen : ~ disabled cfg) by (unfold disabled; lia).
  split.
  - destruct (vlimit_handler e r cfg w) as [rc w' out|f] eqn:Hrun.
    + exfalso.
      destruct (vlimit_handler_tables e r cfg w rc w' out Hrun)
        as [(Habs & _)|(_ & Heff)]; [congruence|].
      destruct (vlimit_handler_locked e r cfg w rc w' out Hinit Hen Hscope Hvh
                  Hlock Hrun) as [(Hev & _)|(Hev & _)]; rewrite Hev in Heff.
      * destruct Heff as [(_ & [Hev'|(st' & Hne & Hev')])|[(_ & _ & Hfl & Hff & _)|
                          [(_ & _ & _ & (_ & Hf) & _)|(st' & Hev' & _)]]].
        -- discriminate.
        -- inversion Hev'. subst st'. destruct Hne. reflexivity.
        -- destruct (Hfile Hfl Hff).
        -- apply Hfree. rewrite <- Hf. unfold get_ip_empty_slot_id.
           now rewrite count_file_ip_stat.
        -- discriminate.
      * destruct Heff as [(_ & [Hev'|(st' & Hne & Hev')])|[(Hev' & _)|[(Hev' & _)|
                          (st' & _ & _ & _ & Hipc)]]]; try discriminate.
        destruct (Hipc Hlim) as (_ & Hfit).
        rewrite (get_ip_slot_id_ext _ (shm_data w)) in Hfit
          by apply count_file_ip_stat.
        specialize (Hfit Hmiss). lia.
    + pose proof (vlimit_handler_spec e r cfg w) as Hspec. unfold runs in Hspec.
      rewrite Hrun in Hspec. destruct Hspec as ((-> & _) & _). reflexivity.
  - destruct (get_ip_empty_slot_id_hit _ _ Hfree) as (_ & s & Hs & _).
    eapply inc_ip_counter_overflow; try eassumption.
    unfold strcpy. now replace (_ <=? _) with false by lia.
Qed.

Definition dotted_quad_request : request_rec :=
  {| headers_in_HOST := Some "www.example.org";
     remote_ip := "192.168.100.200";
     filename := "/var/www/html/index.html";
     server_hostname := "www.example.org";
     names := None;
     is_initial_req := true |}.

Lemma long_client_address_overflows_the_slot_witness :
  Z.of_nat (String.length (remote_ip dotted_quad_request)) = IP_MAX /\
  vlimit_handler plain_env dotted_quad_request (ip_config 2) init_world =
    Fault BufferOverflow.
Proof.
  split; [reflexivity|].
  apply (long_client_address_overflows_the_slot plain_env dotted_quad_request
           (ip_config 2) init_world).
  - reflexivity.
  - reflexivity.
  - left. vm_compute. reflexivity.
  - reflexivity.
  - cbn. lia.
  - vm_compute. discriminate.
  - vm_compute. reflexivity.
  - vm_compute. discriminate.
  - cbn. lia.
Defined.

(** ** The key of a file *)

(** No slash in the string. *)
Fixpoint slash_free (s : string) : bool :=
  match s with
  | EmptyString => true
  | String c s' => negb (Ascii.eqb c "/") && slash_free s'
  end.

Lemma list_ascii_of_string_app s1 s2 :
  list_ascii_of_string (s1 ++ s2)%string =
  list_ascii_of_string s1 ++ list_ascii_of_string s2.
Proof.
  induction s1 as [|c s1 IH]; [reflexivity|].
  change (String c s1 ++ s2)%string with (String c (s1 ++ s2)%string).
  cbn [list_ascii_of_string]. now rewrite IH.
Qed.

Lemma slash_free_Forall s :
  slash_free s = true ->
  Forall (fun c => Ascii.eqb c "/" = false) (list_ascii_of_string s).
Proof.
  induction s as [|c s IH]; cbn [slash_free list_ascii_of_string].
  - constructor.
  - rewrite andb_true_iff, negb_true_iff. intros [Hc Hs]. constructor; auto.
Qed.

Lemma upto_slash_app l rest :
  Forall (fun c => Ascii.eqb c "/" = false) l ->
  upto_slash (l ++ "/"%char :: rest) = l.
Proof.
  induction 1 as [|c l Hc Hl IH]; cbn [upto_slash app].
  - reflexivity.
  - rewrite Hc. now rewrite IH.
Qed.

Lemma drop_slashes_no_slash c l :
  Ascii.eqb c "/" = false -> drop_slashes (c :: l) = c :: l.
Proof.
  intros Hc. cbn [drop_slashes].
  destruct c as [[] [] [] [] [] [] [] []]; try reflexivity. discriminate.
Qed.

Lemma string_append_nonempty s1 c s2 :
  (s1 ++ String c s2)%string <> EmptyString.
Proof. destruct s1; discriminate. Qed.

(** The base name of "dir/name" is "name". *)
Lemma basename_of_dir_name dir name :
  name <> EmptyString -> slash_free name = true ->
  basename (dir ++ String "/" name) = name.
Proof.
  intros Hne Hfree. unfold basename.
  destruct (dir ++ String "/" name)%string as [|c0 p0] eqn:Hp;
    [destruct (string_append_nonempty _ _ _ Hp)|].
  rewrite <- Hp. clear Hp c0 p0.
  rewrite list_ascii_of_string_app. cbn [list_ascii_of_string].
  rewrite rev_app_distr. cbn [rev]. rewrite <- app_assoc. cbn [app].
  pose proof (slash_free_Forall _ Hfree) as Hall.
  apply Forall_rev in Hall.
  destruct (rev (list_ascii_of_string name)) as [|c l] eqn:Hrev.
  { apply (f_equal (@rev ascii)) in Hrev. rewrite rev_involutive in Hrev.
    cbn in Hrev. destruct name; [contradiction|discriminate]. }
  cbn [app]. rewrite drop_slashes_no_slash by (inversion Hall; assumption).
  change (c :: l ++ "/"%char :: rev (list_ascii_of_string dir))
    with ((c :: l) ++ "/"%char :: rev (list_ascii_of_string dir)).
  rewrite upto_slash_app by assumption.
  rewrite <- Hrev, rev_involutive. apply string_of_list_ascii_of_string.
Qed.

Section SharedKey.

Variable e : env.

(** X11.  The key of the table of files is the base name of the file alone:
    two requests for files of the same name in different directories read
    and write the same slot, so that they share one count. *)
Theorem files_of_one_name_share_a_count (dir1 dir2 name : string)
    (r1 r2 : request_rec) (w : world) :
  name <> EmptyString -> slash_free name = true ->
  filename r1 = (dir1 ++ String "/" name)%string ->
  filename r2 = (dir2 ++ String "/" name)%string ->
  basename (filename r1) = name /\
  get_file_slot_id (shm_data w) r1 = get_file_slot_id (shm_data w) r2 /\
  get_file_counter (shm_data w) r1 = get_file_counter (shm_data w) r2 /\
  inc_file_counter r1 w = inc_file_counter r2 w /\
  dec_file_counter e r1 w = dec_file_counter e r2 w /\
  unset_file_counter r1 w = unset_file_counter r2 w.
Proof.
  intros Hne Hfree H1 H2.
  assert (Hb1 : basename (filename r1) = name)
    by (rewrite H1; now apply basename_of_dir_name).
  assert (Hb2 : basename (filename r2) = name)
    by (rewrite H2; now apply basename_of_dir_name).
  assert (Hid : get_file_slot_id (shm_data w) r1 = get_file_slot_id (shm_data w) r2)
    by (unfold get_file_slot_id; now rewrite Hb1, Hb2).
  assert (Hempty : get_file_empty_slot_id (shm_data w) r1 =
                   get_file_empty_slot_id (shm_data w) r2) by reflexivity.
  split; [assumption|]. split; [assumption|].
  split; [unfold get_file_counter; now rewrite Hid, Hempty|].
  split; [|split].
  - unfold inc_file_counter, bind, get_stat. rewrite Hid, Hempty, Hb1, Hb2.
    reflexivity.
  - unfold dec_file_counter, bind, get_stat. rewrite Hid. reflexivity.
  - unfold unset_file_counter, bind, get_stat. rewrite Hid. reflexivity.
Qed.

End SharedKey.

Definition other_dir_request : request_rec :=
  {| headers_in_HOST := Some "www.example.org:8080";
     remote_ip := "198.51.100.9";
     filename := "/srv/mirror/index.html";
     server_hostname := "www.example.org";
     names := Some ["example.org"];
     is_initial_req := true |}.

Lemma files_of_one_name_share_a_count_witness :
  basename (filename sample_request) = "index.html" /\
  inc_file_counter sample_request init_world =
    inc_file_counter other_dir_request init_world.
Proof.
  destruct (files_of_one_name_share_a_count plain_env "/var/www/html" "/srv/mirror"
              "index.html" sample_request other_dir_request init_world)
    as (Hb & _ & _ & Hinc & _).
  - discriminate.
  - reflexivity.
  - reflexivity.
  - reflexivity.
  - split; assumption.
Defined.

(** ** The slot lists *)

(** [rows] lists, by increasing index, the slots of [arr] among the first
    MAX_CLIENTS whose counter is positive. *)
Definition lists_open_slots {A} (key : A -> string) (counter : A -> Z)
    (arr : list A) (rows : list (Z * string * Z)) : Prop :=
  StronglySorted Z.lt (map (fun row => fst (fst row)) rows) /\
  forall i k c,
    In (i, k, c) rows <->
    0 <= i < MAX_CLIENTS /\
    exists s, slot_at arr i = Some s /\ key s = k /\ counter s = c /\ c > 0.

Lemma ip_rows_spec l : forall i0, 0 <= i0 ->
  Forall (fun row => i0 <= fst (fst row)) (ip_rows i0 l) /\
  StronglySorted Z.lt (map (fun row => fst (fst row)) (ip_rows i0 l)) /\
  forall i k c,
    In (i, k, c) (ip_rows i0 l) <->
    i0 <= i < MAX_CLIENTS /\
    exists s, l !! Z.to_nat (i - i0) = Some s /\
              ip_data.address s = k /\ ip_data.counter s = c /\ c > 0.
Proof.
  induction l as [|s l IH]; intros i0 Hi0; cbn [ip_rows].
  - split; [constructor|]. split; [constructor|]. intros i k c. split; [intros []|].
    intros (_ & s & Hs & _). discriminate.
  - destruct (MAX_CLIENTS <=? i0) eqn:Hmax.
    { split; [constructor|]. split; [constructor|]. intros i k c.
      split; [intros []|]. intros (Hi & _). lia. }
    destruct (IH (i0 + 1)) as (Hge & Hsorted & Hin); [lia|].
    assert (Hrest : forall i k c,
              In (i, k, c) (ip_rows (i0 + 1) l) ->
              i0 <= i < MAX_CLIENTS /\
              exists s0, (s :: l) !! Z.to_nat (i - i0) = Some s0 /\
                ip_data.address s0 = k /\ ip_data.counter s0 = c /\ c > 0).
    { intros i k c Hrow. apply Hin in Hrow as (Hi & s0 & Hs0 & Hrow).
      split; [lia|]. exists s0. split; [|assumption].
      replace (Z.to_nat (i - i0)) with (S (Z.to_nat (i - (i0 + 1)))) by lia.
      exact Hs0. }
    assert (Hback : forall i k c s0,
              i0 < i < MAX_CLIENTS -> (s :: l) !! Z.to_nat (i - i0) = Some s0 ->
              ip_data.address s0 = k -> ip_data.counter s0 = c -> c > 0 ->
              In (i, k, c) (ip_rows (i0 + 1) l)).
    { intros i k c s0 Hi Hs0 Hk Hc Hpos. apply Hin. split; [lia|]. exists s0.
      split; [|auto].
      replace (Z.to_nat (i - i0)) with (S (Z.to_nat (i - (i0 + 1)))) in Hs0 by lia.
      exact Hs0. }
    destruct (ip_data.counter s >? 0) eqn:Hpos.
    + split; [|split].
      * constructor; [cbn; lia|].
        eapply Forall_impl; [exact Hge|]. cbn. intros row Hrow. lia.
      * cbn [map fst]. constructor; [assumption|].
        apply List.Forall_forall. intros j Hj. apply in_map_iff in Hj as (row & <- & Hrow).
        rewrite List.Forall_forall in Hge. specialize (Hge row Hrow). lia.
      * intros i k c. cbn [In]. split.
        -- intros [Heq|Hrow]; [|now apply Hrest].
           inversion Heq. subst. split; [lia|]. exists s.
           replace (Z.to_nat (i - i)) with 0%nat by lia.
           split; [reflexivity|]. split; [reflexivity|]. split; [reflexivity|lia].
        -- intros (Hi & s0 & Hs0 & Hk & Hc & Hc0).
           destruct (Z.eq_dec i i0) as [->|Hne].
           ++ left. replace (Z.to_nat (i0 - i0)) with 0%nat in Hs0 by lia.
              cbn in Hs0. inversion Hs0. subst. reflexivity.
           ++ right. apply (Hback i k c s0); try assumption. lia.
    + split; [|split].
      * eapply Forall_impl; [exact Hge|]. cbn. intros row Hrow. lia.
      * assumption.
      * intros i k c. split; [now apply Hrest|].
        intros (Hi & s0 & Hs0 & Hk & Hc & Hc0).
        destruct (Z.eq_dec i i0) as [->|Hne].
        -- replace (Z.to_nat (i0 - i0)) with 0%nat in Hs0 by lia.
           cbn in Hs0. inversion Hs0. subst. lia.
        -- apply (Hback i k c s0); try assumption. lia.
Qed.

Lemma file_rows_spec l : forall i0, 0 <= i0 ->
  Forall (fun row => i0 <= fst (fst row)) (file_rows i0 l) /\
  StronglySorted Z.lt (map (fun row => fst (fst row)) (file_rows i0 l)) /\
  forall i k c,
    In (i, k, c) (file_rows i0 l) <->
    i0 <= i < MAX_CLIENTS /\
    exists s, l !! Z.to_nat (i - i0) = Some s /\
              file_data.filename s = k /\ file_data.counter s = c /\ c > 0.
Proof.
  induction l as [|s l IH]; intros i0 Hi0; cbn [file_rows].
  - split; [constructor|]. split; [constructor|]. intros i k c. split; [intros []|].
    intros (_ & s & Hs & _). discriminate.
  - destruct (MAX_CLIENTS <=? i0) eqn:Hmax.
    { split; [constructor|]. split; [constructor|]. intros i k c.
      split; [intros []|]. intros (Hi & _). lia. }
    destruct (IH (i0 + 1)) as (Hge & Hsorted & Hin); [lia|].
    assert (Hrest : forall i k c,
              In (i, k, c) (file_rows (i0 + 1) l) ->
              i0 <= i < MAX_CLIENTS /\
              exists s0, (s :: l) !! Z.to_nat (i - i0) = Some s0 /\
                file_data.filename s0 = k /\ file_data.counter s0 = c /\ c > 0).
    { intros i k c Hrow. apply Hin in Hrow as (Hi & s0 & Hs0 & Hrow).
      split; [lia|]. exists s0. split; [|assumption].
      replace (Z.to_nat (i - i0)) with (S (Z.to_nat (i - (i0 + 1)))) by lia.
      exact Hs0. }
    assert (Hback : forall i k c s0,
              i0 < i < MAX_CLIENTS -> (s :: l) !! Z.to_nat (i - i0) = Some s0 ->
              file_data.filename s0 = k -> file_data.counter s0 = c -> c > 0 ->
              In (i, k, c) (file_rows (i0 + 1) l)).
    { intros i k c s0 Hi Hs0 Hk Hc Hpos. apply Hin. split; [lia|]. exists s0.
      split; [|auto].
      replace (Z.to_nat (i - i0)) with (S (Z.to_nat (i - (i0 + 1)))) in Hs0 by lia.
      exact Hs0. }
    destruct (file_data.counter s >? 0) eqn:Hpos.
    + split; [|split].
      * constructor; [cbn; lia|].
        eapply Forall_impl; [exact Hge|]. cbn. intros row Hrow. lia.
      * cbn [map fst]. constructor; [assumption|].
        apply List.Forall_forall. intros j Hj. apply in_map_iff in Hj as (row & <- & Hrow).
        rewrite List.Forall_forall in Hge. specialize (Hge row Hrow). lia.
      * intros i k c. cbn [In]. split.
        -- intros [Heq|Hrow]; [|now apply Hrest].
           inversion Heq. subst. split; [lia|]. exists s.
           replace (Z.to_nat (i - i)) with 0%nat by lia.
           split; [reflexivity|]. split; [reflexivity|]. split; [reflexivity|lia].
        -- intros (Hi & s0 & Hs0 & Hk & Hc & Hc0).
           destruct (Z.eq_dec i i0) as [->|Hne].
           ++ left. replace (Z.to_nat (i0 - i0)) with 0%nat in Hs0 by lia.
              cbn in Hs0. inversion Hs0. subst. reflexivity.
           ++ right. apply (Hback i k c s0); try assumption. lia.
    + split; [|split].
      * eapply Forall_impl; [exact Hge|]. cbn. intros row Hrow. lia.
      * assumption.
      * intros i k c. split; [now apply Hrest|].
        intros (Hi & s0 & Hs0 & Hk & Hc & Hc0).
        destruct (Z.eq_dec i i0) as [->|Hne].
        -- replace (Z.to_nat (i0 - i0)) with 0%nat in Hs0 by lia.
           cbn in Hs0. inversion Hs0. subst. lia.
        -- apply (Hback i k c s0); try assumption. lia.
Qed.

Lemma slot_at_lookup {A} (arr : list A) i :
  0 <= i -> slot_at arr i = arr !! Z.to_nat i.
Proof. intros Hi. unfold slot_at. now replace (i <? 0) with false by lia. Qed.

Lemma ip_rows_lists arr :
  lists_open_slots ip_data.address ip_data.counter arr (ip_rows 0 arr).
Proof.
  destruct (ip_rows_spec arr 0) as (_ & Hsorted & Hin); [lia|].
  split; [assumption|]. intros i k c. rewrite Hin. rewrite Z.sub_0_r.
  split; intros (Hi & s & Hs & Hrow); (split; [assumption|]); exists s;
    (split; [|assumption]); [rewrite slot_at_lookup by lia|
                             rewrite slot_at_lookup in Hs by lia]; assumption.
Qed.

Lemma file_rows_lists arr :
  lists_open_slots file_data.filename file_data.counter arr (file_rows 0 arr).
Proof.
  destruct (file_rows_spec arr 0) as (_ & Hsorted & Hin); [lia|].
  split; [assumption|]. intros i k c. rewrite Hin. rewrite Z.sub_0_r.
  split; intros (Hi & s & Hs & Hrow); (split; [assumption|]); exists s;
    (split; [|assumption]); [rewrite slot_at_lookup by lia|
                             rewrite slot_at_lookup in Hs by lia]; assumption.
Qed.

(** X12.  [make_ip_slot_list] and [make_file_slot_list] always return and
    leave the tables and the mutex alone.  They return -1 and write nothing
    unless the flag file is there and the list file is not; otherwise they
    return 0, and when the list could be opened they write one list: by
    increasing index, the slots among the first MAX_CLIENTS whose counter
    is positive, each with its key and counter. *)
Theorem slot_lists_show_the_open_counts (e : env) (r : request_rec) (w : world) :
  (exists rc out,
     make_ip_slot_list e r w = Done rc w out /\
     if ip_stat_flag e && negb (ip_stat_file e) then
       rc = 0 /\
       if stat_open e =? APR_SUCCESS then
         exists rows, out = [IpSlotList rows] /\
           lists_open_slots ip_data.address ip_data.counter
             (ip_stat_shm (shm_data w)) rows
       else out = []
     else rc = -1 /\ out = []) /\
  (exists rc out,
     make_file_slot_list e r w = Done rc w out /\
     if file_stat_flag e && negb (file_stat_file e) then
       rc = 0 /\
       if stat_open e =? APR_SUCCESS then
         exists rows, out = [FileSlotList rows] /\
           lists_open_slots file_data.filename file_data.counter
             (file_stat_shm (shm_data w)) rows
       else out = []
     else rc = -1 /\ out = []).
Proof.
  split.
  - unfold make_ip_slot_list. rewrite bind_get_stat.
    destruct (ip_stat_flag e && negb (ip_stat_file e)).
    + destruct (stat_open e =? APR_SUCCESS); cbn [negb].
      * unfold bind, emit. destruct w as [t held]. cbn [shm_data].
        destruct (negb (stat_close e =? APR_SUCCESS)); cbn [ret app];
          (eexists _, _; split; [reflexivity|]; split; [reflexivity|];
           eexists; split; [reflexivity|]; apply ip_rows_lists).
      * eexists _, _. split; [reflexivity|]. split; reflexivity.
    + eexists _, _. split; [reflexivity|]. split; reflexivity.
  - unfold make_file_slot_list. rewrite bind_get_stat.
    destruct (file_stat_flag e && negb (file_stat_file e)).
    + destruct (stat_open e =? APR_SUCCESS); cbn [negb].
      * unfold bind, emit. destruct w as [t held]. cbn [shm_data].
        destruct (negb (stat_close e =? APR_SUCCESS)); cbn [ret app];
          (eexists _, _; split; [reflexivity|]; split; [reflexivity|];
           eexists; split; [reflexivity|]; apply file_rows_lists).
      * eexists _, _. split; [reflexivity|]. split; reflexivity.
    + eexists _, _. split; [reflexivity|]. split; reflexivity.
Qed.

(** ** The handler of the per-server configuration *)

Section QuickHandler.

Variable e : env.



End QuickHandler.


(** ** The directives *)

(** The string of the decimal digits [ds], the first one first. *)
Definition digit_char (d : Z) : ascii := ascii_of_N (Z.to_N (48 + d)).

Fixpoint digits_string (ds : list Z) : string :=
  match ds with
  | [] => EmptyString
  | d :: ds' => String (digit_char d) (digits_string ds')
  end.

(** The number the digits denote. *)
Definition digits_number (ds : list Z) : Z :=
  fold_left (fun acc d => acc * 10 + d) ds 0.

Definition is_digit (d : Z) : Prop := 0 <= d <= 9.

(** The string does not go on with a digit. *)
Definition no_digit_ahead (s : string) : Prop :=
  match s with
  | EmptyString => True
  | String c _ => digit_of c = None
  end.

Lemma digit_of_digit_char d : is_digit d -> digit_of (digit_char d) = Some d.
Proof.
  unfold is_digit. intros Hd.
  assert (Hcases : d = 0 \/ d = 1 \/ d = 2 \/ d = 3 \/ d = 4 \/ d = 5 \/ d = 6 \/
                   d = 7 \/ d = 8 \/ d = 9) by lia.
  repeat (destruct Hcases as [->|Hcases]; [reflexivity|]). now subst.
Qed.

Lemma isspace_digit_char d : is_digit d -> isspace (digit_char d) = false.
Proof.
  unfold is_digit. intros Hd.
  assert (Hcases : d = 0 \/ d = 1 \/ d = 2 \/ d = 3 \/ d = 4 \/ d = 5 \/ d = 6 \/
                   d = 7 \/ d = 8 \/ d = 9) by lia.
  repeat (destruct Hcases as [->|Hcases]; [reflexivity|]). now subst.
Qed.

Lemma digit_char_not_sign d :
  is_digit d -> digit_char d <> "-"%char /\ digit_char d <> "+"%char.
Proof.
  unfold is_digit. intros Hd.
  assert (Hcases : d = 0 \/ d = 1 \/ d = 2 \/ d = 3 \/ d = 4 \/ d = 5 \/ d = 6 \/
                   d = 7 \/ d = 8 \/ d = 9) by lia.
  repeat (destruct Hcases as [->|Hcases]; [split; discriminate|]).
  subst. split; discriminate.
Qed.

Lemma digits_value_digits ds : forall acc rest,
  Forall is_digit ds -> no_digit_ahead rest ->
  digits_value acc (digits_string ds ++ rest) =
  fold_left (fun acc d => acc * 10 + d) ds acc.
Proof.
  induction ds as [|d ds IH]; intros acc rest Hds Hrest.
  - change (digits_string [] ++ rest)%string with rest. cbn [fold_left].
    destruct rest as [|c rest]; [reflexivity|]. cbn [digits_value].
    cbn [no_digit_ahead] in Hrest. now rewrite Hrest.
  - inversion Hds as [|? ? Hd Hds']. subst.
    change (digits_string (d :: ds) ++ rest)%string
      with (String (digit_char d) (digits_string ds ++ rest)%string).
    cbn [digits_value fold_left]. rewrite (digit_of_digit_char d Hd).
    now apply IH.
Qed.

Lemma fold_digits_nonneg ds : forall acc,
  0 <= acc -> Forall is_digit ds ->
  0 <= fold_left (fun acc d => acc * 10 + d) ds acc.
Proof.
  induction ds as [|d ds IH]; intros acc Hacc Hds.
  - exact Hacc.
  - inversion Hds as [|? ? Hd Hds']. subst. cbn [fold_left]. apply IH; [|assumption].
    unfold is_digit in Hd. lia.
Qed.

Lemma digits_number_nonneg ds : Forall is_digit ds -> 0 <= digits_number ds.
Proof. apply fold_digits_nonneg. lia. Qed.

(** [strtol] of decimal digits followed by anything but a digit. *)
Lemma strtol_digits d ds rest :
  Forall is_digit (d :: ds) -> no_digit_ahead rest ->
  strtol (digits_string (d :: ds) ++ rest) =
  Z.min LONG_MAX (digits_number (d :: ds)).
Proof.
  intros Hds Hrest. unfold strtol.
  inversion Hds as [|? ? Hd Hds']. subst.
  change (digits_string (d :: ds) ++ rest)%string
    with (String (digit_char d) (digits_string ds ++ rest)%string).
  cbn [skip_space]. rewrite (isspace_digit_char d Hd).
  change (String (digit_char d) (digits_string ds ++ rest)%string)
    with (digits_string (d :: ds) ++ rest)%string.
  pose proof (digits_value_digits (d :: ds) 0 rest Hds Hrest) as Hval.
  fold (digits_number (d :: ds)) in Hval.
  destruct (digit_char_not_sign d Hd) as [Hm Hp].
  change (digits_string (d :: ds) ++ rest)%string
    with (String (digit_char d) (digits_string ds ++ rest)%string) in *.
  destruct (digit_char d) as [[] [] [] [] [] [] [] []]; try (now rewrite Hval);
    first [destruct Hm; reflexivity | destruct Hp; reflexivity].
Qed.

(** The configuration a directive writes, and the one it leaves alone: the
    per-directory one inside a directory section, that of the server
    outside. *)
Definition written (path : option string) (cfgs : vlimit_config * vlimit_config)
    : vlimit_config :=
  match path with
  | Some _ => fst cfgs
  | None => snd cfgs
  end.

Definition kept (path : option string) (cfgs : vlimit_config * vlimit_config)
    : vlimit_config :=
  match path with
  | Some _ => snd cfgs
  | None => fst cfgs
  end.

Lemma set_vlimitip_accepts path cfg scfg arg1 arg_opt1 :
  0 <= strtol arg1 <= 65535 ->
  exists cfgs,
    set_vlimitip path cfg scfg arg1 arg_opt1 = (None, cfgs) /\
    kept path cfgs = kept path (cfg, scfg) /\
    type (written path cfgs) = SET_VLIMITIP /\
    ip_limit (written path cfgs) = strtol arg1 /\
    file_limit (written path cfgs) = file_limit (written path (cfg, scfg)) /\
    conf_id (written path cfgs) = conf_id (written path (cfg, scfg)) /\
    full_path (written path cfgs) = arg_opt1.
Proof.
  intros Hrange. unfold set_vlimitip.
  replace ((strtol arg1 >? 65535) || (strtol arg1 <? 0)) with false by lia.
  destruct path; eexists; (split; [reflexivity|]); cbn; repeat split.
Qed.

Lemma set_vlimitfile_accepts path cfg scfg arg1 arg_opt1 :
  0 <= strtol arg1 <= 65535 ->
  exists cfgs,
    set_vlimitfile path cfg scfg arg1 arg_opt1 = (None, cfgs) /\
    kept path cfgs = kept path (cfg, scfg) /\
    type (written path cfgs) = SET_VLIMITFILE /\
    file_limit (written path cfgs) = strtol arg1 /\
    ip_limit (written path cfgs) = ip_limit (written path (cfg, scfg)) /\
    conf_id (written path cfgs) = conf_id (written path (cfg, scfg)) /\
    full_path (written path cfgs) = arg_opt1.
Proof.
  intros Hrange. unfold set_vlimitfile.
  replace ((strtol arg1 >? 65535) || (strtol arg1 <? 0)) with false by lia.
  destruct path; eexists; (split; [reflexivity|]); cbn; repeat split.
Qed.

Lemma set_vlimit_refuses path cfg scfg arg1 arg_opt1 :
  strtol arg1 < 0 \/ 65535 < strtol arg1 ->
  set_vlimitip path cfg scfg arg1 arg_opt1 =
    (Some "Integer overflow or invalid number", (cfg, scfg)) /\
  set_vlimitfile path cfg scfg arg1 arg_opt1 =
    (Some "Integer overflow or invalid number", (cfg, scfg)).
Proof.
  intros Hrange. unfold set_vlimitip, set_vlimitfile.
  now replace ((strtol arg1 >? 65535) || (strtol arg1 <? 0)) with true by lia.
Qed.

(** X14.  The limit of a VlimitIP or VlimitFile directive is the number its
    first argument starts with: what follows the leading decimal digits is
    ignored.  A number up to 65535 is accepted and written, with the
    optional path, to the configuration of the context, the other limit and
    the other configuration being kept; a larger one is refused and nothing
    is written. *)
Theorem directive_reads_the_leading_digits (path : option string)
    (cfg scfg : vlimit_config) (d : Z) (ds : list Z) (rest : string)
    (arg_opt1 : option string) :
  Forall is_digit (d :: ds) -> no_digit_ahead rest ->
  let n := digits_number (d :: ds) in
  let arg1 := (digits_string (d :: ds) ++ rest)%string in
  (n <= 65535 ->
   (exists cfgs,
      set_vlimitip path cfg scfg arg1 arg_opt1 = (None, cfgs) /\
      kept path cfgs = kept path (cfg, scfg) /\
      ip_limit (written path cfgs) = n /\
      file_limit (written path cfgs) = file_limit (written path (cfg, scfg)) /\
      full_path (written path cfgs) = arg_opt1) /\
   (exists cfgs,
      set_vlimitfile path cfg scfg arg1 arg_opt1 = (None, cfgs) /\
      kept path cfgs = kept path (cfg, scfg) /\
      file_limit (written path cfgs) = n /\
      ip_limit (written path cfgs) = ip_limit (written path (cfg, scfg)) /\
      full_path (written path cfgs) = arg_opt1)) /\
  (65535 < n ->
   set_vlimitip path cfg scfg arg1 arg_opt1 =
     (Some "Integer overflow or invalid number", (cfg, scfg)) /\
   set_vlimitfile path cfg scfg arg1 arg_opt1 =
     (Some "Integer overflow or invalid number", (cfg, scfg))).
Proof.
  intros Hds Hrest n arg1.
  pose proof (strtol_digits d ds rest Hds Hrest) as Hval. fold n arg1 in Hval.
  pose proof (digits_number_nonneg (d :: ds) Hds) as Hpos. fold n in Hpos.
  split.
  - intros Hn. assert (Hlim : strtol arg1 = n)
      by (rewrite Hval; unfold LONG_MAX; lia).
    split.
    + destruct (set_vlimitip_accepts path cfg scfg arg1 arg_opt1)
        as (cfgs & Heq & Hk & _ & Hi & Hf & _ & Hp); [lia|].
      exists cfgs. rewrite <- Hlim. repeat split; assumption.
    + destruct (set_vlimitfile_accepts path cfg scfg arg1 arg_opt1)
        as (cfgs & Heq & Hk & _ & Hf & Hi & _ & Hp); [lia|].
      exists cfgs. rewrite <- Hlim. repeat split; assumption.
  - intros Hn. apply set_vlimit_refuses. right. rewrite Hval. unfold LONG_MAX. lia.
Qed.

Definition no_config : vlimit_config :=
  {| type := 0; ip_limit := 0; file_limit := 0; conf_id := 0; full_path := None |}.

Lemma directive_reads_the_leading_digits_witness :
  set_vlimitip (Some "/var/www") no_config no_config "10 per client" None =
    (None, (ip_config 10, no_config)) /\
  set_vlimitfile (Some "/var/www") no_config no_config "65536" None =
    (Some "Integer overflow or invalid number", (no_config, no_config)).
Proof.
  split.
  - destruct (directive_reads_the_leading_digits (Some "/var/www") no_config
                no_config 1 [0] " per client" None) as [Hok _].
    + repeat constructor; unfold is_digit; lia.
    + reflexivity.
    + destruct Hok as [(cfgs & Heq & _) _]; [vm_compute; discriminate|].
      vm_compute. reflexivity.
  - destruct (directive_reads_the_leading_digits (Some "/var/www") no_config
                no_config 6 [5; 5; 3; 6] "" None) as [_ Hbad].
    + repeat constructor; unfold is_digit; lia.
    + exact I.
    + destruct Hbad as [_ Hfile]; [vm_compute; reflexivity|]. exact Hfile.
Defined.

(** The first character after the white space is neither a digit nor a
    sign, or there is none. *)
Definition no_number (arg1 : string) : Prop :=
  match skip_space arg1 with
  | EmptyString => True
  | String c _ => digit_of c = None /\ c <> "-"%char /\ c <> "+"%char
  end.

Lemma strtol_no_number arg1 : no_number arg1 -> strtol arg1 = 0.
Proof.
  unfold no_number, strtol. destruct (skip_space arg1) as [|c s]; [reflexivity|].
  intros (Hd & Hm & Hp).
  destruct c as [[] [] [] [] [] [] [] []];
    first [ destruct Hm; reflexivity | destruct Hp; reflexivity
          | cbn [digits_value]; rewrite Hd; reflexivity ].
Qed.

(** X15.  An argument that does not start with a number is not refused:
    [strtol] returns 0 for it, and the directive sets the limit to 0, which
    turns it off. *)
Theorem directive_without_a_number_sets_zero (path : option string)
    (cfg scfg : vlimit_config) (arg1 : string) (arg_opt1 : option string) :
  no_number arg1 ->
  (exists cfgs,
     set_vlimitip path cfg scfg arg1 arg_opt1 = (None, cfgs) /\
     ip_limit (written path cfgs) = 0) /\
  (exists cfgs,
     set_vlimitfile path cfg scfg arg1 arg_opt1 = (None, cfgs) /\
     file_limit (written path cfgs) = 0).
Proof.
  intros Hno. pose proof (strtol_no_number arg1 Hno) as Hz. split.
  - destruct (set_vlimitip_accepts path cfg scfg arg1 arg_opt1)
      as (cfgs & Heq & _ & _ & Hi & _); [lia|].
    exists cfgs. split; [assumption|]. now rewrite Hi.
  - destruct (set_vlimitfile_accepts path cfg scfg arg1 arg_opt1)
      as (cfgs & Heq & _ & _ & Hf & _); [lia|].
    exists cfgs. split; [assumption|]. now rewrite Hf.
Qed.

Lemma directive_without_a_number_sets_zero_witness :
  exists cfgs,
    set_vlimitip None no_config (ip_config 5) "unlimited" None = (None, cfgs) /\
    ip_limit (snd cfgs) = 0.
Proof.
  apply (directive_without_a_number_sets_zero None no_config (ip_config 5)
           "unlimited" None).
  vm_compute. repeat split; discriminate.
Defined.

(** X16.  Two directives of one context write the same configuration: the
    second keeps the limit of the first and replaces its path, so that a
    VlimitFile without a path after a VlimitIP with one leaves no path, and
    the handler then lets every file name into the scope. *)
Theorem second_directive_replaces_the_path (e : env) (path : option string)
    (cfg scfg : vlimit_config) (arg1 arg2 : string) (opt1 opt2 : option string)
    (cfgs1 cfgs2 : vlimit_config * vlimit_config) :
  set_vlimitip path cfg scfg arg1 opt1 = (None, cfgs1) ->
  set_vlimitfile path (fst cfgs1) (snd cfgs1) arg2 opt2 = (None, cfgs2) ->
  ip_limit (written path cfgs2) = strtol arg1 /\
  file_limit (written path cfgs2) = strtol arg2 /\
  type (written path cfgs2) = SET_VLIMITFILE /\
  full_path (written path cfgs2) = opt2 /\
  conf_id (written path cfgs2) = conf_id (written path (cfg, scfg)) /\
  kept path cfgs2 = kept path (cfg, scfg) /\
  (opt2 = None -> forall r, in_scope e r (written path cfgs2) = true).
Proof.
  unfold set_vlimitip, set_vlimitfile.
  destruct ((strtol arg1 >? 65535) || (strtol arg1 <? 0)); [discriminate|].
  destruct ((strtol arg2 >? 65535) || (strtol arg2 <? 0));
    [destruct path; discriminate|].
  destruct path; intros H1 H2; inversion H1; subst; cbn in H2; inversion H2; subst;
    cbn; (repeat split; try reflexivity); intros ->; reflexivity.
Qed.

Lemma second_directive_replaces_the_path_witness :
  exists cfgs1 cfgs2,
    set_vlimitip (Some "/var/www") no_config no_config "5" (Some "/var/www/html") =
      (None, cfgs1) /\
    set_vlimitfile (Some "/var/www") (fst cfgs1) (snd cfgs1) "3" None =
      (None, cfgs2) /\
    full_path (fst cfgs1) = Some "/var/www/html" /\
    full_path (fst cfgs2) = None /\
    ip_limit (fst cfgs2) = 5 /\ file_limit (fst cfgs2) = 3.
Proof.
  eexists _, _. split; [vm_compute; reflexivity|]. split; [vm_compute; reflexivity|].
  split; [reflexivity|].
  destruct (second_directive_replaces_the_path plain_env (Some "/var/www") no_config
              no_config "5" "3" (Some "/var/www/html") None _ _ eq_refl eq_refl)
    as (Hi & Hf & _ & Hp & _).
  split; [exact Hp|]. split; [exact Hi|exact Hf].
Defined.

(** X17.  A configuration as [create_share_config] makes it has both limits
    at 0 and no path: until a directive writes to it the handler declines
    every request and touches neither the tables nor the mutex.  The
    configurations made in a row get consecutive identifiers. *)
Theorem fresh_configuration_is_off (e : env) (conf_counter : Z) (r : request_rec)
    (w : world) :
  0 <= conf_counter < INT_MAX ->
  let cfg := fst (create_share_config conf_counter) in
  let next := snd (create_share_config conf_counter) in
  conf_id cfg = conf_counter /\ next = conf_counter + 1 /\
  conf_id (fst (create_share_config next)) = conf_id cfg + 1 /\
  exists out,
    vlimit_handler e r cfg w = Done DECLINED w out /\ mutex_events out = [].
Proof.
  intros Hrange cfg next. subst cfg next. cbn [create_share_config fst snd conf_id].
  rewrite int_wrap_id by (unfold INT_MIN, INT_MAX in *; lia).
  split; [reflexivity|]. split; [reflexivity|]. split; [reflexivity|].
  apply vlimit_handler_skipped. right. unfold disabled. cbn. lia.
Qed.

Lemma fresh_configuration_is_off_witness :
  exists out,
    vlimit_handler plain_env sample_request (fst (create_share_config 0))
      (busy_world 3) = Done DECLINED (busy_world 3) out /\
    mutex_events out = [].
Proof.
  apply (fresh_configuration_is_off plain_env 0 sample_request (busy_world 3)).
  unfold INT_MAX. lia.
Defined.

(** ** The real path of a path without links *)

(** A component of a path: not empty, no slash in it, neither "." nor
    "..". *)
Definition component (c : list ascii) : Prop :=
  c <> [] /\ Forall (fun a => Ascii.eqb a "/" = false) c /\
  c <> ["."%char] /\ c <> ["."%char; "."%char].

(** The absolute path of the components: a slash before each. *)
Fixpoint path_of (comps : list (list ascii)) : list ascii :=
  match comps with
  | [] => []
  | c :: comps' => "/"%char :: c ++ path_of comps'
  end.

(** What follows the components in the source path: nothing, or a slash. *)
Definition at_boundary (rest : list ascii) : Prop :=
  rest = [] \/ exists rest', rest = "/"%char :: rest'.

Lemma path_of_at_boundary comps : at_boundary (path_of comps).
Proof. destruct comps; [now left|right; now eexists]. Qed.

Lemma skip_dots_component c rest npath :
  component c -> at_boundary rest ->
  skip_dots (c ++ rest) npath = (c ++ rest, npath).
Proof.
  intros (Hne & Hall & Hdot & Hdots) Hrest.
  destruct c as [|a c]; [contradiction|]. inversion Hall as [|? ? Ha Hc]. subst.
  cbn [app skip_dots]. rewrite Ha.
  destruct (Ascii.eqb a ".") eqn:Hdota; [|reflexivity].
  apply Ascii.eqb_eq in Hdota. subst a.
  destruct c as [|a1 c]; [contradiction|]. inversion Hc as [|? ? Ha1 Hc1]. subst.
  cbn [app]. rewrite Ha1.
  destruct (Ascii.eqb a1 ".") eqn:Hdota1; [|reflexivity].
  apply Ascii.eqb_eq in Hdota1. subst a1.
  destruct c as [|a2 c]; [contradiction|]. inversion Hc1 as [|? ? Ha2 Hc2]. subst.
  cbn [app]. now rewrite Ha2.
Qed.

Lemma copy_component_component maxreslth c : forall rest npath,
  Forall (fun a => Ascii.eqb a "/" = false) c -> at_boundary rest ->
  Z.of_nat (length npath + length c) <= maxreslth - 1 ->
  copy_component maxreslth (c ++ rest) npath = Some (rest, rev c ++ npath).
Proof.
  induction c as [|a c IH]; intros rest npath Hall Hrest Hlen.
  - cbn [app rev]. destruct Hrest as [->|(rest' & ->)]; reflexivity.
  - inversion Hall as [|? ? Ha Hc]. subst. cbn [app copy_component]. rewrite Ha.
    cbn [length] in Hlen.
    replace (Z.of_nat (length npath) >? maxreslth - 2) with false by lia.
    rewrite IH; try assumption.
    + cbn [rev]. now rewrite <- app_assoc.
    + cbn [length]. lia.
Qed.

Section PlainPath.

Variable e : env.

(** From the buffer [npath] on, no component of [comps] is a link. *)
Inductive plain_from : list ascii -> list (list ascii) -> Prop :=
| plain_nil npath : plain_from npath []
| plain_cons npath c comps :
    fs_readlink e (string_of_list_ascii (rev (rev c ++ npath))) = NoLink EINVAL ->
    plain_from ("/"%char :: rev c ++ npath) comps ->
    plain_from npath (c :: comps).

(** The buffer after the components have been copied behind [npath]. *)
Definition copied (comps : list (list ascii)) (npath : list ascii) : list ascii :=
  fold_left (fun npath c => "/"%char :: rev c ++ npath) comps npath.

Lemma realpath_loop_slash left maxreslth readlinks path npath :
  realpath_loop e left maxreslth readlinks ("/"%char :: path) npath =
  realpath_loop e left maxreslth readlinks path npath.
Proof. destruct left; reflexivity. Qed.

Lemma realpath_loop_end left maxreslth readlinks npath :
  realpath_loop e left maxreslth readlinks [] npath = realpath_finish npath.
Proof. destruct left; reflexivity. Qed.

Lemma realpath_loop_plain maxreslth comps : forall left readlinks npath,
  Forall component comps -> plain_from npath comps ->
  0 <= readlinks ->
  MAXSYMLINKS + 2 <= Z.of_nat left + readlinks ->
  Z.of_nat (length npath + length (path_of comps)) <= maxreslth ->
  realpath_loop e left maxreslth readlinks (path_of comps) npath =
  if (length comps =? 0)%nat || (Z.of_nat (length comps) + readlinks <=? MAXSYMLINKS + 1)
  then realpath_finish (copied comps npath)
  else Null ELOOP.
Proof.
  induction comps as [|c comps IH]; intros left readlinks npath Hall Hplain Hrl Hfuel Hlen.
  - cbn [path_of length copied fold_left Nat.eqb orb]. apply realpath_loop_end.
  - inversion Hall as [|? ? Hc Hcomps]. subst.
    inversion Hplain as [|? ? ? Hlink Hrest]. subst.
    cbn [path_of]. rewrite realpath_loop_slash.
    pose proof (path_of_at_boundary comps) as Hb.
    assert (Hskip := skip_dots_component c (path_of comps) npath Hc Hb).
    assert (Hcopy : copy_component maxreslth (c ++ path_of comps) npath =
                    Some (path_of comps, rev c ++ npath)).
    { apply copy_component_component; [apply Hc|assumption|].
      cbn [path_of length] in Hlen. rewrite length_app in Hlen. lia. }
    destruct Hc as (Hne & _).
    destruct c as [|a c]; [contradiction|].
    assert (Hstep : realpath_loop e left maxreslth readlinks
                      ((a :: c) ++ path_of comps) npath =
                    if readlinks >? MAXSYMLINKS then Null ELOOP
                    else realpath_loop e (pred left) maxreslth (readlinks + 1)
                           (path_of comps) ("/"%char :: rev (a :: c) ++ npath)).
    { destruct left as [|left].
      - cbn [realpath_loop]. rewrite Hskip. cbn [app]. cbn [app] in Hcopy.
        rewrite Hcopy. destruct (readlinks >? MAXSYMLINKS) eqn:Hover; [reflexivity|].
        exfalso. cbn [Z.of_nat] in Hfuel. lia.
      - cbn [realpath_loop]. rewrite Hskip. cbn [app]. cbn [app] in Hcopy.
        rewrite Hcopy. destruct (readlinks >? MAXSYMLINKS); [reflexivity|].
        rewrite Hlink. replace (negb (EINVAL =? EINVAL)) with false by reflexivity.
        reflexivity. }
    rewrite Hstep. clear Hstep. cbn [length Nat.eqb orb].
    destruct (readlinks >? MAXSYMLINKS) eqn:Hover.
    + replace (Z.of_nat (S (length comps)) + readlinks <=? MAXSYMLINKS + 1)
        with false; [reflexivity|]. symmetry. apply Z.leb_gt. lia.
    + rewrite IH; try assumption.
      * cbn [copied fold_left].
        replace (Z.of_nat (S (length comps)) + readlinks)
          with (Z.of_nat (length comps) + (readlinks + 1)) by lia.
        destruct comps as [|c' comps]; [|reflexivity].
        cbn [length Nat.eqb orb].
        replace (Z.of_nat 0 + (readlinks + 1) <=? MAXSYMLINKS + 1) with true
          by (symmetry; apply Z.leb_le; lia).
        reflexivity.
      * lia.
      * unfold MAXSYMLINKS in *. lia.
      * cbn [path_of length] in Hlen. rewrite length_app in Hlen.
        cbn [length]. rewrite length_app, length_rev. lia.
Qed.

Lemma rev_copied comps : forall npath,
  rev (copied comps npath) = rev npath ++ tl (path_of comps ++ ["/"%char]) \/
  comps = [].
Proof.
  induction comps as [|c comps IH]; intros npath; [now right|]. left.
  cbn [copied fold_left path_of app tl].
  destruct (IH ("/"%char :: rev c ++ npath)) as [Heq| ->].
  - unfold copied in Heq. rewrite Heq. cbn [rev].
    rewrite rev_app_distr, rev_involutive, <- !app_assoc.
    destruct comps as [|c' comps]; [now right + (cbn; reflexivity)|].
    cbn [path_of app tl]. reflexivity.
  - cbn [fold_left path_of rev app]. rewrite rev_app_distr, rev_involutive.
    now rewrite <- !app_assoc.
Qed.

Lemma plain_from_prefixes comps : forall npath,
  (forall k, (1 <= k <= length comps)%nat ->
     fs_readlink e
       (string_of_list_ascii (rev npath ++ tl (path_of (firstn k comps)))) =
     NoLink EINVAL) ->
  plain_from npath comps.
Proof.
  induction comps as [|c comps IH]; intros npath Hlinks; constructor.
  - specialize (Hlinks 1%nat). cbn [length firstn path_of tl] in Hlinks.
    rewrite app_nil_r in Hlinks. rewrite rev_app_distr, rev_involutive.
    apply Hlinks. lia.
  - apply IH. intros k Hk. specialize (Hlinks (S k)).
    cbn [length firstn path_of tl] in Hlinks.
    cbn [rev]. rewrite rev_app_distr, rev_involutive, <- !app_assoc. cbn [app].
    destruct k as [|k]; [lia|]. destruct comps as [|c' comps]; [cbn in Hk; lia|].
    cbn [firstn path_of tl]. cbn [firstn path_of] in Hlinks.
    apply Hlinks. cbn [length] in *. lia.
Qed.

End PlainPath.

(** X18.  For an absolute path made of components none of which is ".",
    ".." or, with the components before it, a symbolic link, and which fits
    the buffer, [realpath_for_vlimit] returns the path itself when it has
    at most MAXSYMLINKS + 1 components.  When it has more the routine
    fails with ELOOP although it followed no link: [readlinks] counts the
    components it has copied, not the links. *)
Theorem realpath_of_a_plain_path (e : env) (comps : list (list ascii))
    (maxreslth : Z) :
  comps <> [] -> Forall component comps ->
  (forall k, (1 <= k <= length comps)%nat ->
     fs_readlink e (string_of_list_ascii (path_of (firstn k comps))) =
     NoLink EINVAL) ->
  Z.of_nat (length (path_of comps)) < maxreslth ->
  realpath_for_vlimit e (string_of_list_ascii (path_of comps)) maxreslth =
  if Z.of_nat (length comps) <=? MAXSYMLINKS + 1
  then Resolved (string_of_list_ascii (path_of comps))
  else Null ELOOP.
Proof.
  intros Hne Hall Hlinks Hlen.
  assert (Hplain : plain_from e ["/"%char] comps).
  { apply plain_from_prefixes. intros k Hk. rewrite <- (Hlinks k Hk).
    destruct k as [|k]; [lia|]. destruct comps as [|c comps]; [contradiction|].
    reflexivity. }
  pose proof (realpath_loop_plain e maxreslth comps (Z.to_nat (MAXSYMLINKS + 2)) 0
                ["/"%char] Hall Hplain) as Hloop.
  unfold realpath_for_vlimit. rewrite list_ascii_of_string_of_list_ascii.
  destruct comps as [|c comps]; [contradiction|].
  change (path_of (c :: comps)) with ("/"%char :: c ++ path_of comps) at 1.
  cbv iota beta.
  rewrite <- realpath_loop_slash.
  change ("/"%char :: c ++ path_of comps) with (path_of (c :: comps)).
  rewrite Hloop.
  2: lia.
  2: unfold MAXSYMLINKS; lia.
  2: cbn [length]; lia.
  rewrite Z.add_0_r. cbn [length Nat.eqb orb].
  destruct (Z.of_nat (S (length comps)) <=? MAXSYMLINKS + 1); [|reflexivity].
  destruct (rev_copied (c :: comps) ["/"%char]) as [Hrev|Habs]; [|discriminate].
  apply (f_equal (@rev ascii)) in Hrev. rewrite rev_involutive in Hrev.
  rewrite Hrev. cbn [rev app path_of tl].
  rewrite !rev_app_distr. cbn [rev app].
  unfold realpath_finish.
  match goal with
  | |- context [Z.of_nat (length ?l) =? 1] =>
      destruct (Z.of_nat (length l) =? 1) eqn:Hone
  end.
  { exfalso. apply Z.eqb_eq in Hone. cbn [length] in Hone.
    rewrite !length_app in Hone. cbn [length] in Hone. lia. }
  cbn [negb andb]. replace (Ascii.eqb "/" "/") with true by reflexivity.
  f_equal. f_equal. rewrite !rev_app_distr, !rev_involutive. cbn [rev app].
  reflexivity.
Qed.

Definition www_components : list (list ascii) :=
  map list_ascii_of_string ["var"; "www"; "html"; "index.html"].

(** The path "/d/d/.../d" of [n] components. *)
Definition deep_components (n : nat) : list (list ascii) :=
  repeat ["d"%char] n.

Lemma deep_components_component n : Forall component (deep_components n).
Proof.
  apply List.Forall_forall. intros c Hc. apply repeat_spec in Hc. subst c.
  repeat split; try discriminate. repeat constructor.
Qed.

Lemma realpath_of_a_plain_path_witness :
  realpath_for_vlimit plain_env (filename sample_request) PATH_MAX =
    Resolved (filename sample_request) /\
  realpath_for_vlimit plain_env
    (string_of_list_ascii (path_of (deep_components 258))) PATH_MAX = Null ELOOP.
Proof.
  split.
  - apply (realpath_of_a_plain_path plain_env www_components PATH_MAX).
    + discriminate.
    + repeat constructor; discriminate.
    + intros k Hk. reflexivity.
    + vm_compute. reflexivity.
  - apply (realpath_of_a_plain_path plain_env (deep_components 258) PATH_MAX).
    + discriminate.
    + apply deep_components_component.
    + intros k Hk. reflexivity.
    + vm_compute. reflexivity.
Defined.

(** ** The shape of a real path *)

(** The buffer at the head of the loop: it starts with the slash of the
    root, ends with a slash and has at most [maxreslth] characters. *)
Definition fits (maxreslth : Z) (npath : list ascii) : Prop :=
  rooted npath /\ (exists b, npath = "/"%char :: b) /\
  Z.of_nat (length npath) <= Z.max 1 maxreslth.

(** What the routine may return: an absolute path that fits, with its NUL,
    [maxreslth] bytes, or NULL. *)
Definition absolute_and_fits (maxreslth : Z) (res : realpath_result) : Prop :=
  match res with
  | Resolved p =>
      (exists q, p = String "/" q) /\
      Z.of_nat (String.length p) <= Z.max 1 (maxreslth - 1)
  | Null _ => True
  | Undefined => False
  end.

Lemma length_string_of_list_ascii l :
  String.length (string_of_list_ascii l) = length l.
Proof. induction l as [|c l IH]; [reflexivity|]. cbn. now rewrite IH. Qed.

Lemma pop_component_fits maxreslth npath :
  fits maxreslth npath -> fits maxreslth (pop_component npath).
Proof.
  intros (Hr & _ & Hlen).
  assert (Hgen : forall l, rooted l ->
            rooted (pop_component l) /\
            (exists b, pop_component l = "/"%char :: b) /\
            (length (pop_component l) <= length l)%nat).
  { clear. induction l as [|x l IH]; intros Hr.
    - destruct Hr as [pre Heq]. now destruct pre.
    - destruct l as [|c l].
      + cbn [pop_component]. split; [assumption|]. split; [|lia].
        destruct Hr as [pre Heq]. destruct pre as [|y pre].
        * inversion Heq. now eexists.
        * destruct pre; discriminate.
      + change (pop_component (x :: c :: l))
          with (if Ascii.eqb c "/" then c :: l else pop_component (c :: l)).
        apply rooted_tail in Hr.
        destruct (Ascii.eqb c "/") eqn:Hc.
        * apply Ascii.eqb_eq in Hc. subst c. split; [assumption|].
          split; [now eexists|]. cbn [length]. lia.
        * destruct (IH Hr) as (Hr' & Hs' & Hl'). split; [assumption|].
          split; [assumption|]. cbn [length] in *. lia. }
  destruct (Hgen npath Hr) as (Hr' & Hs' & Hl'). split; [assumption|].
  split; [assumption|]. lia.
Qed.

Lemma skip_dots_fits maxreslth n : forall path npath,
  (length path <= n)%nat -> fits maxreslth npath ->
  fits maxreslth (snd (skip_dots path npath)) /\
  match fst (skip_dots path npath) with
  | c :: _ => Ascii.eqb c "/" = false
  | [] => True
  end.
Proof.
  induction n as [|n IH]; intros path npath Hlen Hf.
  - destruct path; [now split|]. cbn in Hlen. lia.
  - destruct path as [|c path1]; [now split|].
    cbn [skip_dots]. cbn in Hlen.
    destruct (Ascii.eqb c "/") eqn:Hc; [apply IH; [lia|assumption]|].
    destruct (Ascii.eqb c "."); [|now split].
    destruct path1 as [|c1 path2]; [now split|].
    cbn in Hlen.
    destruct (Ascii.eqb c1 "/"); [apply IH; [cbn; lia|assumption]|].
    destruct (Ascii.eqb c1 "."); [|now split].
    destruct path2 as [|c2 path3];
      [cbn; split; [now apply pop_component_fits|exact I]|].
    destruct (Ascii.eqb c2 "/"); [|now split].
    apply IH; [cbn in *; lia|]. now apply pop_component_fits.
Qed.

Lemma copy_component_length maxreslth : forall path npath path' npath',
  copy_component maxreslth path npath = Some (path', npath') ->
  npath' = npath \/ Z.of_nat (length npath') <= maxreslth - 1.
Proof.
  induction path as [|c path IH]; intros npath path' npath' Hc; cbn in Hc.
  - inversion Hc. now left.
  - destruct (Ascii.eqb c "/"); [inversion Hc; now left|].
    destruct (Z.of_nat (length npath) >? maxreslth - 2) eqn:Hlen; [discriminate|].
    right. destruct (IH _ _ _ Hc) as [->|Hle]; [|assumption].
    cbn [length]. lia.
Qed.

Lemma copy_component_first maxreslth c path npath path' npath' :
  Ascii.eqb c "/" = false ->
  copy_component maxreslth (c :: path) npath = Some (path', npath') ->
  Z.of_nat (length npath') <= maxreslth - 1.
Proof.
  intros Hc Hcopy. cbn [copy_component] in Hcopy. rewrite Hc in Hcopy.
  destruct (Z.of_nat (length npath) >? maxreslth - 2) eqn:Hlen; [discriminate|].
  destruct (copy_component_length _ _ _ _ _ Hcopy) as [->|Hle]; [|assumption].
  cbn [length]. lia.
Qed.

Lemma back_to_slash_length npath npath' :
  back_to_slash npath = Some npath' -> (length npath' < length npath)%nat.
Proof.
  revert npath'. induction npath as [|c npath IH]; intros npath' Hb; [discriminate|].
  cbn [back_to_slash] in Hb. destruct (Ascii.eqb c "/").
  - inversion Hb. cbn. lia.
  - apply IH in Hb. cbn. lia.
Qed.

Lemma realpath_finish_fits maxreslth npath :
  fits maxreslth npath -> absolute_and_fits maxreslth (realpath_finish npath).
Proof.
  intros (Hr & (b & ->) & Hlen). unfold realpath_finish.
  destruct (Z.of_nat (length ("/"%char :: b)) =? 1) eqn:Hone; cbn [negb andb].
  - destruct b; [|apply Z.eqb_eq in Hone; cbn [length] in Hone; lia].
    cbn. split; [now eexists|lia].
  - replace (Ascii.eqb "/" "/") with true by reflexivity.
    destruct b as [|c b]; [discriminate|]. apply rooted_tail in Hr.
    destruct Hr as [pre Hpre]. rewrite Hpre. rewrite rev_app_distr. cbn [rev app].
    cbn [string_of_list_ascii absolute_and_fits]. split; [now eexists|].
    cbn [String.length]. rewrite length_string_of_list_ascii, length_rev.
    rewrite Hpre in Hlen. cbn [length] in Hlen. rewrite length_app in Hlen.
    cbn [length] in Hlen. lia.
Qed.

Section RealpathShape.

Variable e : env.

Lemma realpath_loop_fits left maxreslth : forall readlinks path npath,
  fits maxreslth npath ->
  absolute_and_fits maxreslth (realpath_loop e left maxreslth readlinks path npath).
Proof.
  induction left as [|left IH]; intros readlinks path npath Hf.
  - cbn [realpath_loop].
    destruct (skip_dots_fits maxreslth (length path) path npath (le_n _) Hf)
      as (Hs & Hhead).
    destruct (skip_dots path npath) as [[|c p1] b1]; cbn [fst snd] in Hs, Hhead.
    + now apply realpath_finish_fits.
    + destruct (copy_component maxreslth (c :: p1) b1) as [[p2 b2]|]; [|exact I].
      destruct (readlinks >? MAXSYMLINKS); exact I.
  - cbn [realpath_loop].
    destruct (skip_dots_fits maxreslth (length path) path npath (le_n _) Hf)
      as (Hs & Hhead).
    destruct (skip_dots path npath) as [[|c p1] b1]; cbn [fst snd] in Hs, Hhead.
    + now apply realpath_finish_fits.
    + destruct (copy_component maxreslth (c :: p1) b1) as [[p2 b2]|] eqn:Hc;
        [|exact I].
      pose proof (copy_component_first _ _ _ _ _ _ Hhead Hc) as Hlen2.
      destruct Hs as (Hr1 & _ & _).
      apply copy_component_rooted in Hc; [|assumption].
      destruct (readlinks >? MAXSYMLINKS); [exact I|].
      assert (Hroot : fits maxreslth ["/"%char]).
      { split; [apply rooted_root|]. split; [now eexists|]. cbn. lia. }
      assert (Hback : forall b3, back_to_slash b2 = Some b3 ->
                fits maxreslth ("/"%char :: b3)).
      { intros b3 Hb. destruct (back_to_slash_rooted b2 Hc) as (b3' & Hb' & Hr3).
        rewrite Hb in Hb'. inversion Hb'. subst b3'.
        split; [assumption|]. split; [now eexists|].
        apply back_to_slash_length in Hb. cbn [length]. lia. }
      destruct (fs_readlink e (string_of_list_ascii (rev b2))) as [target|errno].
      * destruct (firstn (Z.to_nat PATH_MAX) (list_ascii_of_string target))
          as [|c0 l0].
        -- destruct (back_to_slash b2) as [b3|] eqn:Hb.
           ++ apply IH. now apply Hback.
           ++ destruct (back_to_slash_rooted b2 Hc) as (b3' & Hb' & _).
              congruence.
        -- destruct (Ascii.eqb c0 "/").
           ++ apply IH. exact Hroot.
           ++ destruct (back_to_slash b2) as [b3|] eqn:Hb.
              ** apply IH. now apply Hback.
              ** destruct (back_to_slash_rooted b2 Hc) as (b3' & Hb' & _).
                 congruence.
      * destruct (negb (errno =? EINVAL)); [exact I|].
        apply IH. split; [now apply rooted_cons|]. split; [now eexists|].
        cbn [length]. lia.
Qed.

End RealpathShape.

(** X19.  What [realpath_for_vlimit] returns, whatever the path and the
    links it meets: NULL, or a path that starts with a slash and, with its
    NUL, fits [maxreslth] bytes (one character for the root alone).  The
    pointer into the buffer never moves below its start. *)
Theorem real_path_is_absolute_and_fits (e : env) (path : string) (maxreslth : Z) :
  absolute_and_fits maxreslth (realpath_for_vlimit e path maxreslth).
Proof.
  unfold realpath_for_vlimit.
  assert (Hroot : fits maxreslth ["/"%char]).
  { split; [apply rooted_root|]. split; [now eexists|]. cbn. lia. }
  assert (Hrel : forall p,
    absolute_and_fits maxreslth
      match fs_getcwd e with
      | Some below_root =>
          let cwd := String "/" below_root in
          if Z.of_nat (String.length cwd) + 1 >? maxreslth - 2 then Null ERANGE
          else
            match rev (list_ascii_of_string cwd) with
            | [] => Undefined
            | c :: npath =>
                realpath_loop e (Z.to_nat (MAXSYMLINKS + 2)) maxreslth 0 p
                  (if Ascii.eqb c "/" then c :: npath else "/"%char :: c :: npath)
            end
      | None => Null ERANGE
      end).
  { intros p. destruct (fs_getcwd e) as [below|]; [|exact I].
    cbv zeta.
    destruct (Z.of_nat (String.length (String "/" below)) + 1 >? maxreslth - 2)
      eqn:Hlen; [exact I|].
    rewrite Z.gtb_ltb in Hlen. apply Z.ltb_ge in Hlen.
    cbn [list_ascii_of_string rev].
    assert (Hr : rooted (rev (list_ascii_of_string below) ++ ["/"%char]))
      by (now eexists).
    assert (Hl : Z.of_nat (length (rev (list_ascii_of_string below) ++ ["/"%char])) + 1
                 <= maxreslth - 2).
    { rewrite length_app, length_rev. cbn [length String.length] in *.
      rewrite <- (length_string_of_list_ascii (list_ascii_of_string below)).
      rewrite string_of_list_ascii_of_string. lia. }
    destruct (rev (list_ascii_of_string below) ++ ["/"%char]) as [|c l];
      [destruct Hr as [pre Hp]; now destruct pre|].
    apply realpath_loop_fits.
    destruct (Ascii.eqb c "/") eqn:Hc.
    - apply Ascii.eqb_eq in Hc. subst c. split; [assumption|].
      split; [now eexists|]. lia.
    - split; [now apply rooted_cons|]. split; [now eexists|].
      cbn [length] in *. lia. }
  destruct (list_ascii_of_string path) as [|c p]; [apply Hrel|].
  destruct (Ascii.eqb c "/") eqn:Hc.
  - apply Ascii.eqb_eq in Hc. subst c. now apply realpath_loop_fits.
  - assert (Hne : c <> "/"%char) by (now apply Ascii.eqb_neq).
    destruct c as [[] [] [] [] [] [] [] []]; try apply Hrel.
    now contradiction Hne.
Qed.

(** ** The decision, from the counts before the request *)

(** X20.  A run of the handler that reached a successful unlock answers 503
    exactly when, for a limit that is on, the count read for the key before
    the request was already at the limit or above it (one more is above
    the limit): the request itself is counted before the comparison. *)
Theorem rejection_depends_on_the_count_before (e : env) (r : request_rec)
    (cfg : vlimit_config) (w : world) (rc : Z) (w' : world) (out : list event) :
  vlimit_handler e r cfg w = Done rc w' out ->
  In (MutexUnlock APR_SUCCESS) out ->
  (rc = HTTP_SERVICE_UNAVAILABLE \/ rc = OK) /\
  (rc = HTTP_SERVICE_UNAVAILABLE <->
   (ip_limit cfg > 0 /\
    int_wrap (get_ip_counter (shm_data w) r + 1) > ip_limit cfg) \/
   (file_limit cfg > 0 /\
    int_wrap (get_file_counter (shm_data w) r + 1) > file_limit cfg)).
Proof.
  intros Hrun Hin.
  destruct (vlimit_handler_counts e r cfg w rc w' out APR_SUCCESS Hrun Hin)
    as (Hip & Hfile & _).
  apply (in_mutex_events (MutexUnlock APR_SUCCESS) out eq_refl) in Hin.
  pose proof (vlimit_handler_spec e r cfg w) as Hspec. unfold runs in Hspec.
  rewrite Hrun in Hspec. destruct (in_scope e r cfg).
  2:{ destruct Hspec as (_ & _ & Hev). rewrite Hev in Hin. destruct Hin. }
  inversion Hspec as [Hskip Hrc Hw Hev|Hinit Hen Hvh Hrc Hw Hev|
                      Hinit Hen Hvh Hst Hrc Hw Hev|
                      w0 Hinit Hen Hvh Hst Hheld Hrc Hw Hev|
                      w0 Hinit Hen Hvh Hst Hun Hheld Hrc Hw Hev|
                      w0 Hinit Hen Hvh Hst Hun Hheld Hrc Hw Hev];
    rewrite <- Hev in Hin.
  - destruct Hin.
  - destruct Hin.
  - destruct (no_unlock_in_lock _ _ Hin).
  - destruct (no_unlock_in_lock _ _ Hin).
  - destruct Hin as [Habs|[Heq|[]]]; [discriminate|]. inversion Heq. congruence.
  - unfold decision, observed_ip_count, observed_file_count.
    destruct (ip_limit cfg >? 0) eqn:Hil; destruct (file_limit cfg >? 0) eqn:Hfl;
      cbn [andb];
      try rewrite Hip by lia; try rewrite Hfile by lia;
      repeat match goal with
             | |- context [?a >? ?b] =>
                 lazymatch b with
                 | 0 => fail
                 | _ => destruct (a >? b) eqn:?
                 end
             end;
      unfold HTTP_SERVICE_UNAVAILABLE, OK;
      (split; [auto|]); split; intros H; try discriminate; try reflexivity;
      try lia.
Qed.

Lemma rejection_depends_on_the_count_before_witness :
  exists rc w' out,
    vlimit_handler plain_env sample_request (ip_config 3) (busy_world 3) =
      Done rc w' out /\
    get_ip_counter (shm_data (busy_world 3)) sample_request = 3 /\
    rc = HTTP_SERVICE_UNAVAILABLE.
Proof.
  destruct (vlimit_handler plain_env sample_request (ip_config 3) (busy_world 3))
    as [rc w' out|f] eqn:Hrun; [|vm_compute in Hrun; discriminate].
  assert (Hin : In (MutexUnlock APR_SUCCESS) out)
    by (vm_compute in Hrun; inversion Hrun; subst; right; left; reflexivity).
  assert (Hbefore : get_ip_counter (shm_data (busy_world 3)) sample_request = 3)
    by (vm_compute; reflexivity).
  destruct (rejection_depends_on_the_count_before plain_env sample_request
              (ip_config 3) (busy_world 3) rc w' out Hrun Hin) as (_ & Hiff).
  exists rc, w', out. split; [reflexivity|]. split; [assumption|].
  apply Hiff. left. rewrite Hbefore. vm_compute. split; reflexivity.
Defined.

(** ** The count after the completion *)

Lemma get_ip_slot_id_cleared t r s new :
  remote_ip r <> EmptyString ->
  unique_keys ip_data.address (ip_stat_shm t) ->
  get_ip_slot_id t r <> -1 ->
  slot_at (ip_stat_shm t) (get_ip_slot_id t r) = Some s ->
  ip_data.address new = EmptyString ->
  get_ip_slot_id (set_ip_slot t (get_ip_slot_id t r) new) r = -1 /\
  get_ip_empty_slot_id (set_ip_slot t (get_ip_slot_id t r) new) r <> -1.
Proof.
  intros Hip Huniq Hhit Hs Hnew.
  destruct (get_ip_slot_id_hit _ _ Hhit) as (Hr & s0 & Hs0 & Hk).
  rewrite Hs in Hs0. inversion Hs0. subst s0. clear Hs0.
  set (id := get_ip_slot_id t r) in *.
  split.
  - rewrite get_ip_slot_id_scan. cbn [set_ip_slot ip_stat_shm].
    destruct (scan_spec (<[Z.to_nat id := new]> (ip_stat_shm t))
                (fun s => String.eqb (ip_data.address s) (remote_ip r)))
      as [[Heq _]|(Hj & s1 & Hs1 & Hp & _)]; [assumption|].
    exfalso. apply String.eqb_eq in Hp.
    rewrite (slot_at_insert _ _ _ _ _ Hs) in Hs1.
    destruct (Z.eq_dec id _) as [Heq|Hne].
    + inversion Hs1. subst s1. rewrite Hnew in Hp. now apply Hip.
    + apply Hne. apply (Huniq _ _ s s1); try assumption; congruence.
  - rewrite get_ip_empty_slot_id_scan. cbn [set_ip_slot ip_stat_shm].
    intros Hfull.
    pose proof (scan_miss _ _ Hfull id new Hr (slot_at_insert_eq _ _ _ _ Hs)) as Hp.
    cbn beta in Hp. rewrite Hnew in Hp. discriminate.
Qed.

Lemma get_file_slot_id_cleared t r s new :
  unique_keys file_data.filename (file_stat_shm t) ->
  get_file_slot_id t r <> -1 ->
  slot_at (file_stat_shm t) (get_file_slot_id t r) = Some s ->
  file_data.filename new = EmptyString ->
  get_file_slot_id (set_file_slot t (get_file_slot_id t r) new) r = -1 /\
  get_file_empty_slot_id (set_file_slot t (get_file_slot_id t r) new) r <> -1.
Proof.
  intros Huniq Hhit Hs Hnew.
  pose proof (basename_nonempty (filename r)) as Hbase.
  destruct (get_file_slot_id_hit _ _ Hhit) as (Hr & s0 & Hs0 & Hk).
  rewrite Hs in Hs0. inversion Hs0. subst s0. clear Hs0.
  set (id := get_file_slot_id t r) in *.
  split.
  - rewrite get_file_slot_id_scan. cbn [set_file_slot file_stat_shm].
    destruct (scan_spec (<[Z.to_nat id := new]> (file_stat_shm t))
                (fun s => String.eqb (file_data.filename s) (basename (filename r))))
      as [[Heq _]|(Hj & s1 & Hs1 & Hp & _)]; [assumption|].
    exfalso. apply String.eqb_eq in Hp.
    rewrite (slot_at_insert _ _ _ _ _ Hs) in Hs1.
    destruct (Z.eq_dec id _) as [Heq|Hne].
    + inversion Hs1. subst s1. rewrite Hnew in Hp. now apply Hbase.
    + apply Hne. apply (Huniq _ _ s s1); try assumption; congruence.
  - rewrite get_file_empty_slot_id_scan. cbn [set_file_slot file_stat_shm].
    intros Hfull.
    pose proof (scan_miss _ _ Hfull id new Hr (slot_at_insert_eq _ _ _ _ Hs)) as Hp.
    cbn beta in Hp. rewrite Hnew in Hp. discriminate.
Qed.

Lemma release_ip_counter cfg r t :
  ip_limit cfg > 0 -> remote_ip r <> EmptyString ->
  unique_keys ip_data.address (ip_stat_shm t) ->
  empty_slots_zero ip_data.address ip_data.counter (ip_stat_shm t) ->
  get_ip_slot_id t r <> -1 -> get_ip_counter t r > 0 ->
  get_ip_counter (release_ip cfg r t) r = int_wrap (get_ip_counter t r - 1).
Proof.
  intros Hlim Hip Huniq Hzero Hhit Hpos.
  destruct (get_ip_slot_id_hit _ _ Hhit) as (Hr & s & Hs & Hk).
  rewrite (get_ip_counter_found _ _ _ Hs) in *.
  unfold release_ip. replace (ip_limit cfg >? 0) with true by lia. rewrite Hs.
  unfold released_ip. replace (ip_data.counter s >? 0) with true by lia.
  destruct (int_wrap (ip_data.counter s - 1) =? 0) eqn:Hz.
  - apply Z.eqb_eq in Hz. rewrite Hz.
    destruct (get_ip_slot_id_cleared t r s
                {| ip_data.address := EmptyString; ip_data.counter := 0 |}
                Hip Huniq Hhit Hs eq_refl) as (Hmiss & Hfree).
    destruct (get_ip_counter_miss _ _ Hmiss) as [[Hf _]|(s0 & Hs0 & Hk0 & ->)];
      [destruct (Hfree Hf)|].
    eapply (empty_slots_zero_set ip_data.address ip_data.counter _ _ _
              {| ip_data.address := EmptyString; ip_data.counter := 0 |} Hs);
      [reflexivity|eassumption| |eassumption].
    exact Hs0.
  - rewrite (get_ip_counter_set _ _ s) by (assumption || reflexivity). reflexivity.
Qed.

Lemma release_file_counter cfg r t :
  file_limit cfg > 0 ->
  unique_keys file_data.filename (file_stat_shm t) ->
  empty_slots_zero file_data.filename file_data.counter (file_stat_shm t) ->
  get_file_slot_id t r <> -1 -> get_file_counter t r > 0 ->
  get_file_counter (release_file cfg r t) r = int_wrap (get_file_counter t r - 1).
Proof.
  intros Hlim Huniq Hzero Hhit Hpos.
  destruct (get_file_slot_id_hit _ _ Hhit) as (Hr & s & Hs & Hk).
  rewrite (get_file_counter_found _ _ _ Hs) in *.
  unfold release_file. replace (file_limit cfg >? 0) with true by lia. rewrite Hs.
  unfold released_file. replace (file_data.counter s >? 0) with true by lia.
  destruct (int_wrap (file_data.counter s - 1) =? 0) eqn:Hz.
  - apply Z.eqb_eq in Hz. rewrite Hz.
    destruct (get_file_slot_id_cleared t r s
                {| file_data.filename := EmptyString; file_data.counter := 0 |}
                Huniq Hhit Hs eq_refl) as (Hmiss & Hfree).
    destruct (get_file_counter_miss _ _ Hmiss) as [[Hf _]|(s0 & Hs0 & Hk0 & ->)];
      [destruct (Hfree Hf)|].
    eapply (empty_slots_zero_set file_data.filename file_data.counter _ _ _
              {| file_data.filename := EmptyString; file_data.counter := 0 |} Hs);
      [reflexivity|eassumption| |eassumption].
    exact Hs0.
  - rewrite (get_file_counter_set _ _ s) by (assumption || reflexivity). reflexivity.
Qed.

(** A run of the completion with a call to unlock has released the two
    keys. *)
Lemma vlimit_response_end_unlock e r cfg w rc w' out st :
  vlimit_response_end e r cfg w = Done rc w' out ->
  In (MutexUnlock st) out ->
  shm_data w' = release_ip cfg r (release_file cfg r (shm_data w)).
Proof.
  intros Hrun Hin.
  apply (in_mutex_events (MutexUnlock st) out eq_refl) in Hin.
  destruct (vlimit_response_end_tables e r cfg w rc w' out Hrun) as (_ & Hre).
  inversion Hre as [Hm Hw Hev|Hm Hst Hw Hev|w0 Hm Hst Hshm Hheld Hw Hev];
    rewrite <- Hev in Hin.
  - destruct Hin.
  - destruct (no_unlock_in_lock _ _ Hin).
  - assumption.
Qed.

(** X21.  On consistent tables, a run of [vlimit_response_end] with a call
    to unlock lowers by one the count read for each key of the request that
    has a slot and a positive count, the limit being on; the table of a
    limit that is off is left as it was. *)
Theorem completion_lowers_the_count_by_one (e : env) (r : request_rec)
    (cfg : vlimit_config) (w : world) (rc : Z) (w' : world) (out : list event)
    (st : Z) :
  tables_consistent (shm_data w) -> remote_ip r <> EmptyString ->
  vlimit_response_end e r cfg w = Done rc w' out ->
  In (MutexUnlock st) out ->
  (ip_limit cfg > 0 -> get_ip_slot_id (shm_data w) r <> -1 ->
   get_ip_counter (shm_data w) r > 0 ->
   get_ip_counter (shm_data w') r = int_wrap (get_ip_counter (shm_data w) r - 1)) /\
  (file_limit cfg > 0 -> get_file_slot_id (shm_data w) r <> -1 ->
   get_file_counter (shm_data w) r > 0 ->
   get_file_counter (shm_data w') r =
     int_wrap (get_file_counter (shm_data w) r - 1)) /\
  (ip_limit cfg <= 0 -> ip_stat_shm (shm_data w') = ip_stat_shm (shm_data w)) /\
  (file_limit cfg <= 0 -> file_stat_shm (shm_data w') = file_stat_shm (shm_data w)).
Proof.
  intros (Huf & Hui & Hzf & Hzi) Hip Hrun Hin.
  rewrite (vlimit_response_end_unlock e r cfg w rc w' out st Hrun Hin).
  split; [|split; [|split]].
  - intros Hlim Hhit Hpos.
    rewrite <- (get_ip_counter_ext (release_file cfg r (shm_data w)) (shm_data w))
      by apply release_file_ip_stat.
    apply release_ip_counter; try assumption.
    + now rewrite release_file_ip_stat.
    + now rewrite release_file_ip_stat.
    + now rewrite (get_ip_slot_id_ext _ (shm_data w)) by apply release_file_ip_stat.
    + now rewrite (get_ip_counter_ext _ (shm_data w)) by apply release_file_ip_stat.
  - intros Hlim Hhit Hpos.
    rewrite (get_file_counter_ext _ (release_file cfg r (shm_data w)))
      by apply release_ip_file_stat.
    now apply release_file_counter.
  - intros Hlim. unfold release_ip. replace (ip_limit cfg >? 0) with false by lia.
    apply release_file_ip_stat.
  - intros Hlim. rewrite release_ip_file_stat. unfold release_file.
    now replace (file_limit cfg >? 0) with false by lia.
Qed.

Lemma completion_lowers_the_count_by_one_witness :
  exists w' out,
    vlimit_response_end plain_env sample_request (ip_config 2) (busy_world 1) =
      Done OK w' out /\
    get_ip_counter (shm_data (busy_world 1)) sample_request = 1 /\
    get_ip_counter (shm_data w') sample_request = 0 /\
    get_ip_slot_id (shm_data w') sample_request = -1.
Proof.
  destruct (vlimit_response_end plain_env sample_request (ip_config 2) (busy_world 1))
    as [rc w' out|f] eqn:Hrun; [|vm_compute in Hrun; discriminate].
  assert (Hrc : rc = OK) by (vm_compute in Hrun; inversion Hrun; reflexivity).
  assert (Hin : In (MutexUnlock APR_SUCCESS) out).
  { vm_compute in Hrun. inversion Hrun. subst. right. left. reflexivity. }
  assert (Hbefore : get_ip_counter (shm_data (busy_world 1)) sample_request = 1)
    by (vm_compute; reflexivity).
  assert (Hgone : get_ip_slot_id (shm_data w') sample_request = -1).
  { vm_compute in Hrun. inversion Hrun. subst. vm_compute. reflexivity. }
  destruct (completion_lowers_the_count_by_one plain_env sample_request (ip_config 2)
              (busy_world 1) rc w' out APR_SUCCESS) as (Hip & _).
  - apply busy_world_consistent.
  - discriminate.
  - assumption.
  - assumption.
  - exists w', out. subst rc. split; [reflexivity|]. split; [assumption|].
    split; [|assumption]. rewrite Hip.
    + rewrite Hbefore. vm_compute. reflexivity.
    + cbn. lia.
    + vm_compute. discriminate.
    + rewrite Hbefore. lia.
Defined.

(** X22.  Every run of [vlimit_response_end] that ends returns OK.  It makes
    no call on the mutex for another host, one failed call to lock, or one
    successful lock followed by one unlock: after a lock that succeeded the
    unlock is always called, and the mutex is held afterwards only if that
    unlock failed. *)
Theorem completion_unlocks_what_it_locked (e : env) (r : request_rec)
    (cfg : vlimit_config) (w : world) (rc : Z) (w' : world) (out : list event) :
  vlimit_response_end e r cfg w = Done rc w' out ->
  rc = OK /\
  ((~ vhost_match r /\ mutex_events out = [] /\ w' = w) \/
   (vhost_match r /\ lock_status e <> APR_SUCCESS /\
    mutex_events out = [MutexLock (lock_status e)] /\ w' = w) \/
   (vhost_match r /\ lock_status e = APR_SUCCESS /\
    mutex_events out = [MutexLock APR_SUCCESS; MutexUnlock (unlock_status e)] /\
    mutex_held w' = negb (unlock_status e =? APR_SUCCESS))).
Proof.
  intros Hrun.
  destruct (vlimit_response_end_tables e r cfg w rc w' out Hrun) as (Hrc & Hre).
  split; [assumption|].
  inversion Hre as [Hm Hw Hev|Hm Hst Hw Hev|w0 Hm Hst Hshm Hheld Hw Hev].
  - left. split; [assumption|]. split; reflexivity.
  - right. left. split; [assumption|]. split; [assumption|]. split; reflexivity.
  - right. right. split; [assumption|]. split; [assumption|].
    split; [reflexivity|assumption].
Qed.

Lemma completion_unlocks_what_it_locked_witness :
  exists w' out,
    vlimit_response_end plain_env sample_request (ip_config 2) (busy_world 1) =
      Done OK w' out /\
    mutex_events out = [MutexLock APR_SUCCESS; MutexUnlock APR_SUCCESS] /\
    mutex_held w' = false.
Proof.
  destruct (vlimit_response_end plain_env sample_request (ip_config 2) (busy_world 1))
    as [rc w' out|f] eqn:Hrun; [|vm_compute in Hrun; discriminate].
  destruct (completion_unlocks_what_it_locked plain_env sample_request (ip_config 2)
              (busy_world 1) rc w' out Hrun)
    as (-> & [(Hno & _)|[(_ & Hst & _)|(_ & _ & Hev & Hheld)]]).
  - destruct Hno. left. vm_compute. reflexivity.
  - destruct Hst. reflexivity.
  - exists w', out. split; [reflexivity|]. split; assumption.
Defined.

(** ** The real path of a path with dots, doubled slashes and no link *)

(** What stands between two slashes of a path: a component, ".", ".." or
    nothing (a doubled or a trailing slash). *)
Inductive part :=
| PComp (c : list ascii)
| PDot
| PDotDot
| PEmpty.

Definition part_chars (t : part) : list ascii :=
  match t with
  | PComp c => c
  | PDot => ["."%char]
  | PDotDot => ["."%char; "."%char]
  | PEmpty => []
  end.

(** The absolute path of the parts: a slash before each. *)
Fixpoint render (toks : list part) : list ascii :=
  match toks with
  | [] => []
  | t :: toks' => "/"%char :: part_chars t ++ render toks'
  end.

Definition part_ok (t : part) : Prop :=
  match t with
  | PComp c => component c
  | _ => True
  end.

(** The components a reader of the path stands on after a part: ".."
    leaves the last one, and stays at the root when there is none. *)
Definition step (st : list (list ascii)) (t : part) : list (list ascii) :=
  match t with
  | PComp c => st ++ [c]
  | PDot => st
  | PDotDot => removelast st
  | PEmpty => st
  end.

Definition eval (toks : list part) : list (list ascii) := fold_left step toks [].

Definition count_comps (toks : list part) : nat :=
  length (List.filter (fun t => match t with PComp _ => true | _ => false end) toks).

(** The path of the components, "/" for none. *)
Definition abs_path (st : list (list ascii)) : list ascii :=
  match st with
  | [] => ["/"%char]
  | _ => path_of st
  end.

(** No component is a link, at the place where the walk meets it. *)
Fixpoint no_link_met (e : env) (st : list (list ascii)) (toks : list part) : Prop :=
  match toks with
  | [] => True
  | t :: toks' =>
      match t with
      | PComp c =>
          fs_readlink e (string_of_list_ascii (path_of (st ++ [c]))) = NoLink EINVAL
      | _ => True
      end /\ no_link_met e (step st t) toks'
  end.

(** The buffer when the walk stands on [st]: the path and a slash, the
    last character first. *)
Definition buf (st : list (list ascii)) : list ascii := rev (path_of st ++ ["/"%char]).

Lemma path_of_app st st' : path_of (st ++ st') = path_of st ++ path_of st'.
Proof.
  induction st as [|c st IH]; [reflexivity|].
  cbn [app path_of]. now rewrite IH, <- app_assoc.
Qed.

Lemma buf_push st c : buf (st ++ [c]) = "/"%char :: rev c ++ buf st.
Proof.
  unfold buf. rewrite path_of_app. cbn [path_of]. rewrite app_nil_r.
  rewrite !rev_app_distr. cbn [rev app]. rewrite <- !app_assoc. reflexivity.
Qed.

Lemma buf_slashed st : exists b, buf st = "/"%char :: b.
Proof. unfold buf. rewrite rev_app_distr. cbn. now eexists. Qed.

Lemma render_at_boundary toks : at_boundary (render toks).
Proof. destruct toks; [now left|right; now eexists]. Qed.

Lemma pop_component_walk l : forall rest,
  l <> [] -> Forall (fun a => Ascii.eqb a "/" = false) l ->
  pop_component (l ++ "/"%char :: rest) = "/"%char :: rest.
Proof.
  induction l as [|a l IH]; intros rest Hne Hall; [contradiction|].
  inversion Hall as [|? ? Ha Hl]. subst.
  destruct l as [|b l].
  - reflexivity.
  - change (pop_component ((a :: b :: l) ++ "/"%char :: rest))
      with (if Ascii.eqb b "/" then (b :: l) ++ "/"%char :: rest
            else pop_component ((b :: l) ++ "/"%char :: rest)).
    inversion Hl as [|? ? Hb Hl']. subst. rewrite Hb.
    apply IH; [discriminate|assumption].
Qed.

Lemma pop_component_buf st :
  Forall component st -> pop_component (buf st) = buf (removelast st).
Proof.
  intros Hall. induction st as [|c0 st0 _] using rev_ind; [reflexivity|].
  rewrite removelast_last, buf_push.
  apply Forall_app in Hall as [_ Hc]. inversion Hc as [|? ? (Hne & Hfree & _) _].
  subst. destruct (buf_slashed st0) as (b & Hb). rewrite Hb.
  assert (Hrev : rev c0 <> []).
  { intros Hnil. apply (f_equal (@rev ascii)) in Hnil.
    rewrite rev_involutive in Hnil. now apply Hne. }
  assert (Hall' : Forall (fun a => Ascii.eqb a "/" = false) (rev c0))
    by (now apply Forall_rev).
  destruct (rev c0) as [|a l] eqn:Hl; [contradiction|].
  change (pop_component ("/"%char :: (a :: l) ++ "/"%char :: b))
    with (if Ascii.eqb a "/" then (a :: l) ++ "/"%char :: b
          else pop_component ((a :: l) ++ "/"%char :: b)).
  inversion Hall' as [|? ? Ha _]. subst. rewrite Ha.
  now apply pop_component_walk.
Qed.

Lemma skip_dots_dot rest npath :
  at_boundary rest -> skip_dots ("."%char :: rest) npath = skip_dots rest npath.
Proof. intros [->|(rest' & ->)]; reflexivity. Qed.

Lemma skip_dots_dotdot rest npath :
  at_boundary rest ->
  skip_dots ("."%char :: "."%char :: rest) npath =
  skip_dots rest (pop_component npath).
Proof. intros [->|(rest' & ->)]; reflexivity. Qed.

Lemma removelast_path_length st :
  (length (path_of (removelast st)) <= length (path_of st))%nat.
Proof.
  induction st as [|c st0 _] using rev_ind; [reflexivity|].
  rewrite removelast_last, path_of_app, length_app. lia.
Qed.

Lemma removelast_component st :
  Forall component st -> Forall component (removelast st).
Proof.
  induction st as [|c st0 _] using rev_ind; [auto|].
  rewrite removelast_last. intros Hall. now apply Forall_app in Hall as [Hst _].
Qed.

Section Walk.

Variable e : env.

Lemma realpath_loop_skip left maxreslth readlinks path npath path' npath' :
  skip_dots path npath = skip_dots path' npath' ->
  realpath_loop e left maxreslth readlinks path npath =
  realpath_loop e left maxreslth readlinks path' npath'.
Proof. intros Heq. destruct left; cbn [realpath_loop]; now rewrite Heq. Qed.

Lemma realpath_loop_parts maxreslth toks : forall left readlinks st,
  Forall component st -> Forall part_ok toks -> no_link_met e st toks ->
  0 <= readlinks ->
  MAXSYMLINKS + 2 <= Z.of_nat left + readlinks ->
  Z.of_nat (count_comps toks) + readlinks <= MAXSYMLINKS + 1 ->
  Z.of_nat (length (path_of st) + length (render toks)) < maxreslth ->
  realpath_loop e left maxreslth readlinks (render toks) (buf st) =
  realpath_finish (buf (fold_left step toks st)).
Proof.
  induction toks as [|t toks IH];
    intros left readlinks st Hst Hall Hplain Hrl Hfuel Hcount Hlen.
  - cbn [render fold_left]. apply realpath_loop_end.
  - inversion Hall as [|? ? Ht Htoks]. subst. destruct Hplain as (Hlink & Hplain).
    cbn [render fold_left]. rewrite realpath_loop_slash.
    pose proof (render_at_boundary toks) as Hb.
    cbn [render length] in Hlen. rewrite length_app in Hlen.
    destruct t as [c| | |]; cbn [part_chars step app] in *.
    + (* a component *)
      assert (Hskip := skip_dots_component c (render toks) (buf st) Ht Hb).
      assert (Hcopy : copy_component maxreslth (c ++ render toks) (buf st) =
                      Some (render toks, rev c ++ buf st)).
      { apply copy_component_component; [apply Ht|assumption|].
        unfold buf. rewrite length_rev, length_app. cbn [length]. lia. }
      assert (Hcnt : Z.of_nat (count_comps (PComp c :: toks)) =
                     Z.of_nat (count_comps toks) + 1)
        by (unfold count_comps; cbn [List.filter length]; lia).
      rewrite Hcnt in Hcount.
      assert (Hread : fs_readlink e (string_of_list_ascii (rev (rev c ++ buf st))) =
                      NoLink EINVAL).
      { rewrite <- Hlink. f_equal. f_equal. unfold buf.
        rewrite rev_app_distr, !rev_involutive, path_of_app. cbn [path_of].
        now rewrite app_nil_r, <- app_assoc. }
      destruct Ht as (Hne & _). destruct c as [|a c]; [contradiction|].
      destruct left as [|left]; [exfalso; cbn [Z.of_nat] in Hfuel; lia|].
      cbn [realpath_loop]. rewrite Hskip. cbn [app]. cbn [app] in Hcopy.
      rewrite Hcopy.
      replace (readlinks >? MAXSYMLINKS) with false by lia.
      rewrite Hread. replace (negb (EINVAL =? EINVAL)) with false by reflexivity.
      rewrite <- buf_push. apply IH; try assumption.
      * apply Forall_app. split; [assumption|]. constructor; [|constructor].
        now inversion Hall.
      * lia.
      * lia.
      * lia.
      * rewrite path_of_app, length_app. cbn [path_of]. rewrite app_nil_r.
        cbn [length] in *. lia.
    + (* "." *)
      rewrite (realpath_loop_skip _ _ _ _ _ (render toks) (buf st))
        by (now apply skip_dots_dot).
      change (count_comps (PDot :: toks)) with (count_comps toks) in Hcount.
      apply IH; try assumption. cbn [length] in Hlen. lia.
    + (* ".." *)
      rewrite (realpath_loop_skip _ _ _ _ _ (render toks) (buf (removelast st))).
      2:{ rewrite skip_dots_dotdot by assumption. now rewrite pop_component_buf. }
      change (count_comps (PDotDot :: toks)) with (count_comps toks) in Hcount.
      apply IH; try assumption.
      * now apply removelast_component.
      * pose proof (removelast_path_length st). cbn [length] in Hlen. lia.
    + (* a doubled slash *)
      change (count_comps (PEmpty :: toks)) with (count_comps toks) in Hcount.
      apply IH; try assumption. cbn [length] in Hlen. lia.
Qed.

Lemma realpath_finish_buf st :
  realpath_finish (buf st) = Resolved (string_of_list_ascii (abs_path st)).
Proof.
  destruct st as [|c st]; [reflexivity|].
  unfold buf, abs_path. rewrite rev_app_distr. cbn [rev app].
  unfold realpath_finish.
  destruct (Z.of_nat (length ("/"%char :: rev (path_of (c :: st)))) =? 1) eqn:Hone.
  { exfalso. apply Z.eqb_eq in Hone. cbn [length path_of] in Hone.
    rewrite length_rev in Hone. cbn [length] in Hone. lia. }
  cbn [negb andb]. replace (Ascii.eqb "/" "/") with true by reflexivity.
  now rewrite rev_involutive.
Qed.

End Walk.

(** X23.  For an absolute path whose components are separated by one or
    more slashes, with "." and ".." among them and no symbolic link on the
    way, of at most MAXSYMLINKS + 1 components and fitting the buffer,
    [realpath_for_vlimit] returns the path a reader of these parts ends
    on: "." and empty parts are dropped, ".." removes the component
    before it and stays at the root when there is none, and no slash
    trails. *)
Theorem realpath_normalises_dots_and_slashes (e : env) (toks : list part)
    (maxreslth : Z) :
  toks <> [] -> Forall part_ok toks -> no_link_met e [] toks ->
  Z.of_nat (count_comps toks) <= MAXSYMLINKS + 1 ->
  Z.of_nat (length (render toks)) < maxreslth ->
  realpath_for_vlimit e (string_of_list_ascii (render toks)) maxreslth =
  Resolved (string_of_list_ascii (abs_path (eval toks))).
Proof.
  intros Hne Hall Hplain Hcount Hlen.
  pose proof (realpath_loop_parts e maxreslth toks (Z.to_nat (MAXSYMLINKS + 2)) 0 []
                (List.Forall_nil _) Hall Hplain) as Hloop.
  unfold realpath_for_vlimit. rewrite list_ascii_of_string_of_list_ascii.
  destruct toks as [|t toks]; [contradiction|].
  change (render (t :: toks)) with ("/"%char :: part_chars t ++ render toks) at 1.
  cbv iota beta.
  rewrite <- realpath_loop_slash.
  change ("/"%char :: part_chars t ++ render toks) with (render (t :: toks)).
  change ["/"%char] with (buf []).
  rewrite Hloop.
  - apply realpath_finish_buf.
  - lia.
  - unfold MAXSYMLINKS. lia.
  - lia.
  - cbn [path_of length]. lia.
Qed.

(** "/var/www/../www/./html//index.html/" *)
Definition winding_parts : list part :=
  [PComp (list_ascii_of_string "var"); PComp (list_ascii_of_string "www"); PDotDot;
   PComp (list_ascii_of_string "www"); PDot;
   PComp (list_ascii_of_string "html"); PEmpty;
   PComp (list_ascii_of_string "index.html"); PEmpty].

Lemma realpath_normalises_dots_and_slashes_witness :
  realpath_for_vlimit plain_env "/var/www/../www/./html//index.html/" PATH_MAX =
    Resolved "/var/www/html/index.html".
Proof.
  apply (realpath_normalises_dots_and_slashes plain_env winding_parts PATH_MAX).
  - discriminate.
  - repeat constructor; discriminate.
  - cbn. repeat split.
  - vm_compute. discriminate.
  - vm_compute. reflexivity.
Defined.

(** ** A symbolic link under the root *)

Lemma render_app toks toks' : render (toks ++ toks') = render toks ++ render toks'.
Proof.
  induction toks as [|t toks IH]; [reflexivity|].
  cbn [app render]. now rewrite IH, <- app_assoc.
Qed.

Lemma back_to_slash_walk l rest :
  Forall (fun a => Ascii.eqb a "/" = false) l ->
  back_to_slash (l ++ "/"%char :: rest) = Some rest.
Proof.
  induction 1 as [|a l Ha Hl IH]; [reflexivity|].
  cbn [app back_to_slash]. now rewrite Ha.
Qed.

(** The target of the link: the parts after a slash, or without it for a
    relative target. *)
Definition link_target (relative : bool) (toks : list part) : list ascii :=
  if relative then tl (render toks) else render toks.

(** A relative target does not start with a slash. *)
Definition target_ok (relative : bool) (toks : list part) : Prop :=
  match toks with
  | [] => False
  | t :: _ => relative = true -> t <> PEmpty
  end.

Lemma link_target_head relative t toks :
  part_ok t -> target_ok relative (t :: toks) ->
  exists a l, link_target relative (t :: toks) = a :: l /\
    (if relative then Ascii.eqb a "/" = false else a = "/"%char).
Proof.
  intros Ht Hok. unfold link_target. destruct relative.
  - cbn [render tl]. cbn [target_ok] in Hok. specialize (Hok eq_refl).
    destruct t as [c| | |]; cbn [part_chars app].
    + destruct Ht as (Hne & Hall & _). destruct c as [|a c]; [contradiction|].
      inversion Hall. subst. cbn [app]. now eexists _, _.
    + now eexists _, _.
    + now eexists _, _.
    + contradiction.
  - cbn [render]. now eexists _, _.
Qed.

(** X24.  A first component that is a symbolic link is replaced by its
    target: for "/c/rest" where "/c" is a link to a target that meets no
    further link, absolute or relative (to the root, where the link is),
    [realpath_for_vlimit] returns the real path of the target followed by
    the rest. *)
Theorem link_under_the_root_is_followed (e : env) (c : list ascii)
    (relative : bool) (target rest : list part) (maxreslth : Z) :
  component c -> target_ok relative target ->
  Forall part_ok (target ++ rest) ->
  fs_readlink e (string_of_list_ascii ("/"%char :: c)) =
    Link (string_of_list_ascii (link_target relative target)) ->
  no_link_met e [] (target ++ rest) ->
  Z.of_nat (count_comps (target ++ rest)) <= MAXSYMLINKS ->
  Z.of_nat (length (render target)) <= PATH_MAX ->
  Z.of_nat (length c) + 1 < maxreslth ->
  Z.of_nat (length (render (target ++ rest))) < maxreslth ->
  realpath_for_vlimit e (string_of_list_ascii ("/"%char :: c ++ render rest))
    maxreslth =
  Resolved (string_of_list_ascii (abs_path (eval (target ++ rest)))).
Proof.
  intros Hc Hok Hall Hlink Hplain Hcount Hmax Hlenc Hlen.
  unfold realpath_for_vlimit. rewrite list_ascii_of_string_of_list_ascii.
  cbv iota beta.
  change (Z.to_nat (MAXSYMLINKS + 2)) with (S (Z.to_nat (MAXSYMLINKS + 1))).
  pose proof (render_at_boundary rest) as Hb.
  assert (Hskip := skip_dots_component c (render rest) ["/"%char] Hc Hb).
  assert (Hcopy : copy_component maxreslth (c ++ render rest) ["/"%char] =
                  Some (render rest, rev c ++ ["/"%char])).
  { apply copy_component_component; [apply Hc|assumption|]. cbn [length]. lia. }
  destruct target as [|t target]; [destruct Hok|].
  assert (Ht : part_ok t) by (now inversion Hall).
  destruct (link_target_head relative t target Ht Hok) as (a0 & l0 & Htarget & Ha0).
  assert (Hfirstn : firstn (Z.to_nat PATH_MAX)
                      (list_ascii_of_string
                         (string_of_list_ascii (link_target relative (t :: target)))) =
                    link_target relative (t :: target)).
  { rewrite list_ascii_of_string_of_list_ascii. apply firstn_all2.
    unfold link_target. destruct relative; [|lia].
    cbn [render tl length] in *. lia. }
  assert (Hgo : realpath_loop e (Z.to_nat (MAXSYMLINKS + 1)) maxreslth (0 + 1)
                  (link_target relative (t :: target) ++ render rest) ["/"%char] =
                Resolved (string_of_list_ascii
                            (abs_path (eval ((t :: target) ++ rest))))).
  { assert (Hsame : realpath_loop e (Z.to_nat (MAXSYMLINKS + 1)) maxreslth (0 + 1)
                      (link_target relative (t :: target) ++ render rest)
                      ["/"%char] =
                    realpath_loop e (Z.to_nat (MAXSYMLINKS + 1)) maxreslth (0 + 1)
                      (render ((t :: target) ++ rest)) (buf [])).
    { rewrite render_app. unfold link_target. destruct relative; [|reflexivity].
      cbn [render tl app]. now rewrite realpath_loop_slash. }
    rewrite Hsame.
    rewrite (realpath_loop_parts e maxreslth ((t :: target) ++ rest) _ _ []
               (List.Forall_nil _) Hall Hplain).
    - apply realpath_finish_buf.
    - lia.
    - unfold MAXSYMLINKS. lia.
    - lia.
    - cbn [path_of length]. lia. }
  destruct Hc as (Hne & Hfree & _). destruct c as [|a c]; [contradiction|].
  cbn [app]. cbn [app] in Hskip, Hcopy.
  cbn [realpath_loop]. rewrite Hskip, Hcopy.
  replace (0 >? MAXSYMLINKS) with false by reflexivity.
  rewrite rev_app_distr, rev_involutive.
  change (rev ["/"%char] ++ a :: c) with ("/"%char :: a :: c).
  rewrite Hlink, Hfirstn.
  rewrite Htarget in *.
  destruct relative.
  - rewrite Ha0. rewrite back_to_slash_walk by (now apply Forall_rev). exact Hgo.
  - subst a0. replace (Ascii.eqb "/" "/") with true by reflexivity. exact Hgo.
Qed.

(** "/current" is a link to "releases/42". *)
Definition link_env : env :=
  {| debug_flag := false; log_flag := false;
     ip_stat_flag := false; ip_stat_file := false;
     file_stat_flag := false; file_stat_file := false;
     stat_open := APR_SUCCESS; stat_close := APR_SUCCESS;
     lock_status := APR_SUCCESS; unlock_status := APR_SUCCESS;
     fs_access := fun _ => true;
     fs_readlink := fun p => if String.eqb p "/current" then Link "releases/42"
                             else NoLink EINVAL;
     fs_getcwd := Some EmptyString |}.

Lemma link_under_the_root_is_followed_witness :
  realpath_for_vlimit link_env "/current/index.html" PATH_MAX =
    Resolved "/releases/42/index.html".
Proof.
  apply (link_under_the_root_is_followed link_env (list_ascii_of_string "current")
           true
           [PComp (list_ascii_of_string "releases"); PComp (list_ascii_of_string "42")]
           [PComp (list_ascii_of_string "index.html")] PATH_MAX).
  - repeat split; try discriminate. repeat constructor.
  - cbn. discriminate.
  - repeat constructor; discriminate.
  - reflexivity.
  - cbn. repeat split.
  - vm_compute. discriminate.
  - vm_compute. discriminate.
  - vm_compute. reflexivity.
  - vm_compute. reflexivity.
Defined.

(** ** The slots a request touches *)

(** The two tables agree on every slot but [id]. *)
Definition same_but {A} (id : Z) (arr arr' : list A) : Prop :=
  length arr' = length arr /\ forall i, i <> id -> slot_at arr' i = slot_at arr i.

Lemma same_but_refl {A} id (arr : list A) : same_but id arr arr.
Proof. split; [reflexivity|]. intros. reflexivity. Qed.

Lemma same_but_insert {A} id (arr : list A) s :
  0 <= id -> same_but id arr (<[Z.to_nat id := s]> arr).
Proof.
  intros Hid. split; [apply length_insert|]. intros i Hne.
  apply slot_at_insert_ne; [assumption|]. congruence.
Qed.

Lemma raise_file_frame r t :
  same_but (file_target t r) (file_stat_shm t) (file_stat_shm (raise_file r t)).
Proof.
  unfold raise_file. fold (file_target t r).
  destruct (slot_at (file_stat_shm t) (file_target t r)) as [s|] eqn:Hs;
    [|apply same_but_refl].
  cbn [set_file_slot file_stat_shm]. apply same_but_insert.
  eapply slot_at_nonneg. eassumption.
Qed.

Lemma raise_ip_frame r t :
  same_but (ip_target t r) (ip_stat_shm t) (ip_stat_shm (raise_ip r t)).
Proof.
  unfold raise_ip. fold (ip_target t r).
  destruct (slot_at (ip_stat_shm t) (ip_target t r)) as [s|] eqn:Hs;
    [|apply same_but_refl].
  cbn [set_ip_slot ip_stat_shm]. apply same_but_insert.
  eapply slot_at_nonneg. eassumption.
Qed.

Lemma release_file_frame cfg r t :
  same_but (get_file_slot_id t r) (file_stat_shm t)
    (file_stat_shm (release_file cfg r t)).
Proof.
  unfold release_file. destruct (file_limit cfg >? 0); [|apply same_but_refl].
  destruct (slot_at (file_stat_shm t) (get_file_slot_id t r)) as [s|] eqn:Hs;
    [|apply same_but_refl].
  cbn [set_file_slot file_stat_shm]. apply same_but_insert.
  eapply slot_at_nonneg. eassumption.
Qed.

Lemma release_ip_frame cfg r t :
  same_but (get_ip_slot_id t r) (ip_stat_shm t) (ip_stat_shm (release_ip cfg r t)).
Proof.
  unfold release_ip. destruct (ip_limit cfg >? 0); [|apply same_but_refl].
  destruct (slot_at (ip_stat_shm t) (get_ip_slot_id t r)) as [s|] eqn:Hs;
    [|apply same_but_refl].
  cbn [set_ip_slot ip_stat_shm]. apply same_but_insert.
  eapply slot_at_nonneg. eassumption.
Qed.

Lemma count_file_frame cfg r t :
  same_but (file_target t r) (file_stat_shm t) (file_stat_shm (count_file cfg r t)).
Proof.
  unfold count_file.
  destruct (file_limit cfg >? 0); [apply raise_file_frame|apply same_but_refl].
Qed.

Lemma count_ip_frame cfg r t :
  same_but (ip_target t r) (ip_stat_shm t) (ip_stat_shm (count_ip cfg r t)).
Proof.
  unfold count_ip.
  destruct (ip_limit cfg >? 0); [apply raise_ip_frame|apply same_but_refl].
Qed.

Lemma ip_target_ext t t' r :
  ip_stat_shm t = ip_stat_shm t' -> ip_target t r = ip_target t' r.
Proof.
  intros Heq. unfold ip_target, get_ip_slot_id, get_ip_empty_slot_id.
  now rewrite Heq.
Qed.

(** X25.  A request touches one slot of each table at most and never
    changes the size of a table: a run of [vlimit_handler] that ends
    leaves every slot as it was but the slot of the key or, for a new key,
    the first empty slot; a run of [vlimit_response_end] that ends leaves
    every slot as it was but the slot of the key. *)
Theorem a_request_touches_its_own_slots (e : env) (r : request_rec)
    (cfg : vlimit_config) (w : world) (rc : Z) (w' : world) (out : list event) :
  (vlimit_handler e r cfg w = Done rc w' out ->
   same_but (file_target (shm_data w) r)
     (file_stat_shm (shm_data w)) (file_stat_shm (shm_data w')) /\
   same_but (ip_target (shm_data w) r)
     (ip_stat_shm (shm_data w)) (ip_stat_shm (shm_data w'))) /\
  (vlimit_response_end e r cfg w = Done rc w' out ->
   same_but (get_file_slot_id (shm_data w) r)
     (file_stat_shm (shm_data w)) (file_stat_shm (shm_data w')) /\
   same_but (get_ip_slot_id (shm_data w) r)
     (ip_stat_shm (shm_data w)) (ip_stat_shm (shm_data w'))).
Proof.
  split; intros Hrun.
  - destruct (vlimit_handler_tables e r cfg w rc w' out Hrun)
      as [(_ & _ & -> & _)|(_ & Heff)]; [split; apply same_but_refl|].
    destruct Heff as [(-> & _)|[(_ & _ & _ & _ & ->)|[(_ & _ & _ & _ & ->)|
                      (st & _ & -> & _)]]].
    + split; apply same_but_refl.
    + split; apply same_but_refl.
    + split; [apply count_file_frame|].
      rewrite count_file_ip_stat. apply same_but_refl.
    + split.
      * rewrite count_ip_file_stat. apply count_file_frame.
      * rewrite (ip_target_ext (shm_data w) (count_file cfg r (shm_data w)))
          by (symmetry; apply count_file_ip_stat).
        rewrite <- (count_file_ip_stat cfg r (shm_data w)) at 1.
        apply count_ip_frame.
  - destruct (vlimit_response_end_tables e r cfg w rc w' out Hrun) as (_ & Hre).
    inversion Hre as [Hm Hw Hev|Hm Hst Hw Hev|w0 Hm Hst Hshm Hheld Hw Hev]; subst;
      try (split; apply same_but_refl).
    rewrite Hshm. split.
    + rewrite release_ip_file_stat. apply release_file_frame.
    + rewrite (get_ip_slot_id_ext (shm_data w) (release_file cfg r (shm_data w)))
        by (symmetry; apply release_file_ip_stat).
      rewrite <- (release_file_ip_stat cfg r (shm_data w)) at 1.
      apply release_ip_frame.
Qed.

Lemma a_request_touches_its_own_slots_witness :
  exists w' out,
    vlimit_handler plain_env sample_request (ip_config 2) (busy_world 3) =
      Done HTTP_SERVICE_UNAVAILABLE w' out /\
    ip_target (shm_data (busy_world 3)) sample_request = 0 /\
    same_but 0 (ip_stat_shm (shm_data (busy_world 3))) (ip_stat_shm (shm_data w')) /\
    file_stat_shm (shm_data w') = file_stat_shm (shm_data (busy_world 3)).
Proof.
  destruct (vlimit_handler plain_env sample_request (ip_config 2) (busy_world 3))
    as [rc w' out|f] eqn:Hrun; [|vm_compute in Hrun; discriminate].
  assert (Hrc : rc = HTTP_SERVICE_UNAVAILABLE)
    by (vm_compute in Hrun; inversion Hrun; reflexivity).
  assert (Hid : ip_target (shm_data (busy_world 3)) sample_request = 0)
    by (vm_compute; reflexivity).
  assert (Hfile : file_stat_shm (shm_data w') = file_stat_shm (shm_data (busy_world 3)))
    by (vm_compute in Hrun; inversion Hrun; reflexivity).
  destruct (proj1 (a_request_touches_its_own_slots plain_env sample_request
                     (ip_config 2) (busy_world 3) rc w' out) Hrun) as (_ & Hip).
  rewrite Hid in Hip. subst rc. exists w', out.
  split; [reflexivity|]. split; [assumption|]. split; assumption.
Defined.

(** ** Startup *)

(** Every call of [vlimit_init] before the size of the block is checked
    succeeds. *)
Definition setup_ok (ie : init_env) (old_shm : bool) : Prop :=
  log_open ie = APR_SUCCESS /\ mutex_create ie = APR_SUCCESS /\
  (need_set_mutex_perms ie = true -> mutex_perms ie = APR_SUCCESS) /\
  (old_shm = true -> shm_destroy ie = APR_SUCCESS) /\
  shm_create ie = APR_SUCCESS.

Definition shm_size (conf_counter : Z) : Z :=
  (sizeof_pointer + sizeof_file_stat_shm + sizeof_ip_stat_shm) * (conf_counter + 1).

Lemma setup_ok_tests ie old_shm :
  setup_ok ie old_shm ->
  negb (log_open ie =? APR_SUCCESS) = false /\
  negb (mutex_create ie =? APR_SUCCESS) = false /\
  need_set_mutex_perms ie && negb (mutex_perms ie =? APR_SUCCESS) = false /\
  old_shm && negb (shm_destroy ie =? APR_SUCCESS) = false /\
  negb (shm_create ie =? APR_SUCCESS) = false.
Proof.
  intros (Hlog & Hmutex & Hperms & Hdestroy & Hcreate).
  rewrite Hlog, Hmutex, Hcreate. repeat split; try reflexivity.
  - destruct (need_set_mutex_perms ie); [|reflexivity].
    now rewrite (Hperms eq_refl).
  - destruct old_shm; [|reflexivity]. now rewrite (Hdestroy eq_refl).
Qed.

(** X26.  Three failures of [vlimit_init] are reported to the server as a
    success, and none of them gives [shm_base] a block of tables.  When the
    log file cannot be opened it returns OK before it has made the mutex,
    with [shm_base] as it was.  When the block has not the size asked for it
    returns the status of the [apr_shm_create] that succeeded, which is OK,
    and [shm_base] is still the pointer of the earlier run, whose block has
    been released if there was one.  When the block has no base address it
    returns that status too and [shm_base] is NULL.  On a first run, where
    [shm_base] is NULL on entry, it is NULL after each of the three. *)
Theorem init_reports_success_without_tables (e : env) (ie : init_env)
    (conf_counter : Z) (old_shm : bool) (old_base : base_pointer) :
  log_open ie <> APR_SUCCESS \/
  (setup_ok ie old_shm /\
   (shm_size_get ie (shm_size conf_counter) <> shm_size conf_counter \/
    shm_baseaddr_null ie = true)) ->
  let result := vlimit_init e ie conf_counter old_shm old_base in
  init_status result = OK /\
  (log_open ie <> APR_SUCCESS ->
   mutex_made result = false /\ shm_base result = old_base) /\
  (log_open ie = APR_SUCCESS ->
   shm_size_get ie (shm_size conf_counter) <> shm_size conf_counter ->
   shm_base result = if old_shm then after_destroy old_base else old_base) /\
  (log_open ie = APR_SUCCESS ->
   shm_size_get ie (shm_size conf_counter) = shm_size conf_counter ->
   shm_base result = NullBase) /\
  (old_base = NullBase -> shm_base result = NullBase).
Proof.
  intros [Hlog|(Hok & Hcase)] result; subst result; unfold vlimit_init.
  - replace (log_open ie =? APR_SUCCESS) with false by lia. cbn [negb].
    cbn [init_status mutex_made shm_base].
    split; [reflexivity|]. split; [now split|].
    split; [intros Habs; now destruct Hlog|].
    split; [intros Habs; now destruct Hlog|]. now intros ->.
  - destruct (setup_ok_tests ie old_shm Hok) as (-> & -> & -> & -> & Hcreate).
    rewrite Hcreate. fold (shm_size conf_counter).
    destruct Hok as (Hlog & _ & _ & _ & Hstatus).
    destruct (shm_size_get ie (shm_size conf_counter) =? shm_size conf_counter)
      eqn:Hsize; cbn [negb].
    + apply Z.eqb_eq in Hsize.
      destruct Hcase as [Hne|Hnull]; [now destruct Hne|]. rewrite Hnull.
      cbn [init_status mutex_made shm_base].
      split; [assumption|]. split; [intros Habs; now destruct Habs|].
      split; [intros _ Habs; now destruct Habs|].
      split; reflexivity.
    + apply Z.eqb_neq in Hsize. cbn [init_status mutex_made shm_base].
      split; [assumption|]. split; [intros Habs; now destruct Habs|].
      split; [reflexivity|].
      split; [intros _ Habs; now destruct Hsize|].
      intros ->. now destruct old_shm.
Qed.

Definition plain_init_env : init_env :=
  {| log_open := APR_SUCCESS; mutex_create := APR_SUCCESS;
     need_set_mutex_perms := true; mutex_perms := APR_SUCCESS;
     shm_destroy := APR_SUCCESS; shm_create := APR_SUCCESS;
     shm_size_get := fun size => size; shm_baseaddr_null := false |}.

(** The log file cannot be opened (13 is EACCES). *)
Definition no_log_init_env : init_env :=
  {| log_open := 13; mutex_create := APR_SUCCESS;
     need_set_mutex_perms := true; mutex_perms := APR_SUCCESS;
     shm_destroy := APR_SUCCESS; shm_create := APR_SUCCESS;
     shm_size_get := fun size => size; shm_baseaddr_null := false |}.

(** The block made is a page larger than the size asked for. *)
Definition other_size_init_env : init_env :=
  {| log_open := APR_SUCCESS; mutex_create := APR_SUCCESS;
     need_set_mutex_perms := true; mutex_perms := APR_SUCCESS;
     shm_destroy := APR_SUCCESS; shm_create := APR_SUCCESS;
     shm_size_get := fun size => size + 4096; shm_baseaddr_null := false |}.

(** A restart after a run that made the tables of two configurations: on
    entry [shm] is set and [shm_base] is the base of its block. *)
Lemma init_reports_success_without_tables_witness :
  (init_status (vlimit_init plain_env no_log_init_env 2 true
                  (Base (zeroed_block 3))) = OK /\
   mutex_made (vlimit_init plain_env no_log_init_env 2 true
                 (Base (zeroed_block 3))) = false /\
   shm_base (vlimit_init plain_env no_log_init_env 2 true
               (Base (zeroed_block 3))) = Base (zeroed_block 3)) /\
  (init_status (vlimit_init plain_env other_size_init_env 2 true
                  (Base (zeroed_block 3))) = OK /\
   shm_base (vlimit_init plain_env other_size_init_env 2 true
               (Base (zeroed_block 3))) = Stale).
Proof.
  split.
  - destruct (init_reports_success_without_tables plain_env no_log_init_env 2 true
                (Base (zeroed_block 3)))
      as (Hst & Hlog & _).
    + left. discriminate.
    + split; [exact Hst|]. apply Hlog. discriminate.
  - destruct (init_reports_success_without_tables plain_env other_size_init_env 2
                true (Base (zeroed_block 3)))
      as (Hst & _ & Hsize & _).
    + right. split.
      * unfold setup_ok, other_size_init_env. cbn. repeat split; reflexivity.
      * left. cbn. lia.
    + split; [exact Hst|]. apply Hsize; [reflexivity|cbn; lia].
Defined.

Lemma fold_left_fixed {A B} (f : A -> B -> A) (l : list B) (x : A) :
  (forall y, f x y = x) -> fold_left f l x = x.
Proof.
  intros Hf. induction l as [|y l IH]; [reflexivity|].
  cbn [fold_left]. now rewrite Hf.
Qed.

Lemma lookup_repeat_Some {A} (x : A) n i y : repeat x n !! i = Some y -> y = x.
Proof.
  revert i. induction n as [|n IH]; intros [|i]; cbn; try discriminate.
  - congruence.
  - apply IH.
Qed.

Lemma insert_repeat_same {A} (x : A) n i : <[i := x]> (repeat x n) = repeat x n.
Proof.
  revert i. induction n as [|n IH]; intros [|i]; cbn; try reflexivity.
  now rewrite IH.
Qed.

Lemma init_file_slot_empty i :
  match repeat empty_file_stat (Z.to_nat MAX_CLIENTS) !! i with
  | Some s => <[i := {| file_data.filename := EmptyString;
                        file_data.counter := file_data.counter s |}]>
                (repeat empty_file_stat (Z.to_nat MAX_CLIENTS))
  | None => repeat empty_file_stat (Z.to_nat MAX_CLIENTS)
  end = repeat empty_file_stat (Z.to_nat MAX_CLIENTS) /\
  match repeat empty_file_stat (Z.to_nat MAX_CLIENTS) !! i with
  | Some s => <[i := {| file_data.filename := file_data.filename s;
                        file_data.counter := 0 |}]>
                (repeat empty_file_stat (Z.to_nat MAX_CLIENTS))
  | None => repeat empty_file_stat (Z.to_nat MAX_CLIENTS)
  end = repeat empty_file_stat (Z.to_nat MAX_CLIENTS).
Proof.
  destruct (repeat empty_file_stat (Z.to_nat MAX_CLIENTS) !! i) as [s|] eqn:Hf;
    [|split; reflexivity].
  pose proof (lookup_repeat_Some _ _ _ _ Hf) as ->.
  split; apply insert_repeat_same.
Qed.

Lemma init_ip_slot_empty i :
  match repeat empty_ip_stat (Z.to_nat MAX_CLIENTS) !! i with
  | Some s => <[i := {| ip_data.address := EmptyString;
                        ip_data.counter := ip_data.counter s |}]>
                (repeat empty_ip_stat (Z.to_nat MAX_CLIENTS))
  | None => repeat empty_ip_stat (Z.to_nat MAX_CLIENTS)
  end = repeat empty_ip_stat (Z.to_nat MAX_CLIENTS) /\
  match repeat empty_ip_stat (Z.to_nat MAX_CLIENTS) !! i with
  | Some s => <[i := {| ip_data.address := ip_data.address s;
                        ip_data.counter := 0 |}]>
                (repeat empty_ip_stat (Z.to_nat MAX_CLIENTS))
  | None => repeat empty_ip_stat (Z.to_nat MAX_CLIENTS)
  end = repeat empty_ip_stat (Z.to_nat MAX_CLIENTS).
Proof.
  destruct (repeat empty_ip_stat (Z.to_nat MAX_CLIENTS) !! i) as [s|] eqn:Hi;
    [|split; reflexivity].
  pose proof (lookup_repeat_Some _ _ _ _ Hi) as ->.
  split; apply insert_repeat_same.
Qed.

Lemma init_slot_init_shm i : init_slot init_shm i = init_shm.
Proof.
  unfold init_slot, init_shm. cbn [file_stat_shm ip_stat_shm].
  destruct (init_file_slot_empty i) as [Hf1 Hf2].
  destruct (init_ip_slot_empty i) as [Hi1 Hi2].
  rewrite Hf1, Hi1, Hf2, Hi2. reflexivity.
Qed.

Lemma init_slots_init_shm : init_slots init_shm = init_shm.
Proof. unfold init_slots. apply fold_left_fixed, init_slot_init_shm. Qed.

Lemma zeroed_block_init_shm n : zeroed_block n = repeat init_shm n.
Proof. reflexivity. Qed.

Lemma init_pairs_zeroed conf_counter n :
  init_pairs conf_counter (zeroed_block n) = zeroed_block n.
Proof.
  unfold init_pairs. apply fold_left_fixed. intros t.
  rewrite zeroed_block_init_shm.
  destruct (repeat init_shm n !! t) as [s|] eqn:Ht; [|reflexivity].
  pose proof (lookup_repeat_Some _ _ _ _ Ht) as ->.
  now rewrite init_slots_init_shm, insert_repeat_same.
Qed.

Lemma lookup_repeat_lt {A} (x : A) n i : (i < n)%nat -> repeat x n !! i = Some x.
Proof.
  revert i. induction n as [|n IH]; intros [|i] Hi; cbn; try lia.
  - reflexivity.
  - apply IH. lia.
Qed.

(** X27.  When every call of [vlimit_init] succeeds it returns OK and
    leaves, for each configuration id from 0 to [conf_counter], a table pair
    at [shm_base + id] in which every slot is empty with count 0: the
    tables are consistent, and the exit for a block that is too small is
    not taken. *)
Theorem init_leaves_empty_tables (e : env) (ie : init_env)
    (conf_counter : Z) (old_shm : bool) (old_base : base_pointer) :
  setup_ok ie old_shm ->
  shm_size_get ie (shm_size conf_counter) = shm_size conf_counter ->
  shm_baseaddr_null ie = false ->
  0 <= conf_counter ->
  exists block,
    init_status (vlimit_init e ie conf_counter old_shm old_base) = OK /\
    mutex_made (vlimit_init e ie conf_counter old_shm old_base) = true /\
    shm_base (vlimit_init e ie conf_counter old_shm old_base) = Base block /\
    forall conf_id, 0 <= conf_id <= conf_counter ->
      block !! Z.to_nat conf_id = Some init_shm /\ tables_consistent init_shm.
Proof.
  intros Hok Hsize Hbase Hcc.
  exists (zeroed_block (Z.to_nat (conf_counter + 1))).
  unfold vlimit_init.
  destruct (setup_ok_tests ie old_shm Hok) as (-> & -> & -> & -> & ->).
  fold (shm_size conf_counter). rewrite Hsize, Z.eqb_refl, Hbase. cbn [negb].
  replace (shm_size conf_counter <? sizeof_pointer * conf_counter) with false.
  2:{ symmetry. apply Z.ltb_ge. unfold shm_size, sizeof_pointer,
        sizeof_file_stat_shm, sizeof_ip_stat_shm, MAX_CLIENTS, MAX_FILENAME, IP_MAX.
      lia. }
  cbn [init_status mutex_made shm_base]. rewrite init_pairs_zeroed.
  split; [reflexivity|]. split; [reflexivity|]. split; [reflexivity|].
  intros conf_id Hid. split.
  - rewrite zeroed_block_init_shm. apply lookup_repeat_lt. lia.
  - apply init_shm_consistent.
Qed.

Lemma init_leaves_empty_tables_witness :
  exists block,
    init_status (vlimit_init plain_env plain_init_env 2 true Stale) = OK /\
    mutex_made (vlimit_init plain_env plain_init_env 2 true Stale) = true /\
    shm_base (vlimit_init plain_env plain_init_env 2 true Stale) = Base block /\
    forall conf_id, 0 <= conf_id <= 2 ->
      block !! Z.to_nat conf_id = Some init_shm /\ tables_consistent init_shm.
Proof.
  apply (init_leaves_empty_tables plain_env plain_init_env 2 true Stale).
  - unfold setup_ok, plain_init_env. cbn. repeat split; reflexivity.
  - reflexivity.
  - reflexivity.
  - lia.
Defined.

(** ** Reclaim and decrement for a key without a slot *)

(** C5.  [unset_file_counter] and [unset_ip_counter] do not test the slot
    id they look up.  For a key that has no slot they index their table at
    -1, outside the table, whatever the counters of the slots are: what is
    read there decides whether a byte is cleared, not the counter of a slot
    of the key.  [dec_file_counter] and [dec_ip_counter] do test the same id
    and leave the tables alone. *)
Theorem reclaim_without_slot_indexes_minus_one (e : env) (r : request_rec)
    (w : world) :
  (get_file_slot_id (shm_data w) r = -1 ->
   unset_file_counter r w = Fault OutOfBounds /\
   dec_file_counter e r w = Done (-1) w (dec_file_miss_msg e)) /\
  (get_ip_slot_id (shm_data w) r = -1 ->
   unset_ip_counter r w = Fault OutOfBounds /\
   dec_ip_counter e r w = Done (-1) w (dec_ip_miss_msg e)).
Proof.
  split; intros Hmiss.
  - split; [now apply unset_file_counter_miss|now apply dec_file_counter_miss].
  - split; [now apply unset_ip_counter_miss|now apply dec_ip_counter_miss].
Qed.

(** On the tables as [vlimit_init] leaves them no key has a slot. *)
Lemma reclaim_without_slot_indexes_minus_one_witness :
  (get_file_slot_id (shm_data init_world) sample_request = -1 /\
   unset_file_counter sample_request init_world = Fault OutOfBounds) /\
  (get_ip_slot_id (shm_data init_world) sample_request = -1 /\
   unset_ip_counter sample_request init_world = Fault OutOfBounds).
Proof.
  assert (Hfile : get_file_slot_id (shm_data init_world) sample_request = -1)
    by (vm_compute; reflexivity).
  assert (Hip : get_ip_slot_id (shm_data init_world) sample_request = -1)
    by (vm_compute; reflexivity).
  destruct (reclaim_without_slot_indexes_minus_one plain_env sample_request
              init_world) as [Hf Hi].
  split.
  - split; [exact Hfile|]. exact (proj1 (Hf Hfile)).
  - split; [exact Hip|]. exact (proj1 (Hi Hip)).
Defined.

(** The counter read for a key without a slot, on consistent tables: that
    of the first empty slot, which is 0, or -1 when no slot is empty. *)
Lemma get_file_counter_uncounted t r :
  tables_consistent t -> get_file_slot_id t r = -1 ->
  get_file_counter t r =
  if get_file_empty_slot_id t r =? -1 then -1 else 0.
Proof.
  intros (_ & _ & Hzero & _) Hmiss.
  destruct (get_file_counter_miss t r Hmiss) as [[-> ->]|(s & Hs & Hk & ->)];
    [reflexivity|].
  apply slot_at_nonneg in Hs as Hid.
  replace (get_file_empty_slot_id t r =? -1) with false by lia.
  exact (Hzero _ _ Hs Hk).
Qed.

Lemma get_ip_counter_uncounted t r :
  tables_consistent t -> get_ip_slot_id t r = -1 ->
  get_ip_counter t r =
  if get_ip_empty_slot_id t r =? -1 then -1 else 0.
Proof.
  intros (_ & _ & _ & Hzero) Hmiss.
  destruct (get_ip_counter_miss t r Hmiss) as [[-> ->]|(s & Hs & Hk & ->)];
    [reflexivity|].
  apply slot_at_nonneg in Hs as Hid.
  replace (get_ip_empty_slot_id t r =? -1) with false by lia.
  exact (Hzero _ _ Hs Hk).
Qed.

(** C8.  On consistent tables, as the hooks keep them, the completion of a
    request whose key has no slot never reaches [dec_file_counter] or
    [dec_ip_counter]: the counter read for the key is that of the first
    empty slot, 0, or -1 on a full table, and the decrement is asked for a
    positive counter only.  The block of the limit then writes its own
    line and no line of the decrement, and leaves [counter_stat] as it was;
    with an empty slot in the table it goes on to [unset_file_counter] or
    [unset_ip_counter], which index the table at -1, and
    [vlimit_response_end] does not return. *)
Theorem uncounted_completion_skips_the_decrement (e : env) (r : request_rec)
    (cfg : vlimit_config) (w : world) (counter_stat : Z) :
  tables_consistent (shm_data w) ->
  (file_limit cfg > 0 -> get_file_slot_id (shm_data w) r = -1 ->
   get_file_counter (shm_data w) r <= 0 /\
   response_end_file e r cfg counter_stat w =
     (if get_file_empty_slot_id (shm_data w) r =? -1
      then Done counter_stat w
             (debug_out e "vlimit_response_end: " "type FILE: file_count--" [])
      else Fault OutOfBounds) /\
   (vhost_match r -> lock_status e = APR_SUCCESS ->
    get_file_empty_slot_id (shm_data w) r <> -1 ->
    vlimit_response_end e r cfg w = Fault OutOfBounds)) /\
  (ip_limit cfg > 0 -> get_ip_slot_id (shm_data w) r = -1 ->
   get_ip_counter (shm_data w) r <= 0 /\
   response_end_ip e r cfg counter_stat w =
     (if get_ip_empty_slot_id (shm_data w) r =? -1
      then Done counter_stat w
             (debug_out e "vlimit_response_end: " "type IP: ip_count--" [])
      else Fault OutOfBounds) /\
   (vhost_match r -> lock_status e = APR_SUCCESS ->
    get_ip_empty_slot_id (shm_data w) r <> -1 ->
    vlimit_response_end e r cfg w = Fault OutOfBounds)).
Proof.
  intros Hcons. split; intros Hlim Hmiss.
  - pose proof (get_file_counter_uncounted _ r Hcons Hmiss) as Hread.
    split; [|split].
    + rewrite Hread. destruct (get_file_empty_slot_id (shm_data w) r =? -1); lia.
    + rewrite response_end_file_miss by assumption. rewrite Hread.
      destruct (get_file_empty_slot_id (shm_data w) r =? -1); reflexivity.
    + intros Hvh Hlock Hfree.
      replace (get_file_empty_slot_id (shm_data w) r =? -1) with false in Hread
        by lia.
      assert (Hcase : (file_limit cfg > 0 /\ get_file_slot_id (shm_data w) r = -1 /\
                       get_file_counter (shm_data w) r = 0) \/
                      (ip_limit cfg > 0 /\ get_ip_slot_id (shm_data w) r = -1 /\
                       get_ip_counter (shm_data w) r = 0))
        by (left; split; [assumption|]; split; assumption).
      pose proof (vlimit_response_end_faults e r cfg w Hvh Hlock Hcase) as Hf.
      unfold runs in Hf.
      destruct (vlimit_response_end e r cfg w) as [rc w' out|f]; [destruct Hf|].
      now subst.
  - pose proof (get_ip_counter_uncounted _ r Hcons Hmiss) as Hread.
    split; [|split].
    + rewrite Hread. destruct (get_ip_empty_slot_id (shm_data w) r =? -1); lia.
    + rewrite response_end_ip_miss by assumption. rewrite Hread.
      destruct (get_ip_empty_slot_id (shm_data w) r =? -1); reflexivity.
    + intros Hvh Hlock Hfree.
      replace (get_ip_empty_slot_id (shm_data w) r =? -1) with false in Hread
        by lia.
      assert (Hcase : (file_limit cfg > 0 /\ get_file_slot_id (shm_data w) r = -1 /\
                       get_file_counter (shm_data w) r = 0) \/
                      (ip_limit cfg > 0 /\ get_ip_slot_id (shm_data w) r = -1 /\
                       get_ip_counter (shm_data w) r = 0))
        by (right; split; [assumption|]; split; assumption).
      pose proof (vlimit_response_end_faults e r cfg w Hvh Hlock Hcase) as Hf.
      unfold runs in Hf.
      destruct (vlimit_response_end e r cfg w) as [rc w' out|f]; [destruct Hf|].
      now subst.
Qed.

(** The completion of a sub-request that the admission declined, on the
    tables as [vlimit_init] leaves them. *)
Lemma uncounted_completion_skips_the_decrement_witness :
  get_file_counter (shm_data init_world) sub_request <= 0 /\
  vlimit_response_end plain_env sub_request (file_config 3) init_world =
    Fault OutOfBounds.
Proof.
  destruct (uncounted_completion_skips_the_decrement plain_env sub_request
              (file_config 3) init_world (-2) init_shm_consistent)
    as [Hfile _].
  destruct Hfile as (Hread & _ & Hrun).
  - cbn. lia.
  - vm_compute. reflexivity.
  - split; [exact Hread|]. apply Hrun.
    + left. vm_compute. reflexivity.
    + reflexivity.
    + vm_compute. discriminate.
Defined.

(** ** The real path of a path with links *)



Section Resolves.

Variable e : env.
Variable maxreslth : Z.












End Resolves.


Section PathScope.

Variable e : env.


End PathScope.

Lemma render_components comps : render (map PComp comps) = path_of comps.
Proof.
  induction comps as [|c comps IH]; [reflexivity|].
  cbn [map render part_chars path_of]. now rewrite IH.
Qed.






